(* ===== verification/_CoqProject ===== *)
-Q . S2P
Prelude.v
Murmur.v
StdString.v
StringUtils.v
StringTheory.v
ListItem.v
MemPool.v
Timeline.v
VM.v
Profiler.v
ProfilerTheory.v
Containers.v
SpinLock.v
Float32.v
FloatBounds.v
MathVec.v
MathTheory.v
MathUtils.v
MathUtilsTheory.v
TimeModel.v
Dates.v
Geometry.v
Compile.v
CompileTheory.v
Solids.v
SolidsTheory.v
Sphere.v
SphereTheory.v
Icosahedron.v
IcosahedronTheory.v
Icosphere.v
IcosphereTheory.v
RoundedBox.v
RoundedBoxTheory.v
Shapes.v
ShapesTheory.v
DeviceBuffer.v
DeviceBufferTheory.v
Paths.v
PathsTheory.v
UIManager.v
Theme.v
ThemeTheory.v
Toml.v
Layout.v
LayoutTheory.v
Shader.v
ShaderTheory.v
Colors.v
Logger.v
Candles.v
CandlesTheory.v
ProfilerTime.v
ProfilerSections.v
Viewer.v
ViewerTheory.v
