(* ===== verification/Prelude.v ===== *)
(** * A verification development for MUtils

    MUtils is a C++ utility library. This development models the parts of it
    that carry logic of their own, one file per component, and proves what
    makes each correct. A definition keeps the name of the function, method or
    type it models; file names below are relative to [src/]
    ([include/mutils/] for headers, [src/] for the [.cpp] files).

    ** The parts, and where they are modelled

    - [Murmur]: the Murmur hashes of string/string_utils.cpp
      ([murmur_hash], [murmur_hash_inverse], [murmur_hash_64]) on byte lists.
    - [StdString]: what the code uses of [std::string] and of the C locale.
      [StringUtils]: the functions of string/string_utils.{h,cpp} and
      [StringId]; [StringTheory]: their theorems.
    - [ListItem]: the intrusive doubly linked lists of thread/mempool.cpp, on a
      heap of items and pools with raw pointers. [MemPool]: [TSMemoryPool],
      [MemoryPool] and [PoolItem] of thread/mempool.h over those lists; the
      free items are kept in a queue behind the classes [ConcurrentQueue] and
      [ConcurrentQueueLaws], moodycamel::ConcurrentQueue being a library.
      [Timeline]: [TimeLineEvent] and [Timeline] of time/timeline.h, which
      allocate from a pool and keep its list in order.
    - [VM]: the virtual machine of vm/vm.h with the value type of its test.
    - [Profiler]: the recording half of time/profiler.cpp (threads, sections,
      frames, regions) as a state shared by all threads, and the computations
      of its viewer; [ProfilerTheory]: the invariant of the recording.
      [ProfilerTime] and [ProfilerSections]: what holds of the recorded times
      when the clock does not go back. [Candles]: [ShowCandles] of the same file,
      with [CandlesTheory]; [Viewer]: [ShowProfile], with [ViewerTheory].
    - [Containers]: algorithm/container_utils.h and algorithm/ringiterator.h.
    - [SpinLock]: [audio_spin_mutex] of thread/thread_utils.h as an
      interleaving of threads.
    - [Float32]: the scalars of the mathematics: IEEE floats as [spec_float]
      and machine integers, behind the classes [Scalar] and [ScalarOrder];
      [FloatBounds]: how large the result of an operation is. [MathVec]: math/math.h ([NVec2], [NVec3], [NVec4], [NRect], colours);
      [MathUtils]: math/math_utils.{h,cpp}; [MathTheory] and
      [MathUtilsTheory]: their theorems.
    - [TimeModel]: time/timer.h, callback/callback.cpp and
      time/time_provider.cpp: timers, ranges, the one-shot scheduler, and the
      beat counter with its thread. [Dates]: the dates of time/timer.cpp over the
      date library as a class.
    - [Geometry]: geometry/indexer.cpp and geometry/vertex_spacial_sort.cpp,
      over the vectors of GLM and [std::sort] as parameters; sorting distances
      that are not ordered and searching a vector that is not partitioned are
      undefined.
    - [Compile]: the parsers of compile/meta_tags.cpp and
      compile/compile_messages.cpp over the string utilities;
      [CompileTheory]: their theorems.
    - [Solids]: the mesh that the classes of geometry/ share; [Sphere],
      [Icosahedron], [Icosphere], [RoundedBox]: the classes of
      geometry/sphere.h, icosahedron.h, icosphere.h and rounded_box.h;
      [Shapes]: the [shape_create] functions of geometry/standard_shapes.cpp.
      Each has its theorems in a file of the same name with [Theory].
    - [DeviceBuffer]: device/IDeviceBuffer.h as a class with its promises
      ([IDeviceBuffer], [DeviceBufferLaws]), [GLBuffer] of gl/gl_buffer.cpp as
      its instance, and [shape_transfer] as its client;
      [DeviceBufferTheory]: the theorems.
    - [Paths]: file/file.cpp and file/runtree.cpp, a path being its string;
      [PathsTheory]: the theorems.
    - [UIManager]: ui/ui_manager.{h,cpp}. [Theme]: ui/theme.{h,cpp} and
      ui/style.h, with [ThemeTheory]. [Colors]: ui/colors.cpp and ui/dpi.cpp.
    - [Toml]: file/toml_utils.{h,cpp} and json/jsonutils.h.
    - [Layout]: ui/layout_manager.{h,cpp}, over [Toml] and [Paths];
      [LayoutTheory]: the theorems.
    - [Shader]: gl/gl_shader.cpp, over [Compile] and [Paths];
      [ShaderTheory]: the theorems.
    - [Logger]: logger/logger.h.

    The parts meet where one calls another: a timeline allocates events from a
    pool, a pool unlinks items from its list, the parsers split and trim with
    the string utilities, interned strings are hashed with Murmur, a profiler
    entry and the scheduler read a timer, the window of the profiler draws what
    the threads recorded, a shape is copied from a solid and
    transferred to device buffers, the colours of a theme are interned strings
    and values of the mathematics, the layouts are read and written with the
    TOML helpers, the log of a shader compiler is parsed by the parser of
    messages. The model follows these calls, and the theorems of the caller
    are proved from those of the callee.

    Libraries are classes of operations, with the laws that a theorem uses as a
    class or as its hypotheses: the queue of moodycamel, GLM, the C functions
    [cosf], [sinf] and [atanf], OpenGL ([GL], [GLShaders]; its calls may fail in
    the ways its documentation lists), the file system
    ([FileSystem]), the views of TOML and JSON values ([Toml], [Json]) and base
    64, and the dates ([DateLib]). The witnesses use concrete instances.

    ** How code is modelled

    A w-bit integer is a [Z] kept in range by [wrap] or [swrap]; where signed
    arithmetic may overflow the model checks and stops. Code that can stop
    without a value returns [result stop]: an exception of the standard
    library, undefined behaviour (a read outside a buffer, a null pointer, an
    overflow), a failed assertion, or fuel that ran out. Stateful code is in
    the monad [ST]. Assertions are evaluated when the parameter [NDEBUG] is
    [false]. A clock reading is an argument. Threads are step relations
    ([SpinLock], [TimeModel]) or arbitrary sequences of calls by threads
    ([Profiler], [MemPool]).

    Fuel is given to loops that are not structural: the length of the text
    (splitting and replacing consume a character each round), the number of
    cells of the heap (walking a list that is not cyclic), the number of
    instructions (straight-line code), the numbers of frames, of entries of a
    thread, of regions and of pixels (the viewer, its walks and its candles), 52
    rounds of a loop over floats (the torus has at most 50 sides), one more than
    the number of directories (the walk over the disk), 2 (clearing the messages
    of a file).
    Theorems about such loops say that this fuel is enough, or that no fuel
    is where the code does not end.

    ** What is proved

    - Hashes: the inverse hash inverts; no collision on eight-byte keys; the
      reads are exactly the bytes of the key.
    - Strings: splitting, replacing, trimming, URL encoding and scanning a
      buffer agree with reference definitions and stay in bounds; joining and
      splitting are inverse; interned strings keep their table sound.
    - Lists, pools, timelines: the pointer code refines operations on
      sequences; no item is handed out twice in any sequence of calls; a
      timeline is a stable priority queue, in order of time, and expiry and
      dequeuing affect exactly the events they should, as long as the times fit
      in 64 bits.
    - Virtual machine: straight-line code follows a reference semantics, the
      calling convention of native functions, the table of functions.
    - Profiler: no access out of bounds and no shared slot in any sequence of
      calls by any threads, from the first [Init] up to [Finish], except that
      [NewFrame] is called by threads that have a slot (debug build). With a
      clock that does not go back, the recorded frames follow each other,
      sections are nested, and the viewer draws every visible section that is
      not the last of its thread, without reading anything else; selecting,
      dragging and zooming are defined and keep the visible time inside the
      recorded time; the candles are in order.
    - Locks and threads: mutual exclusion and progress of the spin lock; the
      beat counts ticks in every interleaving; ending the thread ends it; the
      scheduler fires once.
    - Mathematics: orders, clamping, intersection of rectangles, bounding
      boxes, packed colours, alignment and Bezier end points, in IEEE single
      precision where the code uses [float].
    - Geometry: the index buffer is valid, a vertex is shared only with one that
      agrees in position, normal and texture coordinate, and those that agree are
      shared unless they are farthest from the plane.
    - Parsers: printing and parsing located errors is a round trip; no
      exception escapes; a tag is bound to the last line that has it.
    - Shapes: whatever the setters of the solids are called with, the meshes
      are well formed; the shapes made of them are exact copies, triangles of
      vertices that exist, with no access out of bounds; the float loops of the
      torus end.
    - Device buffers: chunks written one after the other stay where [Map] said,
      until the buffer starts over or OpenGL fails; transferring a shape is correct over every
      buffer that keeps the promises of the interface.
    - Shaders: exactly what is left in OpenGL when a program is loaded, on every
      outcome; messages lead to the line of the fragment they are about.
    - Files: a relative path leads to its target; the walk over directories ends
      and finds every file once whose path has no two dots in it.
    - User interface: clearing the messages of a file ends; a theme gives each
      colour the bits of a reference table; a layout that is saved and loaded restores the windows, also
      through its file; the default colours are different; what is logged.

    Theorems that show where the code does not do what it means to are kept
    beside the component they are about (for example
    [list_disconnect_range_at_root], [call_skips_instructions],
    [Find_misses_farthest], [SetBeat_lost], [load_program_leaks]).

    ** What is not modelled

    - Code that only calls other libraries: SDL, textures and frame
      buffers, the Chibi interpreter, the widgets of ui/imgui_extras.cpp, and the
      standard library's streams, random numbers and futures. Of Dear ImGui, what
      the window of the profiler asks is an argument, what it draws is a list,
      and calls that set widths and styles are left out.
    - The branches for Windows and the big-endian branches of the hashes, which
      are not compiled.
    - Memory order: the atomics are sequentially consistent, and calls that
      take a lock are atomic steps.
    - Vendored code under m3rdparty/.

    What is left out has no logic of its own that could be stated without the
    library it calls. *)

From stdpp Require Export base gmap sets list strings fin_maps.
From Stdlib Require Export ZArith Lia Ascii.
From Stdlib Require Import Btauto.

#[global] Open Scope Z_scope.

(** ** Notations *)

Declare Scope mutils_scope.
Delimit Scope mutils_scope with mutils.

(** A [std::string], and the characters of a NUL-terminated C string before
    its terminator. *)
Abbreviation str := (list ascii).

(** A string literal of the source. *)
Notation "'lit' s" := (String.list_ascii_of_string s)
  (at level 10, s constr at level 9) : mutils_scope.

Notation "a .^ b" := (Z.lxor a b) (at level 50, left associativity) : mutils_scope.
Notation "a .>> b" := (Z.shiftr a b) (at level 45, left associativity) : mutils_scope.
Notation "a .<< b" := (Z.shiftl a b) (at level 45, left associativity) : mutils_scope.
Notation "a .& b" := (Z.land a b) (at level 48, left associativity) : mutils_scope.
Notation "a .| b" := (Z.lor a b) (at level 50, left associativity) : mutils_scope.
#[global] Open Scope mutils_scope.

(** ** Machine integers

    An unsigned w-bit value is a [Z] kept in range by [wrap w]; a signed one
    by [swrap w] (two's complement). *)

Definition wrap (w z : Z) : Z := z mod 2 ^ w.
Definition swrap (w z : Z) : Z := (z + 2 ^ (w - 1)) mod 2 ^ w - 2 ^ (w - 1).
Definition in_u (w z : Z) : Prop := 0 <= z < 2 ^ w.
Definition in_s (w z : Z) : Prop := - 2 ^ (w - 1) <= z < 2 ^ (w - 1).

Abbreviation u8 := (wrap 8).
Abbreviation u32 := (wrap 32).
Abbreviation u64 := (wrap 64).
Abbreviation i32 := (swrap 32).
Abbreviation i64 := (swrap 64).

(** [std::string::npos], the largest [size_t]. *)
Definition npos : Z := 2 ^ 64 - 1.

(** The value of an [unsigned char]. *)
Definition uchar (c : ascii) : Z := Z.of_N (N_of_ascii c).

(** The [unsigned char] of a value in 0..255. *)
Definition of_uchar (z : Z) : ascii := ascii_of_N (Z.to_N z).

(** ** Results: a value, or the way the code stops without one *)

Inductive result (E A : Type) : Type :=
| Ok (a : A)
| Err (e : E).
Arguments Ok {E A} a.
Arguments Err {E A} e.

#[global] Instance result_ret E : MRet (result E) := fun A a => Ok a.
#[global] Instance result_bind E : MBind (result E) :=
  fun A B f m => match m with Ok a => f a | Err e => Err e end.
#[global] Instance result_fmap E : FMap (result E) :=
  fun A B f m => match m with Ok a => Ok (f a) | Err e => Err e end.

Definition is_ok {E A} (r : result E A) : bool :=
  match r with Ok _ => true | Err _ => false end.

(** An [option] read as a result. *)
Definition of_option {E A} (e : E) (o : option A) : result E A :=
  match o with Some a => Ok a | None => Err e end.

(** Exceptions of the standard library, and the other ways of not returning:
    undefined behaviour (a read outside a buffer, for example), an assertion
    that fails, and a loop that has not ended within its fuel. *)
Inductive exn : Type := out_of_range | invalid_argument | bad_variant_access | bad_function_call | length_error | filesystem_error | type_error | format_error | ios_failure.
Inductive stop : Type := Throw (e : exn) | UB | AssertFail | OutOfFuel.

(** The result of a signed operation: out of range is undefined behaviour. *)
Definition s_check (w z : Z) : result stop Z :=
  if (- 2 ^ (w - 1) <=? z) && (z <? 2 ^ (w - 1)) then Ok z else Err UB.

Lemma s_check_ok w z : in_s w z -> s_check w z = Ok z.
Proof. intros [??]. unfold s_check. by replace (_ && _) with true by lia. Qed.

Lemma s_check_64 z : - 2 ^ 63 <= z < 2 ^ 63 -> s_check 64 z = Ok z.
Proof. apply (s_check_ok 64). Qed.

(** Code that reads and writes a state of type [S] and may stop. *)
Definition ST (S A : Type) : Type := S -> result stop (A * S).

#[global] Instance ST_ret S : MRet (ST S) := fun A a s => Ok (a, s).
#[global] Instance ST_bind S : MBind (ST S) :=
  fun A B f m s => match m s with Ok (a, s) => f a s | Err e => Err e end.

Definition st_fail {S A} (e : stop) : ST S A := fun _ => Err e.
Definition st_get {S} : ST S S := fun s => Ok (s, s).
Definition st_put {S} (s : S) : ST S unit := fun _ => Ok (tt, s).

(** The value a pointer read needs: none is undefined behaviour. *)
Definition st_some {S A} (o : option A) : ST S A :=
  match o with Some a => mret a | None => st_fail UB end.

(** A computation that does not touch the state. *)
Definition st_lift {S A} (r : result stop A) : ST S A :=
  fun s => match r with Ok a => Ok (a, s) | Err e => Err e end.

(** [assert(c)]: evaluated only when [NDEBUG] is not defined. *)
Definition st_assert {S} (NDEBUG : bool) (c : ST S bool) : ST S unit :=
  if NDEBUG then mret tt
  else b ← c; if (b : bool) then mret tt else st_fail AssertFail.

Lemma st_bind_ok {S A B} (c : ST S A) (f : A -> ST S B) s a s' :
  c s = Ok (a, s') -> (c ≫= f) s = f a s'.
Proof. intros E. unfold mbind, ST_bind. by rewrite E. Qed.

Lemma st_ret_bind {S A B} (a : A) (f : A -> ST S B) s : (mret a ≫= f) s = f a s.
Proof. done. Qed.

Lemma st_bind_assoc {S A B C} (c : ST S A) (f : A -> ST S B) (g : B -> ST S C) s :
  ((c ≫= f) ≫= g) s = (c ≫= (fun a => f a ≫= g)) s.
Proof. unfold mbind, ST_bind. by destruct (c s) as [[]|]. Qed.

Lemma st_bind_err {S A B} (c : ST S A) (f : A -> ST S B) s e :
  c s = Err e -> (c ≫= f) s = Err e.
Proof. intros E. unfold mbind, ST_bind. by rewrite E. Qed.

Lemma st_lift_ok {S A B} (r : result stop A) a (f : A -> ST S B) s : r = Ok a -> (st_lift r ≫= f) s = f a s.
Proof. by intros ->. Qed.

Lemma st_assert_ok {S} NDEBUG (c : ST S bool) s :
  (NDEBUG = false -> c s = Ok (true, s)) -> st_assert NDEBUG c s = Ok (tt, s).
Proof.
  intros E. unfold st_assert. destruct NDEBUG; [done|]. by rewrite (st_bind_ok _ _ _ _ _ (E eq_refl)).
Qed.

Lemma st_assert_release {S} (c : ST S bool) : st_assert true c = mret tt.
Proof. done. Qed.

(** ** Integer lemmas *)

Create HintDb mutils.

Lemma wrap_range w z : 0 <= w -> in_u w (wrap w z).
Proof. intros. apply Z.mod_pos_bound. lia. Qed.

Lemma wrap_small w z : in_u w z -> wrap w z = z.
Proof. intros. by apply Z.mod_small. Qed.

Lemma wrap_wrap w z : 0 <= w -> wrap w (wrap w z) = wrap w z.
Proof. intros. by apply wrap_small, wrap_range. Qed.

Lemma wrap_mul_l w a b : 0 <= w -> wrap w (wrap w a * b) = wrap w (a * b).
Proof. intros. apply Z.mul_mod_idemp_l. lia. Qed.

Lemma wrap_mul_r w a b : 0 <= w -> wrap w (a * wrap w b) = wrap w (a * b).
Proof. intros. apply Z.mul_mod_idemp_r. lia. Qed.

(** *** Bits *)

Lemma testbit_wrap w z i :
  0 <= w -> Z.testbit (wrap w z) i = (i <? w) && Z.testbit z i.
Proof. intros. unfold wrap. by rewrite Z.testbit_mod_pow2. Qed.

Lemma testbit_out w z i : in_u w z -> w <= i -> Z.testbit z i = false.
Proof.
  intros Hz Hi. destruct (decide (0 <= w)).
  - rewrite <- (wrap_small w z) by done. rewrite testbit_wrap by done.
    by replace (i <? w) with false by lia.
  - unfold in_u in Hz. rewrite Z.pow_neg_r in Hz by lia. lia.
Qed.

Lemma in_u_testbit w z :
  0 <= w -> 0 <= z -> (forall i, w <= i -> Z.testbit z i = false) -> in_u w z.
Proof.
  intros Hw Hz Hb. enough (z = wrap w z) as -> by by apply wrap_range.
  apply Z.bits_inj'. intros i Hi. rewrite testbit_wrap by done.
  destruct (Z.ltb_spec i w); [done|]. by rewrite Hb.
Qed.

Lemma testbit_byte z i : Z.testbit (z .& 255) i = (i <? 8) && Z.testbit z i.
Proof.
  change 255 with (Z.ones 8). rewrite Z.land_ones by lia.
  exact (testbit_wrap 8 z i ltac:(lia)).
Qed.

Lemma byte_mod z : z .& 255 = wrap 8 z.
Proof. change 255 with (Z.ones 8). by rewrite Z.land_ones. Qed.

#[export] Hint Rewrite Z.lxor_spec Z.land_spec Z.lor_spec testbit_byte : zbits.
#[export] Hint Rewrite Z.shiftr_spec Z.shiftl_spec testbit_wrap using lia : zbits.

(** [zbits i]: an equation between integers, bit [i] by bit [i]. *)
Ltac zbits i := apply Z.bits_inj'; intros i ?; autorewrite with zbits.

(** Replace a bit that is outside its operand's range by [false]. *)
Ltac zbit_out z w := rewrite (testbit_out w z) by (unfold in_u in *; lia).

Lemma lxor_in_u w a b : 0 <= w -> in_u w a -> in_u w b -> in_u w (a .^ b).
Proof.
  intros Hw Ha Hb. apply in_u_testbit; [done| |].
  - apply Z.lxor_nonneg. unfold in_u in *. lia.
  - intros i Hi. rewrite Z.lxor_spec. by rewrite !(testbit_out w).
Qed.

Lemma lxor_cancel_r a b : (a .^ b) .^ b = a.
Proof. by rewrite Z.lxor_assoc, Z.lxor_nilpotent, Z.lxor_0_r. Qed.

Lemma lxor_cancel_l a b : a .^ (a .^ b) = b.
Proof. by rewrite <- Z.lxor_assoc, Z.lxor_nilpotent, Z.lxor_0_l. Qed.

Lemma shiftr_in_u w z n : 0 <= n -> in_u w z -> in_u w (z .>> n).
Proof.
  intros Hn Hz. unfold in_u in *. rewrite Z.shiftr_div_pow2 by done.
  pose proof (Z.pow_pos_nonneg 2 n ltac:(lia) Hn).
  split; [apply Z.div_pos; lia|]. apply Z.div_lt_upper_bound; nia.
Qed.

#[export] Hint Resolve wrap_range lxor_in_u shiftr_in_u : mutils.
#[export] Hint Extern 1 (_ <= _) => lia : mutils.

(** *** Characters as bytes *)

Lemma uchar_range c : in_u 8 (uchar c).
Proof. unfold uchar, in_u. pose proof (N_ascii_bounded c). lia. Qed.

Lemma uchar_of_uchar z : in_u 8 z -> uchar (of_uchar z) = z.
Proof.
  unfold uchar, of_uchar, in_u. intros. rewrite N_ascii_embedding by lia. lia.
Qed.

Lemma of_uchar_uchar c : of_uchar (uchar c) = c.
Proof. unfold uchar, of_uchar. rewrite N2Z.id. apply ascii_N_embedding. Qed.

Lemma uchar_inj c d : uchar c = uchar d -> c = d.
Proof. intros E. by rewrite <- (of_uchar_uchar c), E, of_uchar_uchar. Qed.

#[export] Hint Resolve uchar_range : mutils.

(** ** List lemmas *)

(** Induction on the length of a list. *)
Lemma list_len_ind {A} (P : list A -> Prop) :
  (forall l, (forall l', (length l' < length l)%nat -> P l') -> P l) -> forall l, P l.
Proof. intros H l. induction (Nat.lt_wf_0_projected length l) as [l _ IH]. auto. Qed.

(** Filtering by tests that agree on the list. *)
Lemma filter_agree {A} (P R : A -> Prop) `{!forall x, Decision (P x), !forall x, Decision (R x)} (l : list A) :
  (forall x, x ∈ l -> P x <-> R x) -> filter P l = filter R l.
Proof.
  induction l as [|x l IH]; intros E; [done|]. rewrite !filter_cons, IH by set_solver.
  specialize (E x ltac:(by left)). repeat case_decide; tauto || done.
Qed.

Lemma filter_all {A} (P : A -> Prop) `{!forall x, Decision (P x)} (l : list A) :
  (forall x, x ∈ l -> P x) -> filter P l = l.
Proof.
  induction l as [|x l IH]; intros E; [done|]. rewrite filter_cons_True, IH by set_solver. done.
Qed.

Lemma filter_none {A} (P : A -> Prop) `{!forall x, Decision (P x)} (l : list A) :
  (forall x, x ∈ l -> ~ P x) -> filter P l = [].
Proof.
  induction l as [|x l IH]; intros E; [done|]. rewrite filter_cons_False, IH by set_solver. done.
Qed.

(** ** Maps *)

(** A cell after [alter], as a function of the cell before. *)
Lemma lookup_alter_fmap {V} (f : V -> V) (m : gmap positive V) i j :
  alter f i m !! j = (fun v => if decide (i = j) then f v else v) <$> m !! j.
Proof.
  rewrite lookup_alter. destruct (decide (i = j)) as [->|]; [done|]. by destruct (m !! j).
Qed.
