(* ===== verification/Murmur.v ===== *)
(** * Murmur hashing

    The hash functions of src/string/string_utils.cpp (the copies in
    src/string/murmur_hash.cpp have the same text), on the little-endian
    build.  A buffer is the list of its bytes; a read outside it is [None].
    [murmur_hash] and [murmur_hash_64] are shown to be defined exactly when
    the buffer holds [len] bytes, [murmur_hash_inverse] to invert
    [murmur_hash] on four-byte keys, and [murmur_hash_64] to have no
    collision between eight-byte keys. *)

From S2P Require Import Prelude.

(** ** The code *)

Definition m32 : Z := 0x5bd1e995.
Definition minv32 : Z := 0xe59b19bd.
Definition r32 : Z := 24.

(** [*(unsigned int* )data] and [*(uint64_t* )data]. *)
Definition read_u32 (b0 b1 b2 b3 : ascii) : Z :=
  uchar b0 + (uchar b1 .<< 8) + (uchar b2 .<< 16) + (uchar b3 .<< 24).

Definition read_u64 (b0 b1 b2 b3 b4 b5 b6 b7 : ascii) : Z :=
  read_u32 b0 b1 b2 b3 + (read_u32 b4 b5 b6 b7 .<< 32).

(** The [while (len >= 4)] loop: the rest of the buffer, [len] and [h]. *)
Fixpoint murmur_loop (data : str) (len h : Z) : option (str * Z * Z) :=
  if 4 <=? len then
    match data with
    | b0 :: b1 :: b2 :: b3 :: data' =>
        let k := read_u32 b0 b1 b2 b3 in
        let k := u32 (k * m32) in
        let k := k .^ (k .>> r32) in
        let k := u32 (k * m32) in
        let h := u32 (h * m32) in
        let h := h .^ k in
        murmur_loop data' (len - 4) h
    | _ => None
    end
  else Some (data, len, h).

(** The [switch (len)], each case falling through to the next. *)
Definition murmur_tail (data : str) (len h : Z) : option Z :=
  h ← (if len =? 3 then c ← data !! 2%nat; Some (h .^ (uchar c .<< 16))
       else Some h);
  h ← (if (len =? 3) || (len =? 2) then c ← data !! 1%nat; Some (h .^ (uchar c .<< 8))
       else Some h);
  (if (len =? 3) || (len =? 2) || (len =? 1)
   then c ← data !! 0%nat; Some (u32 ((h .^ uchar c) * m32))
   else Some h).

(** The final mixes. *)
Definition murmur_final (h : Z) : Z :=
  let h := h .^ (h .>> 13) in
  let h := u32 (h * m32) in
  h .^ (h .>> 15).

Definition murmur_hash (key : str) (len seed : Z) : option Z :=
  let h := seed .^ u32 len in
  '(data, len, h) ← murmur_loop key len h;
  h ← murmur_tail data len h;
  Some (murmur_final h).

(** Inverts a (h ^= h >> s) operation with 8 <= s <= 16. *)
Definition invert_shift_xor (hs s : Z) : Z :=
  let hs0 := hs .>> 24 in
  let hs1 := (hs .>> 16) .& 255 in
  let hs2 := (hs .>> 8) .& 255 in
  let hs3 := hs .& 255 in
  let h0 := hs0 in
  let h1 := hs1 .^ (h0 .>> (s - 8)) in
  let h2 := (hs2 .^ u32 (h0 .<< (16 - s)) .^ (h1 .>> (s - 8))) .& 255 in
  let h3 := (hs3 .^ u32 (h1 .<< (16 - s)) .^ (h2 .>> (s - 8))) .& 255 in
  u32 (u32 (h0 .<< 24) + u32 (h1 .<< 16) + u32 (h2 .<< 8) + h3).

Definition murmur_hash_inverse (h seed : Z) : Z :=
  let h := invert_shift_xor h 15 in
  let h := u32 (h * minv32) in
  let h := invert_shift_xor h 13 in
  let hforward := seed .^ 4 in
  let hforward := u32 (hforward * m32) in
  let k := hforward .^ h in
  let k := u32 (k * minv32) in
  let k := k .^ (k .>> r32) in
  u32 (k * minv32).

Definition m64 : Z := 0xc6a4a7935bd1e995.
Definition r64 : Z := 47.

Fixpoint murmur64_loop (n : nat) (data : str) (h : Z) : option (str * Z) :=
  match n with
  | O => Some (data, h)
  | S n =>
      match data with
      | b0 :: b1 :: b2 :: b3 :: b4 :: b5 :: b6 :: b7 :: data' =>
          let k := read_u64 b0 b1 b2 b3 b4 b5 b6 b7 in
          let k := u64 (k * m64) in
          let k := k .^ (k .>> r64) in
          let k := u64 (k * m64) in
          let h := h .^ k in
          let h := u64 (h * m64) in
          murmur64_loop n data' h
      | _ => None
      end
  end.

(** The cases [n], [n - 1], ..., 1 of the [switch (len & 7)]. *)
Fixpoint murmur64_tail (n : nat) (data2 : str) (h : Z) : option Z :=
  match n with
  | O => Some h
  | S i =>
      c ← data2 !! i;
      murmur64_tail i data2 (h .^ (uchar c .<< (8 * Z.of_nat i)))
  end.

Definition murmur64_final (h : Z) : Z :=
  let h := h .^ (h .>> r64) in
  let h := u64 (h * m64) in
  h .^ (h .>> r64).

Definition murmur_hash_64 (key : str) (len seed : Z) : option Z :=
  let h := seed .^ u64 (len * m64) in
  '(data2, h) ← murmur64_loop (Z.to_nat (len / 8)) key h;
  let n := len .& 7 in
  h ← murmur64_tail (Z.to_nat n) data2 h;
  let h := if n =? 0 then h else u64 (h * m64) in
  Some (murmur64_final h).

(** The bytes of an integer, as the little-endian machine stores it. *)
Fixpoint le_bytes (n : nat) (z : Z) : str :=
  match n with
  | O => []
  | S n => of_uchar (z mod 256) :: le_bytes n (z / 256)
  end.

(** ** Mixing steps are bijections *)

Lemma read_u32_range b0 b1 b2 b3 : in_u 32 (read_u32 b0 b1 b2 b3).
Proof.
  unfold read_u32, in_u. rewrite !Z.shiftl_mul_pow2 by lia.
  pose proof (uchar_range b0). pose proof (uchar_range b1).
  pose proof (uchar_range b2). pose proof (uchar_range b3).
  unfold in_u in *. lia.
Qed.

Lemma read_u64_range b0 b1 b2 b3 b4 b5 b6 b7 :
  in_u 64 (read_u64 b0 b1 b2 b3 b4 b5 b6 b7).
Proof.
  unfold read_u64, in_u. rewrite !Z.shiftl_mul_pow2 by lia.
  pose proof (read_u32_range b0 b1 b2 b3). pose proof (read_u32_range b4 b5 b6 b7).
  unfold in_u in *. lia.
Qed.

#[export] Hint Resolve read_u32_range read_u64_range : mutils.

Lemma mul_inverse w a b x :
  0 <= w -> wrap w (a * b) = 1 -> in_u w x -> wrap w (wrap w (x * a) * b) = x.
Proof.
  intros Hw Hab Hx. rewrite wrap_mul_l, <- Z.mul_assoc, <- wrap_mul_r by done.
  rewrite Hab, Z.mul_1_r. by apply wrap_small.
Qed.

Lemma shift_xor_involutive w s k :
  0 <= s -> w <= 2 * s -> in_u w k ->
  (k .^ (k .>> s)) .^ ((k .^ (k .>> s)) .>> s) = k.
Proof.
  intros Hs Hw Hk. zbits i. rewrite (testbit_out w k (i + s + s)) by (done || lia).
  by destruct (Z.testbit k i), (Z.testbit k (i + s)).
Qed.

(** The byte of [z] that starts at bit [n]. *)
Definition byte_at (z n : Z) : Z := (z .>> n) .& 255.

Lemma testbit_byte_at z n i :
  0 <= n -> 0 <= i -> Z.testbit (byte_at z n) i = (i <? 8) && Z.testbit z (i + n).
Proof. intros. unfold byte_at. by autorewrite with zbits. Qed.

Lemma byte_at_range z n : in_u 8 (byte_at z n).
Proof. unfold byte_at. rewrite byte_mod. by apply wrap_range. Qed.

(** A 32-bit word is the sum of its shifted bytes, and a sum of shifted
    bytes has these bytes. *)
Definition word_of_bytes (a b c d : Z) : Z :=
  u32 (u32 (a .<< 24) + u32 (b .<< 16) + u32 (c .<< 8) + d).

Lemma word_of_bytes_sum a b c d :
  in_u 8 a -> in_u 8 b -> in_u 8 c -> in_u 8 d ->
  word_of_bytes a b c d = a * 2 ^ 24 + b * 2 ^ 16 + c * 2 ^ 8 + d.
Proof.
  unfold word_of_bytes, in_u. intros. rewrite !Z.shiftl_mul_pow2 by lia.
  rewrite !wrap_small; unfold in_u; try lia.
  all: rewrite !wrap_small; unfold in_u; lia.
Qed.

Lemma word_of_bytes_id h :
  in_u 32 h ->
  word_of_bytes (byte_at h 24) (byte_at h 16) (byte_at h 8) (byte_at h 0) = h.
Proof.
  intros Hh. rewrite word_of_bytes_sum by apply byte_at_range.
  unfold byte_at, in_u in *. rewrite !byte_mod. unfold wrap.
  rewrite !Z.shiftr_div_pow2, Z.pow_0_r, Z.div_1_r by lia.
  Z.to_euclidean_division_equations. lia.
Qed.

Lemma byte_at_word_of_bytes a b c d :
  in_u 8 a -> in_u 8 b -> in_u 8 c -> in_u 8 d ->
  let h := word_of_bytes a b c d in
  byte_at h 24 = a /\ byte_at h 16 = b /\ byte_at h 8 = c /\ byte_at h 0 = d.
Proof.
  intros Ha Hb Hc Hd h. subst h. rewrite word_of_bytes_sum by done.
  unfold byte_at, in_u in *. rewrite !byte_mod. unfold wrap.
  rewrite !Z.shiftr_div_pow2, Z.pow_0_r, Z.div_1_r by lia.
  Z.to_euclidean_division_equations. lia.
Qed.

Lemma bytes_inj h h' :
  in_u 32 h -> in_u 32 h' ->
  byte_at h 24 = byte_at h' 24 -> byte_at h 16 = byte_at h' 16 ->
  byte_at h 8 = byte_at h' 8 -> byte_at h 0 = byte_at h' 0 -> h = h'.
Proof.
  intros Hh Hh' E3 E2 E1 E0. rewrite <- (word_of_bytes_id h), <- (word_of_bytes_id h') by done.
  congruence.
Qed.

Lemma byte_at_lxor a b n : byte_at (a .^ b) n = byte_at a n .^ byte_at b n.
Proof.
  unfold byte_at. zbits i. by destruct (i <? 8).
Qed.

Lemma byte_at_out h n : in_u 32 h -> 32 <= n -> byte_at h n = 0.
Proof.
  intros Hh Hn. apply Z.bits_inj'. intros i Hi. rewrite testbit_byte_at, Z.bits_0 by lia.
  rewrite (testbit_out 32 h) by (done || lia). by rewrite andb_false_r.
Qed.

(** Each byte of [h >> s] is made of the two bytes above it. *)
Lemma byte_at_shiftr h s n :
  8 <= s <= 16 -> 0 <= n ->
  byte_at (h .>> s) n =
  ((byte_at h (n + 16) .<< (16 - s)) .& 255) .^ (byte_at h (n + 8) .>> (s - 8)).
Proof.
  intros Hs Hn. zbits i. rewrite (testbit_byte_at h (n + 8)), testbit_byte_at by lia.
  rewrite Z.shiftr_spec by lia. replace (i + (s - 8) + (n + 8)) with (i + n + s) by lia.
  destruct (Z.leb_spec (16 - s) i) as [Hj|Hj].
  - rewrite testbit_byte_at by lia. replace (i - (16 - s) + (n + 16)) with (i + n + s) by lia.
    replace (i + (s - 8) <? 8) with false by lia.
    destruct (Z.ltb_spec i 8); cbn [andb]; rewrite xorb_false_r; [|done].
    by replace (i - (16 - s) <? 8) with true by lia.
  - rewrite (Z.testbit_neg_r _ (i - _)) by lia.
    replace (i <? 8) with true by lia. by replace (i + (s - 8) <? 8) with true by lia.
Qed.

(** The four bytes of [h ^ (h >> s)]. *)
Lemma shift_xor_bytes h s :
  in_u 32 h -> 8 <= s <= 16 ->
  let hs := h .^ (h .>> s) in
  byte_at hs 24 = byte_at h 24 /\
  byte_at hs 16 = byte_at h 16 .^ (byte_at h 24 .>> (s - 8)) /\
  byte_at hs 8 = byte_at h 8 .^
    (((byte_at h 24 .<< (16 - s)) .& 255) .^ (byte_at h 16 .>> (s - 8))) /\
  byte_at hs 0 = byte_at h 0 .^
    (((byte_at h 16 .<< (16 - s)) .& 255) .^ (byte_at h 8 .>> (s - 8))).
Proof.
  intros Hh Hs hs. subst hs. rewrite !byte_at_lxor, !byte_at_shiftr by lia.
  rewrite (byte_at_out h (24 + 16)), (byte_at_out h (24 + 8)),
    (byte_at_out h (16 + 16)) by (done || lia).
  rewrite !Z.shiftl_0_l, !Z.shiftr_0_l, !Z.land_0_l, !Z.lxor_0_l, Z.lxor_0_r.
  by repeat split.
Qed.

Lemma mask_range z : in_u 8 (z .& 255).
Proof. rewrite byte_mod. by apply wrap_range. Qed.

Lemma mask_xor a b c :
  in_u 8 a -> in_u 8 c -> (a .^ u32 b .^ c) .& 255 = a .^ ((b .& 255) .^ c).
Proof.
  intros Ha Hc. zbits i. destruct (Z.ltb_spec i 8) as [Hi|Hi].
  - replace (i <? 32) with true by lia. by rewrite xorb_assoc.
  - by rewrite (testbit_out 8 a), (testbit_out 8 c) by done.
Qed.

Lemma byte_at_top h : in_u 32 h -> h .>> 24 = byte_at h 24.
Proof.
  intros Hh. unfold byte_at. rewrite byte_mod, wrap_small; [done|].
  unfold in_u in *. rewrite Z.shiftr_div_pow2 by lia.
  Z.to_euclidean_division_equations. lia.
Qed.

#[local] Hint Resolve byte_at_range mask_range : mutils.

(** [invert_shift_xor] in terms of the bytes of its argument. *)
Lemma invert_shift_xor_bytes hs s :
  in_u 32 hs -> 8 <= s <= 16 ->
  let h0 := byte_at hs 24 in
  let h1 := byte_at hs 16 .^ (h0 .>> (s - 8)) in
  let h2 := byte_at hs 8 .^ (((h0 .<< (16 - s)) .& 255) .^ (h1 .>> (s - 8))) in
  let h3 := byte_at hs 0 .^ (((h1 .<< (16 - s)) .& 255) .^ (h2 .>> (s - 8))) in
  invert_shift_xor hs s = word_of_bytes h0 h1 h2 h3 /\
  in_u 8 h0 /\ in_u 8 h1 /\ in_u 8 h2 /\ in_u 8 h3.
Proof.
  intros Hh Hs h0 h1 h2 h3. assert (0 <= s - 8) by lia.
  assert (B0 : in_u 8 h0) by apply byte_at_range.
  assert (B1 : in_u 8 h1) by (unfold h1; auto with mutils).
  assert (B2 : in_u 8 h2) by (unfold h2; auto 6 with mutils).
  assert (B3 : in_u 8 h3) by (unfold h3; auto 6 with mutils).
  split; [|done]. unfold invert_shift_xor. rewrite byte_at_top by done.
  fold (byte_at hs 16) (byte_at hs 8). fold h0. fold h1.
  replace (hs .& 255) with (byte_at hs 0) by (unfold byte_at; by rewrite Z.shiftr_0_r).
  cbv zeta. rewrite !mask_xor by auto with mutils. done.
Qed.

Lemma invert_shift_xor_range hs s : in_u 32 (invert_shift_xor hs s).
Proof. by apply wrap_range. Qed.

Lemma invert_shift_xor_left h s :
  in_u 32 h -> 8 <= s <= 16 -> invert_shift_xor (h .^ (h .>> s)) s = h.
Proof.
  intros Hh Hs.
  assert (Hx : in_u 32 (h .^ (h .>> s))) by (assert (0 <= s) by lia; auto with mutils).
  destruct (shift_xor_bytes h s) as (E3 & E2 & E1 & E0); [done..|].
  destruct (invert_shift_xor_bytes _ s Hx Hs) as [-> _].
  rewrite E0, E1, E2, E3, !lxor_cancel_r. by apply word_of_bytes_id.
Qed.

Lemma invert_shift_xor_right hs s :
  in_u 32 hs -> 8 <= s <= 16 ->
  let h := invert_shift_xor hs s in h .^ (h .>> s) = hs.
Proof.
  intros Hh Hs h. pose proof (invert_shift_xor_range hs s) as Hr. fold h in Hr.
  destruct (shift_xor_bytes h s) as (E3 & E2 & E1 & E0); [done..|].
  destruct (invert_shift_xor_bytes hs s Hh Hs) as (E & B0 & B1 & B2 & B3).
  fold h in E.
  pose proof (byte_at_word_of_bytes _ _ _ _ B0 B1 B2 B3) as F. rewrite <- E in F.
  destruct F as (F3 & F2 & F1 & F0).
  assert (0 <= s) by lia. apply bytes_inj; [by auto with mutils|done|..].
  - by rewrite E3.
  - by rewrite E2, F3, F2, lxor_cancel_r.
  - by rewrite E1, F1, F2, F3, lxor_cancel_r.
  - by rewrite E0, F0, F1, F2, lxor_cancel_r.
Qed.

(** ** Four-byte keys: [murmur_hash_inverse] *)

Lemma le_bytes_4 k :
  in_u 32 k -> exists b0 b1 b2 b3,
    le_bytes 4 k = [b0; b1; b2; b3] /\ read_u32 b0 b1 b2 b3 = k.
Proof.
  intros Hk. unfold in_u in Hk. cbn [le_bytes]. do 4 eexists. split; [done|].
  unfold read_u32. rewrite !Z.shiftl_mul_pow2 by lia.
  rewrite !uchar_of_uchar by (apply Z.mod_pos_bound; lia).
  Z.to_euclidean_division_equations. lia.
Qed.

Lemma mul_m32_minv32 x : in_u 32 x -> u32 (u32 (x * m32) * minv32) = x.
Proof. intros. by apply mul_inverse. Qed.

Lemma mul_minv32_m32 x : in_u 32 x -> u32 (u32 (x * minv32) * m32) = x.
Proof. intros. by apply mul_inverse. Qed.

(** What one pass of the loop makes of a word. *)
Definition murmur_mix (k : Z) : Z :=
  let k := u32 (k * m32) in
  let k := k .^ (k .>> r32) in
  u32 (k * m32).

Definition murmur_unmix (k : Z) : Z :=
  let k := u32 (k * minv32) in
  let k := k .^ (k .>> r32) in
  u32 (k * minv32).

Lemma murmur_unmix_mix k : in_u 32 k -> murmur_unmix (murmur_mix k) = k.
Proof.
  intros Hk. unfold murmur_unmix, murmur_mix, r32.
  rewrite mul_m32_minv32, (shift_xor_involutive 32) by auto with mutils.
  by apply mul_m32_minv32.
Qed.

Lemma murmur_mix_unmix k : in_u 32 k -> murmur_mix (murmur_unmix k) = k.
Proof.
  intros Hk. unfold murmur_unmix, murmur_mix, r32.
  rewrite mul_minv32_m32, (shift_xor_involutive 32) by auto with mutils.
  by apply mul_minv32_m32.
Qed.

Definition murmur_unfinal (h : Z) : Z :=
  let h := invert_shift_xor h 15 in
  let h := u32 (h * minv32) in
  invert_shift_xor h 13.

Lemma murmur_final_range h : in_u 32 (murmur_final h).
Proof. unfold murmur_final. auto with mutils. Qed.

Lemma murmur_unfinal_final h : in_u 32 h -> murmur_unfinal (murmur_final h) = h.
Proof.
  intros Hh. unfold murmur_unfinal, murmur_final.
  rewrite invert_shift_xor_left, mul_m32_minv32 by auto with mutils.
  by apply invert_shift_xor_left.
Qed.

Lemma murmur_final_unfinal h : in_u 32 h -> murmur_final (murmur_unfinal h) = h.
Proof.
  intros Hh. unfold murmur_unfinal, murmur_final.
  rewrite invert_shift_xor_right by auto with mutils.
  rewrite mul_minv32_m32 by apply invert_shift_xor_range.
  by apply invert_shift_xor_right.
Qed.

Lemma murmur_mix_range k : in_u 32 (murmur_mix k).
Proof. unfold murmur_mix. apply wrap_range. lia. Qed.

Lemma murmur_unfinal_range h : in_u 32 (murmur_unfinal h).
Proof. unfold murmur_unfinal. apply invert_shift_xor_range. Qed.

#[local] Hint Resolve murmur_mix_range murmur_unfinal_range : mutils.

Lemma murmur_hash_4 k seed :
  in_u 32 k ->
  murmur_hash (le_bytes 4 k) 4 seed =
  Some (murmur_final (u32 ((seed .^ 4) * m32) .^ murmur_mix k)).
Proof. intros Hk. destruct (le_bytes_4 k Hk) as (b0 & b1 & b2 & b3 & -> & <-). done. Qed.

Lemma murmur_hash_inverse_eq h seed :
  murmur_hash_inverse h seed =
  murmur_unmix (u32 ((seed .^ 4) * m32) .^ murmur_unfinal h).
Proof. unfold murmur_hash_inverse, murmur_unmix, murmur_unfinal. reflexivity. Qed.

(** C1. On four-byte keys [murmur_hash] and [murmur_hash_inverse] are inverse
    to each other for every seed: the key stored as the word [k] hashes to
    [h] exactly when [murmur_hash_inverse] finds [k] from [h]. *)
Theorem murmur_hash_inverse_correct k h seed :
  in_u 32 k -> in_u 32 h -> in_u 32 seed ->
  murmur_hash (le_bytes 4 k) 4 seed = Some h <-> murmur_hash_inverse h seed = k.
Proof.
  intros Hk Hh Hs. rewrite murmur_hash_4, murmur_hash_inverse_eq by done.
  set (f := u32 ((seed .^ 4) * m32)).
  assert (Hf : in_u 32 f) by by apply wrap_range.
  split.
  - intros [= <-]. rewrite murmur_unfinal_final, lxor_cancel_l by auto with mutils.
    by apply murmur_unmix_mix.
  - intros <-. rewrite murmur_mix_unmix, lxor_cancel_l by auto with mutils.
    f_equal. by apply murmur_final_unfinal.
Qed.

Lemma murmur_hash_inverse_correct_witness :
  in_u 32 0x12345678 /\ in_u 32 3751865514 /\ in_u 32 7 /\
  (murmur_hash (le_bytes 4 0x12345678) 4 7 = Some 3751865514 <->
   murmur_hash_inverse 3751865514 7 = 0x12345678).
Proof.
  do 3 (split; [by vm_compute|]).
  apply (murmur_hash_inverse_correct 0x12345678 3751865514 7); by vm_compute.
Defined.

(** ** Definedness and range *)

(** The loop stops with fewer than four bytes to hash, and it read out of the
    buffer only if the buffer is shorter than [len]. *)
Lemma murmur_loop_spec data len h :
  in_u 32 h ->
  match murmur_loop data len h with
  | Some (data', len', h') =>
      in_u 32 h' /\ len' < 4 /\ (0 <= len -> 0 <= len') /\
      len - len' = Z.of_nat (length data) - Z.of_nat (length data')
  | None => Z.of_nat (length data) < len
  end.
Proof.
  revert len h. induction data as [data IH] using list_len_ind. intros len h Hh.
  destruct data as [|b0 [|b1 [|b2 [|b3 data]]]]; cbn [murmur_loop];
    destruct (Z.leb_spec 4 len); cbn [length];
    try (lia || (split; [done|]; lia)).
  match goal with |- context [murmur_loop data ?l ?h'] =>
    specialize (IH data ltac:(cbn; lia) l h'); destruct (murmur_loop data l h') as [[[data' len'] h'']|] end.
  - destruct IH as (? & ? & ? & ?); [by auto with mutils|].
    split; [done|]. lia.
  - specialize (IH ltac:(auto with mutils)). lia.
Qed.

Lemma shiftl_in_u w v n z :
  0 <= w -> 0 <= n -> v + n <= w -> in_u v z -> in_u w (z .<< n).
Proof.
  intros Hw Hn Hv Hz. unfold in_u in *.
  assert (0 <= v). { destruct (decide (0 <= v)); [done|]. rewrite Z.pow_neg_r in Hz; lia. }
  rewrite Z.shiftl_mul_pow2 by done.
  pose proof (Z.pow_le_mono_r 2 (v + n) w ltac:(lia) Hv). rewrite Z.pow_add_r in * by done. nia.
Qed.

Lemma uchar_shiftl_in_u w c n : 0 <= n -> 8 + n <= w -> in_u w (uchar c .<< n).
Proof. intros. apply (shiftl_in_u w 8); [lia..|apply uchar_range]. Qed.

Lemma uchar_in_u w c : 8 <= w -> in_u w (uchar c).
Proof. intros. rewrite <- (Z.shiftl_0_r (uchar c)). apply uchar_shiftl_in_u; lia. Qed.

#[local] Hint Resolve uchar_shiftl_in_u uchar_in_u : mutils.

Lemma murmur_tail_spec data len h :
  in_u 32 h -> len < 4 ->
  match murmur_tail data len h with
  | Some h' => in_u 32 h' /\ (0 <= len -> len <= Z.of_nat (length data))
  | None => Z.of_nat (length data) < len
  end.
Proof.
  intros Hh Hlen. unfold murmur_tail.
  destruct (Z.eqb_spec len 3), (Z.eqb_spec len 2), (Z.eqb_spec len 1); try lia;
    destruct data as [|c0 [|c1 [|c2 data]]]; cbn; try lia; (split; [|lia]); auto with mutils.
Qed.

Lemma murmur_hash_is_Some key len seed :
  0 <= len -> in_u 32 seed ->
  is_Some (murmur_hash key len seed) <-> len <= Z.of_nat (length key).
Proof.
  intros Hlen Hs. unfold murmur_hash.
  pose proof (murmur_loop_spec key len (seed .^ u32 len) ltac:(auto with mutils)) as Hl.
  destruct (murmur_loop key len _) as [[[data' len'] h']|]; cbn; [|split; [by intros [? ?]|lia]].
  destruct Hl as (Hh & H4 & H0 & Hd).
  pose proof (murmur_tail_spec data' len' h' Hh H4) as Ht.
  destruct (murmur_tail data' len' h') as [h''|]; cbn; split.
  - intros _. destruct Ht. lia.
  - intros _. by eexists.
  - by intros [? ?].
  - lia.
Qed.

Lemma murmur_hash_range key len seed h : murmur_hash key len seed = Some h -> in_u 32 h.
Proof.
  unfold murmur_hash. destruct (murmur_loop _ _ _) as [[[? ?] ?]|]; [|done].
  cbn. destruct (murmur_tail _ _ _); [|done]. intros [= <-]. apply murmur_final_range.
Qed.

(** [murmur_hash] reads exactly [len] bytes: it stays inside the buffer
    exactly when the buffer holds [len] bytes, and then its value is an
    unsigned 32-bit integer. *)
Theorem murmur_hash_defined key len seed :
  0 <= len -> in_u 32 seed ->
  (is_Some (murmur_hash key len seed) <-> len <= Z.of_nat (length key)) /\
  (forall h, murmur_hash key len seed = Some h -> in_u 32 h).
Proof. intros. split; [by apply murmur_hash_is_Some|apply murmur_hash_range]. Qed.

Lemma murmur_hash_defined_witness :
  0 <= 6 /\ in_u 32 0 /\ is_Some (murmur_hash (lit "murmur") 6 0).
Proof.
  split; [lia|]. split; [by vm_compute|].
  apply (murmur_hash_defined (lit "murmur") 6 0); [lia|by vm_compute|by vm_compute].
Defined.

Lemma murmur64_loop_spec n data h :
  in_u 64 h ->
  match murmur64_loop n data h with
  | Some (data', h') =>
      in_u 64 h' /\ length data = (8 * n + length data')%nat
  | None => (length data < 8 * n)%nat
  end.
Proof.
  revert data h. induction n as [|n IH]; intros data h Hh; [done|].
  destruct data as [|b0 [|b1 [|b2 [|b3 [|b4 [|b5 [|b6 [|b7 data]]]]]]]];
    cbn [murmur64_loop length]; try lia.
  match goal with |- context [murmur64_loop n data ?h'] =>
    specialize (IH data h' ltac:(auto with mutils));
    destruct (murmur64_loop n data h') as [[data' h'']|] end.
  - destruct IH. split; [done|lia].
  - lia.
Qed.

Lemma murmur64_tail_spec n data h :
  in_u 64 h -> (n <= 7)%nat ->
  match murmur64_tail n data h with
  | Some h' => in_u 64 h' /\ (n <= length data)%nat
  | None => (length data < n)%nat
  end.
Proof.
  revert h. induction n as [|n IH]; intros h Hh Hn; [cbn; split; [done|lia]|].
  cbn [murmur64_tail]. destruct (data !! n) as [c|] eqn:Hc; cbn [mbind option_bind].
  - apply lookup_lt_Some in Hc.
    specialize (IH (h .^ (uchar c .<< (8 * Z.of_nat n))) ltac:(auto with mutils) ltac:(lia)).
    destruct (murmur64_tail n data _); [destruct IH; split; [done|lia]|lia].
  - apply lookup_ge_None in Hc. lia.
Qed.

(** [murmur_hash_64] reads exactly [len] bytes (a [uint32_t]): it stays
    inside the buffer exactly when the buffer holds [len] bytes, and then its
    value is an unsigned 64-bit integer. *)
Theorem murmur_hash_64_defined key len seed :
  in_u 32 len -> in_u 64 seed ->
  (is_Some (murmur_hash_64 key len seed) <-> len <= Z.of_nat (length key)) /\
  (forall h, murmur_hash_64 key len seed = Some h -> in_u 64 h).
Proof.
  intros Hlen Hs. unfold murmur_hash_64.
  assert (H7 : len .& 7 = len mod 8) by (change 7 with (Z.ones 3); by rewrite Z.land_ones).
  rewrite H7. assert (Hd : 0 <= len / 8 /\ 0 <= len mod 8 < 8 /\ len = 8 * (len / 8) + len mod 8).
  { unfold in_u in Hlen. Z.to_euclidean_division_equations. lia. }
  pose proof (murmur64_loop_spec (Z.to_nat (len / 8)) key (seed .^ u64 (len * m64))
    ltac:(auto with mutils)) as Hl.
  destruct (murmur64_loop _ key _) as [[data2 h]|]; cbn.
  2:{ split; [|done]. split; [by intros [? ?]|lia]. }
  destruct Hl as [Hh Hl].
  pose proof (murmur64_tail_spec (Z.to_nat (len mod 8)) data2 h Hh ltac:(lia)) as Ht.
  destruct (murmur64_tail _ data2 h) as [h'|]; cbn; (split; [split|]).
  - intros _. destruct Ht. lia.
  - intros _. by eexists.
  - intros h'' [= <-]. unfold murmur64_final, r64. auto 6 with mutils.
  - by intros [? ?].
  - lia.
  - done.
Qed.

Lemma murmur_hash_64_defined_witness :
  in_u 32 11 /\ in_u 64 0 /\ is_Some (murmur_hash_64 (lit "hello world") 11 0).
Proof.
  split; [by vm_compute|]. split; [by vm_compute|].
  apply (murmur_hash_64_defined (lit "hello world") 11 0); by vm_compute.
Defined.

(** The inverse of the 64-bit multiplier modulo 2^64. *)
Definition minv64 : Z := 0x5f7a0ea7e59b19bd.

Lemma mul_m64_inj x y : in_u 64 x -> in_u 64 y -> u64 (x * m64) = u64 (y * m64) -> x = y.
Proof.
  intros Hx Hy E. apply (f_equal (fun z => u64 (z * minv64))) in E.
  by rewrite !mul_inverse in E.
Qed.

Lemma shift_xor_inj w s x y :
  0 <= s -> w <= 2 * s -> in_u w x -> in_u w y ->
  x .^ (x .>> s) = y .^ (y .>> s) -> x = y.
Proof.
  intros Hs Hw Hx Hy E.
  rewrite <- (shift_xor_involutive w s x), <- (shift_xor_involutive w s y) by done.
  by rewrite E.
Qed.

Lemma lxor_inj a x y : a .^ x = a .^ y -> x = y.
Proof. intros E. by rewrite <- (lxor_cancel_l a x), E, lxor_cancel_l. Qed.

Lemma base_inj n a b x y : 0 <= a < n -> 0 <= b < n -> a + n * x = b + n * y -> a = b /\ x = y.
Proof. intros. assert (x = y) by nia. split; nia. Qed.

Lemma read_u32_inj b0 b1 b2 b3 c0 c1 c2 c3 :
  read_u32 b0 b1 b2 b3 = read_u32 c0 c1 c2 c3 -> [b0; b1; b2; b3] = [c0; c1; c2; c3].
Proof.
  unfold read_u32. rewrite !Z.shiftl_mul_pow2 by lia. intros E.
  destruct (base_inj 256 (uchar b0) (uchar c0)
    (uchar b1 + 256 * (uchar b2 + 256 * uchar b3)) (uchar c1 + 256 * (uchar c2 + 256 * uchar c3)))
    as [E0 E']; [apply uchar_range..|lia|].
  apply base_inj in E' as [E1 E']; [|apply uchar_range..].
  apply base_inj in E' as [E2 E3]; [|apply uchar_range..].
  apply uchar_inj in E0, E1, E2, E3. congruence.
Qed.

Lemma read_u64_inj b0 b1 b2 b3 b4 b5 b6 b7 c0 c1 c2 c3 c4 c5 c6 c7 :
  read_u64 b0 b1 b2 b3 b4 b5 b6 b7 = read_u64 c0 c1 c2 c3 c4 c5 c6 c7 ->
  [b0; b1; b2; b3; b4; b5; b6; b7] = [c0; c1; c2; c3; c4; c5; c6; c7].
Proof.
  unfold read_u64. rewrite !Z.shiftl_mul_pow2, !(Z.mul_comm _ (2 ^ 32)) by lia. intros E.
  apply base_inj in E as [E0 E1]; [|apply read_u32_range..].
  apply read_u32_inj in E0, E1. congruence.
Qed.

(** Take the mixing steps off an equation between two hashes, outermost first. *)
Ltac unmix64 H :=
  repeat first
    [ apply (shift_xor_inj 64) in H; [|by auto with mutils..]
    | apply mul_m64_inj in H; [|by auto with mutils..]
    | apply lxor_inj in H ].

(** [murmur_hash_64] has no collision between eight-byte keys: every
    mixing step is a bijection on 64-bit words. *)
Theorem murmur_hash_64_injective key1 key2 seed :
  length key1 = 8%nat -> length key2 = 8%nat -> in_u 64 seed ->
  murmur_hash_64 key1 8 seed = murmur_hash_64 key2 8 seed -> key1 = key2.
Proof.
  intros H1 H2 Hs.
  destruct key1 as [|b0 [|b1 [|b2 [|b3 [|b4 [|b5 [|b6 [|b7 [|? ?]]]]]]]]]; try done.
  destruct key2 as [|c0 [|c1 [|c2 [|c3 [|c4 [|c5 [|c6 [|c7 [|? ?]]]]]]]]]; try done.
  unfold murmur_hash_64, murmur64_final. change (Z.to_nat (8 / 8)) with 1%nat.
  change (8 .& 7) with 0. cbn [murmur64_loop murmur64_tail Z.to_nat mbind option_bind Z.eqb].
  intros [= E]. unfold r64 in E. unmix64 E. by apply read_u64_inj.
Qed.

Lemma murmur_hash_64_injective_witness :
  length (lit "abcdefgh") = 8%nat /\ length (lit "abcdefgh") = 8%nat /\ in_u 64 1 /\
  lit "abcdefgh" = lit "abcdefgh".
Proof.
  do 2 (split; [done|]). split; [by vm_compute|].
  apply (murmur_hash_64_injective (lit "abcdefgh") (lit "abcdefgh") 1); by vm_compute.
Defined.
