(* ===== verification/StdString.v ===== *)
(** * The parts of [std::string] the code uses

    Positions are [size_t] values, with [npos] for "not found"; a position
    outside the string throws [std::out_of_range] where the standard says so.
    A [const char*] argument is the list of its characters before the NUL. *)

From S2P Require Import Prelude.

Definition ssize (s : str) : Z := Z.of_nat (length s).

(** Every string of the program: shorter than [npos]. *)
Definition fits (s : str) : Prop := ssize s < npos.

Definition in_delims (c : ascii) (delims : str) : bool := existsb (Ascii.eqb c) delims.

(** Index of the first element satisfying [p]. *)
Fixpoint find_idx (p : ascii -> bool) (s : str) : option nat :=
  match s with
  | [] => None
  | c :: s => if p c then Some O else S <$> find_idx p s
  end.

Definition to_pos (o : option Z) : Z := match o with Some z => z | None => npos end.

(** [s.substr(pos)] for a position inside [s]. *)
Definition suffix (s : str) (pos : Z) : str := drop (Z.to_nat pos) s.

Definition find_from (p : ascii -> bool) (s : str) (pos : Z) : Z :=
  if pos <? ssize s
  then to_pos ((fun i => pos + Z.of_nat i) <$> find_idx p (suffix s pos))
  else npos.

Definition find_first_of (s delims : str) (pos : Z) : Z :=
  find_from (fun c => in_delims c delims) s pos.

Definition find_first_not_of (s delims : str) (pos : Z) : Z :=
  find_from (fun c => negb (in_delims c delims)) s pos.

Definition find_last_not_of (s delims : str) : Z :=
  to_pos ((fun i => ssize s - 1 - Z.of_nat i) <$> find_idx (fun c => negb (in_delims c delims)) (rev s)).

Fixpoint prefixb (pat s : str) : bool :=
  match pat, s with
  | [], _ => true
  | c :: pat, d :: s => Ascii.eqb c d && prefixb pat s
  | _ :: _, [] => false
  end.

(** Index of the first occurrence of [pat]. *)
Fixpoint search_idx (pat s : str) : option nat :=
  if prefixb pat s then Some O
  else match s with [] => None | _ :: s => S <$> search_idx pat s end.

Definition sfind (s pat : str) (pos : Z) : Z :=
  if pos <=? ssize s
  then to_pos ((fun i => pos + Z.of_nat i) <$> search_idx pat (suffix s pos))
  else npos.

Definition substr (s : str) (pos n : Z) : result stop str :=
  if ssize s <? pos then Err (Throw out_of_range)
  else Ok (take (Z.to_nat (Z.min n (ssize s - pos))) (suffix s pos)).

Definition sreplace (s : str) (pos n : Z) (r : str) : result stop str :=
  if ssize s <? pos then Err (Throw out_of_range)
  else Ok (take (Z.to_nat pos) s ++ r ++ suffix s (pos + Z.min n (ssize s - pos))).

Definition serase (s : str) (pos n : Z) : result stop str := sreplace s pos n [].

(** The C locale's [isalnum], [isspace], [isdigit] and [tolower]. *)
Definition between (lo hi : ascii) (c : ascii) : bool :=
  (uchar lo <=? uchar c) && (uchar c <=? uchar hi).
Definition isdigit (c : ascii) : bool := between "0" "9" c.
Definition isupper (c : ascii) : bool := between "A" "Z" c.
Definition islower (c : ascii) : bool := between "a" "z" c.
Definition isalnum (c : ascii) : bool := isdigit c || isupper c || islower c.
Definition isspace (c : ascii) : bool := between "009" "013" c || Ascii.eqb c " ".
Definition tolower (c : ascii) : ascii :=
  if isupper c then of_uchar (uchar c + 32) else c.

(** The digits of an integer, as [operator<<] and [std::to_string] print it. *)
Definition digit (z : Z) : ascii := of_uchar (uchar "0" + z).

Fixpoint digits (fuel : nat) (z : Z) (acc : str) : str :=
  match fuel with
  | O => acc
  | S fuel =>
      let acc := digit (z mod 10) :: acc in
      if z <? 10 then acc else digits fuel (z / 10) acc
  end.

Definition to_string (z : Z) : str :=
  if z <? 0 then "-"%char :: digits (S (Z.to_nat (Z.log2 (- z)))) (- z) []
  else digits (S (Z.to_nat (Z.log2 z))) z [].

(** [std::stoi]: blanks, a sign, the longest run of digits. *)
Fixpoint take_digits (s : str) (acc : option Z) : option Z :=
  match s with
  | c :: s =>
      if isdigit c
      then take_digits s (Some (10 * default 0 acc + (uchar c - uchar "0")))
      else acc
  | [] => acc
  end.

Fixpoint skip_space (s : str) : str :=
  match s with
  | c :: s' => if isspace c then skip_space s' else s
  | [] => []
  end.

Definition stoi (s : str) : result stop Z :=
  let s := skip_space s in
  let '(neg, s) := match s with
                   | c :: s' => if Ascii.eqb c "-" then (true, s')
                                else if Ascii.eqb c "+" then (false, s')
                                else (false, s)
                   | [] => (false, s)
                   end in
  match take_digits s None with
  | None => Err (Throw invalid_argument)
  | Some v =>
      let v := if neg then - v else v in
      if (- 2 ^ 31 <=? v) && (v <? 2 ^ 31) then Ok v else Err (Throw out_of_range)
  end.

(** ** Lemmas *)

Lemma in_delims_spec c delims : in_delims c delims = true <-> c ∈ delims.
Proof.
  unfold in_delims. rewrite existsb_exists. setoid_rewrite Ascii.eqb_eq.
  rewrite list_elem_of_In. naive_solver.
Qed.

Lemma in_delims_false c delims : in_delims c delims = false <-> c ∉ delims.
Proof. rewrite <- in_delims_spec. destruct (in_delims c delims); naive_solver. Qed.

Lemma ssize_nonneg s : 0 <= ssize s.
Proof. unfold ssize. lia. Qed.

Lemma ssize_app s t : ssize (s ++ t) = ssize s + ssize t.
Proof. unfold ssize. rewrite length_app. lia. Qed.

Lemma ssize_nil : ssize [] = 0.
Proof. done. Qed.

Lemma ssize_cons c s : ssize (c :: s) = 1 + ssize s.
Proof. unfold ssize. cbn. lia. Qed.

Lemma suffix_0 s : suffix s 0 = s.
Proof. done. Qed.

Lemma suffix_app s t : suffix (s ++ t) (ssize s) = t.
Proof. unfold suffix, ssize. by rewrite Nat2Z.id, drop_app_length. Qed.

Lemma suffix_suffix s i j : 0 <= i -> 0 <= j -> suffix (suffix s i) j = suffix s (i + j).
Proof. intros. unfold suffix. rewrite drop_drop. f_equal. lia. Qed.

Lemma ssize_suffix s i : 0 <= i <= ssize s -> ssize (suffix s i) = ssize s - i.
Proof. unfold ssize, suffix. intros. rewrite length_drop. lia. Qed.

(** A split of the string at the first element satisfying [p]. *)
Lemma find_idx_Some p s i :
  find_idx p s = Some i <->
  exists l c r, s = l ++ c :: r /\ length l = i /\ p c = true /\ Forall (fun x => p x = false) l.
Proof.
  revert i. induction s as [|c s IH]; intros i; cbn.
  - split; [done|]. intros (l & ? & ? & E & _). by destruct l.
  - destruct (p c) eqn:Hp.
    + split.
      * intros [= <-]. by exists [], c, s.
      * intros ([|d l] & c' & r & [= -> E] & <- & H1 & H2); [done|].
        apply Forall_cons in H2. destruct H2. congruence.
    + split.
      * destruct (find_idx p s) as [j|] eqn:E; [|done]. intros [= <-].
        destruct (proj1 (IH j) eq_refl) as (l & c' & r & -> & <- & H1 & H2).
        exists (c :: l), c', r. auto.
      * intros ([|d l] & c' & r & [= -> ->] & <- & H1 & H2); [congruence|].
        apply Forall_cons in H2. destruct H2 as [_ H2].
        assert (find_idx p (l ++ c' :: r) = Some (length l)) as ->; [|done].
        apply IH. eauto 10.
Qed.

Lemma find_idx_None p s : find_idx p s = None <-> Forall (fun x => p x = false) s.
Proof.
  induction s as [|c s IH]; cbn; [done|].
  rewrite Forall_cons. destruct (p c) eqn:Hp; [naive_solver|].
  destruct (find_idx p s); cbn; naive_solver.
Qed.

Lemma find_idx_lt p s i : find_idx p s = Some i -> (i < length s)%nat.
Proof. intros (l & c & r & -> & <- & _)%find_idx_Some. rewrite length_app. cbn. lia. Qed.
