(* ===== verification/StringUtils.v ===== *)
(** * String utilities

    The functions of src/string/string_utils.cpp and
    include/mutils/string/string_utils.h.  Loops that are not structural carry
    fuel; the theorems show the fuel given is enough and relate each loop to a
    character-by-character reference definition. *)

From S2P Require Import Prelude StdString Murmur.

(** ** The code *)

(** *** Encoding, case, trimming *)

Definition hex_upper (z : Z) : ascii :=
  if z <? 10 then of_uchar (uchar "0" + z) else of_uchar (uchar "A" + (z - 10)).

(** [isalnum(c) || c == '-' || c == '_' || c == '.' || c == '~'] *)
Definition url_plain (c : ascii) : bool :=
  isalnum c || Ascii.eqb c "-" || Ascii.eqb c "_" || Ascii.eqb c "." || Ascii.eqb c "~".

Fixpoint string_url_encode (value : str) : str :=
  match value with
  | [] => []
  | c :: value =>
      (if url_plain c then [c]
       else ["%"%char; hex_upper (uchar c / 16); hex_upper (uchar c mod 16)])
      ++ string_url_encode value
  end.

Definition string_tolower (s : str) : str := tolower <$> s.

Definition string_left_trim (s t : str) : result stop str :=
  serase s 0 (find_first_not_of s t 0).

Definition string_right_trim (s t : str) : result stop str :=
  let pos := u64 (find_last_not_of s t + 1) in
  serase s pos npos.

Definition string_trim (s t : str) : result stop str :=
  s ← string_right_trim s t;
  string_left_trim s t.

(** *** Searching and replacing *)

Fixpoint string_replace_loop (fuel : nat) (subject search rep : str) (pos : Z)
    : result stop str :=
  match fuel with
  | O => Err OutOfFuel
  | S fuel =>
      let pos := sfind subject search pos in
      if pos =? npos then Ok subject
      else
        subject ← sreplace subject pos (ssize search) rep;
        string_replace_loop fuel subject search rep (u64 (pos + ssize rep))
  end.

Definition string_replace (subject search rep : str) : result stop str :=
  string_replace_loop (S (length subject)) subject search rep 0.

(** [string_replace_in_place]: the new value of [subject]. *)
Definition string_replace_in_place (subject search rep : str) : result stop str :=
  string_replace_loop (S (length subject)) subject search rep 0.

(** *** Splitting *)

Fixpoint string_split_loop (fuel : nat) (text delims : str) (start : Z) (tokens : list str)
    : result stop (list str * Z) :=
  match fuel with
  | O => Err OutOfFuel
  | S fuel =>
      let end_ := find_first_of text delims start in
      if end_ =? npos then Ok (tokens, start)
      else
        tok ← substr text start (u64 (end_ - start));
        string_split_loop fuel text delims (find_first_not_of text delims end_) (tokens ++ [tok])
  end.

(** The last token, after the loop. *)
Definition string_split_last (text : str) (out : list str * Z) : result stop (list str) :=
  let '(tokens, start) := out in
  if start =? npos then Ok tokens
  else
    tok ← substr text start npos;
    Ok (tokens ++ [tok]).

Definition string_split (text delims : str) : result stop (list str) :=
  let start := find_first_not_of text delims 0 in
  string_split_loop (S (length text)) text delims start [] ≫= string_split_last text.

Definition crlf : str := ["013"%char; "010"%char].

Definition string_split_lines (text : str) : result stop (list str) :=
  string_split text crlf.

(** [string_split_each] on a [std::string]; the callback is a state
    transformer that answers whether to go on. *)
Fixpoint string_split_each_loop {St} (fuel : nat) (text delims : str)
    (fn : Z -> Z -> St -> bool * St) (start : Z) (st : St) : result stop (option Z * St) :=
  match fuel with
  | O => Err OutOfFuel
  | S fuel =>
      let end_ := find_first_of text delims start in
      if end_ =? npos then Ok (Some start, st)
      else
        let '(go, st) := fn start (u64 (end_ - start)) st in
        if go
        then string_split_each_loop fuel text delims fn (find_first_not_of text delims end_) st
        else Ok (None, st)
  end.

(** The last call: [None] after an early return. *)
Definition string_split_each_last {St} (text : str) (fn : Z -> Z -> St -> bool * St)
    (out : option Z * St) : result stop St :=
  let '(start, st) := out in
  match start with
  | None => Ok st
  | Some start =>
      if start =? npos then Ok st
      else Ok (snd (fn start (u64 (ssize text - start)) st))
  end.

Definition string_split_each {St} (text delims : str) (fn : Z -> Z -> St -> bool * St) (st : St)
    : result stop St :=
  let start := find_first_not_of text delims 0 in
  string_split_each_loop (S (length text)) text delims fn start st
    ≫= string_split_each_last text fn.

Fixpoint string_split_delim_loop (fuel : nat) (s delim : str) (current previous : Z)
    (ret : list str) : result stop (list str * Z * Z) :=
  match fuel with
  | O => Err OutOfFuel
  | S fuel =>
      if current =? npos then Ok (ret, current, previous)
      else
        tok ← substr s previous (u64 (current - previous));
        let previous := u64 (current + 1) in
        let current := sfind s delim previous in
        string_split_delim_loop fuel s delim current previous (ret ++ [tok])
  end.

(** The last token, after the loop. *)
Definition string_split_delim_last (s : str) (out : list str * Z * Z) : result stop (list str) :=
  let '(ret, current, previous) := out in
  tok ← substr s previous (u64 (current - previous));
  Ok (ret ++ [tok]).

Definition string_split_delim_string (s delim : str) : result stop (list str) :=
  let current := sfind s delim 0 in
  string_split_delim_loop (S (S (length s))) s delim current 0 [] ≫= string_split_delim_last s.

(** *** Searching and splitting a [char*] buffer *)

(** The loops over [index]; [n] counts the indices left, a read outside the
    buffer is undefined. *)
Fixpoint first_loop (want : bool) (n : nat) (text : str) (index : Z) (delims : str)
    : result stop Z :=
  match n with
  | O => Ok npos
  | S n =>
      match text !! Z.to_nat index with
      | None => Err UB
      | Some c =>
          if Bool.eqb (in_delims c delims) want then Ok index
          else first_loop want n text (index + 1) delims
      end
  end.

Definition string_first_not_of (text : str) (start end_ : Z) (delims : str) : result stop Z :=
  first_loop false (Z.to_nat (end_ - start)) text start delims.

Definition string_first_of (text : str) (start end_ : Z) (delims : str) : result stop Z :=
  first_loop true (Z.to_nat (end_ - start)) text start delims.

(** [string_split_each] on a buffer: the callback gets the start and the end
    of each token. *)
Fixpoint string_split_each_buf_loop {St} (fuel : nat) (text : str) (endIndex : Z) (delims : str)
    (fn : Z -> Z -> St -> bool * St) (start : Z) (st : St) : result stop (option Z * St) :=
  match fuel with
  | O => Err OutOfFuel
  | S fuel =>
      end_ ← string_first_of text start endIndex delims;
      if end_ =? npos then Ok (Some start, st)
      else
        let '(go, st) := fn start end_ st in
        if go then
          c ← of_option UB (text !! Z.to_nat end_);
          let end_ := if (uchar c =? 0) && (end_ <? endIndex) then end_ + 1 else end_ in
          start ← string_first_not_of text end_ endIndex delims;
          string_split_each_buf_loop fuel text endIndex delims fn start st
        else Ok (None, st)
  end.

Definition string_split_each_buf_last {St} (endIndex : Z) (fn : Z -> Z -> St -> bool * St)
    (out : option Z * St) : result stop St :=
  let '(start, st) := out in
  match start with
  | None => Ok st
  | Some start => if start =? npos then Ok st else Ok (snd (fn start endIndex st))
  end.

Definition string_split_each_buf {St} (text : str) (startIndex endIndex : Z) (delims : str)
    (fn : Z -> Z -> St -> bool * St) (st : St) : result stop St :=
  start ← string_first_not_of text startIndex endIndex delims;
  string_split_each_buf_loop (S (length text)) text endIndex delims fn start st
    ≫= string_split_each_buf_last endIndex fn.

(** *** Line offsets *)

Definition is_cr (c : ascii) : bool := Ascii.eqb c "013".
Definition is_lf (c : ascii) : bool := Ascii.eqb c "010".

(** [itr] is the rest of the string at [currentIndex], [first] is
    [lineRange.first]. *)
Fixpoint line_offset_loop (itr : str) (line first currentIndex index : Z) : Z * Z :=
  match itr with
  | [] => (line, u32 (index - first))
  | c :: itr' =>
      if (first <=? index) && (index <=? currentIndex) then (line, u32 (index - first))
      else if is_cr c || is_lf c then
        let one :=
          let currentIndex := u32 (currentIndex + 1) in
          if currentIndex <=? index then (u32 (line + 1), u32 (index - currentIndex))
          else line_offset_loop itr' (u32 (line + 1)) currentIndex currentIndex index in
        match itr' with
        | c' :: itr'' =>
            if is_cr c && is_lf c' then
              let currentIndex := u32 (currentIndex + 2) in
              if currentIndex <=? index then (u32 (line + 1), u32 (index - currentIndex))
              else line_offset_loop itr'' (u32 (line + 1)) currentIndex currentIndex index
            else one
        | [] => one
        end
      else line_offset_loop itr' line first (u32 (currentIndex + 1)) index
  end.

Definition string_convert_index_to_line_offset (s : str) (index : Z) : Z * Z :=
  line_offset_loop s 0 0 0 index.

(** *** UTF-8 *)

Definition string_count_utf8_bytes (c : Z) : Z :=
  if c <? 0x80 then 1
  else if c <? 0x800 then 2
  else if (0xdc00 <=? c) && (c <? 0xe000) then 0
  else if (0xd800 <=? c) && (c <? 0xdc00) then 4
  else 3.

Definition is_continuation (c : ascii) : bool := (uchar c .& 0xc0) =? 0x80.

(** The inner loop: [len] and the rest of the C string. *)
Fixpoint utf8_inner (s : str) (len : Z) : Z * str :=
  match s with
  | [] => (len, [])
  | c :: s' =>
      if len <=? 4 then
        if negb (is_continuation c) then (len, s') else utf8_inner s' (len + 1)
      else (len, s)
  end.

Fixpoint utf8_outer (fuel : nat) (s : str) (stringLength : Z) : Z :=
  match fuel, s with
  | _, [] => stringLength
  | O, _ => stringLength
  | S fuel, _ =>
      let '(len, s) := utf8_inner s 1 in
      utf8_outer fuel s (u64 (stringLength + len))
  end.

Definition string_utf8_length (s : str) : Z := utf8_outer (length s) s 0.

(** *** Numbers and grids *)

Fixpoint map_result {A B} (f : A -> result stop B) (l : list A) : result stop (list B) :=
  match l with
  | [] => Ok []
  | a :: l => b ← f a; bs ← map_result f l; Ok (b :: bs)
  end.

Definition string_get_integers (s : str) : result stop (list Z) :=
  strVals ← string_split s (["009"; "010"; "013"]%char ++ lit " ,");
  map_result stoi strVals.

Definition string_get_string_grid (s : str) : result stop (list (list str)) :=
  lines ← string_split_lines s;
  rows ← map_result (fun line => string_split line ("009"%char :: lit ", ")) lines;
  Ok (filter (fun vals => vals <> []) rows).

(** [str - '0'] on a [char], which is signed. *)
Definition char_digit (c : ascii) : Z := swrap 8 (uchar c) - uchar "0".

Definition string_get_integer_grid (s delim : str) : result stop (list (list Z)) :=
  lines ← string_split_lines s;
  rows ← map_result (fun line =>
    if negb (bool_decide (delim = []))
    then strVals ← string_split line delim; map_result stoi strVals
    else Ok (char_digit <$> line)) lines;
  Ok (filter (fun vals => vals <> []) rows).

(** *** StringId: interned strings, with the program's one lookup table *)

Record StringId : Type := mkStringId { id : Z }.

Definition StringId_make (s : str) (look : gmap Z str) : option (StringId * gmap Z str) :=
  h ← murmur_hash s (i32 (ssize s)) 0;
  Some (mkStringId h, <[h := s]> look).

Definition StringId_eqb (lhs rhs : StringId) : bool := id lhs =? id rhs.
Definition StringId_ltb (lhs rhs : StringId) : bool := id lhs <? id rhs.

Definition StringId_ToString (i : StringId) (look : gmap Z str) : str :=
  match look !! id i with
  | None => lit "murmur:" ++ to_string (id i)
  | Some s => s
  end.
