(* ===== verification/StringTheory.v ===== *)
(** * Theorems about the string utilities

    Splitting, trimming, replacing, encoding and interning
    (StringUtils.v), against character-by-character references. *)

From S2P Require Import Prelude StdString Murmur StringUtils.

(** ** Reference definitions *)

(** The half-open ranges of the maximal runs of characters outside [d], in
    order, scanning [s] from position [pos]; [open] is where the run in
    progress began. *)
Fixpoint spans (d : ascii -> bool) (open : option Z) (pos : Z) (s : str) : list (Z * Z) :=
  match s with
  | [] => match open with Some b => [(b, pos)] | None => [] end
  | c :: s =>
      if d c then
        match open with
        | Some b => (b, pos) :: spans d None (pos + 1) s
        | None => spans d None (pos + 1) s
        end
      else spans d (Some (default pos open)) (pos + 1) s
  end.

(** The characters of a range. *)
Definition slice (text : str) (r : Z * Z) : str :=
  take (Z.to_nat (snd r - fst r)) (suffix text (fst r)).

(** The maximal runs themselves; [cur] is the run in progress. *)
Fixpoint words (d : ascii -> bool) (cur s : str) : list str :=
  match s with
  | [] => if bool_decide (cur = []) then [] else [cur]
  | c :: s =>
      if d c then (if bool_decide (cur = []) then [] else [cur]) ++ words d [] s
      else words d (cur ++ [c]) s
  end.

(** Call [fn] on each range until it answers [false]. *)
Fixpoint run_until {St} (fn : Z -> Z -> St -> bool * St) (rs : list (Z * Z)) (st : St) : St :=
  match rs with
  | [] => st
  | (b, e) :: rs => let '(go, st) := fn b e st in if go then run_until fn rs st else st
  end.

Definition delim (delims : str) (c : ascii) : bool := in_delims c delims.

(** ** Searching from a position *)

Lemma find_from_npos p s : fits s -> find_from p s npos = npos.
Proof. intros H. unfold find_from, fits in *. by replace (npos <? ssize s) with false by lia. Qed.

(** Either nothing from [pos] on satisfies [p], or the position of the first
    character that does is found. *)
Lemma find_from_cases p s pos :
  0 <= pos <= ssize s ->
  (find_from p s pos = npos /\ Forall (fun c => p c = false) (suffix s pos)) \/
  (exists l c r, suffix s pos = l ++ c :: r /\ p c = true /\ Forall (fun c => p c = false) l /\
     find_from p s pos = pos + ssize l /\ suffix s (pos + ssize l) = c :: r /\
     pos + ssize l < ssize s).
Proof.
  intros Hpos. unfold find_from. destruct (Z.ltb_spec pos (ssize s)) as [Hlt|Hge].
  - destruct (find_idx p (suffix s pos)) as [i|] eqn:E; cbn.
    + right. apply find_idx_Some in E as (l & c & r & E & <- & Hc & Hl).
      exists l, c, r. pose proof (ssize_nonneg l).
      pose proof (ssize_suffix s pos Hpos) as Hs. rewrite E, ssize_app, ssize_cons in Hs.
      pose proof (ssize_nonneg r).
      split_and!; [done..|by rewrite <- suffix_suffix, E, suffix_app by lia|lia].
    + left. by apply find_idx_None in E.
  - left. split; [done|]. replace pos with (ssize s) by lia.
    unfold suffix, ssize. by rewrite Nat2Z.id, drop_all.
Qed.

Lemma spans_skip d l s pos :
  Forall (fun c => d c = true) l -> spans d None pos (l ++ s) = spans d None (pos + ssize l) s.
Proof.
  intros Hl. revert pos. induction Hl as [|c l Hc Hl IH]; intros pos.
  - by rewrite ssize_nil, Z.add_0_r.
  - cbn [spans app]. rewrite Hc, IH, ssize_cons. f_equal. lia.
Qed.

Lemma spans_run d l s b pos :
  Forall (fun c => d c = false) l ->
  spans d (Some b) pos (l ++ s) = spans d (Some b) (pos + ssize l) s.
Proof.
  intros Hl. revert pos. induction Hl as [|c l Hc Hl IH]; intros pos.
  - by rewrite ssize_nil, Z.add_0_r.
  - cbn [spans app]. rewrite Hc, IH, ssize_cons. cbn. f_equal. lia.
Qed.

Lemma spans_all_skip d s pos : Forall (fun c => d c = true) s -> spans d None pos s = [].
Proof. intros Hs. rewrite <- (app_nil_r s). by rewrite spans_skip. Qed.

(** The two searches of the splitting loops, in terms of the ranges left. *)
Lemma next_start text delims pos :
  0 <= pos <= ssize text ->
  let start := find_first_not_of text delims pos in
  (start = npos /\ spans (delim delims) None pos (suffix text pos) = []) \/
  (pos <= start < ssize text /\
   (forall c r, suffix text pos = c :: r -> delim delims c = true -> pos < start) /\
   spans (delim delims) None pos (suffix text pos) =
   spans (delim delims) (Some start) start (suffix text start)).
Proof.
  intros Hpos. unfold find_first_not_of.
  destruct (find_from_cases (fun c => negb (in_delims c delims)) text pos Hpos)
    as [[-> H]|(l & c & r & E & Hc & Hl & -> & E' & Hlt)].
  - left. split; [done|]. apply spans_all_skip.
    eapply Forall_impl; [exact H|]. intros x Hx. by apply negb_false_iff in Hx.
  - right. pose proof (ssize_nonneg l). apply negb_true_iff in Hc. split_and!; [lia..| |].
    { intros c' r' Ec Hd. destruct l as [|x l]; [|rewrite ssize_cons; pose proof (ssize_nonneg l); lia].
      unfold delim in Hd. cbn in E. congruence. }
    rewrite E, spans_skip.
    + rewrite E'. cbn [spans]. unfold delim. by rewrite Hc.
    + eapply Forall_impl; [exact Hl|]. intros x Hx. by apply negb_false_iff in Hx.
Qed.

Lemma next_end text delims b pos :
  0 <= pos <= ssize text ->
  let end_ := find_first_of text delims pos in
  (end_ = npos /\ spans (delim delims) (Some b) pos (suffix text pos) = [(b, ssize text)]) \/
  (pos <= end_ < ssize text /\
   (exists c r, suffix text end_ = c :: r /\ delim delims c = true) /\
   spans (delim delims) (Some b) pos (suffix text pos) =
   (b, end_) :: spans (delim delims) None end_ (suffix text end_)).
Proof.
  intros Hpos. unfold find_first_of.
  destruct (find_from_cases (fun c => in_delims c delims) text pos Hpos)
    as [[-> H]|(l & c & r & E & Hc & Hl & -> & E' & Hlt)].
  - left. split; [done|]. rewrite <- (app_nil_r (suffix text pos)), spans_run by done.
    rewrite ssize_suffix by done. cbn. repeat f_equal. lia.
  - right. pose proof (ssize_nonneg l). split; [lia|].
    split; [eauto|]. rewrite E, spans_run by done. rewrite E'. cbn [spans]. unfold delim. by rewrite Hc.
Qed.

Lemma npos_fits text z : fits text -> 0 <= z <= ssize text -> (z =? npos) = false.
Proof. unfold fits. lia. Qed.

Lemma u64_pos text z : fits text -> 0 <= z <= ssize text -> u64 z = z.
Proof. unfold fits. intros. apply wrap_small. unfold in_u, npos in *. lia. Qed.

Lemma substr_slice text b e :
  0 <= b -> b <= e <= ssize text -> substr text b (e - b) = Ok (slice text (b, e)).
Proof.
  intros. unfold substr. replace (ssize text <? b) with false by lia.
  unfold slice. cbn. by rewrite Z.min_l by lia.
Qed.

Lemma substr_rest text b :
  fits text -> 0 <= b <= ssize text -> substr text b npos = Ok (slice text (b, ssize text)).
Proof.
  unfold fits. intros. unfold substr, slice. replace (ssize text <? b) with false by lia.
  cbn. by rewrite Z.min_r by lia.
Qed.

Lemma string_split_loop_spec fuel text delims start tokens :
  fits text -> 0 <= start < ssize text -> ssize text - start < Z.of_nat fuel ->
  string_split_loop fuel text delims start tokens ≫= string_split_last text =
  Ok (tokens ++ (slice text <$> spans (delim delims) (Some start) start (suffix text start))).
Proof.
  intros Hfit. revert start tokens.
  induction fuel as [|fuel IH]; intros start tokens Hs Hf; [lia|].
  cbn [string_split_loop].
  destruct (next_end text delims start start ltac:(lia)) as [[-> ->]|(He & (c & r & Er & Hc) & ->)].
  - rewrite Z.eqb_refl. cbn [mbind result_bind string_split_last].
    rewrite (npos_fits text) by (done || lia). by rewrite substr_rest by (done || lia).
  - rewrite (npos_fits text) by (done || lia). rewrite (u64_pos text), substr_slice by (done || lia).
    set (e := find_first_of text delims start) in *. cbn [mbind result_bind].
    destruct (next_start text delims e ltac:(lia)) as [[-> ->]|(Hn & Hgt & ->)].
    + destruct fuel; [lia|]. cbn [string_split_loop]. unfold find_first_of.
      rewrite find_from_npos, Z.eqb_refl by done. done.
    + specialize (Hgt c r Er Hc). rewrite IH; [|lia..]. by rewrite <- app_assoc.
Qed.

Lemma slice_middle pre cur s :
  slice (pre ++ cur ++ s) (ssize pre, ssize pre + ssize cur) = cur.
Proof.
  unfold slice. cbn [fst snd]. rewrite suffix_app.
  replace (ssize pre + ssize cur - ssize pre) with (ssize cur) by lia.
  unfold ssize. by rewrite Nat2Z.id, take_app_length.
Qed.

(** The two references agree. *)
Lemma words_spans d text s :
  (forall pre, text = pre ++ s ->
     words d [] s = slice text <$> spans d None (ssize pre) s) /\
  (forall pre cur, text = pre ++ cur ++ s -> cur <> [] ->
     words d cur s = slice text <$> spans d (Some (ssize pre)) (ssize pre + ssize cur) s).
Proof.
  induction s as [|c s [IH1 IH2]]; split.
  - done.
  - intros pre cur -> Hcur. cbn. rewrite slice_middle. by rewrite bool_decide_false.
  - intros pre ->. cbn [words spans]. destruct (d c).
    + cbn. rewrite (IH1 (pre ++ [c])) by by rewrite <- app_assoc.
      by rewrite ssize_app.
    + cbn [default app]. rewrite (IH2 pre [c]) by done. done.
  - intros pre cur -> Hcur. cbn [words spans]. destruct (d c).
    + rewrite bool_decide_false by done. cbn [app fmap list_fmap]. rewrite slice_middle. f_equal.
      rewrite (IH1 (pre ++ cur ++ [c])) by by rewrite <- !app_assoc.
      rewrite !ssize_app. f_equal. f_equal. change (ssize [c]) with 1. lia.
    + rewrite (IH2 pre (cur ++ [c])); [|by rewrite <- !app_assoc|by destruct cur].
      rewrite ssize_app. cbn [default]. f_equal. f_equal. change (ssize [c]) with 1. lia.
Qed.

Lemma words_slices d text : words d [] text = slice text <$> spans d None 0 text.
Proof. by apply (proj1 (words_spans d text text) []). Qed.

Lemma string_split_words text delims :
  fits text -> string_split text delims = Ok (words (delim delims) [] text).
Proof.
  intros Hfit. pose proof (ssize_nonneg text). unfold string_split. rewrite words_slices.
  destruct (next_start text delims 0 ltac:(lia)) as [[-> E]|(Hn & _ & E)];
    rewrite suffix_0 in E; rewrite E.
  - cbn [string_split_loop]. unfold find_first_of. by rewrite find_from_npos, Z.eqb_refl.
  - apply string_split_loop_spec; unfold ssize in *; (done || lia).
Qed.

Lemma words_tokens d cur s :
  Forall (fun c => d c = false) cur ->
  Forall (fun w => w <> [] /\ Forall (fun c => d c = false) w) (words d cur s) /\
  concat (words d cur s) = cur ++ filter (fun c => d c = false) s.
Proof.
  revert cur. induction s as [|c s IH]; intros cur Hcur; cbn [words].
  - case_bool_decide; subst; cbn; rewrite ?app_nil_r; auto.
  - destruct (d c) eqn:Hd.
    + destruct (IH [] ltac:(done)) as [H1 H2]. rewrite filter_cons_False by congruence.
      case_bool_decide; subst; cbn; [auto|]. rewrite H2. auto.
    + destruct (IH (cur ++ [c])) as [H1 H2]; [apply Forall_app; auto|].
      rewrite filter_cons_True by done. rewrite H2, <- app_assoc. auto.
Qed.

Lemma words_run d w cur s :
  Forall (fun c => d c = false) w -> words d cur (w ++ s) = words d (cur ++ w) s.
Proof.
  intros Hw. revert cur. induction Hw as [|c w Hc Hw IH]; intros cur; cbn.
  - by rewrite app_nil_r.
  - rewrite Hc, IH. by rewrite <- app_assoc.
Qed.

(** C10. [string_split] returns, without an exception, exactly the maximal
    runs of characters that are not delimiters, in order: no token is empty or
    holds a delimiter, and together they are the text without its delimiters. *)
Theorem string_split_correct text delims :
  fits text ->
  exists toks,
    string_split text delims = Ok toks /\ toks = words (delim delims) [] text /\
    Forall (fun w => w <> [] /\ Forall (fun c => delim delims c = false) w) toks /\
    concat toks = filter (fun c => delim delims c = false) text.
Proof.
  intros Hfit. exists (words (delim delims) [] text). rewrite string_split_words by done.
  destruct (words_tokens (delim delims) [] text) as [H1 H2]; auto.
Qed.

Lemma string_split_correct_witness :
  fits (lit " a b,,c ") /\
  exists toks, string_split (lit " a b,,c ") (lit " ,") = Ok toks /\
    toks = words (delim (lit " ,")) [] (lit " a b,,c ") /\
    Forall (fun w => w <> [] /\ Forall (fun c => delim (lit " ,") c = false) w) toks /\
    concat toks = filter (fun c => delim (lit " ,") c = false) (lit " a b,,c ").
Proof.
  split; [by vm_compute|].
  apply (string_split_correct (lit " a b,,c ") (lit " ,")); by vm_compute.
Defined.

(** The tokens with a separator after each. *)
Definition join (sep : ascii) (toks : list str) : str := concat ((fun w => w ++ [sep]) <$> toks).

Lemma words_join sep toks delims :
  in_delims sep delims = true ->
  Forall (fun w => w <> [] /\ Forall (fun c => in_delims c delims = false) w) toks ->
  words (delim delims) [] (join sep toks) = toks.
Proof.
  intros Hsep Htoks. induction Htoks as [|w toks [Hw Hd] _ IH]; [done|].
  unfold join in *. cbn. rewrite <- app_assoc, words_run by done. cbn [app words].
  unfold delim at 1. rewrite Hsep, bool_decide_false by done. cbn. by rewrite IH.
Qed.

(** Splitting undoes joining: non-empty tokens without delimiters, each
    followed by a delimiter, are split into themselves. *)
Theorem string_split_join sep toks delims :
  in_delims sep delims = true ->
  Forall (fun w => w <> [] /\ Forall (fun c => in_delims c delims = false) w) toks ->
  fits (join sep toks) ->
  string_split (join sep toks) delims = Ok toks.
Proof.
  intros Hsep Htoks Hfit. rewrite string_split_words by done. f_equal. by apply words_join.
Qed.

Lemma string_split_join_witness :
  in_delims "," (lit " ,") = true /\ fits (join "," [lit "ab"; lit "c"]) /\
  string_split (join "," [lit "ab"; lit "c"]) (lit " ,") = Ok [lit "ab"; lit "c"].
Proof.
  split; [done|]. split; [by vm_compute|].
  apply (string_split_join "," [lit "ab"; lit "c"] (lit " ,")); [done| |by vm_compute].
  repeat constructor; done.
Defined.

(** ** Splitting with a callback *)

Lemma string_split_each_loop_spec {St} fuel text delims (fn : Z -> Z -> St -> bool * St) start st :
  fits text -> 0 <= start < ssize text -> ssize text - start < Z.of_nat fuel ->
  string_split_each_loop fuel text delims fn start st ≫= string_split_each_last text fn =
  Ok (run_until (fun b e => fn b (e - b))
        (spans (delim delims) (Some start) start (suffix text start)) st).
Proof.
  intros Hfit. revert start st.
  induction fuel as [|fuel IH]; intros start st Hs Hf; [lia|].
  cbn [string_split_each_loop].
  destruct (next_end text delims start start ltac:(lia)) as [[-> ->]|(He & (c & r & Er & Hc) & ->)].
  - rewrite Z.eqb_refl. cbn [mbind result_bind string_split_each_last run_until].
    rewrite (npos_fits text), (u64_pos text) by (done || lia).
    by destruct (fn start (ssize text - start) st) as [[] ?].
  - rewrite (npos_fits text), (u64_pos text) by (done || lia).
    set (e := find_first_of text delims start) in *. cbn [run_until].
    destruct (fn start (e - start) st) as [[] st']; [|done].
    destruct (next_start text delims e ltac:(lia)) as [[-> ->]|(Hn & Hgt & ->)].
    + destruct fuel; [lia|]. cbn [string_split_each_loop]. unfold find_first_of.
      by rewrite find_from_npos, Z.eqb_refl.
    + specialize (Hgt c r Er Hc). by rewrite IH by lia.
Qed.

(** [string_split_each] calls its callback with the start and the length
    of each maximal run of non-delimiters, in order, until the callback
    answers [false], and calls it no more. *)
Theorem string_split_each_correct {St} text delims (fn : Z -> Z -> St -> bool * St) st :
  fits text ->
  string_split_each text delims fn st =
  Ok (run_until (fun b e => fn b (e - b)) (spans (delim delims) None 0 text) st).
Proof.
  intros Hfit. pose proof (ssize_nonneg text). unfold string_split_each.
  destruct (next_start text delims 0 ltac:(lia)) as [[-> E]|(Hn & _ & E)];
    rewrite suffix_0 in E; rewrite E.
  - cbn [string_split_each_loop]. unfold find_first_of. by rewrite find_from_npos, Z.eqb_refl.
  - apply string_split_each_loop_spec; unfold ssize in *; (done || lia).
Qed.

Lemma string_split_each_correct_witness :
  fits (lit "ab,c") /\
  string_split_each (lit "ab,c") (lit ",") (fun b n (l : list (Z * Z)) => (true, l ++ [(b, n)])) []
  = Ok [(0, 2); (3, 1)].
Proof.
  split; [by vm_compute|].
  rewrite (string_split_each_correct (lit "ab,c") (lit ",")
    (fun b n (l : list (Z * Z)) => (true, l ++ [(b, n)])) []); by vm_compute.
Defined.

Lemma find_from_step p s pos c :
  0 <= pos -> s !! Z.to_nat pos = Some c ->
  find_from p s pos = if p c then pos else find_from p s (pos + 1).
Proof.
  intros Hpos Hc. pose proof (lookup_lt_Some _ _ _ Hc). unfold find_from, ssize.
  replace (pos <? Z.of_nat (length s)) with true by lia.
  unfold suffix. rewrite (drop_S _ _ _ Hc). cbn [find_idx].
  destruct (p c); cbn; [lia|]. replace (Z.to_nat (pos + 1)) with (S (Z.to_nat pos)) by lia.
  destruct (Z.ltb_spec (pos + 1) (Z.of_nat (length s))).
  - destruct (find_idx p _); cbn; [lia|done].
  - by rewrite (drop_ge s (S (Z.to_nat pos))) by lia.
Qed.

(** Searching a buffer up to [index + n] is searching that prefix of it. *)
Lemma first_loop_find want n text index delims :
  0 <= index -> index + Z.of_nat n <= ssize text ->
  first_loop want n text index delims =
  Ok (find_from (fun c => Bool.eqb (in_delims c delims) want)
        (take (Z.to_nat index + n) text) index).
Proof.
  revert index. induction n as [|n IH]; intros index H0 Hn; cbn [first_loop].
  - unfold find_from. rewrite Nat.add_0_r. unfold ssize in *. rewrite length_take.
    destruct (Z.ltb_spec index (Z.of_nat (Nat.min (Z.to_nat index) (length text)))); [lia|done].
  - unfold ssize in *.
    destruct (lookup_lt_is_Some_2 text (Z.to_nat index)) as [c Hc]; [lia|].
    rewrite Hc. rewrite (find_from_step _ _ index c); [|done|].
    + case_match; [done|]. rewrite IH by lia. do 3 f_equal. lia.
    + rewrite lookup_take_lt by lia. done.
Qed.

Definition upto (text : str) (end_ : Z) : str := take (Z.to_nat end_) text.

Lemma ssize_upto text end_ : 0 <= end_ <= ssize text -> ssize (upto text end_) = end_.
Proof. unfold ssize, upto. rewrite length_take. lia. Qed.

Lemma find_from_ext p q s pos : (forall c, p c = q c) -> find_from p s pos = find_from q s pos.
Proof.
  intros E. unfold find_from. destruct (pos <? ssize s); [|done]. do 2 f_equal.
  induction (suffix s pos) as [|c l IH]; cbn; [done|]. by rewrite E, IH.
Qed.

Lemma first_loop_upto want text start end_ delims :
  0 <= start <= end_ -> end_ <= ssize text ->
  first_loop want (Z.to_nat (end_ - start)) text start delims =
  Ok (find_from (fun c => Bool.eqb (in_delims c delims) want) (upto text end_) start).
Proof.
  intros. rewrite first_loop_find by lia. do 2 f_equal. unfold upto. f_equal. lia.
Qed.

Lemma string_first_of_find text start end_ delims :
  0 <= start <= end_ -> end_ <= ssize text ->
  string_first_of text start end_ delims = Ok (find_first_of (upto text end_) delims start).
Proof.
  intros. unfold string_first_of. rewrite first_loop_upto by done. f_equal.
  apply find_from_ext. intros c. by destruct (in_delims c delims).
Qed.

Lemma string_first_not_of_find text start end_ delims :
  0 <= start <= end_ -> end_ <= ssize text ->
  string_first_not_of text start end_ delims = Ok (find_first_not_of (upto text end_) delims start).
Proof.
  intros. unfold string_first_not_of. by rewrite first_loop_upto by done.
Qed.

Lemma string_first_of_npos text end_ delims :
  end_ < npos -> string_first_of text npos end_ delims = Ok npos.
Proof. intros. unfold string_first_of. by replace (Z.to_nat (end_ - npos)) with O by lia. Qed.

Lemma suffix_head_lookup s pos c r : suffix s pos = c :: r -> s !! Z.to_nat pos = Some c.
Proof. unfold suffix. intros E. rewrite <- (Nat.add_0_r (Z.to_nat pos)), <- lookup_drop, E. done. Qed.

Lemma string_split_each_buf_loop_spec {St} fuel text end_ delims (fn : Z -> Z -> St -> bool * St)
    start st :
  0 <= end_ <= ssize text -> end_ < npos -> in_delims "000" delims = false ->
  0 <= start < end_ -> end_ - start < Z.of_nat fuel ->
  string_split_each_buf_loop fuel text end_ delims fn start st ≫= string_split_each_buf_last end_ fn =
  Ok (run_until fn (spans (delim delims) (Some start) start (suffix (upto text end_) start)) st).
Proof.
  intros Hend Hnp Hnul. pose proof (ssize_upto text end_ Hend) as Hsz.
  assert (Hfit : fits (upto text end_)) by (unfold fits; lia). revert start st.
  induction fuel as [|fuel IH]; intros start st Hs Hf; [lia|].
  cbn [string_split_each_buf_loop]. rewrite string_first_of_find by lia. cbn [mbind result_bind].
  destruct (next_end (upto text end_) delims start start ltac:(lia))
    as [[-> ->]|(He & (c & r & Er & Hc) & ->)].
  - rewrite Z.eqb_refl. cbn [mbind result_bind string_split_each_buf_last run_until].
    rewrite (npos_fits (upto text end_)), Hsz by (done || lia).
    by destruct (fn start end_ st) as [[] ?].
  - rewrite (npos_fits (upto text end_)) by (done || lia).
    set (e := find_first_of (upto text end_) delims start) in *. cbn [run_until].
    destruct (fn start e st) as [[] st']; [|done].
    assert (Hl : text !! Z.to_nat e = Some c).
    { apply suffix_head_lookup in Er. unfold upto in Er. by rewrite lookup_take_lt in Er by lia. }
    rewrite Hl. cbn [of_option mbind result_bind].
    destruct (Z.eqb_spec (uchar c) 0) as [E0|_].
    { exfalso. rewrite <- (of_uchar_uchar c), E0 in Hc. unfold delim in Hc.
      change (of_uchar 0) with "000"%char in Hc. congruence. }
    cbn [andb]. rewrite string_first_not_of_find by lia. cbn [mbind result_bind].
    destruct (next_start (upto text end_) delims e ltac:(lia)) as [[-> ->]|(Hn & Hgt & ->)].
    + destruct fuel; [lia|]. cbn [string_split_each_buf_loop].
      rewrite string_first_of_npos by done. cbn [mbind result_bind]. by rewrite Z.eqb_refl.
    + specialize (Hgt c r Er Hc). by rewrite IH by lia.
Qed.

(** [string_split_each] on the range [startIndex, endIndex) of a buffer
    reads nothing outside the range and calls its callback with the start and
    the end of each maximal run of non-delimiters in it, in order, until the
    callback answers [false]. *)
Theorem string_split_each_buf_correct {St} text startIndex endIndex delims
    (fn : Z -> Z -> St -> bool * St) st :
  0 <= startIndex <= endIndex -> endIndex <= ssize text -> endIndex < npos ->
  in_delims "000" delims = false ->
  string_split_each_buf text startIndex endIndex delims fn st =
  Ok (run_until fn (spans (delim delims) None startIndex
        (suffix (upto text endIndex) startIndex)) st).
Proof.
  intros Hs He Hnp Hnul. pose proof (ssize_upto text endIndex ltac:(lia)) as Hsz.
  unfold string_split_each_buf. rewrite string_first_not_of_find by lia. cbn [mbind result_bind].
  destruct (next_start (upto text endIndex) delims startIndex ltac:(lia))
    as [[-> ->]|(Hn & _ & ->)].
  - cbn [string_split_each_buf_loop]. rewrite string_first_of_npos by done.
    cbn [mbind result_bind]. by rewrite Z.eqb_refl.
  - apply string_split_each_buf_loop_spec; unfold ssize in *; (done || lia).
Qed.

Lemma string_split_each_buf_correct_witness :
  0 <= 1 <= 4 /\ 4 <= ssize (lit "xab,c") /\ 4 < npos /\ in_delims "000" (lit ",") = false /\
  string_split_each_buf (lit "xab,c") 1 4 (lit ",")
    (fun b e (l : list (Z * Z)) => (true, l ++ [(b, e)])) [] = Ok [(1, 3)].
Proof.
  split; [lia|]. split; [by vm_compute|]. split; [by vm_compute|]. split; [done|].
  rewrite (string_split_each_buf_correct (lit "xab,c") 1 4 (lit ",")
    (fun b e (l : list (Z * Z)) => (true, l ++ [(b, e)])) []); by vm_compute.
Defined.

(** ** Replacing *)

(** Every leftmost, non-overlapping occurrence of [search] replaced; [skip]
    counts the characters of the current occurrence still to drop. *)
Fixpoint replace_all (search rep : str) (skip : nat) (s : str) : str :=
  match s with
  | [] => []
  | c :: s' =>
      match skip with
      | S k => replace_all search rep k s'
      | O => if prefixb search s then rep ++ replace_all search rep (length search - 1) s'
             else c :: replace_all search rep 0 s'
      end
  end.

Lemma replace_all_skip search rep k s :
  replace_all search rep k s = replace_all search rep 0 (drop k s).
Proof. revert k. induction s as [|c s IH]; intros [|k]; cbn; auto. Qed.

Lemma prefixb_spec pat s : prefixb pat s = true <-> exists r, s = pat ++ r.
Proof.
  revert s. induction pat as [|c pat IH]; intros s; cbn; [naive_solver|].
  destruct s as [|d s]; [naive_solver|]. rewrite andb_true_iff, Ascii.eqb_eq, IH. naive_solver.
Qed.

Lemma search_idx_bound pat s i : search_idx pat s = Some i -> (i + length pat <= length s)%nat.
Proof.
  revert i. induction s as [|c s IH]; intros i.
  - cbn. destruct (prefixb pat []) eqn:E; [|done]. intros [= <-]. apply prefixb_spec in E as [r E].
    destruct pat; [cbn; lia|done].
  - cbn [search_idx]. destruct (prefixb pat (c :: s)) eqn:E.
    + intros [= <-]. apply prefixb_spec in E as [r ->]. rewrite length_app. lia.
    + destruct (search_idx pat s) as [k|]; [|done]. intros [= <-]. specialize (IH k eq_refl). cbn. lia.
Qed.

Lemma search_idx_occurs pat a b : search_idx pat (a ++ pat ++ b) <> None.
Proof.
  assert (forall s, prefixb pat (pat ++ s) = true) as Hp.
  { intros s. induction pat as [|c pat IH]; [done|]. cbn. by rewrite Ascii.eqb_refl, IH. }
  induction a as [|c a IH]; cbn [app].
  - specialize (Hp b). destruct (pat ++ b); cbn [search_idx]; by rewrite Hp.
  - cbn [search_idx]. destruct (prefixb _ _); [done|]. by destruct (search_idx pat (a ++ pat ++ b)).
Qed.

(** [find] answers [npos] exactly when the text does not occur. *)
Definition has_text (pat s : str) : Prop := exists a b, s = a ++ pat ++ b.

Lemma sfind_has_text pat s : fits s -> sfind s pat 0 <> npos <-> has_text pat s.
Proof.
  intros Hf. unfold sfind. rewrite suffix_0. replace (0 <=? ssize s) with true by (pose proof (ssize_nonneg s); lia). split.
  - destruct (search_idx pat s) as [i|] eqn:E; [|done]. intros _. revert i E. clear Hf.
    induction s as [|c s IH]; intros i E; cbn [search_idx] in E.
    + destruct (prefixb pat []) eqn:Ep; [|done]. apply prefixb_spec in Ep as [r Ep]. by exists [], r.
    + destruct (prefixb pat (c :: s)) eqn:Ep; [apply prefixb_spec in Ep as [r Ep]; by exists [], r|].
      destruct (search_idx pat s) as [j|]; [|done]. destruct (IH j eq_refl) as (a & b & ->). by exists (c :: a), b.
  - intros (a & b & Es). destruct (search_idx pat s) as [i|] eqn:E; [|subst s; by apply search_idx_occurs in E].
    apply search_idx_bound in E. unfold fits, ssize in Hf. cbn. lia.
Qed.

Lemma search_idx_replace search rep s :
  search <> [] ->
  match search_idx search s with
  | Some i => exists l r, s = l ++ search ++ r /\ length l = i /\
      replace_all search rep 0 s = l ++ rep ++ replace_all search rep 0 r
  | None => replace_all search rep 0 s = s
  end.
Proof.
  intros Hne. induction s as [|c s IH]; cbn [search_idx].
  - destruct (prefixb search []) eqn:E; [|done].
    apply prefixb_spec in E as [r E]. by destruct search.
  - cbn [replace_all]. destruct (prefixb search (c :: s)) eqn:E.
    + apply prefixb_spec in E as [r E]. exists [], r. split_and!; [done..|].
      rewrite replace_all_skip. destruct search as [|x search]; [done|].
      injection E as -> ->. cbn [length]. by rewrite Nat.sub_succ, Nat.sub_0_r, drop_app_length.
    + destruct (search_idx search s) as [i|]; cbn; [|by rewrite IH].
      destruct IH as (l & r & -> & <- & ->). by exists (c :: l), r.
Qed.

Lemma sfind_app done_ s pat :
  sfind (done_ ++ s) pat (ssize done_) =
  to_pos ((fun i => ssize done_ + Z.of_nat i) <$> search_idx pat s).
Proof.
  unfold sfind. pose proof (ssize_nonneg s). rewrite suffix_app, ssize_app.
  by replace (ssize done_ <=? ssize done_ + ssize s) with true by lia.
Qed.

Lemma sreplace_app done_ l pat r rep :
  sreplace (done_ ++ l ++ pat ++ r) (ssize (done_ ++ l)) (ssize pat) rep =
  Ok ((done_ ++ l ++ rep) ++ r).
Proof.
  rewrite !app_assoc. rewrite <- (app_assoc _ pat r). set (d := done_ ++ l).
  unfold sreplace. rewrite !ssize_app. pose proof (ssize_nonneg pat). pose proof (ssize_nonneg r).
  destruct (Z.ltb_spec (ssize d + (ssize pat + ssize r)) (ssize d)); [lia|].
  rewrite Z.min_l by lia. rewrite <- ssize_app, (app_assoc d), suffix_app, <- app_assoc.
  unfold ssize. by rewrite Nat2Z.id, take_app_length, <- !app_assoc.
Qed.

Lemma string_replace_loop_spec fuel search rep done_ s :
  search <> [] -> (length s < fuel)%nat ->
  ssize done_ + ssize s + ssize (replace_all search rep 0 s) < npos ->
  string_replace_loop fuel (done_ ++ s) search rep (ssize done_) =
  Ok (done_ ++ replace_all search rep 0 s).
Proof.
  intros Hne. revert done_ s. induction fuel as [|fuel IH]; intros done_ s Hf Hsz; [lia|].
  cbn [string_replace_loop]. rewrite sfind_app.
  pose proof (search_idx_replace search rep s Hne) as Hr.
  destruct (search_idx search s) as [i|]; cbn [fmap option_fmap option_map to_pos].
  - destruct Hr as (l & r & -> & <- & E). rewrite E in Hsz |- *.
    change (Z.of_nat (length l)) with (ssize l). rewrite <- ssize_app.
    rewrite !ssize_app in Hsz. pose proof (ssize_nonneg done_). pose proof (ssize_nonneg l).
    pose proof (ssize_nonneg search). pose proof (ssize_nonneg r). pose proof (ssize_nonneg rep).
    pose proof (ssize_nonneg (replace_all search rep 0 r)).
    destruct (Z.eqb_spec (ssize (done_ ++ l)) npos) as [E'|_]; [rewrite ssize_app in E'; lia|].
    rewrite sreplace_app. cbn [mbind result_bind].
    rewrite wrap_small by (unfold in_u, npos in *; rewrite ssize_app; lia).
    replace (ssize (done_ ++ l) + ssize rep) with (ssize (done_ ++ l ++ rep))
      by (rewrite !ssize_app; lia).
    rewrite IH; [by rewrite <- !app_assoc| |rewrite !ssize_app; lia].
    rewrite !length_app in Hf. destruct search; [done|cbn in Hf; lia].
  - by rewrite Z.eqb_refl, Hr.
Qed.

(** C12. With a non-empty search string [string_replace] terminates without
    an exception and replaces every leftmost, non-overlapping occurrence,
    never looking into text it has put in. *)
Theorem string_replace_correct subject search rep :
  search <> [] -> ssize subject + ssize (replace_all search rep 0 subject) < npos ->
  string_replace subject search rep = Ok (replace_all search rep 0 subject).
Proof.
  intros Hne Hsz. apply (string_replace_loop_spec _ search rep [] subject); [done|lia|].
  by rewrite ssize_nil, Z.add_0_l.
Qed.

Lemma string_replace_correct_witness :
  lit "a" <> [] /\ ssize (lit "banana") + ssize (replace_all (lit "a") (lit "aa") 0 (lit "banana")) < npos /\
  string_replace (lit "banana") (lit "a") (lit "aa") = Ok (lit "baanaanaa").
Proof.
  split; [done|]. split; [by vm_compute|].
  rewrite (string_replace_correct (lit "banana") (lit "a") (lit "aa")); [done|done|by vm_compute].
Defined.

(** With an empty search string the loop of [string_replace] does not
    end: however many iterations are run, it is still running, until the
    string would be longer than any string can be. *)
Theorem string_replace_empty_diverges fuel subject rep pos :
  0 <= pos <= ssize subject -> ssize subject + Z.of_nat fuel * ssize rep < npos ->
  string_replace_loop fuel subject [] rep pos = Err OutOfFuel.
Proof.
  revert subject pos. induction fuel as [|fuel IH]; intros subject pos Hpos Hsz; [done|].
  cbn [string_replace_loop]. unfold sfind. replace (pos <=? ssize subject) with true by lia.
  replace (search_idx [] (suffix subject pos)) with (Some O) by (by destruct (suffix subject pos)).
  cbn [fmap option_fmap option_map to_pos]. rewrite Z.add_0_r.
  pose proof (ssize_nonneg rep). destruct (Z.eqb_spec pos npos); [nia|].
  unfold sreplace. replace (ssize subject <? pos) with false by lia. cbn [mbind result_bind].
  rewrite ssize_nil, Z.min_l, Z.add_0_r by lia.
  assert (E : ssize (take (Z.to_nat pos) subject ++ rep ++ suffix subject pos) =
              ssize subject + ssize rep).
  { rewrite !ssize_app, ssize_suffix by lia. unfold ssize in *. rewrite length_take. lia. }
  rewrite wrap_small by (unfold in_u, npos in *; nia).
  apply IH; rewrite E; nia.
Qed.

Lemma string_replace_empty_diverges_witness :
  0 <= 0 <= ssize (lit "ab") /\ ssize (lit "ab") + Z.of_nat 1000 * ssize (lit "-") < npos /\
  string_replace_loop 1000 (lit "ab") [] (lit "-") 0 = Err OutOfFuel.
Proof.
  split; [by vm_compute|]. split; [by vm_compute|].
  apply (string_replace_empty_diverges 1000 (lit "ab") (lit "-") 0); by vm_compute.
Defined.

(** ** Splitting at a delimiter string *)

(** The fields between the occurrences of the character [d]. *)
Fixpoint fields (d : ascii) (cur s : str) : list str :=
  match s with
  | [] => [cur]
  | c :: s => if Ascii.eqb d c then cur :: fields d [] s else fields d (cur ++ [c]) s
  end.

(** The fields with [d] between each two. *)
Fixpoint intercalate (d : ascii) (fs : list str) : str :=
  match fs with
  | [] => []
  | [f] => f
  | f :: fs => f ++ d :: intercalate d fs
  end.

Lemma fields_nonempty d cur s : fields d cur s <> [].
Proof. revert cur. induction s as [|c s IH]; intros cur; cbn; [done|]. by destruct (Ascii.eqb d c). Qed.

Lemma intercalate_fields d cur s : intercalate d (fields d cur s) = cur ++ s.
Proof.
  revert cur. induction s as [|c s IH]; intros cur; cbn [fields].
  - cbn. by rewrite app_nil_r.
  - destruct (Ascii.eqb_spec d c) as [->|_].
    + specialize (IH []). pose proof (fields_nonempty c [] s). cbn.
      destruct (fields c [] s) as [|f fs]; [done|]. by rewrite IH.
    + rewrite IH. by rewrite <- app_assoc.
Qed.

Lemma fields_run d l s cur :
  Forall (fun c => Ascii.eqb d c = false) l -> fields d cur (l ++ s) = fields d (cur ++ l) s.
Proof.
  intros Hl. revert cur. induction Hl as [|c l Hc _ IH]; intros cur; cbn.
  - by rewrite app_nil_r.
  - by rewrite Hc, IH, <- app_assoc.
Qed.

Lemma search_idx_char d s : search_idx [d] s = find_idx (Ascii.eqb d) s.
Proof.
  induction s as [|c s IH]; [done|]. cbn. rewrite andb_true_r. destruct (Ascii.eqb d c); [done|].
  cbn in IH. by rewrite IH.
Qed.

(** [substr(previous, npos - previous)] is the rest of the string. *)
Lemma substr_to_npos pre r :
  fits (pre ++ r) -> substr (pre ++ r) (ssize pre) (u64 (npos - ssize pre)) = Ok r.
Proof.
  unfold fits. rewrite ssize_app. intros Hfit. pose proof (ssize_nonneg pre). pose proof (ssize_nonneg r).
  rewrite wrap_small by (unfold in_u, npos in *; lia). unfold substr. rewrite ssize_app, suffix_app.
  destruct (Z.ltb_spec (ssize pre + ssize r) (ssize pre)); [lia|].
  rewrite Z.min_r by lia. f_equal. apply take_ge. unfold ssize. lia.
Qed.

Lemma substr_middle pre l r :
  fits (pre ++ l ++ r) ->
  substr (pre ++ l ++ r) (ssize pre) (u64 (ssize pre + ssize l - ssize pre)) = Ok l.
Proof.
  intros Hfit. pose proof (ssize_nonneg pre). pose proof (ssize_nonneg l). pose proof (ssize_nonneg r).
  replace (ssize pre + ssize l - ssize pre) with (ssize l) by lia.
  assert (ssize (pre ++ l ++ r) = ssize pre + ssize l + ssize r) by (rewrite !ssize_app; lia).
  rewrite (u64_pos (pre ++ l ++ r)) by (done || lia).
  replace (ssize l) with (ssize pre + ssize l - ssize pre) by lia.
  rewrite substr_slice by lia. by rewrite slice_middle.
Qed.

Lemma string_split_delim_loop_spec fuel d pre r ret :
  fits (pre ++ r) -> (length r < fuel)%nat ->
  string_split_delim_loop fuel (pre ++ r) [d] (sfind (pre ++ r) [d] (ssize pre)) (ssize pre) ret
    ≫= string_split_delim_last (pre ++ r) = Ok (ret ++ fields d [] r).
Proof.
  revert pre r ret. induction fuel as [|fuel IH]; intros pre r ret Hfit Hf; [lia|].
  rewrite sfind_app, search_idx_char. cbn [string_split_delim_loop].
  destruct (find_idx (Ascii.eqb d) r) as [i|] eqn:E; cbn [fmap option_fmap option_map to_pos].
  - apply find_idx_Some in E as (l & c & r' & -> & <- & Hc & Hl).
    apply Ascii.eqb_eq in Hc as <-. rewrite fields_run by done. cbn [fields app].
    rewrite Ascii.eqb_refl. change (Z.of_nat (length l)) with (ssize l).
    assert (Hs : ssize (pre ++ l ++ d :: r') = ssize pre + ssize l + 1 + ssize r')
      by (rewrite !ssize_app, ssize_cons; lia).
    pose proof (ssize_nonneg pre). pose proof (ssize_nonneg l). pose proof (ssize_nonneg r').
    rewrite (npos_fits (pre ++ l ++ d :: r')) by (done || lia).
    rewrite substr_middle by done. cbn [mbind result_bind].
    rewrite (u64_pos (pre ++ l ++ d :: r')) by (done || lia).
    assert (E' : pre ++ l ++ d :: r' = (pre ++ l ++ [d]) ++ r') by by rewrite <- !app_assoc.
    replace (ssize pre + ssize l + 1) with (ssize (pre ++ l ++ [d]))
      by (rewrite !ssize_app; change (ssize [d]) with 1; lia).
    rewrite E' in Hfit |- *. rewrite IH; [by rewrite <- app_assoc|done|].
    rewrite length_app in Hf. cbn in Hf. lia.
  - apply find_idx_None in E. rewrite Z.eqb_refl. cbn [mbind result_bind string_split_delim_last].
    rewrite substr_to_npos by done. cbn.
    rewrite <- (app_nil_r r) at 2. by rewrite fields_run.
Qed.

(** With a one-character delimiter [string_split_delim_string] returns
    the fields between its occurrences, and putting the delimiter back
    between them gives the string again. *)
Theorem string_split_delim_string_char s d :
  fits s ->
  exists fs, string_split_delim_string s [d] = Ok fs /\ fs = fields d [] s /\ intercalate d fs = s.
Proof.
  intros Hfit. exists (fields d [] s). split_and!; [|done|by rewrite intercalate_fields].
  apply (string_split_delim_loop_spec _ d [] s []); [done|lia].
Qed.

Lemma string_split_delim_string_char_witness :
  fits (lit "a,b,,c") /\
  exists fs, string_split_delim_string (lit "a,b,,c") (lit ",") = Ok fs /\
    fs = fields "," [] (lit "a,b,,c") /\ intercalate "," fs = lit "a,b,,c".
Proof.
  split; [by vm_compute|].
  apply (string_split_delim_string_char (lit "a,b,,c") ","); by vm_compute.
Defined.

(** With a longer delimiter only its first character is skipped: when
    the delimiter [x :: d] stands once in the string, the token after it
    begins with the rest [d] of the delimiter. *)
Theorem string_split_delim_string_leak a x d b :
  fits (a ++ (x :: d) ++ b) ->
  search_idx (x :: d) (a ++ (x :: d) ++ b) = Some (length a) ->
  search_idx (x :: d) (d ++ b) = None ->
  string_split_delim_string (a ++ (x :: d) ++ b) (x :: d) = Ok [a; d ++ b].
Proof.
  intros Hfit H1 H2. unfold string_split_delim_string. set (s := a ++ (x :: d) ++ b) in *.
  assert (E : s = (a ++ [x]) ++ d ++ b) by (unfold s; by rewrite <- app_assoc).
  assert (Hs : ssize s = ssize a + 1 + ssize (d ++ b)).
  { rewrite E, !ssize_app. change (ssize [x]) with 1. lia. }
  pose proof (ssize_nonneg a). pose proof (ssize_nonneg (d ++ b)).
  replace (sfind s (x :: d) 0) with (ssize a)
    by (change 0 with (ssize []); change s with ([] ++ s) at 1; by rewrite sfind_app, H1).
  cbn [string_split_delim_loop]. rewrite (npos_fits s) by (done || lia).
  replace (substr s 0 (u64 (ssize a - 0))) with (Ok a : result stop str)
    by (symmetry; apply (substr_middle [] a ((x :: d) ++ b)); done).
  cbn [mbind result_bind app]. rewrite (u64_pos s) by (done || lia).
  replace (ssize a + 1) with (ssize (a ++ [x])) by (rewrite ssize_app; done).
  assert (sfind s (x :: d) (ssize (a ++ [x])) = npos) as -> by by rewrite E, sfind_app, H2.
  rewrite Z.eqb_refl. cbn [mbind result_bind string_split_delim_last].
  rewrite E in Hfit |- *. by rewrite substr_to_npos.
Qed.

Lemma string_split_delim_string_leak_witness :
  fits (lit "a" ++ (":"%char :: lit ":") ++ lit "b") /\
  string_split_delim_string (lit "a::b") (lit "::") = Ok [lit "a"; lit ":b"].
Proof.
  split; [by vm_compute|].
  apply (string_split_delim_string_leak (lit "a") ":" (lit ":") (lit "b")); by vm_compute.
Defined.

Lemma split_empty_delim_loop fuel s pos ret :
  fits s -> 0 <= pos <= ssize s -> ssize s - pos + 1 < Z.of_nat fuel ->
  string_split_delim_loop fuel s [] pos pos ret ≫= string_split_delim_last s =
  Err (Throw out_of_range).
Proof.
  intros Hfit. revert pos ret. induction fuel as [|fuel IH]; intros pos ret Hpos Hf; [lia|].
  cbn [string_split_delim_loop]. rewrite (npos_fits s) by done.
  unfold substr at 1. replace (ssize s <? pos) with false by lia. cbn [mbind result_bind].
  unfold fits in Hfit. rewrite (wrap_small 64 (pos + 1)) by (unfold in_u, npos in *; lia).
  unfold sfind. destruct (Z.leb_spec (pos + 1) (ssize s)).
  - replace (search_idx [] (suffix s (pos + 1))) with (Some O) by (by destruct (suffix s (pos + 1))).
    cbn [fmap option_fmap option_map to_pos]. rewrite Z.add_0_r. apply IH; [lia..].
  - destruct fuel; [lia|]. cbn [string_split_delim_loop]. rewrite Z.eqb_refl.
    cbn [mbind result_bind string_split_delim_last]. unfold substr.
    by replace (ssize s <? pos + 1) with true by lia.
Qed.

(** With an empty delimiter [string_split_delim_string] throws
    [std::out_of_range], whatever the string. *)
Theorem string_split_delim_string_empty s :
  fits s -> string_split_delim_string s [] = Err (Throw out_of_range).
Proof.
  intros Hfit. unfold string_split_delim_string. pose proof (ssize_nonneg s).
  replace (sfind s [] 0) with 0.
  - apply split_empty_delim_loop; unfold ssize in *; (done || lia).
  - unfold sfind. replace (0 <=? ssize s) with true by lia.
    by replace (search_idx [] (suffix s 0)) with (Some O) by (by destruct s).
Qed.

Lemma string_split_delim_string_empty_witness :
  fits (lit "abc") /\ string_split_delim_string (lit "abc") [] = Err (Throw out_of_range).
Proof. split; [by vm_compute|]. apply (string_split_delim_string_empty (lit "abc")). by vm_compute. Defined.

(** ** Trimming *)

Lemma sreplace_prefix a b : sreplace (a ++ b) 0 (ssize a) [] = Ok b.
Proof. apply (sreplace_app [] [] a b []). Qed.

(** Erasing to the end. *)
Lemma sreplace_to_end a b : fits (a ++ b) -> sreplace (a ++ b) (ssize a) npos [] = Ok a.
Proof.
  unfold fits, sreplace. rewrite !ssize_app. intros Hfit.
  pose proof (ssize_nonneg a). pose proof (ssize_nonneg b).
  destruct (Z.ltb_spec (ssize a + ssize b) (ssize a)); [lia|]. rewrite Z.min_r by lia.
  replace (ssize a + (ssize a + ssize b - ssize a)) with (ssize a + ssize b) by lia.
  rewrite <- suffix_suffix, suffix_app by lia. unfold suffix, ssize. cbn [app].
  by rewrite !Nat2Z.id, take_app_length, drop_all, app_nil_r.
Qed.

Lemma Forall_not_not_in t l :
  Forall (fun c => negb (in_delims c t) = false) l -> Forall (fun c => in_delims c t = true) l.
Proof. intros H. eapply Forall_impl; [exact H|]. by intros ? ?%negb_false_iff. Qed.

Lemma string_left_trim_spec s t :
  fits s ->
  exists l s', s = l ++ s' /\ string_left_trim s t = Ok s' /\
    Forall (fun c => in_delims c t = true) l /\
    (forall c r, s' = c :: r -> in_delims c t = false).
Proof.
  intros Hfit. unfold string_left_trim, serase, find_first_not_of. pose proof (ssize_nonneg s).
  destruct (find_from_cases (fun c => negb (in_delims c t)) s 0 ltac:(lia))
    as [[-> Hall]|(l & c & r & E & Hc & Hl & -> & _)]; rewrite suffix_0 in *.
  - exists s, []. rewrite app_nil_r. pose proof (sreplace_to_end [] s Hfit).
    split_and!; auto using Forall_not_not_in. done.
  - exists l, (c :: r). rewrite E, Z.add_0_l. split_and!; auto using Forall_not_not_in, sreplace_prefix.
    intros ? ? [= <- <-]. by apply negb_true_iff.
Qed.

Lemma string_right_trim_spec s t :
  fits s ->
  exists s' l, s = s' ++ l /\ string_right_trim s t = Ok s' /\
    Forall (fun c => in_delims c t = true) l /\
    (forall c r, s' = r ++ [c] -> in_delims c t = false).
Proof.
  intros Hfit. unfold string_right_trim, serase, find_last_not_of.
  destruct (find_idx _ (rev s)) as [i|] eqn:E; cbn [fmap option_fmap option_map to_pos].
  - apply find_idx_Some in E as (l & c & r & E & <- & Hc & Hl).
    apply (f_equal (@rev ascii)) in E. rewrite rev_involutive, rev_app_distr in E. cbn in E.
    exists (rev r ++ [c]), (rev l). split_and!; [done| |by apply Forall_not_not_in, Forall_rev|].
    + rewrite E in Hfit |- *. pose proof (ssize_nonneg (rev l)). pose proof (ssize_nonneg (rev r ++ [c])).
      rewrite (ssize_app _ (rev l)).
      replace (_ + ssize (rev l) - 1 - Z.of_nat (length l) + 1) with (ssize (rev r ++ [c]))
        by (unfold ssize; rewrite !length_rev; lia).
      rewrite (u64_pos _ _ Hfit) by (rewrite (ssize_app _ (rev l)); lia).
      by apply sreplace_to_end.
    + intros c' r' [_ <-]%app_inj_tail. by apply negb_true_iff.
  - apply find_idx_None in E. exists [], s. split_and!; [done| | |].
    + change (u64 (npos + 1)) with (ssize []). by apply (sreplace_to_end []).
    + rewrite <- (rev_involutive s). by apply Forall_not_not_in, Forall_rev.
    + by intros ? [].
Qed.

(** [string_trim] removes exactly the leading and the trailing
    characters of the set [t]: the string is what was removed around the
    result, which neither begins nor ends with a character of [t]. *)
Theorem string_trim_correct s t :
  fits s ->
  exists l s' r, s = l ++ s' ++ r /\ string_trim s t = Ok s' /\
    Forall (fun c => in_delims c t = true) (l ++ r) /\
    (forall c u, s' = c :: u -> in_delims c t = false) /\
    (forall c u, s' = u ++ [c] -> in_delims c t = false).
Proof.
  intros Hfit. unfold string_trim.
  destruct (string_right_trim_spec s t Hfit) as (s1 & r & -> & -> & Hr & Hr').
  assert (fits s1) by (unfold fits in *; rewrite ssize_app in Hfit; pose proof (ssize_nonneg r); lia).
  destruct (string_left_trim_spec s1 t) as (l & s' & -> & E & Hl & Hl'); [done|].
  exists l, s', r. cbn [mbind result_bind]. rewrite Forall_app, <- app_assoc.
  split_and!; auto. intros c u ->. apply (Hr' c (l ++ u)). by rewrite <- app_assoc.
Qed.

Lemma string_trim_correct_witness :
  fits (lit "  a b ") /\
  exists l s' r, lit "  a b " = l ++ s' ++ r /\ string_trim (lit "  a b ") (lit " ") = Ok s' /\
    Forall (fun c => in_delims c (lit " ") = true) (l ++ r) /\
    (forall c u, s' = c :: u -> in_delims c (lit " ") = false) /\
    (forall c u, s' = u ++ [c] -> in_delims c (lit " ") = false).
Proof. split; [by vm_compute|]. apply (string_trim_correct (lit "  a b ") (lit " ")). by vm_compute. Defined.

(** ** URL encoding *)

Definition hex_val (c : ascii) : option Z :=
  if isdigit c then Some (uchar c - uchar "0")
  else if between "A" "F" c then Some (uchar c - uchar "A" + 10)
  else None.

(** The decoder a server applies to what was encoded. *)
Fixpoint url_decode (s : str) : option str :=
  match s with
  | [] => Some []
  | "%"%char :: s1 =>
      match s1 with
      | a :: b :: s' =>
          h ← hex_val a; l ← hex_val b; t ← url_decode s'; Some (of_uchar (16 * h + l) :: t)
      | _ => None
      end
  | c :: s' => cons c <$> url_decode s'
  end.

Lemma hex_cases (P : Z -> Prop) : Forall P (seqZ 0 16) -> forall z, 0 <= z < 16 -> P z.
Proof. rewrite Forall_forall. intros H z Hz. apply H, elem_of_seqZ. lia. Qed.

Lemma hex_val_upper z : 0 <= z < 16 -> hex_val (hex_upper z) = Some z.
Proof. revert z. apply hex_cases. by repeat constructor. Qed.

Lemma hex_upper_plain z : 0 <= z < 16 -> url_plain (hex_upper z) || Ascii.eqb (hex_upper z) "%" = true.
Proof. revert z. apply hex_cases. by repeat constructor. Qed.

Lemma url_decode_plain c s : Ascii.eqb c "%" = false -> url_decode (c :: s) = cons c <$> url_decode s.
Proof. destruct c as [[] [] [] [] [] [] [] []]; done. Qed.

(** [string_url_encode] is undone by percent-decoding, so that it loses
    nothing, and what it writes are unreserved characters and '%' only. *)
Theorem string_url_encode_roundtrip s :
  url_decode (string_url_encode s) = Some s /\
  Forall (fun c => url_plain c || Ascii.eqb c "%" = true) (string_url_encode s).
Proof.
  induction s as [|c s [IH1 IH2]]; [done|]. cbn [string_url_encode].
  destruct (url_plain c) eqn:Hp.
  - cbn [app]. rewrite url_decode_plain, IH1.
    + split; [done|]. constructor; [by rewrite Hp|done].
    + destruct (Ascii.eqb_spec c "%") as [->|]; [by vm_compute in Hp|done].
  - pose proof (uchar_range c) as Hr. unfold in_u in Hr.
    assert (0 <= uchar c / 16 < 16 /\ 0 <= uchar c mod 16 < 16) as [Hh Hl]
      by (Z.to_euclidean_division_equations; lia).
    cbn [app url_decode]. rewrite !hex_val_upper, IH1 by done. cbn. split.
    + by rewrite <- Z.div_mod, of_uchar_uchar by lia.
    + repeat constructor; auto using hex_upper_plain.
Qed.

(** ** Line offsets *)

Definition is_newline (c : ascii) : bool := is_cr c || is_lf c.

(** A line terminator [nl] as the code sees it before [rest]: a lone CR, a
    lone LF or CR LF. *)
Definition terminates (nl rest : str) : Prop :=
  (exists c, nl = [c] /\ is_newline c = true /\
     (is_cr c = true -> forall c' r, rest = c' :: r -> is_lf c' = false)) \/
  nl = crlf.

Lemma line_offset_skip l r line first cur index :
  Forall (fun c => is_newline c = false) l ->
  first <= cur -> 0 <= cur -> cur + ssize l <= index -> index < 2 ^ 32 ->
  line_offset_loop (l ++ r) line first cur index = line_offset_loop r line first (cur + ssize l) index.
Proof.
  intros Hl. revert cur. induction Hl as [|c l Hc Hl IH]; intros cur H1 H2 H3 H4.
  - by rewrite ssize_nil, Z.add_0_r.
  - rewrite ssize_cons in *. pose proof (ssize_nonneg l). cbn [app line_offset_loop].
    unfold is_newline in Hc. rewrite Hc.
    replace (index <=? cur) with false by lia. rewrite andb_false_r.
    rewrite wrap_small by (unfold in_u; lia). rewrite IH by lia. f_equal. lia.
Qed.

Lemma line_offset_here r line first cur index :
  first <= index -> index <= cur -> line_offset_loop r line first cur index = (line, u32 (index - first)).
Proof.
  intros. destruct r as [|c r]; [done|]. cbn [line_offset_loop].
  by replace ((first <=? index) && (index <=? cur)) with true by lia.
Qed.

(** No later line contains an index before its start. *)
Lemma line_offset_past r line first cur index :
  Forall (fun c => is_newline c = false) r -> index < first ->
  line_offset_loop r line first cur index = (line, u32 (index - first)).
Proof.
  intros Hr Hi. revert cur. induction Hr as [|c r Hc Hr IH]; intros cur; [done|].
  cbn [line_offset_loop]. unfold is_newline in Hc. rewrite Hc.
  replace (first <=? index) with false by lia. apply IH.
Qed.

(** [string_convert_index_to_line_offset] on a string whose first line
    [l] ends with the terminator [nl]: an index in the first line is found at
    line 0 with itself as the offset; an index after the terminator is given
    line 1 and its distance to the start of the second line, also when it
    lies lines further down. *)
Theorem string_convert_index_two_lines l nl rest index :
  Forall (fun c => is_newline c = false) l -> terminates nl rest ->
  0 <= index < 2 ^ 32 -> ssize l + ssize nl < 2 ^ 32 ->
  (index <= ssize l ->
     string_convert_index_to_line_offset (l ++ nl ++ rest) index = (0, index)) /\
  (ssize l + ssize nl <= index ->
     string_convert_index_to_line_offset (l ++ nl ++ rest) index =
     (1, index - (ssize l + ssize nl))).
Proof.
  intros Hl Hnl Hi Hsz. unfold string_convert_index_to_line_offset.
  pose proof (ssize_nonneg l). pose proof (ssize_nonneg nl). split; intros Hle.
  - rewrite <- (take_drop (Z.to_nat index) l), <- app_assoc.
    assert (ssize (take (Z.to_nat index) l) = index) as E
      by (unfold ssize in *; rewrite length_take; lia).
    rewrite line_offset_skip by (try apply Forall_take; (done || lia)).
    rewrite line_offset_here by lia. by rewrite Z.sub_0_r, wrap_small.
  - assert (0 < ssize nl) by (destruct Hnl as [(c & -> & _)| ->]; done).
    rewrite line_offset_skip by (done || lia). rewrite Z.add_0_l.
    assert (Hw : u32 (index - (ssize l + ssize nl)) = index - (ssize l + ssize nl))
      by (apply wrap_small; unfold in_u; lia).
    destruct Hnl as [(c & -> & Hc & Hlone)| ->]; cbn [app crlf line_offset_loop] in *;
      replace (index <=? ssize l) with false by lia; rewrite andb_false_r.
    + unfold is_newline in Hc. rewrite Hc. change (ssize [c]) with 1 in *.
      rewrite (wrap_small 32 (ssize l + 1)) by (unfold in_u; lia).
      replace (ssize l + 1 <=? index) with true by lia. rewrite Hw.
      destruct rest as [|c' rest]; [done|]. destruct (is_cr c) eqn:Ecr; [|done].
      by rewrite (Hlone eq_refl c' rest eq_refl).
    + change (ssize crlf) with 2 in *. cbn.
      rewrite (wrap_small 32 (ssize l + 2)) by (unfold in_u; lia).
      replace (ssize l + 2 <=? index) with true by lia. by rewrite Hw.
Qed.

Definition lf : str := ["010"%char].

(** The character 'c' of "a\nb\nc" is on line 2, at offset 0; the function
    answers line 1, offset 2. *)
Lemma string_convert_index_two_lines_witness :
  Forall (fun c => is_newline c = false) (lit "a") /\ terminates lf (lit "b" ++ lf ++ lit "c") /\
  0 <= 4 < 2 ^ 32 /\ ssize (lit "a") + ssize lf < 2 ^ 32 /\ ssize (lit "a") + ssize lf <= 4 /\
  string_convert_index_to_line_offset (lit "a" ++ lf ++ lit "b" ++ lf ++ lit "c") 4 = (1, 2).
Proof.
  assert (H1 : Forall (fun c => is_newline c = false) (lit "a")) by by repeat constructor.
  assert (H2 : terminates lf (lit "b" ++ lf ++ lit "c")) by (left; by exists "010"%char).
  do 5 (split; [done|]).
  apply (string_convert_index_two_lines (lit "a") lf (lit "b" ++ lf ++ lit "c") 4); done.
Defined.

(** An index that points at the LF of a CR LF ending the first line is
    in no line for the code: with no further line terminator the offset wraps
    around to 2^32 - 1. *)
Theorem string_convert_index_inside_crlf l rest :
  Forall (fun c => is_newline c = false) (l ++ rest) ->
  ssize l + 2 + ssize rest < 2 ^ 32 ->
  string_convert_index_to_line_offset (l ++ crlf ++ rest) (ssize l + 1) = (1, 2 ^ 32 - 1).
Proof.
  intros [Hl Hr]%Forall_app Hsz. pose proof (ssize_nonneg l). pose proof (ssize_nonneg rest).
  unfold string_convert_index_to_line_offset. rewrite line_offset_skip by (done || lia).
  rewrite Z.add_0_l. cbn [app crlf line_offset_loop].
  replace (ssize l + 1 <=? ssize l) with false by lia. rewrite andb_false_r. cbn.
  rewrite (wrap_small 32 (ssize l + 2)) by (unfold in_u; lia).
  replace (ssize l + 2 <=? ssize l + 1) with false by lia.
  change (u32 1) with 1.
  rewrite line_offset_past by (done || lia). by replace (ssize l + 1 - (ssize l + 2)) with (-1) by lia.
Qed.

Lemma string_convert_index_inside_crlf_witness :
  Forall (fun c => is_newline c = false) (lit "a" ++ lit "b") /\
  ssize (lit "a") + 2 + ssize (lit "b") < 2 ^ 32 /\
  string_convert_index_to_line_offset (lit "a" ++ crlf ++ lit "b") 2 = (1, 2 ^ 32 - 1).
Proof.
  assert (H : Forall (fun c => is_newline c = false) (lit "a" ++ lit "b")) by by repeat constructor.
  split; [done|]. split; [done|]. apply (string_convert_index_inside_crlf (lit "a") (lit "b")); done.
Defined.

(** ** UTF-8 length *)

(** No four continuation bytes in a row; [k] counts those just seen. *)
Fixpoint short_runs (k : nat) (s : str) : bool :=
  match s with
  | [] => true
  | c :: s => if is_continuation c then (k <? 3)%nat && short_runs (S k) s else short_runs 0 s
  end.

Definition ends_in_continuation (s : str) : bool :=
  match last s with Some c => is_continuation c | None => false end.

Lemma utf8_inner_spec k s :
  short_runs k s = true -> (k <= 3)%nat -> s <> [] ->
  exists l r, s = l ++ r /\ l <> [] /\ short_runs 0 r = true /\
    utf8_inner s (1 + Z.of_nat k) =
    (Z.of_nat k + ssize l + (if ends_in_continuation l then 1 else 0), r) /\
    (r = [] \/ ends_in_continuation l = false).
Proof.
  revert k. induction s as [|c s IH]; intros k Hs Hk Hne; [done|].
  cbn [short_runs utf8_inner] in *. replace (1 + Z.of_nat k <=? 4) with true by lia.
  destruct (is_continuation c) eqn:Hc; cbn [negb].
  - apply andb_true_iff in Hs as [Hlt Hs]. apply Nat.ltb_lt in Hlt.
    destruct (decide (s = [])) as [->|Hne'].
    + exists [c], []. unfold ends_in_continuation, ssize. cbn. rewrite Hc.
      split_and!; [done..| |by left]. f_equal. lia.
    + destruct (IH (S k) Hs ltac:(lia) Hne') as (l & r & -> & Hl & Hr & E & Hend).
      exists (c :: l), r. assert (ends_in_continuation (c :: l) = ends_in_continuation l) as ->
        by (destruct l; done).
      split_and!; [done..| |done].
      replace (1 + Z.of_nat k + 1) with (1 + Z.of_nat (S k)) by lia. rewrite E.
      rewrite ssize_cons. f_equal. lia.
  - exists [c], s. unfold ends_in_continuation, ssize. cbn. rewrite Hc.
    split_and!; [done..| |by right]. f_equal. lia.
Qed.

Lemma utf8_outer_spec fuel s n :
  short_runs 0 s = true -> (length s <= fuel)%nat -> 0 <= n -> n + ssize s + 1 < 2 ^ 64 ->
  utf8_outer fuel s n = n + ssize s + (if ends_in_continuation s then 1 else 0).
Proof.
  revert s n. induction fuel as [|fuel IH]; intros s n Hs Hf Hn Hsz.
  - destruct s; [|cbn in Hf; lia]. cbn. change (ssize []) with 0. lia.
  - destruct (decide (s = [])) as [->|Hne]; [cbn; change (ssize []) with 0; lia|].
    destruct (utf8_inner_spec 0 s Hs ltac:(lia) Hne) as (l & r & -> & Hl & Hr & E & Hend).
    change (1 + Z.of_nat 0) with 1 in E. cbn [utf8_outer].
    assert (0 < length l)%nat by (destruct l; cbn; [done|lia]).
    rewrite E. destruct (l ++ r) eqn:El; [by destruct l|]. rewrite <- El in *. clear El.
    rewrite ssize_app in *. rewrite length_app in Hf. pose proof (ssize_nonneg r).
    assert (ends_in_continuation (l ++ r) =
      match r with [] => ends_in_continuation l | _ => ends_in_continuation r end) as ->.
    { destruct r as [|c r]; [by rewrite app_nil_r|].
      unfold ends_in_continuation. by rewrite last_app_cons. }
    rewrite wrap_small by (unfold in_u, ssize in *; destruct (ends_in_continuation l); lia).
    destruct (decide (r = [])) as [->|Hr'].
    + destruct fuel; cbn; change (ssize []) with 0; lia.
    + destruct Hend as [->| Hend]; [done|]. rewrite Hend in *.
      rewrite IH by (unfold ssize in *; (done || lia)). destruct r; [done|]. lia.
Qed.

(** [string_utf8_length] counts bytes, not characters, and one byte too
    many when the text ends with a multi-byte character: for a text without
    four continuation bytes in a row it is the number of bytes, plus one if
    the last byte is a continuation byte. *)
Theorem string_utf8_length_counts s :
  short_runs 0 s = true -> ssize s + 1 < 2 ^ 64 ->
  string_utf8_length s = ssize s + (if ends_in_continuation s then 1 else 0).
Proof. intros. unfold string_utf8_length. by rewrite utf8_outer_spec by (done || lia). Qed.

(** One character, two bytes, length 3. *)
Lemma string_utf8_length_counts_witness :
  short_runs 0 [of_uchar 0xc3; of_uchar 0xa9] = true /\
  ssize [of_uchar 0xc3; of_uchar 0xa9] + 1 < 2 ^ 64 /\
  string_utf8_length [of_uchar 0xc3; of_uchar 0xa9] = 3.
Proof.
  split; [done|]. split; [done|].
  apply (string_utf8_length_counts [of_uchar 0xc3; of_uchar 0xa9]); done.
Defined.

(** ** Interned strings *)

(** Strings whose length is an [int]. *)
Definition int_sized (s : str) : Prop := ssize s < 2 ^ 31.

(** The lookup tables the program can have: empty, then one entry for each
    [StringId] made from a string. *)
Inductive table_reachable : gmap Z str -> Prop :=
| table_empty : table_reachable ∅
| table_make look s i look' :
    table_reachable look -> int_sized s -> StringId_make s look = Some (i, look') ->
    table_reachable look'.

Lemma StringId_make_inv s look i look' :
  StringId_make s look = Some (i, look') ->
  murmur_hash s (i32 (ssize s)) 0 = Some (id i) /\ look' = <[id i := s]> look.
Proof.
  unfold StringId_make. destruct (murmur_hash _ _ _) as [h|] eqn:E; cbn; [|done].
  by intros [= <- <-].
Qed.

Lemma table_sound look :
  table_reachable look ->
  forall k s, look !! k = Some s -> murmur_hash s (i32 (ssize s)) 0 = Some k.
Proof.
  induction 1 as [|look s i look' _ IH Hs Hm]; intros k s' Hk; [by rewrite lookup_empty in Hk|].
  apply StringId_make_inv in Hm as [Hh ->]. rewrite lookup_insert in Hk.
  case_decide; naive_solver.
Qed.

(** C20. In every table the program can reach, making a [StringId] succeeds
    for a string whose length is an [int], its [ToString] is the string, and
    every other entry keeps its text; and every entry of the table stands
    under the hash of its text. *)
Theorem StringId_make_correct look s :
  table_reachable look -> int_sized s ->
  exists i look', StringId_make s look = Some (i, look') /\ table_reachable look' /\
    StringId_ToString i look' = s /\
    (forall j, StringId_eqb i j = false -> StringId_ToString j look' = StringId_ToString j look) /\
    (forall k t, look' !! k = Some t -> murmur_hash t (i32 (ssize t)) 0 = Some k).
Proof.
  intros Hl Hs. destruct (StringId_make s look) as [[i look']|] eqn:E.
  - exists i, look'. assert (Hl' : table_reachable look') by by eapply table_make.
    split_and!; [done..| | |by apply table_sound].
    + apply StringId_make_inv in E as [_ ->]. unfold StringId_ToString. by rewrite lookup_insert_eq.
    + intros j Hj. apply StringId_make_inv in E as [_ ->]. unfold StringId_ToString, StringId_eqb in *.
      by rewrite lookup_insert_ne by lia.
  - exfalso. unfold StringId_make in E.
    destruct (murmur_hash s (i32 (ssize s)) 0) as [h|] eqn:Eh; cbn in E; [done|].
    pose proof (ssize_nonneg s). unfold int_sized in Hs.
    assert (Hi : i32 (ssize s) = ssize s).
    { unfold swrap. rewrite Z.mod_small by lia. lia. }
    rewrite Hi in Eh. pose proof (murmur_hash_is_Some s (ssize s) 0) as H'.
    rewrite Eh in H'. unfold ssize in *. destruct H' as [_ H']; [lia|by vm_compute|].
    destruct H' as [? ?]; [lia|done].
Qed.

Lemma StringId_make_correct_witness :
  table_reachable ∅ /\ int_sized (lit "murmur") /\
  exists i look', StringId_make (lit "murmur") ∅ = Some (i, look') /\ table_reachable look' /\
    StringId_ToString i look' = lit "murmur" /\
    (forall j, StringId_eqb i j = false -> StringId_ToString j look' = StringId_ToString j ∅) /\
    (forall k t, look' !! k = Some t -> murmur_hash t (i32 (ssize t)) 0 = Some k).
Proof.
  split; [constructor|]. split; [by vm_compute|].
  apply (StringId_make_correct ∅ (lit "murmur")); [constructor|by vm_compute].
Defined.
