(* ===== verification/ListItem.v ===== *)
(** * Intrusive doubly-linked lists

    The list functions of src/thread/mempool.cpp on the structures
    [IListItem] and [IMemoryPool] of include/mutils/thread/mempool.h.  The
    heap maps addresses to objects; [derived] and [pool_derived] hold what
    the classes that inherit from the two structures add.  A null or dangling
    pointer that is followed is undefined behaviour ([UB]); assertions are
    checked when [NDEBUG] is [false]. *)

From S2P Require Import Prelude.

Abbreviation ptr := positive.

Record IListItem (A : Type) : Type := mkItem {
  m_pPool : option ptr;
  m_pNext : option ptr;
  m_pPrevious : option ptr;
  derived : A }.
Arguments mkItem {A}.
Arguments m_pPool {A}.
Arguments m_pNext {A}.
Arguments m_pPrevious {A}.
Arguments derived {A}.

Record IMemoryPool (B : Type) : Type := mkPool {
  m_pRoot : option ptr;
  m_pLast : option ptr;
  pool_derived : B }.
Arguments mkPool {B}.
Arguments m_pRoot {B}.
Arguments m_pLast {B}.
Arguments pool_derived {B}.

Record heap (A B : Type) : Type := mkHeap {
  items : gmap ptr (IListItem A);
  pools : gmap ptr (IMemoryPool B) }.
Arguments mkHeap {A B}.
Arguments items {A B}.
Arguments pools {A B}.

Section Code.
Context {A B : Type} (NDEBUG : bool).
Abbreviation M := (ST (heap A B)).

(** ** Reads and writes through a pointer *)

Definition get_item (p : option ptr) : M (IListItem A) :=
  p ← st_some p; h ← st_get; st_some (items h !! p).

Definition set_item (p : option ptr) (f : IListItem A -> IListItem A) : M unit :=
  p ← st_some p; h ← st_get; it ← st_some (items h !! p);
  st_put (mkHeap (<[p := f it]> (items h)) (pools h)).

Definition get_pool (q : option ptr) : M (IMemoryPool B) :=
  q ← st_some q; h ← st_get; st_some (pools h !! q).

Definition set_pool (q : option ptr) (f : IMemoryPool B -> IMemoryPool B) : M unit :=
  q ← st_some q; h ← st_get; P ← st_some (pools h !! q);
  st_put (mkHeap (items h) (<[q := f P]> (pools h))).

Definition load_pool (p : option ptr) : M (option ptr) := it ← get_item p; mret (m_pPool it).
Definition load_next (p : option ptr) : M (option ptr) := it ← get_item p; mret (m_pNext it).
Definition load_prev (p : option ptr) : M (option ptr) := it ← get_item p; mret (m_pPrevious it).
Definition load_root (q : option ptr) : M (option ptr) := P ← get_pool q; mret (m_pRoot P).
Definition load_last (q : option ptr) : M (option ptr) := P ← get_pool q; mret (m_pLast P).

Definition with_next (v : option ptr) (it : IListItem A) : IListItem A :=
  mkItem (m_pPool it) v (m_pPrevious it) (derived it).
Definition with_prev (v : option ptr) (it : IListItem A) : IListItem A :=
  mkItem (m_pPool it) (m_pNext it) v (derived it).
Definition with_root (v : option ptr) (P : IMemoryPool B) : IMemoryPool B :=
  mkPool v (m_pLast P) (pool_derived P).
Definition with_last (v : option ptr) (P : IMemoryPool B) : IMemoryPool B :=
  mkPool (m_pRoot P) v (pool_derived P).

Definition store_next (p v : option ptr) : M unit := set_item p (with_next v).
Definition store_prev (p v : option ptr) : M unit := set_item p (with_prev v).
Definition store_root (q v : option ptr) : M unit := set_pool q (with_root v).
Definition store_last (q v : option ptr) : M unit := set_pool q (with_last v).

Definition is_null (p : option ptr) : bool := match p with None => true | Some _ => false end.
Definition ptr_eqb (p q : option ptr) : bool := bool_decide (p = q).

(** [assert(pPool->m_pRoot->m_pPrevious == nullptr)] and
    [assert(pPool->m_pLast->m_pNext == nullptr)] *)
Definition assert_root_first (pPool : option ptr) : M unit :=
  st_assert NDEBUG (r ← load_root pPool; p ← load_prev r; mret (is_null p)).
Definition assert_last_last (pPool : option ptr) : M unit :=
  st_assert NDEBUG (l ← load_last pPool; n ← load_next l; mret (is_null n)).

(** ** The list functions *)

Fixpoint list_root_loop (fuel : nat) (pCheck pEvent : option ptr) : M (option ptr) :=
  match fuel with
  | O => st_fail OutOfFuel
  | S fuel =>
      prev ← load_prev pEvent;
      if is_null prev then mret pEvent
      else
        let pEvent := prev in
        st_assert NDEBUG (mret (negb (ptr_eqb pEvent pCheck)));;
        list_root_loop fuel pCheck pEvent
  end.

Definition list_root (fuel : nat) (pEvent : option ptr) : M (option ptr) :=
  list_root_loop fuel pEvent pEvent.

Fixpoint list_end (fuel : nat) (pEvent : option ptr) : M (option ptr) :=
  match fuel with
  | O => st_fail OutOfFuel
  | S fuel =>
      next ← load_next pEvent;
      if is_null next then mret pEvent else list_end fuel next
  end.

Definition list_insert_before (pPos pInsert : option ptr) : M unit :=
  pPool ← load_pool pInsert;
  if is_null pPos then
    if negb (is_null pPool) then
      st_assert NDEBUG (r ← load_root pPool; mret (is_null r));;
      st_assert NDEBUG (l ← load_last pPool; mret (is_null l));;
      store_root pPool pInsert;;
      store_last pPool pInsert
    else st_assert NDEBUG (mret false)
  else
    pBefore ← load_prev pPos;
    store_prev pPos pInsert;;
    store_prev pInsert pBefore;;
    (if negb (is_null pBefore) then store_next pBefore pInsert else mret tt);;
    store_next pInsert pPos;;
    if negb (is_null pPool) then
      root ← load_root pPool;
      if ptr_eqb root pPos then
        store_root pPool pInsert;;
        assert_root_first pPool;;
        assert_last_last pPool
      else mret tt
    else mret tt.

(** [list_insert_after] from "Making a new end" on. *)
Definition list_link_after (pPool pPos pInsert : option ptr) : M unit :=
  (if negb (is_null pPool) then
     last ← load_last pPool;
     if ptr_eqb last pPos then store_last pPool pInsert else mret tt
   else mret tt);;
  pAfter ← load_next pPos;
  store_next pPos pInsert;;
  store_prev pInsert pPos;;
  (if negb (is_null pAfter) then store_prev pAfter pInsert else mret tt);;
  store_next pInsert pAfter;;
  if negb (is_null pPool) then
    assert_root_first pPool;;
    assert_last_last pPool
  else mret tt.

Definition list_insert_after (pPos pInsert : option ptr) : M unit :=
  pPool ← load_pool pInsert;
  if is_null pPos then
    if negb (is_null pPool) then
      root ← load_root pPool;
      if negb (is_null root) then list_insert_before root pInsert
      else
        st_assert NDEBUG (l ← load_last pPool; mret (is_null l));;
        store_root pPool pInsert;;
        store_last pPool pInsert
    else
      st_assert NDEBUG (mret false);;
      list_link_after pPool pPos pInsert
  else list_link_after pPool pPos pInsert.

(** The end of [list_disconnect]: the pool's first and last items have no
    predecessor and no successor. *)
Definition list_trim_ends (pPool : option ptr) : M unit :=
  if negb (is_null pPool) then
    root ← load_root pPool;
    (if negb (is_null root) then store_prev root None else mret tt);;
    last ← load_last pPool;
    if negb (is_null last) then store_next last None else mret tt
  else mret tt.

Definition list_disconnect (pEvent : option ptr) : M (option ptr) :=
  pPool ← load_pool pEvent;
  (if negb (is_null pPool) then
     root ← load_root pPool;
     (if ptr_eqb pEvent root then
        next ← load_next pEvent;
        if negb (is_null next) then store_root pPool next else store_root pPool None
      else mret tt);;
     last ← load_last pPool;
     if ptr_eqb pEvent last then
       prev ← load_prev pEvent;
       if negb (is_null prev) then store_last pPool prev else store_last pPool None
     else mret tt
   else mret tt);;
  pNext ← load_next pEvent;
  prev ← load_prev pEvent;
  (if negb (is_null prev) then store_next prev pNext else mret tt);;
  (if negb (is_null pNext) then
     prev ← load_prev pEvent; store_prev pNext prev
   else mret tt);;
  store_prev pEvent None;;
  store_next pEvent None;;
  list_trim_ends pPool;;
  mret pNext.

(** [while (pBegin && pBegin->m_pPrevious) pBegin = pBegin->m_pPrevious] *)
Fixpoint walk_back (fuel : nat) (pBegin : option ptr) : M (option ptr) :=
  match fuel with
  | O => st_fail OutOfFuel
  | S fuel =>
      prev ← load_prev pBegin;
      if is_null prev then mret pBegin else walk_back fuel prev
  end.

(** [list_disconnect_range] once both ends are known. The debug assertion
    assigns to [pPool]. *)
Definition list_cut_range (pBegin pEnd : option ptr) : M (option ptr) :=
  pPool ← load_pool pBegin;
  pPool ← (if NDEBUG then mret pPool
           else pPool ← load_pool pEnd;
                if is_null pPool then st_fail AssertFail else mret pPool);
  root ← load_root pPool;
  (if ptr_eqb pBegin root then
     next ← load_next pBegin;
     (if negb (is_null next) then store_root pPool next else store_root pPool None);;
     st_assert NDEBUG (r ← load_root pPool;
                       if is_null r then mret true else p ← load_prev r; mret (is_null p))
   else mret tt);;
  last ← load_last pPool;
  (if ptr_eqb pEnd last then
     prev ← load_prev pEnd;
     (if negb (is_null prev) then store_last pPool prev else store_last pPool None);;
     st_assert NDEBUG (l ← load_last pPool;
                       if is_null l then mret true else n ← load_next l; mret (is_null n))
   else mret tt);;
  pNext ← load_next pEnd;
  st_assert NDEBUG (mret (negb (ptr_eqb pBegin pEnd)));;
  prev ← load_prev pBegin;
  (if negb (is_null prev) then
     next ← load_next pEnd; store_next prev next
   else mret tt);;
  next ← load_next pEnd;
  (if negb (is_null next) then
     prev ← load_prev pBegin; store_prev next prev
   else mret tt);;
  store_prev pBegin None;;
  store_next pEnd None;;
  mret pNext.

Definition list_disconnect_range (fuel : nat) (pBegin pEnd : option ptr) : M (option ptr) :=
  if is_null pEnd && is_null pBegin then st_assert NDEBUG (mret false);; mret None
  else
    pEnd ← (if is_null pEnd then list_end fuel pBegin else mret pEnd);
    pBegin ← (if is_null pBegin then walk_back fuel pEnd else mret pBegin);
    list_cut_range pBegin pEnd.

End Code.

(** ** The list a pool holds *)

Section Theory.
Context {A B : Type}.
Implicit Types (h : heap A B) (l : list ptr).

Definition first_of (l : list ptr) (nxt : option ptr) : option ptr :=
  match l with p :: _ => Some p | [] => nxt end.

Definition last_of (prev : option ptr) (l : list ptr) : option ptr :=
  match last l with Some p => Some p | None => prev end.

(** The items of [l] are linked in order in pool [q], between [prev] and [nxt]. *)
Fixpoint dseg (m : gmap ptr (IListItem A)) (q : ptr) (prev : option ptr) (l : list ptr)
    (nxt : option ptr) : Prop :=
  match l with
  | [] => True
  | p :: l =>
      (exists a, m !! p = Some (mkItem (Some q) (first_of l nxt) prev a)) /\
      dseg m q (Some p) l nxt
  end.

(** Pool [q] holds the list [l]. *)
Definition dlist (h : heap A B) (q : ptr) (l : list ptr) : Prop :=
  NoDup l /\ dseg (items h) q None l None /\
  exists b, pools h !! q = Some (mkPool (head l) (last l) b).

(** An item of pool [q] in no list. *)
Definition detached (h : heap A B) (q p : ptr) : Prop :=
  exists a, items h !! p = Some (mkItem (Some q) None None a).

(** [h'] has the objects of [h], with the same derived parts and pools; items outside
    [touched] and pools other than [q] are the same altogether. *)
Definition frame (q : ptr) (touched : list ptr) (h h' : heap A B) : Prop :=
  (forall p, p ∉ touched -> items h' !! p = items h !! p) /\
  (forall p, derived <$> items h' !! p = derived <$> items h !! p) /\
  (forall p, m_pPool <$> items h' !! p = m_pPool <$> items h !! p) /\
  (forall q', q' <> q -> pools h' !! q' = pools h !! q') /\
  pool_derived <$> pools h' !! q = pool_derived <$> pools h !! q.

Lemma dseg_frame m m' q prev l nxt :
  (forall p, p ∈ l -> m' !! p = m !! p) -> dseg m q prev l nxt -> dseg m' q prev l nxt.
Proof.
  revert prev. induction l as [|p l IH]; intros prev E; [done|]. cbn. intros [[a Ha] Hl]. split.
  - exists a. rewrite E by set_solver. done.
  - apply IH; [set_solver|done].
Qed.

Lemma last_of_cons prev p l : last_of prev (p :: l) = last_of (Some p) l.
Proof. unfold last_of. rewrite last_cons. by destruct (last l). Qed.

Lemma dseg_app m q prev l1 l2 nxt :
  dseg m q prev (l1 ++ l2) nxt <->
  dseg m q prev l1 (first_of l2 nxt) /\ dseg m q (last_of prev l1) l2 nxt.
Proof.
  revert prev. induction l1 as [|p l1 IH]; intros prev; [cbn; naive_solver|].
  cbn [app dseg]. rewrite last_of_cons, IH.
  assert (first_of (l1 ++ l2) nxt = first_of l1 (first_of l2 nxt)) as -> by by destruct l1.
  naive_solver.
Qed.

Lemma dseg_snoc m q prev l p nxt :
  dseg m q prev (l ++ [p]) nxt <->
  dseg m q prev l (Some p) /\ exists a, m !! p = Some (mkItem (Some q) nxt (last_of prev l) a).
Proof. rewrite dseg_app. cbn. naive_solver. Qed.

Lemma dseg_lookup m q prev l nxt p :
  dseg m q prev l nxt -> p ∈ l -> exists it, m !! p = Some it /\ m_pPool it = Some q.
Proof.
  revert prev. induction l as [|x l IH]; intros prev; [set_solver|].
  cbn. intros [[a Ha] Hl] [->|Hp]%elem_of_cons; [by eexists|eauto].
Qed.

(** *** Relinking the ends of a segment *)

Lemma dseg_alter_ne m q prev l nxt f x :
  x ∉ l -> dseg m q prev l nxt -> dseg (alter f x m) q prev l nxt.
Proof.
  intros Hx. apply dseg_frame. intros p Hp. apply lookup_alter_ne. set_solver.
Qed.

Lemma dseg_set_next m q prev l x nxt v :
  NoDup (l ++ [x]) -> dseg m q prev (l ++ [x]) nxt ->
  dseg (alter (with_next v) x m) q prev (l ++ [x]) v.
Proof.
  rewrite NoDup_app, !dseg_snoc. intros (_ & Hx & _) [Hl [a Ha]]. split.
  - apply dseg_alter_ne; [|done]. intros Hin. apply (Hx x Hin). set_solver.
  - exists a. by rewrite lookup_alter_eq, Ha.
Qed.

Lemma dseg_set_prev m q prev x l nxt v :
  x ∉ l -> dseg m q prev (x :: l) nxt -> dseg (alter (with_prev v) x m) q v (x :: l) nxt.
Proof.
  intros Hx [[a Ha] Hl]. split; [|by apply dseg_alter_ne].
  exists a. by rewrite lookup_alter_eq, Ha.
Qed.

(** *** Running a load or a store *)

Ltac st_unfold :=
  unfold st_some, st_fail, st_get, st_put; unfold mbind, ST_bind, mret, ST_ret.

Lemma get_item_ok h p it : items h !! p = Some it -> get_item (Some p) h = Ok (it, h).
Proof. intros E. unfold get_item. st_unfold. by rewrite E. Qed.

Lemma set_item_ok h p f :
  is_Some (items h !! p) ->
  set_item (Some p) f h = Ok (tt, mkHeap (alter f p (items h)) (pools h)).
Proof.
  intros [it E]. unfold set_item. st_unfold. rewrite E. do 3 f_equal.
  apply map_eq. intros i. rewrite lookup_insert, lookup_alter. case_decide; [subst; by rewrite E|done].
Qed.

Lemma get_pool_ok h q P : pools h !! q = Some P -> get_pool (Some q) h = Ok (P, h).
Proof. intros E. unfold get_pool. st_unfold. by rewrite E. Qed.

Lemma set_pool_ok h q P f :
  pools h !! q = Some P ->
  set_pool (Some q) f h = Ok (tt, mkHeap (items h) (<[q := f P]> (pools h))).
Proof. intros E. unfold set_pool. st_unfold. by rewrite E. Qed.

Lemma load_pool_ok h p it : items h !! p = Some it -> load_pool (Some p) h = Ok (m_pPool it, h).
Proof. intros E. unfold load_pool. by rewrite (st_bind_ok _ _ _ _ _ (get_item_ok _ _ _ E)). Qed.
Lemma load_next_ok h p it : items h !! p = Some it -> load_next (Some p) h = Ok (m_pNext it, h).
Proof. intros E. unfold load_next. by rewrite (st_bind_ok _ _ _ _ _ (get_item_ok _ _ _ E)). Qed.
Lemma load_prev_ok h p it : items h !! p = Some it -> load_prev (Some p) h = Ok (m_pPrevious it, h).
Proof. intros E. unfold load_prev. by rewrite (st_bind_ok _ _ _ _ _ (get_item_ok _ _ _ E)). Qed.
Lemma load_root_ok h q P : pools h !! q = Some P -> load_root (Some q) h = Ok (m_pRoot P, h).
Proof. intros E. unfold load_root. by rewrite (st_bind_ok _ _ _ _ _ (get_pool_ok _ _ _ E)). Qed.
Lemma load_last_ok h q P : pools h !! q = Some P -> load_last (Some q) h = Ok (m_pLast P, h).
Proof. intros E. unfold load_last. by rewrite (st_bind_ok _ _ _ _ _ (get_pool_ok _ _ _ E)). Qed.

(** The debug assertions on a pool that holds a non-empty list. *)
Lemma dlist_head h q p l :
  dlist h q (p :: l) -> exists a, items h !! p = Some (mkItem (Some q) (first_of l None) None a).
Proof. by intros (_ & [Hp _] & _). Qed.

Lemma dlist_last h q l p :
  dlist h q (l ++ [p]) -> exists a, items h !! p = Some (mkItem (Some q) None (last_of None l) a).
Proof. intros (_ & Hl & _). by apply dseg_snoc in Hl as [_ ?]. Qed.

Lemma assert_root_first_ok NDEBUG h q l :
  dlist h q l -> l <> [] -> assert_root_first NDEBUG (Some q) h = Ok (tt, h).
Proof.
  intros Hd Hne. apply st_assert_ok. intros _. destruct l as [|p l]; [done|].
  destruct (dlist_head _ _ _ _ Hd) as [a Ha]. destruct Hd as (_ & _ & b & Hq).
  rewrite (st_bind_ok _ _ _ _ _ (load_root_ok _ _ _ Hq)). cbn [m_pRoot head].
  by rewrite (st_bind_ok _ _ _ _ _ (load_prev_ok _ _ _ Ha)).
Qed.

Lemma assert_last_last_ok NDEBUG h q l :
  dlist h q l -> l <> [] -> assert_last_last NDEBUG (Some q) h = Ok (tt, h).
Proof.
  intros Hd Hne. apply st_assert_ok. intros _.
  destruct l as [|p l _] using rev_ind; [done|].
  destruct (dlist_last _ _ _ _ Hd) as [a Ha]. destruct Hd as (_ & _ & b & Hq).
  rewrite (st_bind_ok _ _ _ _ _ (load_last_ok _ _ _ Hq)). cbn [m_pLast]. rewrite last_snoc.
  by rewrite (st_bind_ok _ _ _ _ _ (load_next_ok _ _ _ Ha)).
Qed.

Lemma asserts_ok NDEBUG h q l :
  dlist h q l -> l <> [] ->
  (assert_root_first NDEBUG (Some q);; assert_last_last NDEBUG (Some q)) h = Ok (tt, h).
Proof.
  intros. rewrite (st_bind_ok _ _ _ _ _ (assert_root_first_ok NDEBUG h q l ltac:(done) ltac:(done))).
  by eapply assert_last_last_ok.
Qed.

(** *** Relinking two segments *)

(** What becomes of the item at [x] when the last item of [L1] is given the
    successor [nx] and the first item of [L2] the predecessor [pv]. *)
Definition relink (L1 L2 : list ptr) (nx pv : option ptr) (x : ptr) (it : IListItem A) : IListItem A :=
  if decide (Some x = last L1) then with_next nx it
  else if decide (Some x = head L2) then with_prev pv it
  else it.

Lemma dseg_relink m m' q L1 L2 n1 p2 nx pv :
  NoDup (L1 ++ L2) -> dseg m q None L1 n1 -> dseg m q p2 L2 None ->
  (forall x, x ∈ L1 ++ L2 -> m' !! x = relink L1 L2 nx pv x <$> m !! x) ->
  dseg m' q None L1 nx /\ dseg m' q pv L2 None.
Proof.
  intros Hnd H1 H2 Hm. pose proof Hnd as (Hnd1 & Hdisj & Hnd2)%NoDup_app. split.
  - destruct L1 as [|x L1 _] using rev_ind; [done|].
    eapply dseg_frame; [|by eapply dseg_set_next]. intros y Hy. rewrite Hm by set_solver.
    rewrite lookup_alter_fmap. destruct (m !! y) as [it|]; [|done]. cbn. f_equal.
    unfold relink. rewrite last_snoc.
    destruct (decide (x = y)) as [->|Hne]; [by rewrite decide_True|].
    rewrite !decide_False; [done| |congruence].
    intros E. destruct L2 as [|z L2]; [done|]. injection E as ->. apply (Hdisj z); set_solver.
  - destruct L2 as [|x L2]; [done|]. apply NoDup_cons in Hnd2 as [Hx Hnd2].
    eapply dseg_frame; [|by eapply dseg_set_prev]. intros y Hy. rewrite Hm by set_solver.
    rewrite lookup_alter_fmap. destruct (m !! y) as [it|]; [|done]. cbn. f_equal.
    unfold relink. cbn [head]. rewrite decide_False.
    + destruct (decide (x = y)) as [->|]; [by rewrite decide_True|].
      by rewrite decide_False by congruence.
    + intros E. symmetry in E. apply last_Some_elem_of in E. by apply (Hdisj y).
Qed.

(** A heap whose items are those of [h] changed one by one, links only. *)
Lemma frame_intro q touched h h' (g : ptr -> IListItem A -> IListItem A) P P' :
  (forall x, items h' !! x = g x <$> items h !! x) ->
  (forall x it, x ∉ touched -> g x it = it) ->
  (forall x it, derived (g x it) = derived it /\ m_pPool (g x it) = m_pPool it) ->
  pools h !! q = Some P -> pools h' = <[q := P']> (pools h) -> pool_derived P' = pool_derived P ->
  frame q touched h h'.
Proof.
  intros Hi Ht Hg HP HP' Hd. unfold frame. split_and!.
  - intros p Hp. rewrite Hi. destruct (items h !! p); cbn; [by rewrite Ht|done].
  - intros p. rewrite Hi. destruct (items h !! p) as [it|]; cbn; [|done]. by rewrite (proj1 (Hg p it)).
  - intros p. rewrite Hi. destruct (items h !! p) as [it|]; cbn; [|done]. by rewrite (proj2 (Hg p it)).
  - intros q' Hq'. rewrite HP'. by rewrite lookup_insert_ne.
  - rewrite HP', HP, lookup_insert_eq. cbn. by rewrite Hd.
Qed.

Definition insert_item (L1 L2 : list ptr) (i : ptr) (x : ptr) (it : IListItem A) : IListItem A :=
  if decide (x = i) then with_next (head L2) (with_prev (last L1) it)
  else relink L1 L2 (Some i) (Some i) x it.

(** The same for unlinking [e] from between them. *)
Definition remove_item (L1 L2 : list ptr) (e x : ptr) (it : IListItem A) : IListItem A :=
  if decide (x = e) then with_next None (with_prev None it)
  else relink L1 L2 (head L2) (last L1) x it.

(** Linking the detached [i] between [L1] and [L2]. *)
Lemma dlist_insert h h' q L1 L2 i :
  dlist h q (L1 ++ L2) -> detached h q i -> i ∉ L1 ++ L2 ->
  (forall x, items h' !! x = insert_item L1 L2 i x <$> items h !! x) ->
  (exists P, pools h !! q = Some P /\
     pools h' = <[q := mkPool (first_of L1 (Some i)) (last_of (Some i) L2) (pool_derived P)]> (pools h)) ->
  dlist h' q (L1 ++ i :: L2) /\ frame q (i :: L1 ++ L2) h h'.
Proof.
  intros (Hnd & Hseg & b & Hb) [a Ha] Hi Hit (P & HP & HP'). split.
  - split; [|split].
    + apply NoDup_app in Hnd as (H1 & H2 & H3). apply NoDup_app. split_and!; [done|set_solver|].
      apply NoDup_cons. set_solver.
    + apply dseg_app in Hseg as [H1 H2].
      destruct (dseg_relink (items h) (items h') q L1 L2 _ _ (Some i) (Some i) Hnd H1 H2) as [H3 H4].
      { intros x Hx. rewrite Hit. destruct (items h !! x); [|done]. cbn.
        unfold insert_item. by rewrite decide_False by set_solver. }
      apply dseg_app. split; [done|]. split; [|done]. exists a. rewrite Hit, Ha. cbn. unfold insert_item.
      rewrite decide_True by done. unfold last_of. cbn. f_equal. f_equal. by destruct (last L1).
    + exists (pool_derived P). rewrite HP', lookup_insert_eq. f_equal. f_equal.
      * by destruct L1.
      * rewrite last_app_cons. unfold last_of. rewrite last_cons. by destruct (last L2).
  - apply (frame_intro q _ h h' (insert_item L1 L2 i) P
      (mkPool (first_of L1 (Some i)) (last_of (Some i) L2) (pool_derived P))); try done.
    + intros x it Hx. unfold insert_item, relink. rewrite !decide_False; [done|..]; [| |set_solver].
      * intros E. destruct L2 as [|y L2]; [done|]. cbn in E. set_solver.
      * intros E. symmetry in E. apply last_Some_elem_of in E. set_solver.
    + intros x it. unfold insert_item, relink. by repeat case_decide.
Qed.

(** [live]: an item is still there after other stores. *)
Ltac live := cbn [items]; rewrite ?lookup_alter_fmap, ?fmap_is_Some; eauto.

Ltac heap_cbn := cbn [first_of is_null negb m_pPool m_pNext m_pPrevious m_pRoot m_pLast pools items].

(** The cell a load reads, known in the goal's context. *)
Ltac cell := heap_cbn;
  first [eassumption | apply lookup_insert_eq | rewrite lookup_alter_ne by done; eassumption].

(** [run]: the next load, store or plain value. *)
Ltac run1 :=
  lazymatch goal with
  | |- context [((_ ≫= _) ≫= _) _] => rewrite st_bind_assoc
  | |- context [(mret _ ≫= _) _] => rewrite st_ret_bind
  | |- context [(st_assert true _ ≫= _) _] => rewrite st_assert_release
  | |- context [(store_next (Some ?p) ?v ≫= _) ?h] =>
      rewrite (st_bind_ok _ _ _ _ _ (set_item_ok h p (with_next v) ltac:(live)))
  | |- context [(store_prev (Some ?p) ?v ≫= _) ?h] =>
      rewrite (st_bind_ok _ _ _ _ _ (set_item_ok h p (with_prev v) ltac:(live)))
  | |- context [(store_root (Some ?q) ?v ≫= _) ?h] =>
      erewrite (st_bind_ok (store_root (Some q) v) _ h) by (apply set_pool_ok; cell)
  | |- context [(store_last (Some ?q) ?v ≫= _) ?h] =>
      erewrite (st_bind_ok (store_last (Some q) v) _ h) by (apply set_pool_ok; cell)
  | |- context [(load_pool (Some ?p) ≫= _) ?h] =>
      erewrite (st_bind_ok (load_pool (Some p)) _ h) by (apply load_pool_ok; cell)
  | |- context [(load_next (Some ?p) ≫= _) ?h] =>
      erewrite (st_bind_ok (load_next (Some p)) _ h) by (apply load_next_ok; cell)
  | |- context [(load_prev (Some ?p) ≫= _) ?h] =>
      erewrite (st_bind_ok (load_prev (Some p)) _ h) by (apply load_prev_ok; cell)
  | |- context [(load_root (Some ?q) ≫= _) ?h] =>
      erewrite (st_bind_ok (load_root (Some q)) _ h) by (apply load_root_ok; cell)
  | |- context [(load_last (Some ?q) ≫= _) ?h] =>
      erewrite (st_bind_ok (load_last (Some q)) _ h) by (apply load_last_ok; cell)
  end; heap_cbn.
Ltac run := repeat run1.

(** [same_links]: two descriptions of the items after a list operation agree. *)
Ltac same_links y := intros y;
  try match goal with |- items ?h' !! _ = _ => unfold h' end; cbn [items]; rewrite ?lookup_alter_fmap;
  match goal with |- context [items ?h !! y] => destruct (items h !! y) as [[]|] end;
  [|done]; cbn; f_equal;
  unfold insert_item, remove_item, relink; cbn [head]; rewrite ?last_snoc; repeat case_decide;
  simplify_eq; try done.

Lemma list_insert_before_spec NDEBUG h q L1 p L2 i :
  dlist h q (L1 ++ p :: L2) -> detached h q i -> i ∉ L1 ++ p :: L2 ->
  exists h', list_insert_before NDEBUG (Some p) (Some i) h = Ok (tt, h') /\
    dlist h' q (L1 ++ i :: p :: L2) /\ frame q (i :: L1 ++ p :: L2) h h'.
Proof.
  intros Hd Hi Hni. pose proof Hd as (Hnd & Hseg & b & Hb). pose proof Hi as [a Ha].
  apply dseg_app in Hseg as [H1 [[ap Hp] H2]]. unfold list_insert_before.
  assert (i <> p) by set_solver. run.
  destruct L1 as [|x L1 _] using rev_ind.
  - cbn [last_of last is_null negb]. run. unfold ptr_eqb. cbn [app head].
    rewrite bool_decide_true by done. run1.
    match goal with |- exists h', (_ ≫= _) ?hf = _ /\ _ => set (h' := hf) end.
    destruct (dlist_insert h h' q [] (p :: L2) i Hd Hi Hni) as [Hd' Hf].
    { same_links y. }
    { eexists. split; [done|]. subst h'. cbn. f_equal. unfold with_root. cbn. f_equal.
      unfold last_of. rewrite last_cons. by destruct (last L2). }
    exists h'. split_and!; [|done..]. apply (asserts_ok NDEBUG h' q _ Hd'). done.
  - assert (x <> p /\ x <> i) as [] by
      (apply NoDup_app in Hnd as (_ & Hnd & _); split; [specialize (Hnd x)|]; set_solver).
    apply dseg_snoc in H1 as [H1 [ax Hx]]. unfold last_of. rewrite last_snoc. heap_cbn. run.
    unfold ptr_eqb. rewrite bool_decide_false
      by (destruct L1; cbn; [congruence|]; apply NoDup_app in Hnd as (_ & Hnd & _);
          intros [= ->]; apply (Hnd p); set_solver).
    eexists. split; [done|]. apply dlist_insert; try done.
    + same_links y.
    + eexists. split; [done|]. cbn. rewrite insert_id; [done|]. rewrite Hb. f_equal. f_equal.
      * by destruct L1.
      * rewrite last_app_cons. unfold last_of. rewrite last_cons. by destruct (last L2).
Qed.

Lemma dlist_singleton h q i :
  dlist h q [] -> detached h q i ->
  exists b, pools h !! q = Some (mkPool None None b) /\
    let h' := mkHeap (items h) (<[q := mkPool (Some i) (Some i) b]> (pools h)) in
    dlist h' q [i] /\ frame q [i] h h'.
Proof.
  intros (_ & _ & b & Hb) [a Ha]. exists b. split; [done|]. cbv zeta. split.
  - split; [apply NoDup_singleton|]. cbn. split; [by split; [exists a|]|].
    exists b. by rewrite lookup_insert_eq.
  - apply (frame_intro q _ h _ (fun _ it => it) (mkPool None None b) (mkPool (Some i) (Some i) b)); try done.
    intros x. cbn. by destruct (items h !! x).
Qed.

Lemma list_link_after_spec NDEBUG h q L1 p L2 i :
  dlist h q (L1 ++ p :: L2) -> detached h q i -> i ∉ L1 ++ p :: L2 ->
  exists h', list_link_after NDEBUG (Some q) (Some p) (Some i) h = Ok (tt, h') /\
    dlist h' q (L1 ++ p :: i :: L2) /\ frame q (i :: L1 ++ p :: L2) h h'.
Proof.
  intros Hd Hi Hni. pose proof Hd as (Hnd & Hseg & b & Hb). pose proof Hi as [a Ha].
  apply dseg_app in Hseg as [H1 [[ap Hp] H2]]. assert (i <> p) by set_solver.
  assert (El : forall l, L1 ++ p :: l = (L1 ++ [p]) ++ l) by (intros; by rewrite <- app_assoc).
  apply NoDup_app in Hnd as (_ & _ & [Hp2 Hnd2]%NoDup_cons).
  unfold list_link_after. heap_cbn. destruct L2 as [|x L2].
  - run. unfold ptr_eqb. rewrite last_snoc, bool_decide_true by done. run.
    match goal with |- exists h', (_ ≫= _) ?hf = _ /\ _ => set (h' := hf) end.
    destruct (dlist_insert h h' q (L1 ++ [p]) [] i) as [Hd' Hf]; rewrite ?app_nil_r; try done.
    { same_links y. }
    { eexists. split; [done|]. subst h'. cbn. f_equal. unfold with_last. cbn. f_equal. by destruct L1. }
    exists h'. rewrite El. rewrite app_nil_r in Hf. split_and!; [|done..].
    apply (asserts_ok NDEBUG h' q _ Hd'). by destruct L1.
  - assert (x <> p /\ x <> i) as [] by set_solver.
    run. unfold ptr_eqb. rewrite bool_decide_false.
    2:{ rewrite last_app_cons, last_cons_cons. intros E. apply last_Some_elem_of in E. done. }
    run. destruct H2 as [[ax Hx] H2]. cbn [first_of]. heap_cbn. run.
    match goal with |- exists h', (_ ≫= _) ?hf = _ /\ _ => set (h' := hf) end.
    destruct (dlist_insert h h' q (L1 ++ [p]) (x :: L2) i) as [Hd' Hf]; rewrite <- ?El; try done.
    { same_links y. }
    { eexists. split; [done|]. subst h'. cbn. rewrite insert_id; [done|]. rewrite Hb. f_equal. f_equal.
      - by destruct L1.
      - rewrite last_app_cons, last_cons_cons. unfold last_of. rewrite last_cons. by destruct (last L2). }
    exists h'. rewrite <- El in Hd', Hf. split_and!; [|done..].
    apply (asserts_ok NDEBUG h' q _ Hd'). by destruct L1.
Qed.

(** Where [list_insert_after] puts the new item: after [pos], or first. *)
Inductive insert_point : option ptr -> list ptr -> ptr -> list ptr -> Prop :=
| insert_first l i : insert_point None l i (i :: l)
| insert_here L1 p L2 i : insert_point (Some p) (L1 ++ p :: L2) i (L1 ++ p :: i :: L2).

Lemma list_insert_after_spec NDEBUG h q pos l i l' :
  dlist h q l -> detached h q i -> i ∉ l -> insert_point pos l i l' ->
  exists h', list_insert_after NDEBUG pos (Some i) h = Ok (tt, h') /\
    dlist h' q l' /\ frame q (i :: l) h h'.
Proof.
  intros Hd Hi Hni Hp. pose proof Hi as [a Ha]. unfold list_insert_after.
  destruct Hp as [l i|L1 p L2 i]; run1.
  - destruct l as [|p l].
    + destruct (dlist_singleton h q i Hd Hi) as (b & Hb & Hd' & Hf). run1.
      rewrite (st_bind_ok (st_assert NDEBUG _) _ h tt h)
        by (apply st_assert_ok; intros _; by rewrite (st_bind_ok _ _ _ _ _ (load_last_ok _ _ _ Hb))).
      run1. eexists. unfold store_last. erewrite set_pool_ok by (cbn; apply lookup_insert_eq). split; [done|].
      by cbn; rewrite insert_insert_eq.
    + pose proof Hd as (_ & _ & b & Hb). run1. cbn [head]. heap_cbn.
      destruct (list_insert_before_spec NDEBUG h q [] p l i Hd Hi Hni) as (h' & -> & Hd' & Hf).
      by exists h'.
  - by apply list_link_after_spec.
Qed.

(** *** Unlinking *)

Lemma dlist_remove h h' q L1 e L2 :
  dlist h q (L1 ++ e :: L2) ->
  (forall x, items h' !! x = remove_item L1 L2 e x <$> items h !! x) ->
  (exists P, pools h !! q = Some P /\
     pools h' = <[q := mkPool (head (L1 ++ L2)) (last (L1 ++ L2)) (pool_derived P)]> (pools h)) ->
  dlist h' q (L1 ++ L2) /\ detached h' q e /\ frame q (L1 ++ e :: L2) h h'.
Proof.
  intros (Hnd & Hseg & b & Hb) Hit (P & HP & HP').
  apply dseg_app in Hseg as [H1 [[a Ha] H2]].
  assert (Hnd' : NoDup (L1 ++ L2) /\ e ∉ L1 ++ L2).
  { rewrite NoDup_app, NoDup_cons in Hnd. rewrite NoDup_app. set_solver. }
  destruct Hnd' as [Hnd' He]. split_and!.
  - split; [done|]. split; [|by exists (pool_derived P); rewrite HP', lookup_insert_eq].
    destruct (dseg_relink (items h) (items h') q L1 L2 _ _ (head L2) (last L1) Hnd' H1 H2) as [H3 H4].
    { intros x Hx. rewrite Hit. destruct (items h !! x); [|done]. cbn.
      unfold remove_item. by rewrite decide_False by set_solver. }
    apply dseg_app. split; [by destruct L2|]. unfold last_of. by destruct (last L1).
  - exists a. rewrite Hit, Ha. cbn. unfold remove_item. by rewrite decide_True.
  - apply (frame_intro q _ h h' (remove_item L1 L2 e) P
      (mkPool (head (L1 ++ L2)) (last (L1 ++ L2)) (pool_derived P))); try done.
    + intros x it Hx. unfold remove_item, relink. rewrite !decide_False; [done|..]; [| |set_solver].
      * intros E. destruct L2 as [|y L2]; [done|]. cbn in E. set_solver.
      * intros E. symmetry in E. apply last_Some_elem_of in E. set_solver.
    + intros x it. unfold remove_item, relink. by repeat case_decide.
Qed.

Lemma store_same h p f it :
  items h !! p = Some it -> f it = it -> set_item (Some p) f h = Ok (tt, h).
Proof.
  intros E Ef. rewrite set_item_ok by eauto. destruct h as [m P]. cbn in *. do 3 f_equal.
  apply map_eq. intros i. rewrite lookup_alter. case_decide; [subst; by rewrite E; cbn; rewrite Ef|done].
Qed.

Lemma list_trim_ends_ok h q l : dlist h q l -> list_trim_ends (Some q) h = Ok (tt, h).
Proof.
  intros Hd. pose proof Hd as (_ & _ & b & Hb). unfold list_trim_ends. heap_cbn. run.
  destruct l as [|p l]; [by cbn [head last]; heap_cbn; run|].
  destruct (dlist_head _ _ _ _ Hd) as [a Ha]. cbn [head]. heap_cbn.
  rewrite (st_bind_ok _ _ _ _ _ (store_same h p (with_prev None) _ Ha eq_refl)). run.
  clear Ha. destruct (p :: l) as [|x l' _] eqn:E using rev_ind; [done|].
  destruct (dlist_last _ _ _ _ Hd) as [a' Ha]. rewrite last_snoc. heap_cbn.
  by apply (store_same h x (with_next None) _ Ha).
Qed.

Lemma eqb_head L1 e L2 :
  NoDup (L1 ++ e :: L2) -> ptr_eqb (Some e) (head (L1 ++ e :: L2)) = bool_decide (L1 = []).
Proof.
  intros Hnd. apply bool_decide_ext. destruct L1 as [|x L1]; [done|]. cbn in *.
  split; [|done]. intros [= ->]. apply NoDup_cons in Hnd. set_solver.
Qed.

Lemma eqb_last L1 e L2 :
  NoDup (L1 ++ e :: L2) -> ptr_eqb (Some e) (last (L1 ++ e :: L2)) = bool_decide (L2 = []).
Proof.
  intros (_ & _ & [He _]%NoDup_cons)%NoDup_app. apply bool_decide_ext. rewrite last_app_cons.
  destruct L2 as [|x L2]; [done|]. rewrite last_cons_cons. split; [|done].
  intros E. symmetry in E. by apply last_Some_elem_of in E.
Qed.

Lemma list_disconnect_spec h q L1 e L2 :
  dlist h q (L1 ++ e :: L2) ->
  exists h', list_disconnect (Some e) h = Ok (head L2, h') /\
    dlist h' q (L1 ++ L2) /\ detached h' q e /\ frame q (L1 ++ e :: L2) h h'.
Proof.
  intros Hd. pose proof Hd as (Hnd & Hseg & b & Hb).
  apply dseg_app in Hseg as [H1 [[ae He] H2]].
  assert (Hnd' : NoDup (L1 ++ L2) /\ e ∉ L1 ++ L2).
  { rewrite NoDup_app, NoDup_cons in Hnd. rewrite NoDup_app. set_solver. }
  unfold list_disconnect. run. rewrite eqb_head by done.
  destruct L1 as [|x L1 _] using rev_ind; [|apply dseg_snoc in H1 as [H1 [ax Hx]]];
    destruct L2 as [|y L2]; try destruct H2 as [[ay Hy] H2]; heap_cbn.
  all: unfold last_of in He; rewrite ?last_snoc in He; cbn [last first_of] in He.
  all: rewrite ?(bool_decide_false (_ ++ [x] = [])) by (by destruct L1).
  all: rewrite ?(bool_decide_true ([] = [])) by done.
  all: run; cbn [with_root m_pLast]; rewrite eqb_last by done.
  all: try assert (y <> e) by set_solver; try assert (x <> e) by set_solver.
  all: rewrite ?(bool_decide_false (y :: _ = [])) by done.
  all: rewrite ?(bool_decide_true ([] = [])) by done.
  all: run.
  all: match goal with |- exists h', (list_trim_ends _ ≫= _) ?hf = _ /\ _ => set (h' := hf) end.
  all: edestruct (dlist_remove h h' q _ e _ Hd) as (Hd' & Hdet & Hf);
    [try assert (x <> y) by (intros ->; destruct Hnd' as [(_ & Hxy & _)%NoDup_app _]; apply (Hxy y); set_solver);
     same_links z
    |eexists; split; [exact Hb|]; subst h'; cbn [pools pool_derived with_root with_last m_pRoot m_pLast];
     rewrite ?insert_insert_eq, ?app_nil_r, ?last_app_cons, ?last_cons_cons; try done
    |exists h'; rewrite (st_bind_ok _ _ _ _ _ (list_trim_ends_ok _ _ _ Hd')); by split_and!].
  - by destruct L1.
  - rewrite insert_id; [done|]. rewrite Hb, last_app_cons, last_cons_cons. by destruct L1.
Qed.

(** An item in no list: unlinking it again changes nothing unless the pool's
    own ends point at it. *)
Lemma list_disconnect_detached h q e l :
  detached h q e -> dlist h q l -> e ∉ l -> list_disconnect (Some e) h = Ok (None, h).
Proof.
  intros [a Ha] Hd He. pose proof Hd as (_ & _ & b & Hb). unfold list_disconnect. run.
  unfold ptr_eqb. rewrite bool_decide_false by (destruct l; cbn; [done|set_solver]). run.
  rewrite bool_decide_false by (intros E; symmetry in E; apply last_Some_elem_of in E; done).
  do 5 run1.
  rewrite (st_bind_ok _ _ _ _ _ (store_same h e (with_prev None) _ Ha eq_refl)).
  rewrite (st_bind_ok _ _ _ _ _ (store_same h e (with_next None) _ Ha eq_refl)).
  by rewrite (st_bind_ok _ _ _ _ _ (list_trim_ends_ok _ _ _ Hd)).
Qed.

(** *** Walking to an end *)

Lemma list_end_seg h q prev l p :
  dseg (items h) q prev (l ++ [p]) None -> forall e l', l ++ [p] = e :: l' ->
  list_end (S (length l)) (Some e) h = Ok (Some p, h).
Proof.
  revert prev. induction l as [|x l IH]; intros prev Hs e l' [= <- <-].
  - destruct Hs as [[a Ha] _]. cbn [list_end]. by run.
  - destruct Hs as [[a Ha] Hs]. cbn [app] in *. cbn [length list_end]. run.
    destruct (l ++ [p]) as [|y l'] eqn:E; [by destruct l|]. heap_cbn. by eapply IH.
Qed.

Lemma list_root_seg NDEBUG h q l e l2 nxt c :
  dseg (items h) q None (l ++ e :: l2) nxt -> NoDup (l ++ e :: l2) -> c ∉ l ->
  list_root_loop NDEBUG (S (length l)) (Some c) (Some e) h = Ok (head (l ++ [e]), h).
Proof.
  revert e l2. induction l as [|x l IH] using rev_ind; intros e l2 Hs Hnd Hc.
  - destruct Hs as [[a Ha] _]. cbn [list_root_loop length]. by run.
  - rewrite <- app_assoc in Hs, Hnd. cbn in Hs, Hnd.
    pose proof Hs as [_ [_ [[a Ha] _]]]%dseg_app. rewrite length_app, Nat.add_comm.
    cbn [length Nat.add]. remember (S (length l)) as n eqn:En. cbn [list_root_loop]. run.
    cbn [last_of last]. heap_cbn.
    rewrite (st_bind_ok (st_assert NDEBUG _) _ h tt h).
    + subst n. rewrite (IH x (e :: l2)); [|done..|set_solver]. f_equal. f_equal. by destruct l.
    + apply st_assert_ok. intros _. unfold ptr_eqb. rewrite bool_decide_false; [done|set_solver].
Qed.

(** *** Cutting out a range *)

Lemma list_cut_range_inside NDEBUG h q L1 x b mid e y L2 :
  dlist h q ((L1 ++ [x]) ++ (b :: mid ++ [e]) ++ y :: L2) ->
  exists h', list_cut_range NDEBUG (Some b) (Some e) h = Ok (Some y, h') /\
    dlist h' q ((L1 ++ [x]) ++ y :: L2) /\ dseg (items h') q None (b :: mid ++ [e]) None /\
    frame q [x; b; e; y] h h'.
Proof.
  intros (Hnd & Hseg & d & Hd).
  pose proof Hseg as [H1 [HM H2]%dseg_app]%dseg_app. unfold last_of in HM. rewrite last_snoc in HM.
  pose proof Hnd as (N1 & Nd1 & (NM & NdM & N2)%NoDup_app)%NoDup_app.
  pose proof H1 as [_ [ax Hx]]%dseg_snoc. pose proof H2 as [[ay Hy] _].
  pose proof HM as [[ab Hb] _].
  pose proof HM as HM'. rewrite app_comm_cons in HM'. apply dseg_snoc in HM' as [_ [ae He]].
  assert (forall z, z ∈ L1 ++ [x] -> z ∉ b :: mid ++ [e] /\ z ∉ y :: L2) as D1.
  { intros z Hz. by apply Nd1, not_elem_of_app in Hz. }
  destruct (D1 x) as [Hxm Hx2]; [set_solver|].
  assert (b ∉ L1 ++ [x] /\ e ∉ L1 ++ [x] /\ y ∉ L1 ++ [x]) as (Hb1 & He1 & Hy1).
  { split_and!; intros Hz; destruct (D1 _ Hz); set_solver. }
  assert (b ∉ y :: L2 /\ e ∉ y :: L2) as [Hb2 He2] by (split; apply NdM; set_solver).
  assert (y ∉ b :: mid ++ [e]) as Hym by (intros Hz; apply NdM in Hz; set_solver).
  assert (b ∉ mid ++ [e]) by (by apply NoDup_cons in NM as [? _]).
  assert (x <> b /\ x <> e /\ x <> y /\ b <> e /\ y <> b /\ y <> e) as (?&?&?&?&?&?).
  { clear -Hxm Hx2 Hb2 He2 H. set_solver. }
  unfold list_cut_range. run.
  rewrite (st_bind_ok _ _ h (Some q) h) by (destruct NDEBUG; [done|by run]).
  run. unfold ptr_eqb.
  assert (bool_decide (Some b = head ((L1 ++ [x]) ++ (b :: mid ++ [e]) ++ y :: L2)) = false) as ->.
  { apply bool_decide_false. destruct L1; cbn; [congruence|]. intros [= ->]. clear -Hb1. set_solver. }
  assert (bool_decide (Some e = last ((L1 ++ [x]) ++ (b :: mid ++ [e]) ++ y :: L2)) = false) as E.
  { apply bool_decide_false. rewrite app_assoc, last_app_cons. intros E. symmetry in E.
    by apply last_Some_elem_of in E. }
  run. rewrite E. run.
  rewrite (st_bind_ok _ _ h tt h)
    by (apply st_assert_ok; intros _; by rewrite bool_decide_false by congruence).
  run. eexists. split; [done|]. split; [|split].
  - split; [apply NoDup_app; split_and!; [done| |done]; intros z Hz Hz'; by destruct (D1 z)|]. split.
    + cbn [items]. apply dseg_app. split.
      * do 3 (apply dseg_alter_ne; [done|]). by eapply dseg_set_next.
      * unfold last_of. rewrite last_snoc. do 2 (apply dseg_alter_ne; [done|]).
        apply NoDup_cons in N2 as [??]. eapply dseg_set_prev; [done|].
        by apply dseg_alter_ne; [done|].
    + exists d. cbn [pools]. rewrite Hd. f_equal. f_equal; [by destruct L1|].
      by rewrite app_assoc, !last_app_cons.
  - cbn [items]. rewrite app_comm_cons. eapply dseg_set_next; [done|].
    eapply dseg_set_prev; [done|].
    do 2 (apply dseg_alter_ne; [done|]). done.
  - eapply (frame_intro q _ h _ (fun z it =>
      (if decide (e = z) then with_next None else id)
      ((if decide (b = z) then with_prev None else id)
      ((if decide (y = z) then with_prev (Some x) else id)
      ((if decide (x = z) then with_next (Some y) else id) it))))); try exact Hd; try done.
    + intros z. cbn [items]. rewrite !lookup_alter_fmap. destruct (items h !! z); [|done].
      cbn. by repeat case_decide.
    + intros z it Hz. by rewrite !decide_False by set_solver.
    + intros z it. by repeat case_decide.
    + cbn [pools]. by rewrite insert_id.
Qed.

(** At the front of the list, the root moves to the item after [pBegin], which is cut off too. *)
Lemma list_cut_range_front h q b mid e y L2 :
  dlist h q ((b :: mid ++ [e]) ++ y :: L2) ->
  list_cut_range false (Some b) (Some e) h = Err AssertFail /\
  exists h', list_cut_range true (Some b) (Some e) h = Ok (Some y, h') /\
    dseg (items h') q None (b :: mid ++ [e]) None /\ dseg (items h') q None (y :: L2) None /\
    m_pRoot <$> pools h' !! q = Some (head (mid ++ [e])).
Proof.
  intros (Hnd & Hseg & d & Hd). pose proof Hseg as [HM H2]%dseg_app.
  pose proof Hnd as (NM & NdM & N2)%NoDup_app.
  pose proof HM as [[ab Hb] HM1]. pose proof H2 as [[ay Hy] _].
  pose proof HM as HM'. rewrite app_comm_cons in HM'. apply dseg_snoc in HM' as [_ [ae He]].
  destruct (mid ++ [e]) as [|c M] eqn:EM; [by destruct mid|].
  pose proof HM1 as [[ac Hc] _].
  assert (b ∉ y :: L2 /\ e ∉ y :: L2) as [Hb2 He2].
  { split; apply NdM; [set_solver|]. rewrite <- EM. set_solver. }
  assert (y ∉ b :: c :: M) as Hym by (intros Hz; apply NdM in Hz; set_solver).
  assert (b ∉ c :: M) as HbM by (by apply NoDup_cons in NM as [? _]).
  assert (e ∈ c :: M) as HeM by (rewrite <- EM; set_solver).
  assert (b <> e /\ y <> b /\ y <> e) as (?&?&?) by (clear -HbM HeM He2 Hb2; set_solver).
  unfold list_cut_range. split; run; unfold ptr_eqb;
    rewrite (bool_decide_true (Some b = head _)) by done; run.
  - unfold st_assert. run. cbn [with_root m_pRoot]. heap_cbn. by run.
  - assert (bool_decide (Some e = last ((b :: c :: M) ++ y :: L2)) = false) as E.
    { apply bool_decide_false. rewrite last_app_cons. intros E. symmetry in E.
      by apply last_Some_elem_of in E. }
    cbn [with_root m_pLast]. rewrite E. run. eexists. split; [done|]. split_and!.
    + cbn [items]. rewrite <- EM, app_comm_cons. eapply dseg_set_next; [by rewrite <- app_comm_cons, EM|].
      rewrite <- app_comm_cons, EM. eapply dseg_set_prev; [done|]. by apply dseg_alter_ne.
    + cbn [items]. do 2 (apply dseg_alter_ne; [done|]). apply NoDup_cons in N2 as [??].
      by eapply dseg_set_prev.
    + cbn [pools]. by rewrite lookup_insert_eq.
Qed.

(** *** Sequences of list operations against sequences of values *)

Inductive list_op : Type :=
| InsertBefore (pPos pInsert : ptr)
| InsertAfter (pPos : option ptr) (pInsert : ptr)
| Disconnect (pEvent : ptr).

Definition run_op (NDEBUG : bool) (op : list_op) : ST (heap A B) unit :=
  match op with
  | InsertBefore p i => list_insert_before NDEBUG (Some p) (Some i)
  | InsertAfter pos i => list_insert_after NDEBUG pos (Some i)
  | Disconnect e => list_disconnect (Some e);; mret tt
  end.

Fixpoint run_ops (NDEBUG : bool) (ops : list list_op) : ST (heap A B) unit :=
  match ops with
  | [] => mret tt
  | op :: ops => run_op NDEBUG op;; run_ops NDEBUG ops
  end.

(** The same operations on a plain sequence and the set of items outside it;
    [None] where a call is not allowed. *)
Fixpoint seq_insert (after : bool) (p i : ptr) (l : list ptr) : option (list ptr) :=
  match l with
  | [] => None
  | x :: l =>
      if decide (x = p) then Some (if after then x :: i :: l else i :: x :: l)
      else cons x <$> seq_insert after p i l
  end.

Fixpoint seq_remove (e : ptr) (l : list ptr) : option (list ptr) :=
  match l with
  | [] => None
  | x :: l => if decide (x = e) then Some l else cons x <$> seq_remove e l
  end.

Definition seq_op (op : list_op) (s : list ptr * gset ptr) : option (list ptr * gset ptr) :=
  let '(l, out) := s in
  match op with
  | InsertBefore p i =>
      if decide (i ∈ out) then l' ← seq_insert false p i l; Some (l', out ∖ {[i]}) else None
  | InsertAfter None i => if decide (i ∈ out) then Some (i :: l, out ∖ {[i]}) else None
  | InsertAfter (Some p) i =>
      if decide (i ∈ out) then l' ← seq_insert true p i l; Some (l', out ∖ {[i]}) else None
  | Disconnect e => l' ← seq_remove e l; Some (l', {[e]} ∪ out)
  end.

Fixpoint seq_ops (ops : list list_op) (s : list ptr * gset ptr) : option (list ptr * gset ptr) :=
  match ops with
  | [] => Some s
  | op :: ops => s ← seq_op op s; seq_ops ops s
  end.

(** Pool [q] of [h] implements the sequence and the set. *)
Definition implements (h : heap A B) (q : ptr) (s : list ptr * gset ptr) : Prop :=
  dlist h q s.1 /\ forall p, p ∈ s.2 -> detached h q p /\ p ∉ s.1.

Lemma seq_insert_Some after p i l l' :
  seq_insert after p i l = Some l' ->
  exists L1 L2, l = L1 ++ p :: L2 /\ l' = L1 ++ (if after then [p; i] else [i; p]) ++ L2.
Proof.
  revert l'. induction l as [|x l IH]; intros l'; [done|]. cbn. case_decide; intros E.
  - exists [], l. destruct after; naive_solver.
  - destruct (seq_insert after p i l) as [l1|]; [|done]. injection E as <-.
    destruct (IH _ eq_refl) as (L1 & L2 & -> & ->). by exists (x :: L1), L2.
Qed.

Lemma seq_remove_Some e l l' :
  seq_remove e l = Some l' -> exists L1 L2, l = L1 ++ e :: L2 /\ l' = L1 ++ L2.
Proof.
  revert l'. induction l as [|x l IH]; intros l'; [done|]. cbn. case_decide; intros E.
  - exists [], l. naive_solver.
  - destruct (seq_remove e l) as [l1|]; [|done]. injection E as <-.
    destruct (IH _ eq_refl) as (L1 & L2 & -> & ->). by exists (x :: L1), L2.
Qed.

Lemma detached_frame h h' q touched p :
  frame q touched h h' -> p ∉ touched -> detached h q p -> detached h' q p.
Proof. intros (Hf & _) Hp [a Ha]. exists a. by rewrite Hf. Qed.

Lemma implements_insert h h' q l out i l' :
  implements h q (l, out) -> i ∈ out -> dlist h' q l' -> frame q (i :: l) h h' ->
  (forall x, x ∈ l' -> x = i \/ x ∈ l) ->
  implements h' q (l', out ∖ {[i]}).
Proof.
  intros [Hd Ho] Hi Hd' Hf Hl. split; [done|]. cbn in *. intros p [Hp Hpi]%elem_of_difference.
  destruct (Ho _ Hp) as [Hdet Hpl]. split.
  - eapply detached_frame; [done| |done]. set_solver.
  - intros Hin. destruct (Hl _ Hin); set_solver.
Qed.

Lemma run_op_implements NDEBUG h q op s s' :
  implements h q s -> seq_op op s = Some s' ->
  exists h' touched, run_op NDEBUG op h = Ok (tt, h') /\ implements h' q s' /\
    (forall p, p ∈ touched -> p ∈ s.1 \/ p ∈ s.2) /\ frame q touched h h'.
Proof.
  destruct s as [l out]. intros Him E. pose proof Him as [Hd Ho]. cbn in Hd, Ho.
  destruct op as [p i|[p|] i|e]; cbn in E.
  - case_decide as Hi; [|done]. destruct (seq_insert _ _ _ _) as [l'|] eqn:El; [|done].
    injection E as <-. destruct (seq_insert_Some _ _ _ _ _ El) as (L1 & L2 & -> & ->).
    destruct (Ho _ Hi). edestruct (list_insert_before_spec NDEBUG) as (h' & Hr & Hd' & Hf); [done..|].
    eexists h', _. split_and!; [done| |shelve|exact Hf]. eapply implements_insert; [done..|set_solver].
    Unshelve. cbn. set_solver.
  - case_decide as Hi; [|done]. destruct (seq_insert _ _ _ _) as [l'|] eqn:El; [|done].
    injection E as <-. destruct (seq_insert_Some _ _ _ _ _ El) as (L1 & L2 & -> & ->).
    destruct (Ho _ Hi). edestruct (list_insert_after_spec NDEBUG) as (h' & Hr & Hd' & Hf); [done..| |].
    { apply insert_here. }
    eexists h', _. split_and!; [done| |shelve|exact Hf]. eapply implements_insert; [done..|set_solver].
    Unshelve. cbn. set_solver.
  - case_decide as Hi; [|done]. injection E as <-. destruct (Ho _ Hi).
    edestruct (list_insert_after_spec NDEBUG) as (h' & Hr & Hd' & Hf); [done..| |].
    { apply insert_first. }
    eexists h', _. split_and!; [done| |shelve|exact Hf]. eapply implements_insert; [done..|set_solver].
    Unshelve. cbn. set_solver.
  - destruct (seq_remove e l) as [l'|] eqn:El; [|done]. injection E as <-.
    destruct (seq_remove_Some _ _ _ El) as (L1 & L2 & -> & ->).
    destruct (list_disconnect_spec _ _ _ _ _ Hd) as (h' & Hr & Hd' & Hdet & Hf).
    eexists h', _. split; [cbn; by rewrite (st_bind_ok _ _ _ _ _ Hr)|].
    split_and!; [|shelve|exact Hf]. split; [done|].
    assert (e ∉ L1 ++ L2).
    { destruct Hd as (Hnd & _). rewrite NoDup_app, NoDup_cons in Hnd. set_solver. }
    cbn. intros p [->%elem_of_singleton|Hp]%elem_of_union; [done|]. destruct (Ho _ Hp).
    split; [|set_solver]. by eapply detached_frame.
    Unshelve. cbn. by left.
Qed.

(** C8. The intrusive list implements a plain sequence: from a pool that
    holds [l] and a set of detached items, every sequence of
    [list_insert_before], [list_insert_after] and [list_disconnect] calls
    that makes sense on the plain sequence runs without a failed assertion
    and without following a bad pointer, in debug and release builds alike,
    and the pool then holds the resulting sequence, linked consistently both
    ways, with the items outside it detached. *)
Theorem list_ops_refine NDEBUG ops h q l out l' out' :
  implements h q (l, out) -> seq_ops ops (l, out) = Some (l', out') ->
  exists h', run_ops NDEBUG ops h = Ok (tt, h') /\ implements h' q (l', out').
Proof.
  revert h l out. induction ops as [|op ops IH]; intros h l out Him E.
  - injection E as <- <-. by exists h.
  - cbn [seq_ops] in E. destruct (seq_op op (l, out)) as [[l1 out1]|] eqn:E1; [|done].
    destruct (run_op_implements NDEBUG h q op _ _ Him E1) as (h1 & ? & Hr & Him1 & _).
    destruct (IH _ _ _ Him1 E) as (h' & Hr' & Him'). exists h'. split; [|done].
    cbn [run_ops]. by rewrite (st_bind_ok _ _ _ _ _ Hr).
Qed.

(** [list_root] and [list_end] of any item return the first and the last
    item of the pool's list; both loops end within as many rounds as the list
    has items, and [list_root]'s assertion does not fire. *)
Theorem list_ends_correct NDEBUG h q L1 e L2 :
  dlist h q (L1 ++ e :: L2) ->
  list_root NDEBUG (S (length L1)) (Some e) h = Ok (head (L1 ++ e :: L2), h) /\
  list_end (S (length L2)) (Some e) h = Ok (last (L1 ++ e :: L2), h).
Proof.
  intros (Hnd & Hs & _). split.
  - unfold list_root. rewrite (list_root_seg NDEBUG h q L1 e L2 None e Hs Hnd).
    + f_equal. f_equal. by destruct L1.
    + apply NoDup_app in Hnd as (_ & Hnd & _). intros He. apply (Hnd e He). set_solver.
  - rewrite last_app_cons. apply dseg_app in Hs as [_ Hs].
    destruct L2 as [|x L2 _] using rev_ind.
    + by apply (list_end_seg h q _ [] e Hs e []).
    + rewrite length_app, Nat.add_comm, app_comm_cons, last_snoc.
      by apply (list_end_seg h q _ (e :: L2) x Hs e (L2 ++ [x])).
Qed.

(** [list_disconnect_range] on a range that is not at either end of the
    list cuts it out: what is left is one consistent list, the strand is
    linked from [pBegin] to [pEnd] with null ends, and the item after the
    range is returned. *)
Theorem list_disconnect_range_inside NDEBUG fuel h q L1 x b mid e y L2 :
  dlist h q ((L1 ++ [x]) ++ (b :: mid ++ [e]) ++ y :: L2) ->
  exists h', list_disconnect_range NDEBUG fuel (Some b) (Some e) h = Ok (Some y, h') /\
    dlist h' q ((L1 ++ [x]) ++ y :: L2) /\ dseg (items h') q None (b :: mid ++ [e]) None /\
    frame q [x; b; e; y] h h'.
Proof. apply list_cut_range_inside. Qed.

(** [list_disconnect_range] on a range that begins at the root of the
    list fails an assertion in a debug build. In a release build the range is
    cut out, but the pool's root is then the second item of the strand just
    removed, not the first item that is left. *)
Theorem list_disconnect_range_at_root fuel h q b mid e y L2 :
  dlist h q ((b :: mid ++ [e]) ++ y :: L2) ->
  list_disconnect_range false fuel (Some b) (Some e) h = Err AssertFail /\
  exists h', list_disconnect_range true fuel (Some b) (Some e) h = Ok (Some y, h') /\
    dseg (items h') q None (b :: mid ++ [e]) None /\ dseg (items h') q None (y :: L2) None /\
    m_pRoot <$> pools h' !! q = Some (head (mid ++ [e])).
Proof. apply list_cut_range_front. Qed.

End Theory.

(** ** Concrete lists *)

(** A pool at 9 whose list is 1, 2, 3, 4, with 5 detached. *)
Definition demo_heap : heap unit unit :=
  mkHeap (list_to_map
    [(1%positive, mkItem (Some 9%positive) (Some 2%positive) None tt);
     (2%positive, mkItem (Some 9%positive) (Some 3%positive) (Some 1%positive) tt);
     (3%positive, mkItem (Some 9%positive) (Some 4%positive) (Some 2%positive) tt);
     (4%positive, mkItem (Some 9%positive) None (Some 3%positive) tt);
     (5%positive, mkItem (Some 9%positive) None None tt)])
    {[9%positive := mkPool (Some 1%positive) (Some 4%positive) tt]}.

Lemma demo_dlist : dlist demo_heap 9 [1; 2; 3; 4]%positive.
Proof.
  split; [by apply (bool_decide_unpack _); vm_compute|]. split; [|by exists tt].
  by repeat split; exists tt.
Qed.

Lemma demo_implements : implements demo_heap 9 ([1; 2; 3; 4]%positive, {[5%positive]}).
Proof. split; [apply demo_dlist|]. cbn. intros p ->%elem_of_singleton. split; [by exists tt|set_solver]. Qed.

Lemma list_ops_refine_witness :
  exists h', run_ops false [InsertBefore 1 5; Disconnect 3; InsertAfter None 3; Disconnect 4]%positive
      demo_heap = Ok (tt, h') /\ implements h' 9 ([3; 5; 1; 2]%positive, {[4%positive]} ∪ (({[3%positive]} ∪ ({[5%positive]} ∖ {[5%positive]})) ∖ {[3%positive]})).
Proof.
  apply (list_ops_refine false _ demo_heap 9%positive [1; 2; 3; 4]%positive {[5%positive]}).
  - apply demo_implements.
  - reflexivity.
Defined.

Lemma list_ends_correct_witness :
  list_root false 3 (Some 3%positive) demo_heap = Ok (Some 1%positive, demo_heap) /\
  list_end 2 (Some 3%positive) demo_heap = Ok (Some 4%positive, demo_heap).
Proof. apply (list_ends_correct false demo_heap 9%positive [1; 2]%positive 3%positive [4%positive]). apply demo_dlist. Defined.

Lemma list_disconnect_range_inside_witness :
  exists h', list_disconnect_range false 0 (Some 2%positive) (Some 3%positive) demo_heap = Ok (Some 4%positive, h') /\
    dlist h' 9 [1; 4]%positive /\ dseg (items h') 9 None [2; 3]%positive None /\
    frame 9 [1; 2; 3; 4]%positive demo_heap h'.
Proof.
  apply (list_disconnect_range_inside false 0 demo_heap 9%positive [] 1%positive 2%positive [] 3%positive 4%positive []).
  apply demo_dlist.
Defined.

Lemma list_disconnect_range_at_root_witness :
  list_disconnect_range false 0 (Some 1%positive) (Some 2%positive) demo_heap = Err AssertFail /\
  exists h', list_disconnect_range true 0 (Some 1%positive) (Some 2%positive) demo_heap = Ok (Some 3%positive, h') /\
    dseg (items h') 9 None [1; 2]%positive None /\ dseg (items h') 9 None [3; 4]%positive None /\
    m_pRoot <$> pools h' !! 9%positive = Some (Some 2%positive).
Proof.
  apply (list_disconnect_range_at_root 0 demo_heap 9%positive 1%positive [] 2%positive 3%positive [4%positive]).
  apply demo_dlist.
Defined.
