(* ===== verification/MemPool.v ===== *)
(** * Memory pools

    [PoolItem], [TSMemoryPool] and [MemoryPool] of
    include/mutils/thread/mempool.h, on the heap of ListItem.

    The lock-free queue of [TSMemoryPool] (moodycamel::ConcurrentQueue) is a
    third-party container: the class [ConcurrentQueue] states what the pool
    calls, and [ConcurrentQueueLaws] what the calls promise to a single
    thread. They do not promise an order. The pooled type [T] contributes its
    constructor and its [Init] as parameters, and the allocator the choice of
    an address that is not in use. *)

From S2P Require Import Prelude ListItem.

(** ** What a pool needs of its free list *)

Class ConcurrentQueue (Q : Type) : Type := {
  empty_queue : Q;
  enqueue : ptr -> Q -> Q;
  try_dequeue : Q -> option (ptr * Q);
  queued : Q -> list ptr }.

Class ConcurrentQueueLaws (Q : Type) `{ConcurrentQueue Q} : Prop := {
  queued_empty : queued empty_queue = [];
  queued_enqueue p f : queued (enqueue p f) ≡ₚ p :: queued f;
  dequeue_none f : try_dequeue f = None -> queued f = [];
  dequeue_some f p f' : try_dequeue f = Some (p, f') -> queued f ≡ₚ p :: queued f' }.

(** [std::vector] used from the back: [push_back]; [back] and [pop_back]. *)
Definition push_back (p : ptr) (f : list ptr) : list ptr := f ++ [p].
Definition pop_back (f : list ptr) : option (ptr * list ptr) :=
  match last f with Some p => Some (p, removelast f) | None => None end.

#[global] Instance vector_queue : ConcurrentQueue (list ptr) := {
  empty_queue := [];
  enqueue := push_back;
  try_dequeue := pop_back;
  queued := id }.

#[global] Instance vector_queue_laws : ConcurrentQueueLaws (list ptr).
Proof.
  split.
  - done.
  - intros p f. cbn. unfold push_back. by rewrite Permutation_app_comm.
  - intros f. cbn. unfold pop_back. destruct (last f) eqn:E; [done|]. by apply last_None in E.
  - intros f p f'. cbn. unfold pop_back. destruct f as [|x f _] using rev_ind; [done|].
    rewrite last_snoc, removelast_last. intros [= <- <-]. unfold id. by rewrite Permutation_app_comm.
Qed.

(** ** Data *)

Record PoolItem (C : Type) : Type := mkPoolItem { m_id : Z; payload : C }.
Arguments mkPoolItem {C}.
Arguments m_id {C}.
Arguments payload {C}.

Record PoolData (Q : Type) : Type := mkPoolData { m_freeItems : Q; m_nextId : Z }.
Arguments mkPoolData {Q}.
Arguments m_freeItems {Q}.
Arguments m_nextId {Q}.

Section Code.
Context {C Q : Type} `{ConcurrentQueue Q}.
Abbreviation pheap := (heap (PoolItem C) (PoolData Q)).
Context (NDEBUG : bool) (new_addr : pheap -> ptr) (new_T : C) (Init : C -> C).
Abbreviation M := (ST pheap).

(** ** Objects *)

Definition with_free (f : Q) (P : IMemoryPool (PoolData Q)) : IMemoryPool (PoolData Q) :=
  mkPool (m_pRoot P) (m_pLast P) (mkPoolData f (m_nextId (pool_derived P))).

(** [m_nextId++] *)
Definition bump (P : IMemoryPool (PoolData Q)) : IMemoryPool (PoolData Q) :=
  mkPool (m_pRoot P) (m_pLast P)
    (mkPoolData (m_freeItems (pool_derived P)) (u64 (m_nextId (pool_derived P) + 1))).

Definition next_id (q : option ptr) : M Z :=
  P ← get_pool q; set_pool q bump;; mret (m_nextId (pool_derived P)).

Definition with_id (n : Z) (it : IListItem (PoolItem C)) : IListItem (PoolItem C) :=
  mkItem (m_pPool it) (m_pNext it) (m_pPrevious it) (mkPoolItem n (payload (derived it))).

Definition with_init (it : IListItem (PoolItem C)) : IListItem (PoolItem C) :=
  mkItem (m_pPool it) (m_pNext it) (m_pPrevious it)
    (mkPoolItem (m_id (derived it)) (Init (payload (derived it)))).

(** [new T(this, id)] *)
Definition new_item (q : option ptr) (id : Z) : M ptr :=
  h ← st_get;
  let p := new_addr h in
  st_put (mkHeap (<[p := mkItem q None None (mkPoolItem id new_T)]> (items h)) (pools h));;
  mret p.

(** [delete p]; deleting what is not there is undefined behaviour. *)
Definition delete_item (p : ptr) : M unit :=
  h ← st_get; st_some (items h !! p);; st_put (mkHeap (delete p (items h)) (pools h)).

(** ** TSMemoryPool *)

Definition TS_Alloc (q : option ptr) : M ptr :=
  P ← get_pool q;
  pRet ← (match try_dequeue (m_freeItems (pool_derived P)) with
          | None => n ← next_id q; new_item q n
          | Some (pRet, f) =>
              set_pool q (with_free f);;
              n ← next_id q;
              set_item (Some pRet) (with_id n);;
              mret pRet
          end);
  set_item (Some pRet) with_init;;
  mret pRet.

Definition TS_Free (q : option ptr) (pVal : ptr) : M unit :=
  P ← get_pool q; set_pool q (with_free (enqueue pVal (m_freeItems (pool_derived P)))).

Fixpoint TS_Clear (fuel : nat) (q : option ptr) : M unit :=
  match fuel with
  | O => st_fail OutOfFuel
  | S fuel =>
      P ← get_pool q;
      match try_dequeue (m_freeItems (pool_derived P)) with
      | None => mret tt
      | Some (pVictim, f) =>
          set_pool q (with_free f);; delete_item pVictim;; TS_Clear fuel q
      end
  end.

(** The loop of the constructor; the free item is enqueued again at once. *)
Fixpoint TS_fill (initialSize : nat) (q : option ptr) : M unit :=
  match initialSize with
  | O => mret tt
  | S n => p ← TS_Alloc q; TS_Free q p;; TS_fill n q
  end.

Definition TSMemoryPool_make (initialSize : nat) (q : ptr) : M unit :=
  h ← st_get;
  st_put (mkHeap (items h) (<[q := mkPool None None (mkPoolData empty_queue 0)]> (pools h)));;
  TS_fill initialSize (Some q).

(** [PoolItem::Free] *)
Definition PoolItem_Free (p : ptr) : M unit :=
  list_disconnect (Some p);;
  q ← load_pool (Some p);
  TS_Free q p.

End Code.

(** ** MemoryPool *)

Section Vector.
Context {C : Type}.
Abbreviation vheap := (heap (PoolItem C) (PoolData (list ptr))).
Context (new_addr : vheap -> ptr) (new_T : C) (Init : C -> C).
Abbreviation M := (ST vheap).

Definition MP_Alloc (q : option ptr) : M ptr :=
  P ← get_pool q;
  let m_freeItems := m_freeItems (pool_derived P) in
  pRet ← (if bool_decide (m_freeItems = []) then n ← next_id q; new_item new_addr new_T q n
          else
            pRet ← st_some (last m_freeItems);
            set_pool q (with_free (removelast m_freeItems));;
            n ← next_id q;
            set_item (Some pRet) (with_id n);;
            mret pRet);
  set_item (Some pRet) (with_init Init);;
  mret pRet.

Definition MP_Free (q : option ptr) (pVal : ptr) : M unit :=
  P ← get_pool q; set_pool q (with_free (m_freeItems (pool_derived P) ++ [pVal])).

Fixpoint delete_all (l : list ptr) : M unit :=
  match l with [] => mret tt | p :: l => delete_item p;; delete_all l end.

(** [Clear] deletes the items and keeps their pointers. *)
Definition MP_Clear (q : option ptr) : M unit :=
  P ← get_pool q; delete_all (m_freeItems (pool_derived P)).

Fixpoint MP_fill (initialSize : nat) (q : option ptr) : M unit :=
  match initialSize with
  | O => mret tt
  | S n => p ← MP_Alloc q; MP_Free q p;; MP_fill n q
  end.

Definition MemoryPool_make (initialSize : nat) (q : ptr) : M unit :=
  h ← st_get;
  st_put (mkHeap (items h) (<[q := mkPool None None (mkPoolData [] 0)]> (pools h)));;
  MP_fill initialSize (Some q).

End Vector.

(** ** Theory *)

Section Theory.
Context {C Q : Type} `{ConcurrentQueueLaws Q}.
Abbreviation pheap := (heap (PoolItem C) (PoolData Q)).
Implicit Types (h : pheap) (q p : ptr) (l f : list ptr) (out : gset ptr) (n : Z)
  (P : IMemoryPool (PoolData Q)).

Definition item_id h p : option Z := (fun it => m_id (derived it)) <$> items h !! p.

(** Pool [q] has the list [l], the items [out] are handed out but in no list,
    [f] are free, and [n] items have been handed out so far. No item plays
    two parts; and up to 2^64 allocations, the items in use have different ids. *)
Record pool_inv h q l out f n : Prop := {
  pi_list : dlist h q l;
  pi_pool : exists P, pools h !! q = Some P /\ queued (m_freeItems (pool_derived P)) ≡ₚ f /\
              m_nextId (pool_derived P) = u64 n /\ 0 <= n;
  pi_nodup : NoDup f;
  pi_free p : p ∈ f -> detached h q p /\ p ∉ l /\ p ∉ out;
  pi_out p : p ∈ out -> detached h q p /\ p ∉ l;
  pi_id p : n <= 2 ^ 64 -> p ∈ l \/ p ∈ out -> exists i, item_id h p = Some i /\ 0 <= i < n;
  pi_inj p p' : n <= 2 ^ 64 -> p ∈ l \/ p ∈ out -> p' ∈ l \/ p' ∈ out ->
    item_id h p = item_id h p' -> p = p' }.

Lemma dlist_same {A B} (h h' : heap A B) q l :
  dlist h q l -> (forall p, p ∈ l -> items h' !! p = items h !! p) ->
  (forall R, pools h !! q = Some R ->
     exists R', pools h' !! q = Some R' /\ m_pRoot R' = m_pRoot R /\ m_pLast R' = m_pLast R) ->
  dlist h' q l.
Proof.
  intros (Hnd & Hs & b & Hb) Hi HP. split; [done|]. split; [by eapply dseg_frame|].
  destruct (HP _ Hb) as ([r z b'] & HP' & Hr & Hz). cbn in *. exists b'. by subst.
Qed.

Lemma set_item_put {A B} (h : heap A B) p g it :
  items h !! p = Some it ->
  set_item (Some p) g h = Ok (tt, mkHeap (<[p := g it]> (items h)) (pools h)).
Proof. intros E. unfold set_item, st_some, st_get, st_put. unfold mbind, ST_bind, mret, ST_ret. by rewrite E. Qed.

Lemma next_id_ok h q P :
  pools h !! q = Some P ->
  next_id (Some q) h =
    Ok (m_nextId (pool_derived P), mkHeap (items h) (<[q := bump P]> (pools h))).
Proof.
  intros E. unfold next_id. rewrite (st_bind_ok _ _ _ _ _ (get_pool_ok _ _ _ E)).
  by rewrite (st_bind_ok _ _ _ _ _ (set_pool_ok _ _ _ _ E)).
Qed.

Lemma filter_all_ne p l : p ∉ l -> filter (fun x => x <> p) l = l.
Proof. intros Hp. apply filter_all. set_solver. Qed.

Lemma filter_ne p L1 L2 : p ∉ L1 ++ L2 -> filter (fun x => x <> p) (L1 ++ p :: L2) = L1 ++ L2.
Proof.
  intros Hp. rewrite filter_app, filter_cons_False by (intros E; done).
  by rewrite !filter_all_ne by set_solver.
Qed.

(** Unlinking an item in use, listed or not. *)
Lemma list_disconnect_use h q l p :
  dlist h q l -> p ∈ l \/ detached h q p /\ p ∉ l ->
  exists r h', list_disconnect (Some p) h = Ok (r, h') /\ dlist h' q (filter (fun x => x <> p) l) /\
    detached h' q p /\ frame q (p :: l) h h'.
Proof.
  intros Hd [(L1 & L2 & ->)%list_elem_of_split|[Hdet Hp]].
  - destruct (list_disconnect_spec _ _ _ _ _ Hd) as (h' & Hr & Hd' & Hdet & Hf).
    eexists _, h'. split; [done|]. destruct Hd as (Hnd & _). rewrite filter_ne.
    + split_and!; [done..|]. destruct Hf as (Hf & ?). split; [|done]. intros x Hx. apply Hf. set_solver.
    + rewrite NoDup_app, NoDup_cons in Hnd. set_solver.
  - exists None, h. rewrite filter_all_ne by done. split; [by eapply list_disconnect_detached|].
    by split_and!.
Qed.

(** The derived parts are the same. *)
Definition same_derived {A B} (h h' : heap A B) : Prop :=
  forall x, derived <$> items h' !! x = derived <$> items h !! x.

Lemma item_id_frame q touched h h' p : frame q touched h h' -> item_id h' p = item_id h p.
Proof.
  intros (_ & Hf & _). unfold item_id. specialize (Hf p).
  destruct (items h' !! p), (items h !! p); cbn in *; congruence.
Qed.

Lemma TS_Free_run h q P p :
  pools h !! q = Some P ->
  TS_Free (Some q) p h = Ok (tt, mkHeap (items h)
    (<[q := with_free (enqueue p (m_freeItems (pool_derived P))) P]> (pools h))).
Proof.
  intros HP. unfold TS_Free. rewrite (st_bind_ok _ _ _ _ _ (get_pool_ok _ _ _ HP)).
  by rewrite (set_pool_ok _ _ _ _ HP).
Qed.

Lemma PoolItem_Free_inv h q l out f n p :
  pool_inv h q l out f n -> p ∈ l \/ p ∈ out ->
  exists h', PoolItem_Free p h = Ok (tt, h') /\
    pool_inv h' q (filter (fun x => x <> p) l) (out ∖ {[p]}) (p :: f) n /\ same_derived h h'.
Proof.
  intros [Hd (P & HP & Hf & Hn & Hn0) Hnd Hfree Hout Hid Hinj] Hp.
  destruct (list_disconnect_use h q l p Hd) as (r & h1 & Hr & Hd1 & Hdet & Hfr).
  { destruct Hp as [|Hp]; [by left|right; by apply Hout]. }
  assert (p ∉ f) as Hpf by (intros Hpf; destruct (Hfree _ Hpf) as (? & ? & ?); tauto).
  assert (forall x, x ∈ filter (fun x => x <> p) l \/ x ∈ out ∖ {[p]} -> x ∈ l \/ x ∈ out) as Hsub.
  { intros x. rewrite list_elem_of_filter. set_solver. }
  pose proof Hfr as (Hsame & _ & _ & _ & HP1). rewrite HP in HP1.
  destruct (pools h1 !! q) as [P1|] eqn:E1; [|done]. cbn in HP1. injection HP1 as HP1.
  eexists. split.
  - unfold PoolItem_Free. rewrite (st_bind_ok _ _ _ _ _ Hr). pose proof Hdet as [a Ha].
    rewrite (st_bind_ok _ _ _ _ _ (load_pool_ok _ _ _ Ha)). cbn [m_pPool].
    by apply TS_Free_run.
  - split; [split|exact (proj1 (proj2 Hfr))].
    + eapply dlist_same; [done|done|]. intros R HR. rewrite E1 in HR. injection HR as <-.
      cbn. rewrite lookup_insert_eq. by eexists.
    + eexists. cbn. rewrite lookup_insert_eq. split; [done|]. cbn. rewrite queued_enqueue, HP1, Hf. done.
    + by apply NoDup_cons.
    + intros x [->|Hx]%elem_of_cons; [split_and!; [done|rewrite list_elem_of_filter; tauto|set_solver]|].
      destruct (Hfree _ Hx) as (? & ? & ?). split_and!; [|rewrite list_elem_of_filter; tauto|set_solver].
      destruct H1 as [a Ha]. exists a. cbn. rewrite Hsame; [done|set_solver].
    + intros x [Hx Hne]%elem_of_difference. destruct (Hout _ Hx) as [[a Ha] ?].
      split; [|rewrite list_elem_of_filter; tauto]. exists a. cbn. rewrite Hsame; [done|set_solver].
    + intros x Hle Hx. destruct (Hid x Hle (Hsub _ Hx)) as (i & Hi & ?). exists i.
      by rewrite <- (item_id_frame _ _ _ _ x Hfr) in Hi.
    + intros x y Hle Hx Hy E. apply (Hinj x y); auto.
      by rewrite <- !(item_id_frame _ _ _ _ _ Hfr).
Qed.

Lemma run_op_inv NDEBUG h q l out f n op l' out' :
  pool_inv h q l out f n -> seq_op op (l, out) = Some (l', out') ->
  exists h', run_op NDEBUG op h = Ok (tt, h') /\ pool_inv h' q l' out' f n /\ same_derived h h'.
Proof.
  intros [Hd (P & HP & Hf & Hn & Hn0) Hnd Hfree Hout Hid Hinj] E.
  destruct (run_op_implements NDEBUG h q op (l, out) (l', out')) as (h' & t & Hr & [Hd' Ho'] & Ht & Hfr);
    [by split|done|]. cbn in *. exists h'. split; [done|].
  assert (Huse : forall x, x ∈ l' \/ x ∈ out' <-> x ∈ l \/ x ∈ out).
  { intros x. destruct op as [p i|[p|] i|e]; cbn in E.
    1-3: case_decide; [|done].
    1,2: destruct (seq_insert _ _ _ _) as [l1|] eqn:El; [|done]; injection E as <- <-;
      destruct (seq_insert_Some _ _ _ _ _ El) as (L1 & L2 & -> & ->);
      destruct (decide (x = i)) as [->|]; set_solver.
    - injection E as <- <-. destruct (decide (x = i)) as [->|]; set_solver.
    - destruct (seq_remove e l) as [l1|] eqn:El; [|done]. injection E as <- <-.
      destruct (seq_remove_Some _ _ _ El) as (L1 & L2 & -> & ->). set_solver. }
  pose proof Hfr as (Hsame & _ & _ & _ & HP1). rewrite HP in HP1.
  destruct (pools h' !! q) as [P1|] eqn:E1; [|done]. cbn in HP1. injection HP1 as HP1.
  split; [|exact (proj1 (proj2 Hfr))]. split; try done.
  - exists P1. by rewrite HP1.
  - intros x Hx. destruct (Hfree _ Hx) as ([a Ha] & ? & ?).
    assert (~ (x ∈ l' \/ x ∈ out')) as Hnu by (rewrite Huse; tauto).
    split_and!; [|tauto..]. exists a. rewrite Hsame; [done|]. intros Hxt. destruct (Ht _ Hxt); tauto.
  - intros x Hle Hx. rewrite (item_id_frame _ _ _ _ x Hfr). apply Hid; [done|by apply Huse].
  - intros x y Hle Hx Hy. rewrite !(item_id_frame _ _ _ _ _ Hfr).
    apply Hinj; [done|by apply Huse..].
Qed.

(** *** Clear *)

Lemma delete_item_ok h p it :
  items h !! p = Some it -> delete_item p h = Ok (tt, mkHeap (delete p (items h)) (pools h)).
Proof.
  intros E. unfold delete_item, st_some, st_get, st_put. unfold mbind, ST_bind, mret, ST_ret. by rewrite E.
Qed.

Lemma delete_item_gone h p : items h !! p = None -> delete_item p h = Err UB.
Proof.
  intros E. unfold delete_item, st_some, st_get, st_put. unfold mbind, ST_bind, mret, ST_ret. by rewrite E.
Qed.

(** Taking a free item out of the pool and deleting it. *)
Lemma delete_free_inv h q l out f n p P k :
  pool_inv h q l out (p :: f) n -> pools h !! q = Some P -> queued k ≡ₚ f ->
  pool_inv (mkHeap (delete p (items h)) (<[q := with_free k P]> (pools h))) q l out f n.
Proof.
  intros [Hd (P' & HP' & Hf & Hn & Hn0) Hnd Hfree Hout Hid Hinj] HP Hk.
  rewrite HP in HP'. injection HP' as <-. apply NoDup_cons in Hnd as [Hpf Hnd].
  destruct (Hfree p) as (_ & Hpl & Hpo); [by left|].
  assert (forall x, x ∈ l \/ x ∈ out -> x <> p) as Hne by (intros x [] ->; done).
  assert (forall x, x <> p -> delete p (items h) !! x = items h !! x) as Hdel
    by (intros; by apply lookup_delete_ne).
  split.
  - eapply dlist_same; [done|intros x Hx; cbn; apply Hdel, Hne; by left|].
    intros R HR. cbn. rewrite lookup_insert_eq. rewrite HP in HR. injection HR as <-. by eexists.
  - eexists. cbn. rewrite lookup_insert_eq. split; [done|]. by cbn.
  - done.
  - intros x Hx. destruct (Hfree x) as ([a Ha] & ? & ?); [by right|]. split_and!; [|done..].
    exists a. cbn. rewrite Hdel; [done|]. by intros ->.
  - intros x Hx. destruct (Hout x Hx) as ([a Ha] & ?). split; [|done]. exists a. cbn. by rewrite Hdel by auto.
  - intros x Hle Hx. unfold item_id. cbn. rewrite Hdel by auto. by apply Hid.
  - intros x y Hle Hx Hy. unfold item_id. cbn. rewrite !Hdel by auto. by apply Hinj.
Qed.

Lemma pool_inv_perm h q l out f f' n : f ≡ₚ f' -> pool_inv h q l out f n -> pool_inv h q l out f' n.
Proof.
  intros Hp [Hd (P & HP & Hf & Hn) Hnd Hfree Hout Hid Hinj]. split; try done.
  - exists P. by rewrite <- Hp.
  - by rewrite <- Hp.
  - intros x Hx. apply Hfree. by rewrite Hp.
Qed.

Lemma TS_Clear_inv q l out n : forall f h,
  pool_inv h q l out f n ->
  exists h', TS_Clear (S (length f)) (Some q) h = Ok (tt, h') /\ pool_inv h' q l out [] n /\
    (forall p, p ∈ f -> items h' !! p = None) /\ (forall p, p ∉ f -> items h' !! p = items h !! p).
Proof.
  intros f. remember (length f) as k eqn:Ek. revert f Ek.
  induction k as [|k IH]; intros f Ek h Hi; pose proof (pi_pool _ _ _ _ _ _ Hi) as (P & HP & Hf & _).
  - destruct f; [|done]. exists h. cbn [TS_Clear]. rewrite (st_bind_ok _ _ _ _ _ (get_pool_ok _ _ _ HP)).
    destruct (try_dequeue _) as [[p g]|] eqn:E.
    + pose proof (dequeue_some _ _ _ E) as Hq. rewrite Hf in Hq. by apply Permutation_nil_cons in Hq.
    + split_and!; [done..|intros p Hp; by apply elem_of_nil in Hp|done].
  - remember (S k) as k1 eqn:Ek1. cbn [TS_Clear]. rewrite (st_bind_ok _ _ _ _ _ (get_pool_ok _ _ _ HP)).
    destruct (try_dequeue _) as [[p g]|] eqn:E.
    2:{ apply dequeue_none in E. rewrite E in Hf. apply Permutation_length in Hf. cbn in Hf. lia. }
    pose proof (dequeue_some _ _ _ E) as Hq. rewrite Hf in Hq.
    pose proof (pool_inv_perm _ _ _ _ _ _ _ Hq Hi) as Hi1.
    destruct (pi_free _ _ _ _ _ _ Hi1 p) as ([a Ha] & _); [by left|].
    pose proof (delete_free_inv _ _ _ _ _ _ _ _ g Hi1 HP ltac:(done)) as Hi2.
    rewrite (st_bind_ok _ _ _ _ _ (set_pool_ok _ _ _ _ HP)).
    erewrite (st_bind_ok (delete_item _)) by (eapply delete_item_ok; exact Ha).
    pose proof (Permutation_length Hq) as Hl. cbn in Hl. subst k1.
    destruct (IH (queued g) ltac:(lia) _ Hi2) as (h' & Hr & Hi' & Hgone & Hsame).
    assert (p ∉ queued g) as Hpg by exact (proj1 (proj1 (NoDup_cons _ _) (pi_nodup _ _ _ _ _ _ Hi1))).
    exists h'. split_and!; [exact Hr|done| |].
    + intros x Hx. rewrite Hq in Hx. apply elem_of_cons in Hx as [->|Hx]; [|by apply Hgone].
      rewrite Hsame by done. cbn. by rewrite lookup_delete_eq.
    + intros x Hx. rewrite Hq, not_elem_of_cons in Hx. destruct Hx. rewrite Hsame by done. cbn.
      by rewrite lookup_delete_ne.
Qed.

(** [TSMemoryPool::Clear] ends, deletes every free item once and nothing
    else, and leaves the pool usable with an empty free list. *)
Theorem TS_Clear_correct h q l out f n :
  pool_inv h q l out f n ->
  exists h', TS_Clear (S (length f)) (Some q) h = Ok (tt, h') /\ pool_inv h' q l out [] n /\
    (forall p, p ∈ f -> items h' !! p = None) /\ (forall p, p ∉ f -> items h' !! p = items h !! p).
Proof. apply TS_Clear_inv. Qed.

End Theory.

Section Allocation.
Context {C Q : Type} `{ConcurrentQueueLaws Q}.
Abbreviation pheap := (heap (PoolItem C) (PoolData Q)).
Context (new_addr : pheap -> ptr) (new_T : C) (Init : C -> C).
Hypothesis new_addr_fresh : forall h, items h !! new_addr h = None.
Implicit Types (h : pheap) (q p : ptr) (l f : list ptr) (out : gset ptr) (n : Z)
  (P : IMemoryPool (PoolData Q)).

(** *** Alloc *)

Lemma new_item_ok h q n :
  new_item new_addr new_T (Some q) n h =
    Ok (new_addr h, mkHeap (<[new_addr h := mkItem (Some q) None None (mkPoolItem n new_T)]> (items h)) (pools h)).
Proof. done. Qed.

(** One allocation: the pool's next free item, or a new one. *)
Lemma TS_Alloc_run h q P :
  pools h !! q = Some P ->
  (forall p, p ∈ queued (m_freeItems (pool_derived P)) -> detached h q p) ->
  exists p k c, TS_Alloc new_addr new_T Init (Some q) h =
      Ok (p, mkHeap (<[p := mkItem (Some q) None None (mkPoolItem (m_nextId (pool_derived P)) c)]> (items h))
               (<[q := bump (with_free k P)]> (pools h))) /\
    ((queued (m_freeItems (pool_derived P)) = [] /\ queued k = [] /\ items h !! p = None) \/
     queued (m_freeItems (pool_derived P)) ≡ₚ p :: queued k).
Proof.
  intros HP Hdet. unfold TS_Alloc. rewrite (st_bind_ok _ _ _ _ _ (get_pool_ok _ _ _ HP)).
  destruct (try_dequeue _) as [[p k]|] eqn:E.
  - pose proof (dequeue_some _ _ _ E) as Hp.
    destruct (Hdet p) as [[i c] Hit]; [rewrite Hp; set_solver|].
    exists p, k, (Init c). split; [|by right].
    rewrite st_bind_assoc, (st_bind_ok _ _ _ _ _ (set_pool_ok _ _ _ _ HP)), st_bind_assoc.
    erewrite (st_bind_ok (next_id _)) by (apply next_id_ok; cbn; apply lookup_insert_eq).
    rewrite st_bind_assoc.
    erewrite (st_bind_ok (set_item _ _)) by (apply set_item_put; exact Hit). rewrite st_ret_bind.
    erewrite (st_bind_ok (set_item _ _)) by (apply set_item_put; cbn; apply lookup_insert_eq).
    unfold mret, ST_ret. cbn [pools items]. by rewrite !insert_insert_eq.
  - pose proof (dequeue_none _ E) as Hp.
    exists (new_addr (mkHeap (items h) (<[q := bump P]> (pools h)))), (m_freeItems (pool_derived P)), (Init new_T).
    split; [|left; split_and!; [done..|exact (new_addr_fresh (mkHeap (items h) _))]].
    rewrite st_bind_assoc, (st_bind_ok _ _ _ _ _ (next_id_ok _ _ _ HP)).
    rewrite (st_bind_ok _ _ _ _ _ (new_item_ok _ _ _)).
    erewrite (st_bind_ok (set_item _ _)) by (apply set_item_put; cbn; apply lookup_insert_eq).
    unfold mret, ST_ret. cbn [pools items]. rewrite insert_insert_eq. by destruct P as [? ? []].
Qed.

Lemma detached_insert_ne (h h' : pheap) q p x it :
  items h' = <[x := it]> (items h) -> x <> p -> detached h q p -> detached h' q p.
Proof. intros E Hne [a Ha]. exists a. by rewrite E, lookup_insert_ne. Qed.

Lemma TS_Alloc_inv h q l out f n :
  pool_inv h q l out f n ->
  exists p h' f', TS_Alloc new_addr new_T Init (Some q) h = Ok (p, h') /\
    (f = [] /\ f' = [] /\ items h !! p = None \/ f ≡ₚ p :: f') /\ p ∉ l /\ p ∉ out /\
    item_id h' p = Some (u64 n) /\ (forall x, x <> p -> items h' !! x = items h !! x) /\
    pool_inv h' q l ({[p]} ∪ out) f' (n + 1).
Proof.
  intros [Hd (P & HP & Hf & Hn & Hn0) Hnd Hfree Hout Hid Hinj].
  destruct (TS_Alloc_run h q P HP) as (p & k & c & Hr & Hk).
  { intros x Hx. rewrite Hf in Hx. by destruct (Hfree x Hx). }
  eexists p, _, (queued k). split; [exact Hr|]. rewrite Hn in *.
  assert (Hp : p ∉ l /\ p ∉ out /\ p ∉ queued k /\ NoDup (queued k) /\ (forall x, x ∈ queued k -> x ∈ f)).
  { destruct Hk as [(Hq & -> & Hnone)|Hk].
    - assert (forall x, detached h q x -> x <> p) as Hx by (intros x [a Ha] ->; congruence).
      split_and!; [| |set_solver|constructor|set_solver].
      + intros Hl. destruct Hd as (_ & Hs & _). destruct (dseg_lookup _ _ _ _ _ _ Hs Hl) as (? & ? & _).
        congruence.
      + intros Ho. destruct (Hout _ Ho). by eapply Hx.
    - rewrite Hf in Hk. assert (p ∈ f) as Hpf by (rewrite Hk; set_solver).
      destruct (Hfree _ Hpf) as (_ & ? & ?). rewrite Hk in Hnd. apply NoDup_cons in Hnd as [??].
      split_and!; try done. intros x Hx. rewrite Hk. set_solver. }
  destruct Hp as (Hpl & Hpo & Hpk & Hndk & Hkf).
  assert (forall x h', x <> p -> items h' = _ -> detached h q x -> detached h' q x) as Hdet
    by (intros; by eapply (detached_insert_ne h)).
  split; [|split_and!; try done].
  - destruct Hk as [(Hq & Hk & Hnone)|Hk]; [left|right; by rewrite <- Hf].
    rewrite Hq in Hf. by apply Permutation_nil_l in Hf.
  - unfold item_id. cbn. by rewrite lookup_insert_eq.
  - intros x Hx. cbn. by rewrite lookup_insert_ne.
  - split; try done.
    + eapply dlist_same; [done| |].
      * intros x Hx. cbn. rewrite lookup_insert_ne; [done|set_solver].
      * intros R HR. cbn. rewrite HP in HR. injection HR as <-. rewrite lookup_insert_eq. by eexists.
    + eexists. cbn. rewrite lookup_insert_eq. split; [done|]. cbn. split_and!; [done| |lia].
      rewrite Hn. unfold wrap. by rewrite Z.add_mod_idemp_l.
    + intros x Hx. pose proof (Hkf _ Hx) as Hxf. destruct (Hfree _ Hxf) as (? & ? & ?).
      split_and!; [eapply Hdet; [set_solver|done..]|done|set_solver].
    + intros x [->%elem_of_singleton|Hx]%elem_of_union.
      * split; [|done]. eexists. cbn. by rewrite lookup_insert_eq.
      * destruct (Hout _ Hx). split; [eapply Hdet; [set_solver|done..]|done].
    + intros x Hle Hx. unfold item_id. cbn. rewrite lookup_insert. case_decide as Hxp.
      * exists n. cbn. rewrite wrap_small by (unfold in_u; lia). split; [done|lia].
      * destruct (Hid x) as (i & Hi & ?); [lia|set_solver|]. exists i. split; [done|lia].
    + assert (forall x, n < 2 ^ 64 -> x <> p -> x ∈ l \/ x ∈ {[p]} ∪ out -> item_id h x <> Some (u64 n)) as Hne.
      { intros x Hlt Hxp Hx E. destruct (Hid x) as (i & Hi & ?); [lia|set_solver|].
        rewrite wrap_small in E by (unfold in_u; lia). rewrite Hi in E. injection E. lia. }
      intros x y Hle Hx Hy. unfold item_id. cbn. rewrite !lookup_insert.
      repeat case_decide; subst; cbn; intros E; try done.
      * exfalso. eapply (Hne y); [lia|done|done|]. by rewrite E.
      * exfalso. eapply (Hne x); [lia|done|done|]. by rewrite <- E.
      * apply Hinj; [lia|set_solver|set_solver|done].
Qed.

(** *** Runs of a pool *)

(** One call of a client that holds the items [out] and the list [l]. *)
Inductive pool_step (NDEBUG : bool) (q : ptr) :
    pheap * list ptr * gset ptr * Z -> pheap * list ptr * gset ptr * Z -> Prop :=
| step_alloc h l out n p h' :
    TS_Alloc new_addr new_T Init (Some q) h = Ok (p, h') ->
    pool_step NDEBUG q (h, l, out, n) (h', l, {[p]} ∪ out, n + 1)
| step_free h l out n p h' :
    p ∈ l \/ p ∈ out -> PoolItem_Free p h = Ok (tt, h') ->
    pool_step NDEBUG q (h, l, out, n) (h', filter (fun x => x <> p) l, out ∖ {[p]}, n)
| step_list h l out n op l' out' h' :
    seq_op op (l, out) = Some (l', out') -> run_op NDEBUG op h = Ok (tt, h') ->
    pool_step NDEBUG q (h, l, out, n) (h', l', out', n).

Lemma pool_step_inv NDEBUG q h l out n f s' :
  pool_inv h q l out f n -> pool_step NDEBUG q (h, l, out, n) s' ->
  exists f', let '(h', l', out', n') := s' in pool_inv h' q l' out' f' n'.
Proof.
  intros Hi Hs. inversion Hs as [? ? ? ? p h' Hr|? ? ? ? p h' Hp Hr|? ? ? ? op l' out' h' Ho Hr]; subst.
  - destruct (TS_Alloc_inv _ _ _ _ _ _ Hi) as (p' & h1 & f' & Hr' & _ & _ & _ & _ & _ & Hi').
    rewrite Hr in Hr'. injection Hr' as <- <-. by exists f'.
  - destruct (PoolItem_Free_inv _ _ _ _ _ _ _ Hi Hp) as (h1 & Hr' & Hi' & _).
    rewrite Hr in Hr'. injection Hr' as <-. by exists (p :: f).
  - destruct (run_op_inv NDEBUG _ _ _ _ _ _ _ _ _ Hi Ho) as (h1 & Hr' & Hi' & _).
    rewrite Hr in Hr'. injection Hr' as <-. by exists f.
Qed.

Lemma pool_steps_inv NDEBUG q s s' :
  rtc (pool_step NDEBUG q) s s' ->
  (exists f, let '(h, l, out, n) := s in pool_inv h q l out f n) ->
  exists f, let '(h, l, out, n) := s' in pool_inv h q l out f n.
Proof.
  induction 1 as [|s1 s2 s3 Hs _ IH]; [done|]. intros [f Hi]. apply IH.
  destruct s1 as [[[h l] out] n]. by eapply pool_step_inv.
Qed.

(** *** The constructor *)

Lemma no_use (x : ptr) : ~ (x ∈ @nil ptr \/ x ∈ (∅ : gset ptr)).
Proof. intros [?%elem_of_nil|?%elem_of_empty]; done. Qed.

Lemma pool_inv_idle h q f n P :
  dlist h q [] -> pools h !! q = Some P -> queued (m_freeItems (pool_derived P)) ≡ₚ f ->
  m_nextId (pool_derived P) = u64 n -> 0 <= n -> NoDup f -> (forall p, p ∈ f -> detached h q p) ->
  pool_inv h q [] ∅ f n.
Proof.
  intros Hd HP Hq Hn Hn0 Hnd Hdet. split; try done.
  - by exists P.
  - intros p Hp. split; [by apply Hdet|]. split; [apply not_elem_of_nil|apply not_elem_of_empty].
  - intros p _ Hp. by destruct (no_use p).
  - intros p p' _ Hp. by destruct (no_use p).
Qed.

Lemma TS_fill_inv k : forall h q f n,
  pool_inv h q [] ∅ f n ->
  exists h' f', TS_fill new_addr new_T Init k (Some q) h = Ok (tt, h') /\
    pool_inv h' q [] ∅ f' (n + Z.of_nat k) /\
    length f' = (if decide (k = 0%nat) then length f else Nat.max 1 (length f)).
Proof.
  induction k as [|k IH]; intros h q f n Hi.
  - exists h, f. rewrite Z.add_0_r. by split_and!.
  - destruct (TS_Alloc_inv _ _ _ _ _ _ Hi) as (p & h1 & f1 & Hr & Hf & _ & _ & _ & _ & Hi1).
    destruct (pi_pool _ _ _ _ _ _ Hi1) as (P & HP & Hq & Hn & Hn0).
    assert (Hi2 : pool_inv (mkHeap (items h1)
      (<[q := with_free (enqueue p (m_freeItems (pool_derived P))) P]> (pools h1))) q [] ∅ (p :: f1) (n + 1)).
    { destruct Hi1 as [Hd _ Hnd Hfree Hout _ _]. eapply pool_inv_idle.
      - eapply dlist_same; [done|done|]. intros R HR. cbn. rewrite lookup_insert_eq.
        rewrite HP in HR. injection HR as <-. by eexists.
      - cbn. apply lookup_insert_eq.
      - cbn. by rewrite queued_enqueue, Hq.
      - done.
      - done.
      - apply NoDup_cons. split; [|done]. intros Hp. destruct (Hfree _ Hp) as (_ & _ & Hp'). by apply Hp', elem_of_union_l, elem_of_singleton.
      - intros x [->|Hx]%elem_of_cons; [|by destruct (Hfree _ Hx)].
        destruct (Hout p) as [? _]; [by apply elem_of_union_l, elem_of_singleton|done]. }
    destruct (IH _ _ _ _ Hi2) as (h' & f' & Hr' & Hi' & Hlen). exists h', f'. split_and!.
    + cbn [TS_fill]. rewrite (st_bind_ok _ _ _ _ _ Hr). by rewrite (st_bind_ok _ _ _ _ _ (TS_Free_run _ _ _ p HP)).
    + by replace (n + Z.of_nat (S k)) with (n + 1 + Z.of_nat k) by lia.
    + rewrite Hlen. destruct Hf as [(-> & -> & _)|Hf].
      * cbn. by repeat case_decide.
      * apply Permutation_length in Hf. rewrite Hf. cbn [length]. repeat case_decide; lia.
Qed.

Lemma TSMemoryPool_make_inv k h q :
  exists h' f, TSMemoryPool_make new_addr new_T Init k q h = Ok (tt, h') /\
    pool_inv h' q [] ∅ f (Z.of_nat k) /\ length f = Nat.min 1 k.
Proof.
  destruct (TS_fill_inv k (mkHeap (items h) (<[q := mkPool None None (mkPoolData empty_queue 0)]> (pools h))) q [] 0)
    as (h' & f & Hr & Hi & Hl).
  { eapply pool_inv_idle; cbn; [|apply lookup_insert_eq|cbn; by rewrite queued_empty|done..|constructor|].
    - split; [constructor|]. split; [done|]. eexists. cbn. by rewrite lookup_insert_eq.
    - intros p Hp. by apply elem_of_nil in Hp. }
  exists h', f. rewrite Z.add_0_l in Hi. split_and!; [exact Hr|done|].
  rewrite Hl. by destruct k.
Qed.

(** ** Properties *)

(** C7. Safety of a pool over its whole life. Start from a freshly built pool
    and let a client call [Alloc], [PoolItem::Free] on items it holds and the
    list functions in any order: in every state reached the list is well
    formed, no item is at once free and in use, the items in use have
    different ids (as long as [Alloc] has not been called more than 2^64
    times), and the next call cannot fail: [Alloc] returns an item that is not
    in use, [Free] and the list functions return. *)
Theorem pool_safe NDEBUG k h0 q h1 h l out n :
  TSMemoryPool_make new_addr new_T Init k q h0 = Ok (tt, h1) ->
  rtc (pool_step NDEBUG q) (h1, [], ∅, Z.of_nat k) (h, l, out, n) ->
  (exists f, pool_inv h q l out f n) /\
  (exists p h', TS_Alloc new_addr new_T Init (Some q) h = Ok (p, h') /\ p ∉ l /\ p ∉ out) /\
  (forall p, p ∈ l \/ p ∈ out -> exists h', PoolItem_Free p h = Ok (tt, h')) /\
  (forall op s', seq_op op (l, out) = Some s' -> exists h', run_op NDEBUG op h = Ok (tt, h')).
Proof.
  intros Hm Hs. destruct (TSMemoryPool_make_inv k h0 q) as (h1' & f1 & Hm' & Hi1 & _).
  rewrite Hm in Hm'. injection Hm' as <-.
  destruct (pool_steps_inv _ _ _ _ Hs ltac:(by exists f1)) as [f Hi]. split_and!.
  - by exists f.
  - destruct (TS_Alloc_inv _ _ _ _ _ _ Hi) as (p & h' & f' & Hr & _ & ? & ? & _). by exists p, h'.
  - intros p Hp. destruct (PoolItem_Free_inv _ _ _ _ _ _ _ Hi Hp) as (h' & Hr & _). by exists h'.
  - intros op [l' out'] Ho. destruct (run_op_inv NDEBUG _ _ _ _ _ _ _ _ _ Hi Ho) as (h' & Hr & _). by exists h'.
Qed.

(** What one [Alloc] and one [Free] do. [Alloc] reuses a free item exactly
    when there is one and otherwise creates one; the item gets the pool's next
    id and becomes the caller's, and every other item is left as it was.
    [Free] takes the item out of whatever list it is in, keeping the order of
    the others, and makes it free again. *)
Theorem alloc_free_correct h q l out f n :
  pool_inv h q l out f n ->
  (exists p h' f', TS_Alloc new_addr new_T Init (Some q) h = Ok (p, h') /\
     (f = [] /\ f' = [] /\ items h !! p = None \/ f ≡ₚ p :: f') /\ p ∉ l /\ p ∉ out /\
     item_id h' p = Some (u64 n) /\ (forall x, x <> p -> items h' !! x = items h !! x) /\
     pool_inv h' q l ({[p]} ∪ out) f' (n + 1)) /\
  (forall p, p ∈ l \/ p ∈ out -> exists h', PoolItem_Free p h = Ok (tt, h') /\
     pool_inv h' q (filter (fun x => x <> p) l) (out ∖ {[p]}) (p :: f) n).
Proof.
  intros Hi. split; [by apply TS_Alloc_inv|]. intros p Hp.
  destruct (PoolItem_Free_inv _ _ _ _ _ _ _ Hi Hp) as (h' & ? & ? & _). by exists h'.
Qed.

(** The constructor's loop [m_freeItems.enqueue(Alloc())] takes back in
    every round the item it enqueued in the round before: a pool built with
    any initial size of 1 or more holds exactly one free item, although it has
    used up as many ids as it was asked for items. *)
Theorem TSMemoryPool_make_one k h q :
  exists h' f, TSMemoryPool_make new_addr new_T Init k q h = Ok (tt, h') /\
    pool_inv h' q [] ∅ f (Z.of_nat k) /\ length f = Nat.min 1 k.
Proof. apply TSMemoryPool_make_inv. Qed.

End Allocation.

Section VectorTheory.
Context {C : Type}.
Abbreviation vheap := (heap (PoolItem C) (PoolData (list ptr))).
Context (new_addr : vheap -> ptr) (new_T : C) (Init : C -> C).
Implicit Types (h : vheap).

Lemma MP_Alloc_eq q h : MP_Alloc new_addr new_T Init q h = TS_Alloc new_addr new_T Init q h.
Proof.
  unfold MP_Alloc, TS_Alloc. destruct (get_pool q h) as [[P h']|e] eqn:E.
  2:{ by rewrite !(st_bind_err _ _ _ _ E). }
  rewrite !(st_bind_ok _ _ _ _ _ E). cbn [try_dequeue vector_queue].
  destruct (m_freeItems (pool_derived P)) as [|x f _] using rev_ind.
  - done.
  - rewrite bool_decide_false by (by destruct f). unfold pop_back. rewrite last_snoc. done.
Qed.

Lemma MP_Clear_all f : forall h,
  NoDup f -> (forall p, p ∈ f -> is_Some (items h !! p)) ->
  exists h', delete_all f h = Ok (tt, h') /\ pools h' = pools h /\ forall p, p ∈ f -> items h' !! p = None.
Proof.
  induction f as [|p f IH]; intros h Hnd Hf.
  - exists h. split_and!; [done..|]. intros p Hp. by apply elem_of_nil in Hp.
  - apply NoDup_cons in Hnd as [Hp Hnd]. destruct (Hf p) as [it Hit]; [by left|].
    destruct (IH (mkHeap (delete p (items h)) (pools h)) Hnd) as (h' & Hr & HP & Hgone).
    { intros x Hx. cbn. rewrite lookup_delete_ne by (by intros ->). apply Hf. by right. }
    exists h'. cbn [delete_all]. rewrite (st_bind_ok _ _ _ _ _ (delete_item_ok _ _ _ Hit)).
    split_and!; [done..|]. intros x [->|Hx]%elem_of_cons; [|by apply Hgone].
    clear -Hr Hp. assert (forall f h h', delete_all f h = Ok (tt, h') -> items h !! p = None -> items h' !! p = None) as Hk.
    { clear. intros f. induction f as [|x f IH]; intros h h' Hr Hn; [by injection Hr as <-|].
      cbn [delete_all] in Hr. destruct (items h !! x) as [it|] eqn:Ex.
      - rewrite (st_bind_ok _ _ _ _ _ (delete_item_ok _ _ _ Ex)) in Hr. apply (IH _ _ Hr). cbn.
        rewrite lookup_delete. by case_decide.
      - by rewrite (st_bind_err _ _ _ _ (delete_item_gone _ _ Ex)) in Hr. }
    eapply Hk; [exact Hr|]. cbn. by rewrite lookup_delete_eq.
Qed.

(** [MemoryPool] (a vector used from the back) and [TSMemoryPool] are the
    same pool: [Alloc], [Free] and the constructor of the one are those of the
    other when its queue is that vector, so what is proved of the
    thread-safe pool holds of both. *)
Theorem MemoryPool_is_TSMemoryPool q p k h q0 :
  MP_Alloc new_addr new_T Init q h = TS_Alloc new_addr new_T Init q h /\
  MP_Free q p h = TS_Free q p h /\
  MemoryPool_make new_addr new_T Init k q0 h = TSMemoryPool_make new_addr new_T Init k q0 h.
Proof.
  split_and!; [apply MP_Alloc_eq|done|]. unfold MemoryPool_make, TSMemoryPool_make.
  unfold st_get, st_put. unfold mbind, ST_bind. cbn.
  generalize (mkHeap (items h) (<[q0 := mkPool None None (mkPoolData [] 0)]> (pools h))).
  induction k as [|k IH]; intros h1; [done|]. cbn [MP_fill TS_fill].
  unfold mbind, ST_bind. rewrite MP_Alloc_eq. destruct (TS_Alloc _ _ _ _ h1) as [[p1 h2]|]; [|done].
  change (MP_Free (Some q0) p1 h2) with (TS_Free (Some q0) p1 h2).
  destruct (TS_Free (Some q0) p1 h2) as [[[] h3]|]; [apply IH|done].
Qed.

(** [MemoryPool::Clear] deletes the free items but keeps their pointers:
    when there was a free item, the next [Alloc] writes to a deleted object,
    and a second [Clear] (the destructor calls it) deletes it again. *)
Theorem MemoryPool_Clear_dangles h q l out f n :
  pool_inv h q l out f n -> f <> [] ->
  exists h', MP_Clear (Some q) h = Ok (tt, h') /\
    MP_Alloc new_addr new_T Init (Some q) h' = Err UB /\ MP_Clear (Some q) h' = Err UB.
Proof.
  intros [_ (P & HP & Hf & _ & _) Hnd Hfree _ _ _] Hne. cbn in Hf. unfold id in Hf.
  set (g := m_freeItems (pool_derived P)) in *.
  destruct (MP_Clear_all g h) as (h' & Hr & HP' & Hgone).
  - by rewrite Hf.
  - intros p Hp. rewrite Hf in Hp. destruct (Hfree p Hp) as ([a ->] & _). done.
  - exists h'. unfold MP_Clear. rewrite (st_bind_ok _ _ _ _ _ (get_pool_ok _ _ _ HP)).
    split; [exact Hr|]. rewrite <- HP' in HP.
    assert (g <> []) as Hg by (intros E; rewrite E in Hf; by apply Permutation_nil_l in Hf).
    split.
    + unfold MP_Alloc. rewrite (st_bind_ok _ _ _ _ _ (get_pool_ok _ _ _ HP)).
      change (m_freeItems (pool_derived P)) with g. rewrite bool_decide_false by done.
      destruct g as [|x g0 _] eqn:Eg using rev_ind; [done|]. rewrite last_snoc. apply st_bind_err.
      cbn [st_some]. rewrite st_ret_bind, (st_bind_ok _ _ _ _ _ (set_pool_ok _ _ _ _ HP)).
      erewrite (st_bind_ok (next_id _)) by (apply next_id_ok; cbn; apply lookup_insert_eq).
      apply st_bind_err. unfold set_item, st_some, st_get. unfold mbind, ST_bind, mret, ST_ret. cbn.
      rewrite Hgone; [done|]. set_solver.
    + rewrite (st_bind_ok _ _ _ _ _ (get_pool_ok _ _ _ HP)). change (m_freeItems (pool_derived P)) with g.
      destruct g as [|x g0]; [done|]. cbn [delete_all]. apply st_bind_err, delete_item_gone, Hgone. by left.
Qed.

End VectorTheory.

(** ** Concrete pools *)

(** An address above all those in use. *)
Definition demo_addr {A B} (h : heap A B) : ptr :=
  Pos.succ (foldr Pos.max 1%positive (map_to_list (items h)).*1).

Lemma demo_addr_fresh {A B} (h : heap A B) : items h !! demo_addr h = None.
Proof.
  destruct (items h !! demo_addr h) as [it|] eqn:E; [|done].
  apply elem_of_map_to_list, (list_elem_of_fmap_2 fst) in E. cbn in E. exfalso.
  assert (forall l p, p ∈ l -> (p <= foldr Pos.max 1%positive l)%positive) as Hmax.
  { clear. induction l as [|x l IH]; intros p Hp; [by apply elem_of_nil in Hp|]. cbn.
    apply elem_of_cons in Hp as [->|Hp]; [lia|]. specialize (IH _ Hp). lia. }
  apply Hmax in E. unfold demo_addr in E. lia.
Qed.

(** A pool at 9 built with an initial size of 2, and the same pool after one more [Alloc]. *)
Definition demo_pool : heap (PoolItem unit) (PoolData (list ptr)) :=
  mkHeap {[2%positive := mkItem (Some 9%positive) None None (mkPoolItem 1 tt)]}
         {[9%positive := mkPool None None (mkPoolData [2%positive] 2)]}.
Definition demo_pool' : heap (PoolItem unit) (PoolData (list ptr)) :=
  mkHeap {[2%positive := mkItem (Some 9%positive) None None (mkPoolItem 2 tt)]}
         {[9%positive := mkPool None None (mkPoolData [] 3)]}.

Lemma demo_pool_inv : pool_inv demo_pool 9 [] ∅ [2%positive] 2.
Proof.
  eapply pool_inv_idle; [|reflexivity|reflexivity|reflexivity|lia| |].
  - split; [constructor|]. split; [done|]. by eexists.
  - apply NoDup_singleton.
  - intros p ->%list_elem_of_singleton. by eexists.
Qed.

Lemma pool_safe_witness :
  TSMemoryPool_make demo_addr tt id 2 9%positive (mkHeap ∅ ∅) = Ok (tt, demo_pool) /\
  rtc (pool_step demo_addr tt id false 9) (demo_pool, [], ∅, Z.of_nat 2) (demo_pool', [], {[2%positive]} ∪ ∅, 3) /\
  exists p h', TS_Alloc demo_addr tt id (Some 9%positive) demo_pool' = Ok (p, h') /\
    p ∉ @nil ptr /\ p ∉ ({[2%positive]} ∪ ∅ : gset ptr).
Proof.
  assert (Hm : TSMemoryPool_make demo_addr tt id 2 9%positive (mkHeap ∅ ∅) = Ok (tt, demo_pool)) by reflexivity.
  assert (Hs : rtc (pool_step demo_addr tt id false 9) (demo_pool, [], ∅, Z.of_nat 2)
                   (demo_pool', [], {[2%positive]} ∪ ∅, 3)).
  { apply rtc_once. apply (step_alloc demo_addr tt id false 9 demo_pool [] ∅ 2 2%positive demo_pool'). reflexivity. }
  split; [exact Hm|]. split; [exact Hs|].
  exact (proj1 (proj2 (pool_safe demo_addr tt id demo_addr_fresh false 2 _ 9%positive _ _ [] _ 3 Hm Hs))).
Defined.

Lemma alloc_free_correct_witness :
  exists p h' f', TS_Alloc demo_addr tt id (Some 9%positive) demo_pool = Ok (p, h') /\
     ([2%positive] = [] /\ f' = [] /\ items demo_pool !! p = None \/ [2%positive] ≡ₚ p :: f') /\
     p ∉ @nil ptr /\ p ∉ (∅ : gset ptr) /\
     item_id h' p = Some (u64 2) /\ (forall x, x <> p -> items h' !! x = items demo_pool !! x) /\
     pool_inv h' 9 [] ({[p]} ∪ ∅) f' (2 + 1).
Proof. exact (proj1 (alloc_free_correct demo_addr tt id demo_addr_fresh demo_pool 9 [] ∅ _ 2 demo_pool_inv)). Defined.

Lemma TSMemoryPool_make_one_witness :
  exists h' f, TSMemoryPool_make demo_addr tt id 10 9%positive
      (mkHeap ∅ ∅ : heap (PoolItem unit) (PoolData (list ptr))) = Ok (tt, h') /\
    pool_inv h' 9 [] ∅ f 10 /\ length f = 1%nat.
Proof. exact (TSMemoryPool_make_one demo_addr tt id demo_addr_fresh 10 (mkHeap ∅ ∅) 9). Defined.

Lemma TS_Clear_correct_witness :
  exists h', TS_Clear 2 (Some 9%positive) demo_pool = Ok (tt, h') /\ pool_inv h' 9 [] ∅ [] 2 /\
    (forall p, p ∈ [2%positive] -> items h' !! p = None) /\
    (forall p, p ∉ [2%positive] -> items h' !! p = items demo_pool !! p).
Proof. exact (TS_Clear_correct demo_pool 9 [] ∅ [2%positive] 2 demo_pool_inv). Defined.

Lemma MemoryPool_Clear_dangles_witness :
  exists h', MP_Clear (Some 9%positive) demo_pool = Ok (tt, h') /\
    MP_Alloc demo_addr tt id (Some 9%positive) h' = Err UB /\ MP_Clear (Some 9%positive) h' = Err UB.
Proof.
  apply (MemoryPool_Clear_dangles demo_addr tt id demo_pool 9 [] ∅ [2%positive] 2); [apply demo_pool_inv|done].
Defined.
