(* ===== verification/Timeline.v ===== *)
(** * Timeline

    [TimeLineEvent] and [Timeline] of include/mutils/time/timeline.h: events
    in a memory pool, sewn into the pool's list in order of time.

    A [TimePoint] is the number of nanoseconds since the clock's epoch, a
    duration in milliseconds is a number of milliseconds, both in 64 bits: a
    conversion, sum or difference that does not fit is undefined behaviour.
    [TimeProvider::Instance().Now()] is an argument. A loop over the list has fuel; the length of the list plus one
    is always enough. The lock is the subject of SpinLock. *)

From Stdlib Require Import Sorted.
From S2P Require Import Prelude ListItem MemPool.

Record TimeLineEvent : Type := mkEvent {
  m_time : Z;
  m_duration : Z;
  m_triggered : bool;
  m_pszName : option str;
  type_id : Z  (** what the virtual [GetType] returns *) }.

Definition SetTime (t d : Z) (ev : TimeLineEvent) : TimeLineEvent :=
  mkEvent t d (m_triggered ev) (m_pszName ev) (type_id ev).

Definition SetName (name : option str) (ev : TimeLineEvent) : TimeLineEvent :=
  mkEvent (m_time ev) (m_duration ev) (m_triggered ev) name (type_id ev).

(** Milliseconds and seconds in nanoseconds. *)
Definition ms (d : Z) : Z := d * 1000000.
Definition seconds (d : Z) : Z := d * 1000000000.

(** [m_time + m_duration]: the duration is converted to nanoseconds first. *)
Definition EndTime (ev : TimeLineEvent) : result stop Z :=
  d ← s_check 64 (ms (m_duration ev)); s_check 64 (m_time ev + d).

Definition Event_Init (ev : TimeLineEvent) : TimeLineEvent :=
  mkEvent (m_time ev) (m_duration ev) false (m_pszName ev) (type_id ev).

(** [TimePoint::min()] *)
Definition time_min : Z := - 2 ^ 63.

Section Code.
Context {Q : Type} `{ConcurrentQueue Q} (NDEBUG : bool).
Abbreviation theap := (heap (PoolItem TimeLineEvent) (PoolData Q)).
Abbreviation M := (ST theap).

Definition get_event (p : option ptr) : M TimeLineEvent := it ← get_item p; mret (payload (derived it)).

Definition with_event (g : TimeLineEvent -> TimeLineEvent) (it : IListItem (PoolItem TimeLineEvent)) :
    IListItem (PoolItem TimeLineEvent) :=
  mkItem (m_pPool it) (m_pNext it) (m_pPrevious it)
    (mkPoolItem (m_id (derived it)) (g (payload (derived it)))).

Definition set_triggered (ev : TimeLineEvent) : TimeLineEvent :=
  mkEvent (m_time ev) (m_duration ev) true (m_pszName ev) (type_id ev).

(** [(startTime - (m_time + m_duration)) > seconds(secondsOld)] and
    [(startTime - m_time) < seconds(16)] *)
Definition expired (startTime secondsOld : Z) (ev : TimeLineEvent) : result stop bool :=
  endTime ← EndTime ev;
  age ← s_check 64 (startTime - endTime);
  limit ← s_check 64 (seconds secondsOld);
  mret (limit <? age).
Definition recent (startTime : Z) (ev : TimeLineEvent) : result stop bool :=
  age ← s_check 64 (startTime - m_time ev);
  mret (age <? seconds 16).

Fixpoint expire_loop (fuel : nat) (startTime secondsOld : Z) (pCurrent : option ptr) : M unit :=
  match pCurrent with
  | None => mret tt
  | Some p =>
      match fuel with
      | O => st_fail OutOfFuel
      | S fuel =>
          ev ← get_event pCurrent;
          old ← st_lift (expired startTime secondsOld ev);
          if (old : bool) then
            pNext ← list_disconnect pCurrent;
            PoolItem_Free p;;
            expire_loop fuel startTime secondsOld pNext
          else
            new ← st_lift (recent startTime ev);
            if (new : bool) then mret tt
            else
              pNext ← load_next pCurrent;
              expire_loop fuel startTime secondsOld pNext
      end
  end.

Definition ExpireEvents (fuel : nat) (pool : ptr) (startTime secondsOld : Z) : M unit :=
  root ← load_root (Some pool); expire_loop fuel startTime secondsOld root.

(** [while (pCurrent && (ev->m_time < pCurrent->m_time))] *)
Fixpoint store_loop (fuel : nat) (ev : ptr) (pCurrent : option ptr) : M (option ptr) :=
  match pCurrent with
  | None => mret None
  | Some _ =>
      match fuel with
      | O => st_fail OutOfFuel
      | S fuel =>
          e ← get_event (Some ev);
          c ← get_event pCurrent;
          if m_time e <? m_time c then
            prev ← load_prev pCurrent; store_loop fuel ev prev
          else mret pCurrent
      end
  end.

Definition StoreTimeEvent (fuel : nat) (pool ev : ptr) : M unit :=
  st_assert NDEBUG (n ← load_next (Some ev); mret (is_null n));;
  st_assert NDEBUG (p ← load_prev (Some ev); mret (is_null p));;
  last ← load_last (Some pool);
  pCurrent ← store_loop fuel ev last;
  st_assert NDEBUG (if is_null pCurrent then mret true
                    else c ← get_event pCurrent; e ← get_event (Some ev);
                         mret (m_time c <=? m_time e));;
  list_insert_after NDEBUG pCurrent (Some ev).

Fixpoint get_loop (fuel : nat) (ev : list ptr) (pCurrent : option ptr) : M (list ptr) :=
  match pCurrent with
  | None => mret ev
  | Some p =>
      match fuel with
      | O => st_fail OutOfFuel
      | S fuel => next ← load_next pCurrent; get_loop fuel (ev ++ [p]) next
      end
  end.

Definition GetTimeEvents (fuel : nat) (pool : ptr) : M (list ptr) :=
  root ← load_root (Some pool); get_loop fuel [] root.

Fixpoint deque_loop (fuel : nat) (type upTo last : Z) (ev : list ptr) (pCurrent : option ptr) :
    M (list ptr) :=
  match pCurrent with
  | None => mret ev
  | Some p =>
      match fuel with
      | O => st_fail OutOfFuel
      | S fuel =>
          e ← get_event pCurrent;
          if m_triggered e then next ← load_next pCurrent; deque_loop fuel type upTo last ev next
          else if upTo <? m_time e then mret ev
          else if type_id e =? type then
            set_item pCurrent (with_event set_triggered);;
            st_assert NDEBUG (mret (last <=? m_time e));;
            next ← load_next pCurrent;
            deque_loop fuel type upTo (m_time e) (ev ++ [p]) next
          else next ← load_next pCurrent; deque_loop fuel type upTo last ev next
      end
  end.

Definition DequeTimeEvents (fuel : nat) (pool : ptr) (type upTo : Z) : M (list ptr) :=
  root ← load_root (Some pool); deque_loop fuel type upTo time_min [] root.

End Code.

(** [Timeline()] builds its pool with an initial size of 1000. *)
Definition Timeline_make {Q} `{ConcurrentQueue Q} (new_addr : heap _ (PoolData Q) -> ptr)
    (new_T : TimeLineEvent) (pool : ptr) : ST (heap (PoolItem TimeLineEvent) (PoolData Q)) unit :=
  TSMemoryPool_make new_addr new_T Event_Init 1000 pool.

(** ** Sequences sorted by a key *)

Section Sorted.
Context (key : ptr -> Z).

Definition by_key : relation ptr := fun x y => key x <= key y.

(** [x] goes behind everything that is not later than it. *)
Definition insert_key (x : ptr) (l : list ptr) : list ptr :=
  filter (fun y => key y <= key x) l ++ x :: filter (fun y => key x < key y) l.

Lemma sorted_split t l :
  StronglySorted by_key l -> l = filter (fun y => key y <= t) l ++ filter (fun y => t < key y) l.
Proof.
  induction 1 as [|x l Hl IH Hx]; [done|].
  destruct (decide (key x <= t)).
  - rewrite filter_cons_True, (filter_cons_False (fun y => t < key y)) by lia. cbn. by f_equal.
  - assert (forall y, y ∈ x :: l -> t < key y) as Hall.
    { intros y [->|Hy]%elem_of_cons; [lia|]. rewrite Forall_forall in Hx. specialize (Hx y Hy).
      unfold by_key in Hx. lia. }
    rewrite (filter_all _ (x :: l) Hall).
    assert (filter (fun y => key y <= t) (x :: l) = []) as ->; [|done].
    apply filter_none. intros y Hy%Hall. lia.
Qed.

Lemma sorted_app l1 l2 :
  StronglySorted by_key l1 -> StronglySorted by_key l2 ->
  (forall x y, x ∈ l1 -> y ∈ l2 -> key x <= key y) -> StronglySorted by_key (l1 ++ l2).
Proof.
  induction 1 as [|x l1 Hl IH Hx]; intros H2 Hle; [done|]. cbn. constructor.
  - apply IH; [done|]. intros. apply Hle; [by right|done].
  - apply Forall_app. split; [done|]. apply Forall_forall. intros y Hy. apply Hle; [by left|done].
Qed.

Lemma sorted_filter (P : ptr -> Prop) `{!forall x, Decision (P x)} l :
  StronglySorted by_key l -> StronglySorted by_key (filter P l).
Proof.
  induction 1 as [|x l Hl IH Hx]; [constructor|]. destruct (decide (P x)).
  - rewrite filter_cons_True by done. constructor; [done|].
    apply Forall_forall. intros y [_ Hy]%list_elem_of_filter. by rewrite Forall_forall in Hx; apply Hx.
  - by rewrite filter_cons_False.
Qed.

Lemma insert_key_sorted x l : StronglySorted by_key l -> StronglySorted by_key (insert_key x l).
Proof.
  intros Hl. apply sorted_app; [by apply sorted_filter|constructor; [by apply sorted_filter|]|].
  - apply Forall_forall. intros y [? _]%list_elem_of_filter. unfold by_key. lia.
  - intros y z [? _]%list_elem_of_filter [->|[? _]%list_elem_of_filter]%elem_of_cons; lia.
Qed.

Lemma elem_insert_key x y l : StronglySorted by_key l -> y ∈ insert_key x l <-> y = x \/ y ∈ l.
Proof.
  intros Hl. rewrite (sorted_split (key x) l Hl) at 2. unfold insert_key.
  rewrite !elem_of_app, elem_of_cons. tauto.
Qed.

End Sorted.

Lemma sublist_sorted key l1 l2 :
  sublist l1 l2 -> StronglySorted (by_key key) l2 -> StronglySorted (by_key key) l1.
Proof.
  induction 1 as [|x l1 l2 Hs IH|x l1 l2 Hs IH]; intros H2; [done|..];
    apply StronglySorted_inv in H2 as [H2 Hx]; [|by apply IH].
  constructor; [by apply IH|]. rewrite Forall_forall in *. intros y Hy. apply Hx. by eapply elem_of_sublist.
Qed.

Lemma filter_swap (P R : ptr -> Prop) `{!forall x, Decision (P x), !forall x, Decision (R x)} (l : list ptr) :
  filter P (filter R l) = filter R (filter P l).
Proof. rewrite !list_filter_filter. apply filter_agree. tauto. Qed.

Lemma sorted_ext k1 k2 l :
  (forall y, y ∈ l -> k1 y = k2 y) -> StronglySorted (by_key k1) l -> StronglySorted (by_key k2) l.
Proof.
  intros E Hl. induction Hl as [|x l Hl IH Hx]; [constructor|]. constructor.
  - apply IH. intros. apply E. by right.
  - rewrite Forall_forall in *. intros y Hy. specialize (Hx y Hy). unfold by_key in *.
    by rewrite <- !E by (by left || by right).
Qed.

(** ** Theory *)

Section Theory.
Context {Q : Type} `{ConcurrentQueueLaws Q}.
Abbreviation theap := (heap (PoolItem TimeLineEvent) (PoolData Q)).
Implicit Types (h : theap) (q p : ptr) (l f : list ptr) (out : gset ptr) (n : Z).

(** The event at an address (any event, where there is none). *)
Definition event h p : TimeLineEvent :=
  match items h !! p with Some it => payload (derived it) | None => mkEvent 0 0 false None 0 end.
Definition time_of h p : Z := m_time (event h p).

(** A timeline: a pool whose list is in order of time. *)
Definition timeline_inv h q l out f n : Prop :=
  pool_inv h q l out f n /\ StronglySorted (by_key (time_of h)) l /\
  forall p, p ∈ l \/ p ∈ out -> time_min <= time_of h p.

Lemma same_derived_event h h' p : same_derived h h' -> event h' p = event h p.
Proof.
  intros E. specialize (E p). unfold event.
  destruct (items h' !! p), (items h !! p); cbn in E; congruence.
Qed.

Lemma get_event_ok h p it : items h !! p = Some it -> get_event (Some p) h = Ok (event h p, h).
Proof.
  intros E. unfold get_event, event. by rewrite (st_bind_ok _ _ _ _ _ (get_item_ok _ _ _ E)), E.
Qed.

(** *** StoreTimeEvent *)

Lemma store_loop_spec h q ev L1 : forall L2 nxt fuel,
  (length L2 < fuel)%nat -> dseg (items h) q None (L1 ++ L2) nxt -> is_Some (items h !! ev) ->
  (forall y, y ∈ L2 -> time_of h ev < time_of h y) ->
  (forall y, last L1 = Some y -> time_of h y <= time_of h ev) ->
  store_loop fuel ev (last (L1 ++ L2)) h = Ok (last L1, h).
Proof.
  induction L2 as [|y L2 IH] using rev_ind; intros nxt fuel Hfuel Hs [iev Hev] Hgt Hle;
    destruct fuel as [|fuel]; try lia.
  - rewrite app_nil_r in *. destruct (last L1) as [y|] eqn:E; [|done]. specialize (Hle y eq_refl).
    apply last_Some in E as [L0 ->]. apply dseg_snoc in Hs as [_ [a Ha]]. cbn [store_loop].
    rewrite (st_bind_ok _ _ _ _ _ (get_event_ok _ _ _ Hev)), (st_bind_ok _ _ _ _ _ (get_event_ok _ _ _ Ha)).
    unfold time_of in Hle. by rewrite (proj2 (Z.ltb_ge _ _) Hle).
  - rewrite app_assoc, last_snoc in *. pose proof Hs as [Hs' [a Ha]]%dseg_snoc. cbn [store_loop].
    rewrite (st_bind_ok _ _ _ _ _ (get_event_ok _ _ _ Hev)), (st_bind_ok _ _ _ _ _ (get_event_ok _ _ _ Ha)).
    specialize (Hgt y ltac:(set_solver)) as Hy. unfold time_of in Hy. rewrite (proj2 (Z.ltb_lt _ _) Hy).
    rewrite (st_bind_ok _ _ _ _ _ (load_prev_ok _ _ _ Ha)). cbn [m_pPrevious].
    assert (last_of None (L1 ++ L2) = last (L1 ++ L2)) as ->
      by (unfold last_of; by destruct (last (L1 ++ L2))).
    eapply IH; [|done|by eexists| |done].
    + rewrite length_app in Hfuel. cbn in Hfuel. lia.
    + intros z Hz. apply Hgt. set_solver.
Qed.

(** The call of [list_insert_after] that [StoreTimeEvent] makes. *)
Lemma store_insert_op h l ev out :
  StronglySorted (by_key (time_of h)) l -> NoDup l -> ev ∈ out ->
  seq_op (InsertAfter (last (filter (fun y => time_of h y <= time_of h ev) l)) ev) (l, out) =
    Some (insert_key (time_of h) ev l, out ∖ {[ev]}).
Proof.
  intros Hs Hnd Hev. pose proof (sorted_split _ (time_of h ev) l Hs) as Hl. unfold insert_key.
  set (L1 := filter (fun y => time_of h y <= time_of h ev) l) in *.
  set (L2 := filter (fun y => time_of h ev < time_of h y) l) in *. rewrite Hl in Hnd |- *.
  clearbody L1 L2. cbn. destruct L1 as [|y L1 _] using rev_ind.
  - cbn. by rewrite decide_True.
  - rewrite last_snoc, decide_True by done.
    rewrite <- !app_assoc. cbn. rewrite <- app_assoc in Hnd. cbn in Hnd.
    assert (seq_insert true y ev (L1 ++ y :: L2) = Some (L1 ++ y :: ev :: L2)) as ->; [|done].
    apply NoDup_app in Hnd as (_ & Hnd & _). clear -Hnd. induction L1 as [|x L1 IH]; cbn.
    + by rewrite decide_True.
    + rewrite decide_False, IH; [done|set_solver|]. intros ->. apply (Hnd y); set_solver.
Qed.

Lemma time_of_same h h' : same_derived h h' -> forall p, time_of h' p = time_of h p.
Proof. intros E p. unfold time_of. by rewrite (same_derived_event _ _ _ E). Qed.

Lemma StoreTimeEvent_inv NDEBUG fuel h q l out f n ev :
  timeline_inv h q l out f n -> ev ∈ out -> (length l < fuel)%nat ->
  exists h', StoreTimeEvent NDEBUG fuel q ev h = Ok (tt, h') /\
    timeline_inv h' q (insert_key (time_of h) ev l) (out ∖ {[ev]}) f n /\ same_derived h h'.
Proof.
  intros (Hi & Hs & Hmin) Hev Hfuel. pose proof (pi_out _ _ _ _ _ _ Hi _ Hev) as [[a Ha] Hnl].
  pose proof (pi_list _ _ _ _ _ _ Hi) as (Hnd & Hseg & d & Hd).
  pose proof (store_insert_op h l ev out Hs Hnd Hev) as Hop.
  destruct (run_op_inv NDEBUG _ _ _ _ _ _ _ _ _ Hi Hop) as (h' & Hr & Hi' & Hder).
  pose proof (sorted_split _ (time_of h ev) l Hs) as Hl.
  assert (forall y, last (filter (fun y => time_of h y <= time_of h ev) l) = Some y ->
            time_of h y <= time_of h ev /\ y ∈ l) as Hlast.
  { intros y Hy. apply last_Some_elem_of, list_elem_of_filter in Hy. done. }
  exists h'. split; [|split; [|done]].
  - unfold StoreTimeEvent.
    rewrite (st_bind_ok _ _ h tt h) by (apply st_assert_ok; intros _; by rewrite (st_bind_ok _ _ _ _ _ (load_next_ok _ _ _ Ha))).
    rewrite (st_bind_ok _ _ h tt h) by (apply st_assert_ok; intros _; by rewrite (st_bind_ok _ _ _ _ _ (load_prev_ok _ _ _ Ha))).
    rewrite (st_bind_ok _ _ _ _ _ (load_last_ok _ _ _ Hd)). cbn [m_pLast]. rewrite Hl at 1.
    erewrite st_bind_ok.
    2:{ eapply (store_loop_spec h q); [|rewrite <- Hl; exact Hseg|by eexists| |].
        - pose proof (f_equal length Hl) as E. rewrite length_app in E. lia.
        - by intros y [? _]%list_elem_of_filter.
        - intros y Hy. by apply Hlast. }
    rewrite (st_bind_ok _ _ h tt h); [exact Hr|]. apply st_assert_ok. intros _.
    destruct (last (filter (fun y => time_of h y <= time_of h ev) l)) as [y|] eqn:Ey; [|done]. destruct (Hlast y eq_refl) as [Hle Hy].
    destruct (dseg_lookup _ _ _ _ _ _ Hseg Hy) as (ity & Hity & _). cbn [is_null].
    rewrite (st_bind_ok _ _ _ _ _ (get_event_ok _ _ _ Hity)), (st_bind_ok _ _ _ _ _ (get_event_ok _ _ _ Ha)).
    unfold time_of in Hle. by rewrite (proj2 (Z.leb_le _ _) Hle).
  - split; [done|]. pose proof (time_of_same _ _ Hder) as Ht. split.
    + eapply sorted_ext; [intros; symmetry; apply Ht|]. by apply insert_key_sorted.
    + intros p Hp. rewrite Ht. apply Hmin. rewrite elem_insert_key in Hp by done. set_solver.
Qed.

(** *** GetTimeEvents *)

Lemma get_loop_spec h q : forall l prev acc fuel,
  (length l < fuel)%nat -> dseg (items h) q prev l None ->
  get_loop fuel acc (head l) h = Ok (acc ++ l, h).
Proof.
  induction l as [|p l IH]; intros prev acc fuel Hfuel Hs; destruct fuel as [|fuel]; cbn in Hfuel; try lia.
  - cbn. by rewrite app_nil_r.
  - destruct Hs as [[a Ha] Hs]. cbn [head get_loop].
    rewrite (st_bind_ok _ _ _ _ _ (load_next_ok _ _ _ Ha)). cbn [m_pNext].
    assert (first_of l None = head l) as -> by (by destruct l).
    rewrite (IH (Some p)) by (done || lia). by rewrite <- app_assoc.
Qed.

(** *** DequeTimeEvents *)

(** The events a call returns. *)
Definition due h (type upTo : Z) p : Prop :=
  m_triggered (event h p) = false /\ time_of h p <= upTo /\ type_id (event h p) = type.

#[local] Instance due_dec h type upTo p : Decision (due h type upTo p).
Proof. unfold due. apply _. Defined.

(** [h'] is [h] with the events of [s] marked as triggered. *)
Definition marked h h' (s : list ptr) : Prop :=
  pools h' = pools h /\
  forall x, items h' !! x =
    (fun it => if decide (x ∈ s) then with_event set_triggered it else it) <$> items h !! x.

Lemma marked_event h h' s x :
  marked h h' s -> is_Some (items h !! x) ->
  event h' x = if decide (x ∈ s) then set_triggered (event h x) else event h x.
Proof. intros [_ Hm] [it E]. unfold event. rewrite Hm, E. cbn. by case_decide. Qed.

Lemma marked_event_ne h h' s x : marked h h' s -> x ∉ s -> event h' x = event h x.
Proof.
  intros [_ Hm] E. unfold event. rewrite Hm. destruct (items h !! x); [|done]. cbn. by rewrite decide_False.
Qed.

Lemma marked_time h h' s x : marked h h' s -> time_of h' x = time_of h x.
Proof.
  intros Hm. unfold time_of. destruct (decide (x ∈ s)).
  - destruct (items h !! x) as [it|] eqn:E.
    + rewrite (marked_event h h' s x Hm) by eauto. by rewrite decide_True.
    + destruct Hm as [_ Hm]. unfold event. by rewrite Hm, E.
  - by rewrite (marked_event_ne _ _ _ _ Hm).
Qed.

Lemma marked_links h h' s x it :
  marked h h' s -> items h !! x = Some it ->
  exists a, items h' !! x = Some (mkItem (m_pPool it) (m_pNext it) (m_pPrevious it) a) /\
    m_id a = m_id (derived it).
Proof. intros [_ Hm] E. rewrite Hm, E. cbn. destruct it. case_decide; eexists; split; done. Qed.

Lemma marked_dseg h h' s q : forall l prev nxt,
  marked h h' s -> dseg (items h) q prev l nxt -> dseg (items h') q prev l nxt.
Proof.
  induction l as [|p l IH]; intros prev nxt Hm; [done|]. intros [[a Ha] Hs]. split; [|by apply IH].
  destruct (marked_links _ _ _ _ _ Hm Ha) as (b & Hb & _). by exists b.
Qed.

Lemma marked_detached h h' s q p : marked h h' s -> detached h q p -> detached h' q p.
Proof. intros Hm [a Ha]. destruct (marked_links _ _ _ _ _ Hm Ha) as (b & Hb & _). by exists b. Qed.

Lemma marked_item_id h h' s p : marked h h' s -> item_id h' p = item_id h p.
Proof.
  intros [_ Hm]. unfold item_id. rewrite Hm. destruct (items h !! p) as [it|]; [|done]. cbn.
  by case_decide.
Qed.

Lemma marked_pool_inv h h' s q l out f n :
  marked h h' s -> pool_inv h q l out f n -> pool_inv h' q l out f n.
Proof.
  intros Hm [(Hnd0 & Hs & b & Hb) Hp Hnd Hfree Hout Hid Hinj]. pose proof Hm as [HP _]. split.
  - split; [done|]. split; [by eapply marked_dseg|]. exists b. by rewrite HP.
  - by rewrite HP.
  - done.
  - intros x Hx. destruct (Hfree x Hx) as (? & ? & ?). split; [by eapply marked_detached|done].
  - intros x Hx. destruct (Hout x Hx) as (? & ?). split; [by eapply marked_detached|done].
  - intros x. rewrite (marked_item_id _ _ _ x Hm). apply Hid.
  - intros x y. rewrite !(marked_item_id _ _ _ _ Hm). apply Hinj.
Qed.

Lemma marked_nil h : marked h h [].
Proof. split; [done|]. intros x. destruct (items h !! x); [|done]. cbn. by rewrite decide_False by apply not_elem_of_nil. Qed.

Lemma marked_cons h p it h' s :
  items h !! p = Some it -> p ∉ s ->
  marked (mkHeap (<[p := with_event set_triggered it]> (items h)) (pools h)) h' s -> marked h h' (p :: s).
Proof.
  intros E Hp [HP Hm]. split; [done|]. intros x. rewrite Hm. cbn. rewrite lookup_insert.
  destruct (decide (p = x)) as [<-|Hne].
  - rewrite E. cbn. rewrite decide_False by done. by rewrite decide_True by (by left).
  - destruct (items h !! x); [|done]. cbn. by repeat case_decide; try set_solver.
Qed.

Lemma due_ext h h' type upTo p : event h' p = event h p -> due h' type upTo p <-> due h type upTo p.
Proof. intros E. unfold due, time_of. by rewrite E. Qed.

Lemma deque_loop_spec NDEBUG type upTo q : forall l fuel h prev t acc,
  (length l < fuel)%nat -> dseg (items h) q prev l None -> NoDup l ->
  StronglySorted (by_key (time_of h)) l -> (forall p, p ∈ l -> t <= time_of h p) ->
  exists h', deque_loop NDEBUG fuel type upTo t acc (head l) h =
      Ok (acc ++ filter (due h type upTo) l, h') /\ marked h h' (filter (due h type upTo) l).
Proof.
  induction l as [|p l IH]; intros fuel h prev t acc Hfuel Hs Hnd Hsort Ht.
  { exists h. split; [destruct fuel; cbn; by rewrite app_nil_r|apply marked_nil]. }
  destruct fuel as [|fuel]; cbn in Hfuel; [lia|].
  destruct Hs as [[a Ha] Hs]. apply NoDup_cons in Hnd as [Hp Hnd].
  apply StronglySorted_inv in Hsort as [Hsort Hle]. rewrite Forall_forall in Hle.
  assert (Hmin : t <= time_of h p) by (apply Ht; by left).
  assert (first_of l None = head l) as Hn by (by destruct l). rewrite Hn in Ha.
  cbn [head deque_loop]. rewrite (st_bind_ok _ _ _ _ _ (get_event_ok _ _ _ Ha)).
  assert (Hskip : ~ due h type upTo p ->
    exists h', (next ← load_next (Some p); deque_loop NDEBUG fuel type upTo t acc next) h =
        Ok (acc ++ filter (due h type upTo) (p :: l), h') /\ marked h h' (filter (due h type upTo) (p :: l))).
  { intros Hd. rewrite (st_bind_ok _ _ _ _ _ (load_next_ok _ _ _ Ha)), filter_cons_False by done.
    eapply IH; [lia|done..|]. intros x Hx. apply Ht. by right. }
  destruct (m_triggered (event h p)) eqn:Etr.
  { apply Hskip. unfold due. rewrite Etr. naive_solver. }
  destruct (Z.ltb_spec upTo (m_time (event h p))) as [Hlt|Hge].
  { exists h. rewrite filter_none.
    - rewrite app_nil_r. split; [done|apply marked_nil].
    - intros x [->|Hx]%elem_of_cons (_ & Hd & _); [unfold time_of in Hd; lia|].
      specialize (Hle x Hx). unfold by_key, time_of in *. lia. }
  destruct (Z.eqb_spec (type_id (event h p)) type) as [Hty|Hty].
  2:{ apply Hskip. unfold due. naive_solver. }
  rewrite filter_cons_True by (unfold due, time_of; done).
  rewrite (st_bind_ok _ _ _ _ _ (set_item_put _ _ _ _ Ha)).
  set (h1 := mkHeap _ _).
  rewrite (st_bind_ok _ _ h1 tt h1).
  2:{ apply st_assert_ok. intros _. unfold time_of in Hmin. by rewrite (proj2 (Z.leb_le _ _) Hmin). }
  erewrite (st_bind_ok (load_next _)) by (apply load_next_ok; cbn; apply lookup_insert_eq). cbn [m_pNext with_event].
  assert (Hm1 : marked h h1 [p]) by (eapply marked_cons; [done|apply not_elem_of_nil|apply marked_nil]).
  assert (Hev : forall x, x ∈ l -> event h1 x = event h x).
  { intros x Hx. eapply marked_event_ne; [done|]. by intros ->%list_elem_of_singleton. }
  destruct (IH fuel h1 (Some p) (m_time (event h p)) (acc ++ [p])) as (h' & Hr & Hm).
  - lia.
  - by eapply marked_dseg.
  - done.
  - eapply sorted_ext; [|done]. intros x Hx. unfold time_of. by rewrite Hev.
  - intros x Hx. unfold time_of. rewrite Hev by done. by apply Hle.
  - rewrite (filter_agree (due h1 type upTo) (due h type upTo)) in Hr, Hm
      by (intros x Hx; by apply due_ext, Hev).
    exists h'. split; [by rewrite Hr, <- app_assoc|]. eapply marked_cons; [done| |exact Hm].
    rewrite list_elem_of_filter. tauto.
Qed.

Lemma marked_timeline_inv h h' s q l out f n :
  marked h h' s -> timeline_inv h q l out f n -> timeline_inv h' q l out f n.
Proof.
  intros Hm (Hi & Hs & Hmin). split; [by eapply marked_pool_inv|]. split.
  - eapply sorted_ext; [|done]. intros. symmetry. by eapply marked_time.
  - intros p Hp. rewrite (marked_time _ _ _ _ Hm). by apply Hmin.
Qed.

Lemma DequeTimeEvents_run NDEBUG fuel h q l out f n type upTo :
  timeline_inv h q l out f n -> (length l < fuel)%nat ->
  exists h', DequeTimeEvents NDEBUG fuel q type upTo h = Ok (filter (due h type upTo) l, h') /\
    marked h h' (filter (due h type upTo) l).
Proof.
  intros (Hi & Hs & Hmin) Hfuel. pose proof (pi_list _ _ _ _ _ _ Hi) as (Hnd & Hseg & d & Hd).
  unfold DequeTimeEvents. rewrite (st_bind_ok _ _ _ _ _ (load_root_ok _ _ _ Hd)). cbn [m_pRoot].
  apply (deque_loop_spec NDEBUG type upTo q l fuel h None time_min []); try done.
  intros p Hp. apply Hmin. by left.
Qed.

(** *** ExpireEvents *)

(** The event ended more than [old] seconds before [now], and it began less
    than 16 seconds before [now]. *)
Definition ended_before (now old : Z) (ev : TimeLineEvent) : bool :=
  seconds old <? now - (m_time ev + ms (m_duration ev)).
Definition began_lately (now : Z) (ev : TimeLineEvent) : bool := now - m_time ev <? seconds 16.

(** The times of the event, and how long ago they are, fit in 64 bits. *)
Definition times_fit (now : Z) (ev : TimeLineEvent) : Prop :=
  in_s 64 (ms (m_duration ev)) /\ in_s 64 (m_time ev + ms (m_duration ev)) /\
  in_s 64 (now - (m_time ev + ms (m_duration ev))) /\ in_s 64 (now - m_time ev).

Lemma expired_ok now old ev : in_s 32 old -> times_fit now ev -> expired now old ev = Ok (ended_before now old ev).
Proof.
  intros Ho (H1 & H2 & H3 & _). unfold expired, EndTime. rewrite (s_check_ok 64 _ H1). cbn.
  rewrite (s_check_ok 64 _ H2). cbn. rewrite (s_check_ok 64 _ H3). cbn. rewrite (s_check_ok 64); [done|].
  unfold in_s, seconds in *. lia.
Qed.

Lemma recent_ok now ev : times_fit now ev -> recent now ev = Ok (began_lately now ev).
Proof. intros (_ & _ & _ & H1). unfold recent. by rewrite (s_check_ok 64 _ H1). Qed.

(** What [ExpireEvents] leaves of a list and what it frees. *)
Fixpoint expire_keep h (now old : Z) (l : list ptr) : list ptr :=
  match l with
  | [] => []
  | p :: l =>
      if ended_before now old (event h p) then expire_keep h now old l
      else if began_lately now (event h p) then p :: l
      else p :: expire_keep h now old l
  end.

Fixpoint expire_free h (now old : Z) (l : list ptr) : list ptr :=
  match l with
  | [] => []
  | p :: l =>
      if ended_before now old (event h p) then p :: expire_free h now old l
      else if began_lately now (event h p) then []
      else expire_free h now old l
  end.

Lemma expire_ext h h' now old l :
  (forall p, event h' p = event h p) ->
  expire_keep h' now old l = expire_keep h now old l /\ expire_free h' now old l = expire_free h now old l.
Proof. intros E. induction l as [|p l [IH1 IH2]]; [done|]. cbn. by rewrite E, IH1, IH2. Qed.

Lemma same_derived_trans (h1 h2 h3 : theap) : same_derived h1 h2 -> same_derived h2 h3 -> same_derived h1 h3.
Proof. intros E1 E2 x. by rewrite E2, E1. Qed.

(** Taking an expired event out of the list and giving it back to the pool. *)
Lemma expire_one h q L1 p l out f n :
  pool_inv h q (L1 ++ p :: l) out f n ->
  exists h1 h2, list_disconnect (Some p) h = Ok (head l, h1) /\ PoolItem_Free p h1 = Ok (tt, h2) /\
    pool_inv h2 q (L1 ++ l) out (p :: f) n /\ same_derived h h2.
Proof.
  intros Hi. pose proof (pi_list _ _ _ _ _ _ Hi) as Hd. pose proof Hd as (Hnd & _).
  assert (p ∉ L1 ++ l) as Hp by (rewrite NoDup_app, NoDup_cons in Hnd; set_solver).
  assert (p ∉ out) as Hpo by (intros Ho; destruct (pi_out _ _ _ _ _ _ Hi _ Ho) as [_ []]; set_solver).
  destruct (list_disconnect_spec _ _ _ _ _ Hd) as (h1 & Hr & _ & _ & Hf).
  assert (seq_op (Disconnect p) (L1 ++ p :: l, out) = Some (L1 ++ l, {[p]} ∪ out)) as Hop.
  { cbn. assert (seq_remove p (L1 ++ p :: l) = Some (L1 ++ l)) as ->; [|done].
    clear -Hp. induction L1 as [|x L1 IH]; cbn; [by rewrite decide_True|].
    rewrite decide_False, IH; [done|set_solver..]. }
  destruct (run_op_inv true _ _ _ _ _ _ _ _ _ Hi Hop) as (h1' & Hr' & Hi1 & Hd1).
  cbn in Hr'. rewrite (st_bind_ok _ _ _ _ _ Hr) in Hr'. injection Hr' as <-.
  destruct (PoolItem_Free_inv h1 q (L1 ++ l) ({[p]} ∪ out) f n p Hi1) as (h2 & Hr2 & Hi2 & Hd2); [set_solver|].
  rewrite filter_all_ne in Hi2 by done.
  replace (({[p]} ∪ out) ∖ {[p]}) with out in Hi2 by set_solver.
  exists h1, h2. split_and!; [done..|]. by eapply same_derived_trans.
Qed.

Lemma expire_loop_spec now old q out n : in_s 32 old -> forall l fuel h L1 f,
  (length l < fuel)%nat -> (forall p, p ∈ l -> times_fit now (event h p)) ->
  pool_inv h q (L1 ++ l) out f n ->
  exists h', expire_loop fuel now old (head l) h = Ok (tt, h') /\
    pool_inv h' q (L1 ++ expire_keep h now old l) out (reverse (expire_free h now old l) ++ f) n /\
    same_derived h h'.
Proof.
  intros Ho. induction l as [|p l IH]; intros fuel h L1 f Hfuel Hfit Hi.
  { exists h. destruct fuel; by split_and!. }
  pose proof (Hfit p ltac:(by left)) as Hp.
  destruct fuel as [|fuel]; cbn in Hfuel; [lia|]. cbn [head expire_loop expire_keep expire_free].
  pose proof (pi_list _ _ _ _ _ _ Hi) as (_ & [_ [[a Ha] _]]%dseg_app & _).
  assert (first_of l None = head l) as Hn by (by destruct l). rewrite Hn in Ha.
  rewrite (st_bind_ok _ _ _ _ _ (get_event_ok _ _ _ Ha)).
  rewrite (st_lift_ok _ _ _ _ (expired_ok _ _ _ Ho Hp)). destruct (ended_before now old (event h p)).
  - destruct (expire_one _ _ _ _ _ _ _ _ Hi) as (h1 & h2 & Hr1 & Hr2 & Hi2 & Hd2).
    rewrite (st_bind_ok _ _ _ _ _ Hr1), (st_bind_ok _ _ _ _ _ Hr2).
    destruct (IH fuel h2 L1 (p :: f) ltac:(lia)) as (h' & Hr & Hi' & Hd'); [|done|].
    { intros x Hx. rewrite (same_derived_event _ _ _ Hd2). apply Hfit. by right. }
    destruct (expire_ext h h2 now old l) as [Ek Ef]; [intros; by apply same_derived_event|].
    rewrite Ek, Ef in Hi'. exists h'. split_and!; [done| |by eapply same_derived_trans].
    by rewrite reverse_cons, <- app_assoc.
  - rewrite (st_lift_ok _ _ _ _ (recent_ok _ _ Hp)). destruct (began_lately now (event h p)).
    + exists h. split_and!; [done..|]. by intros x.
    + rewrite (st_bind_ok _ _ _ _ _ (load_next_ok _ _ _ Ha)). cbn [m_pNext].
      destruct (IH fuel h (L1 ++ [p]) f) as (h' & Hr & Hi' & Hd'); [lia|intros x Hx; apply Hfit; by right|by rewrite <- app_assoc|].
      exists h'. rewrite <- app_assoc in Hi'. by split_and!.
Qed.

Lemma expire_keep_sublist h now old l : sublist (expire_keep h now old l) l.
Proof. induction l as [|p l IH]; cbn; [constructor|]. repeat case_match; by constructor. Qed.

Lemma expire_free_keep h now old l : expire_free h now old l ++ expire_keep h now old l ≡ₚ l.
Proof.
  induction l as [|p l IH]; [done|]. cbn [expire_free expire_keep]. repeat case_match; [by cbn; f_equiv|done|].
  rewrite <- Permutation_middle. by f_equiv.
Qed.

Lemma expire_free_ended h now old l p :
  p ∈ expire_free h now old l -> ended_before now old (event h p) = true.
Proof.
  induction l as [|x l IH]; cbn; [by intros ?%elem_of_nil|]. case_match eqn:E.
  - intros [->|Hp]%elem_of_cons; [done|by apply IH].
  - case_match; [by intros ?%elem_of_nil|done].
Qed.

(** The walk stops at an event that began lately; the ones behind it did too. *)
Lemma expire_free_all h now old l p :
  StronglySorted (by_key (time_of h)) l -> p ∈ l ->
  ended_before now old (event h p) = true -> began_lately now (event h p) = false ->
  p ∈ expire_free h now old l.
Proof.
  induction 1 as [|x l Hl IH Hx]; [by intros ?%elem_of_nil|]. intros Hp He Hb. cbn [expire_free].
  apply elem_of_cons in Hp as [<-|Hp]; [rewrite He; by left|].
  case_match; [right; by apply IH|]. case_match eqn:Eb; [exfalso|by apply IH].
  rewrite Forall_forall in Hx. specialize (Hx p Hp). unfold by_key, time_of, began_lately in *. lia.
Qed.

(** Without durations a timeline's expired events come first. *)
Lemma expire_keep_filter h now old l :
  StronglySorted (by_key (time_of h)) l -> (forall p, p ∈ l -> m_duration (event h p) = 0) ->
  expire_keep h now old l = filter (fun p => now - time_of h p <= seconds old) l.
Proof.
  induction 1 as [|p l Hl IH Hp]; intros Hdur; [done|]. cbn [expire_keep].
  pose proof (Hdur p ltac:(by left)) as Hd. specialize (IH ltac:(intros x Hx; apply Hdur; by right)).
  destruct (ended_before now old (event h p)) eqn:E; unfold ended_before, ms in E; rewrite Hd in E.
  - rewrite filter_cons_False by (unfold time_of; lia). done.
  - rewrite filter_cons_True by (unfold time_of; lia). rewrite IH.
    destruct (began_lately now (event h p)); [|done]. f_equal. symmetry. apply filter_all.
    intros x Hx. rewrite Forall_forall in Hp. specialize (Hp x Hx). unfold by_key, time_of in *. lia.
Qed.

(** *** Storing many events *)

Fixpoint store_all (NDEBUG : bool) (fuel : nat) (q : ptr) (evs : list ptr) : ST theap unit :=
  match evs with
  | [] => mret tt
  | ev :: evs => StoreTimeEvent NDEBUG fuel q ev;; store_all NDEBUG fuel q evs
  end.

Lemma filter_insert_key (key : ptr -> Z) t x l :
  filter (fun y => key y = t) (insert_key key x l) =
  filter (fun y => key y = t) l ++ filter (fun y => key y = t) [x].
Proof.
  unfold insert_key. rewrite filter_app, (filter_cons _ x (filter _ _)), (filter_cons _ x []), !list_filter_filter.
  destruct (Z.lt_trichotomy t (key x)) as [Hlt|[->|Hgt]].
  - rewrite (filter_none (fun y => key y = t /\ key x < key y)) by lia.
    rewrite (filter_agree _ (fun y => key y = t)) by lia. done.
  - rewrite (filter_none (fun y => key y = key x /\ key x < key y)) by lia.
    rewrite (filter_agree _ (fun y => key y = key x)) by lia. done.
  - rewrite (filter_none (fun y => key y = t /\ key y <= key x)) by lia.
    rewrite (filter_agree (fun y => key y = t /\ key x < key y) (fun y => key y = t)) by lia.
    rewrite !decide_False by lia. by rewrite app_nil_r.
Qed.

Lemma length_insert_key key x l : StronglySorted (by_key key) l -> length (insert_key key x l) = S (length l).
Proof.
  intros Hs. pose proof (f_equal length (sorted_split key (key x) l Hs)) as E.
  unfold insert_key. rewrite length_app in *. cbn. lia.
Qed.

Lemma store_all_spec NDEBUG fuel q f n : forall evs h l out,
  timeline_inv h q l out f n -> NoDup evs -> (forall p, p ∈ evs -> p ∈ out) ->
  (length l + length evs < fuel)%nat ->
  exists h' l' out', store_all NDEBUG fuel q evs h = Ok (tt, h') /\ timeline_inv h' q l' out' f n /\
    same_derived h h' /\ length l' = (length l + length evs)%nat /\
    forall t, filter (fun p => time_of h p = t) l' = filter (fun p => time_of h p = t) (l ++ evs).
Proof.
  induction evs as [|ev evs IH]; intros h l out Hi Hnd Hout Hfuel; cbn in Hfuel.
  { exists h, l, out. rewrite app_nil_r. split_and!; [done..|cbn; lia|done]. }
  apply NoDup_cons in Hnd as [Hev Hnd].
  destruct (StoreTimeEvent_inv NDEBUG fuel _ _ _ _ _ _ ev Hi) as (h1 & Hr & Hi1 & Hd1); [set_solver|lia|].
  pose proof Hi as (_ & Hs & _). pose proof (length_insert_key (time_of h) ev l Hs) as Hlen.
  destruct (IH h1 _ _ Hi1 Hnd) as (h' & l' & out' & Hr' & Hi' & Hd' & Hlen' & Hf); [set_solver|lia|].
  exists h', l', out'. cbn [store_all]. rewrite (st_bind_ok _ _ _ _ _ Hr).
  split_and!; [done..|by eapply same_derived_trans|cbn; lia|]. intros t.
  specialize (Hf t). pose proof (time_of_same _ _ Hd1) as Ht.
  rewrite !(filter_agree (fun p => time_of h1 p = t) (fun p => time_of h p = t)) in Hf by (intros; by rewrite Ht).
  rewrite Hf, filter_app, filter_insert_key, <- app_assoc, <- !filter_app. done.
Qed.

(** ** Properties *)

(** [StoreTimeEvent] keeps the timeline in order: in a timeline whose list
    is sorted by time, storing an event the client holds puts it behind every
    event that is not later and before every later one; no assertion fires,
    the events themselves are not changed, and the pool stays in order. The
    search needs at most one round per stored event. *)
Theorem StoreTimeEvent_sorted NDEBUG h q l out f n ev :
  timeline_inv h q l out f n -> ev ∈ out ->
  exists h', StoreTimeEvent NDEBUG (S (length l)) q ev h = Ok (tt, h') /\
    timeline_inv h' q (filter (fun y => time_of h y <= time_of h ev) l ++
                       ev :: filter (fun y => time_of h ev < time_of h y) l) (out ∖ {[ev]}) f n /\
    same_derived h h'.
Proof. intros Hi Hev. apply StoreTimeEvent_inv; [done..|lia]. Qed.

(** [DequeTimeEvents] returns exactly the events of the given type that
    are due and not triggered yet, in order of time, and marks those and no
    others; asked again, it returns none of them. [GetTimeEvents] returns the
    whole list. *)
Theorem DequeTimeEvents_due NDEBUG h q l out f n type upTo :
  timeline_inv h q l out f n ->
  exists h', DequeTimeEvents NDEBUG (S (length l)) q type upTo h = Ok (filter (due h type upTo) l, h') /\
    StronglySorted (by_key (time_of h)) (filter (due h type upTo) l) /\
    marked h h' (filter (due h type upTo) l) /\ timeline_inv h' q l out f n /\
    (exists h'', DequeTimeEvents NDEBUG (S (length l)) q type upTo h' = Ok ([], h'')) /\
    GetTimeEvents (S (length l)) q h = Ok (l, h).
Proof.
  intros Hi. destruct (DequeTimeEvents_run NDEBUG (S (length l)) _ _ _ _ _ _ type upTo Hi) as (h' & Hr & Hm); [lia|].
  pose proof (marked_timeline_inv _ _ _ _ _ _ _ _ Hm Hi) as Hi'.
  pose proof Hi as (Hp & Hs & _). pose proof (pi_list _ _ _ _ _ _ Hp) as (Hnd & Hseg & d & Hd).
  exists h'. split_and!; [done|by apply sorted_filter|done..| |].
  - destruct (DequeTimeEvents_run NDEBUG (S (length l)) _ _ _ _ _ _ type upTo Hi') as (h'' & Hr' & _); [lia|].
    exists h''. rewrite Hr'. rewrite filter_none; [done|]. intros x Hx (Htr & Ht & Hty).
    destruct (dseg_lookup _ _ _ _ _ _ Hseg Hx) as (it & Hit & _).
    rewrite (marked_event _ _ _ _ Hm) in Htr, Hty by eauto. rewrite (marked_time _ _ _ _ Hm) in Ht.
    case_decide as Hin; [done|]. apply Hin, list_elem_of_filter. by split.
  - unfold GetTimeEvents. rewrite (st_bind_ok _ _ _ _ _ (load_root_ok _ _ _ Hd)). cbn [m_pRoot].
    by apply (get_loop_spec h q l None []); [lia|].
Qed.

(** C9. The timeline is a stable priority queue: store events in any order in
    an empty timeline, then dequeue. What comes out is in order of time, and
    among the events of each time it is exactly the due ones of the type, in
    the order they were stored. *)
Theorem timeline_stable_queue NDEBUG h q out f n evs type upTo :
  timeline_inv h q [] out f n -> NoDup evs -> (forall p, p ∈ evs -> p ∈ out) ->
  exists evs' h', (store_all NDEBUG (S (length evs)) q evs;;
                   DequeTimeEvents NDEBUG (S (length evs)) q type upTo) h = Ok (evs', h') /\
    StronglySorted (by_key (time_of h)) evs' /\
    forall t, filter (fun p => time_of h p = t) evs' =
              filter (fun p => time_of h p = t) (filter (due h type upTo) evs).
Proof.
  intros Hi Hnd Hout.
  destruct (store_all_spec NDEBUG (S (length evs)) q f n evs h [] out Hi Hnd Hout) as (h1 & l & out1 & Hr & Hi1 & Hd & Hlen & Hf);
    [cbn; lia|]. cbn in Hlen.
  destruct (DequeTimeEvents_run NDEBUG (S (length evs)) _ _ _ _ _ _ type upTo Hi1) as (h' & Hr' & _); [lia|].
  exists (filter (due h1 type upTo) l), h'. rewrite (st_bind_ok _ _ _ _ _ Hr). split; [done|]. split.
  - apply sorted_filter. destruct Hi1 as (_ & Hs & _). eapply sorted_ext; [|exact Hs].
    intros y _. by apply time_of_same.
  - intros t. rewrite (filter_agree (due h1 type upTo) (due h type upTo))
      by (intros x _; apply due_ext; by apply same_derived_event).
    specialize (Hf t). cbn in Hf. rewrite filter_swap, Hf, filter_swap. done.
Qed.

(** C19. [ExpireEvents] ends, unlinks events and gives them back to the pool,
    and leaves the other events, a timeline in order, as long as the times of
    the events, and how long ago they are, fit in the 64 bits of a time. What
    it frees ended more than [secondsOld] seconds ago; every event that ended
    so long ago and began at least 16 seconds ago is freed; and when events
    have no duration it frees exactly the events older than [secondsOld] and
    keeps the others in their order. *)
Theorem ExpireEvents_correct h q l out f n now secondsOld :
  timeline_inv h q l out f n -> in_s 32 secondsOld -> (forall p, p ∈ l -> times_fit now (event h p)) ->
  exists h' kept freed, ExpireEvents (S (length l)) q now secondsOld h = Ok (tt, h') /\
    timeline_inv h' q kept out (freed ++ f) n /\ sublist kept l /\ freed ++ kept ≡ₚ l /\
    (forall p, p ∈ freed -> now - (time_of h p + ms (m_duration (event h p))) > seconds secondsOld) /\
    (forall p, p ∈ l -> now - (time_of h p + ms (m_duration (event h p))) > seconds secondsOld ->
       now - time_of h p >= seconds 16 -> p ∈ freed) /\
    ((forall p, p ∈ l -> m_duration (event h p) = 0) ->
     kept = filter (fun p => now - time_of h p <= seconds secondsOld) l).
Proof.
  intros (Hi & Hs & Hmin) Ho Hfit. pose proof (pi_list _ _ _ _ _ _ Hi) as (Hnd & Hseg & d & Hd).
  destruct (expire_loop_spec now secondsOld q out n Ho l (S (length l)) h [] f ltac:(lia) Hfit Hi) as (h' & Hr & Hi' & Hder).
  exists h', (expire_keep h now secondsOld l), (reverse (expire_free h now secondsOld l)).
  unfold ExpireEvents. rewrite (st_bind_ok _ _ _ _ _ (load_root_ok _ _ _ Hd)).
  split_and!; [done| |apply expire_keep_sublist|rewrite reverse_Permutation; apply expire_free_keep| | |].
  - pose proof (time_of_same _ _ Hder) as Ht. split; [done|].
    pose proof (expire_keep_sublist h now secondsOld l) as Hsub. split.
    + eapply sorted_ext; [intros; symmetry; apply Ht|]. by eapply sublist_sorted.
    + intros p Hp. rewrite Ht. apply Hmin. destruct Hp as [Hp|]; [left|by right].
      by eapply elem_of_sublist.
  - intros p Hp%elem_of_reverse%expire_free_ended. unfold ended_before, time_of in *. lia.
  - intros p Hp He Hb. apply elem_of_reverse, expire_free_all; [done..| |]; unfold ended_before, began_lately, time_of in *; lia.
  - intros Hdur. by apply expire_keep_filter.
Qed.

End Theory.

(** ** Concrete timelines *)

Definition demo_event (t : Z) : TimeLineEvent := mkEvent t 0 false None 7.

(** Events 1 and 2 stored at times 0 and 20, event 3 held, at time 10. *)
Definition demo_stored : heap (PoolItem TimeLineEvent) (PoolData (list ptr)) :=
  mkHeap (list_to_map
    [(1%positive, mkItem (Some 9%positive) (Some 2%positive) None (mkPoolItem 0 (demo_event 0)));
     (2%positive, mkItem (Some 9%positive) None (Some 1%positive) (mkPoolItem 1 (demo_event 20)));
     (3%positive, mkItem (Some 9%positive) None None (mkPoolItem 2 (demo_event 10)))])
    {[9%positive := mkPool (Some 1%positive) (Some 2%positive) (mkPoolData [] 3)]}.

(** Events 1, 2 and 3 held, at times 20, 10 and 20. *)
Definition demo_held : heap (PoolItem TimeLineEvent) (PoolData (list ptr)) :=
  mkHeap (list_to_map
    [(1%positive, mkItem (Some 9%positive) None None (mkPoolItem 0 (demo_event 20)));
     (2%positive, mkItem (Some 9%positive) None None (mkPoolItem 1 (demo_event 10)));
     (3%positive, mkItem (Some 9%positive) None None (mkPoolItem 2 (demo_event 20)))])
    {[9%positive := mkPool None None (mkPoolData [] 3)]}.

(** The cases of a membership in a list or set written out. *)
Ltac mem_cases :=
  repeat match goal with
  | H : _ ∈ _ :: _ |- _ => apply elem_of_cons in H as [H|H]
  | H : _ ∈ [] |- _ => by apply elem_of_nil in H
  | H : _ ∈ (_ ∪ _) |- _ => apply elem_of_union in H as [H|H]
  | H : _ ∈ {[_]} |- _ => apply elem_of_singleton in H
  | H : _ ∈ (∅ : gset _) |- _ => by apply elem_of_empty in H
  | H : _ \/ _ |- _ => destruct H as [H|H]
  end; subst.

Lemma demo_stored_inv : timeline_inv demo_stored 9 [1; 2]%positive {[3%positive]} [] 3.
Proof.
  split; [split|split].
  - split; [by apply (bool_decide_unpack _); vm_compute|]. split; [|by eexists].
    by repeat split; eexists.
  - by eexists.
  - constructor.
  - by intros p Hp%elem_of_nil.
  - intros p Hp. mem_cases. split; [by eexists|]. by apply (bool_decide_unpack _); vm_compute.
  - intros p _ Hp. mem_cases; eexists; (split; [reflexivity|by vm_compute]).
  - intros p p' _ Hp Hp' E. mem_cases; done.
  - repeat constructor; by vm_compute.
  - intros p Hp. mem_cases; by vm_compute.
Qed.

Lemma demo_held_inv : timeline_inv demo_held 9 [] ({[1%positive]} ∪ ({[2%positive]} ∪ {[3%positive]})) [] 3.
Proof.
  split; [split|split].
  - split; [constructor|]. split; [done|by eexists].
  - by eexists.
  - constructor.
  - by intros p Hp%elem_of_nil.
  - intros p Hp. split; [mem_cases; by eexists|apply not_elem_of_nil].
  - intros p _ Hp. mem_cases; eexists; (split; [reflexivity|by vm_compute]).
  - intros p p' _ Hp Hp' E. mem_cases; done.
  - constructor.
  - intros p Hp. mem_cases; by vm_compute.
Qed.

Lemma StoreTimeEvent_sorted_witness :
  exists h', StoreTimeEvent false 3 9 3 demo_stored = Ok (tt, h') /\
    timeline_inv h' 9 [1; 3; 2]%positive ({[3%positive]} ∖ {[3%positive]}) [] 3 /\ same_derived demo_stored h'.
Proof.
  apply (StoreTimeEvent_sorted false demo_stored 9 [1; 2]%positive {[3%positive]} [] 3 3 demo_stored_inv).
  by apply elem_of_singleton.
Defined.

Lemma DequeTimeEvents_due_witness :
  exists h', DequeTimeEvents false 3 9 7 15 demo_stored = Ok ([1%positive], h') /\
    StronglySorted (by_key (time_of demo_stored)) [1%positive] /\
    marked demo_stored h' [1%positive] /\ timeline_inv h' 9 [1; 2]%positive {[3%positive]} [] 3 /\
    (exists h'', DequeTimeEvents false 3 9 7 15 h' = Ok ([], h'')) /\
    GetTimeEvents 3 9 demo_stored = Ok ([1; 2]%positive, demo_stored).
Proof. exact (DequeTimeEvents_due false demo_stored 9 [1; 2]%positive _ [] 3 7 15 demo_stored_inv). Defined.

Lemma timeline_stable_queue_witness :
  exists evs' h', (store_all false 4 9 [1; 2; 3]%positive;; DequeTimeEvents false 4 9 7 100) demo_held = Ok (evs', h') /\
    StronglySorted (by_key (time_of demo_held)) evs' /\
    forall t, filter (fun p => time_of demo_held p = t) evs' =
              filter (fun p => time_of demo_held p = t) (filter (due demo_held 7 100) [1; 2; 3]%positive).
Proof.
  apply (timeline_stable_queue false demo_held 9 _ [] 3 [1; 2; 3]%positive 7 100 demo_held_inv).
  - apply (bool_decide_unpack _). by vm_compute.
  - intros p Hp. mem_cases; apply (bool_decide_unpack _); by vm_compute.
Defined.

(** Ten seconds on, a limit of five seconds frees both events. *)
Lemma ExpireEvents_correct_witness :
  exists h' kept freed, ExpireEvents 3 9 (seconds 10) 5 demo_stored = Ok (tt, h') /\
    timeline_inv h' 9 kept {[3%positive]} (freed ++ []) 3 /\ sublist kept [1; 2]%positive /\
    freed ++ kept ≡ₚ [1; 2]%positive /\
    (forall p, p ∈ freed -> seconds 10 - (time_of demo_stored p + ms (m_duration (event demo_stored p))) > seconds 5) /\
    (forall p, p ∈ [1; 2]%positive ->
       seconds 10 - (time_of demo_stored p + ms (m_duration (event demo_stored p))) > seconds 5 ->
       seconds 10 - time_of demo_stored p >= seconds 16 -> p ∈ freed) /\
    ((forall p, p ∈ [1; 2]%positive -> m_duration (event demo_stored p) = 0) ->
     kept = filter (fun p => seconds 10 - time_of demo_stored p <= seconds 5) [1; 2]%positive).
Proof.
  apply (ExpireEvents_correct demo_stored 9 [1; 2]%positive {[3%positive]} [] 3 (seconds 10) 5 demo_stored_inv).
  - by vm_compute.
  - intros p Hp. mem_cases; by vm_compute.
Defined.
