(* ===== verification/VM.v ===== *)
(** * The virtual machine

    The class template [VM] of include/mutils/vm/vm.h, with the value type of
    src/vm/vm.test.cpp: [std::variant<std::string, int, VM_Reg>]. Objects of
    type [VFunction] live in [objs] and a pointer to one is its index there.
    The log is the text written so far; [m_dumpArgFn], the function [Add]
    that a client supplies and the native functions are parameters (a native
    function sees the registers and its argument count). *)

From S2P Require Import Prelude StdString.

(** A register is an [int]; the enumerators are [R0] to [R8]. *)
Inductive VM_Reg : Type := Reg (n : Z).
Definition R0 := Reg 0.
Definition R1 := Reg 1.
Definition R2 := Reg 2.
Definition R3 := Reg 3.

Inductive VM_IType : Type := Push | Pop | PopArgs | Ret | Call | Add | Mov.

Inductive TValue : Type :=
| VString (s : str)
| VInt (z : Z)
| VReg (r : VM_Reg).

#[global] Instance VM_Reg_eq_dec : EqDecision VM_Reg.
Proof. solve_decision. Defined.
#[global] Instance TValue_eq_dec : EqDecision TValue.
Proof. solve_decision. Defined.

Record VInstruction : Type := mkI { type : VM_IType; arg1 : TValue; arg2 : TValue }.

Record VFunction : Type := mkF {
  name : str;
  args : list TValue;
  instructions : list VInstruction;
  pFnNative : option (list TValue -> Z -> result stop TValue) }.

Abbreviation fptr := nat.

Record vm : Type := mkVM {
  objs : list VFunction;
  m_functionMap : gmap str Z;
  m_functions : list fptr;
  m_pc : Z;
  m_stack : list TValue;
  m_callStack : list fptr;
  m_registers : list TValue;
  m_variables : list TValue;
  m_mapVariables : gmap str Z;
  m_log : str }.

(** A new machine: every register holds the first alternative, an empty string. *)
Definition VM_make (log : str) : vm :=
  mkVM [] ∅ [] 0 [] [] (replicate 1024 (VString [])) [] ∅ log.

Definition with_pc (z : Z) (s : vm) : vm :=
  mkVM (objs s) (m_functionMap s) (m_functions s) z (m_stack s) (m_callStack s) (m_registers s)
    (m_variables s) (m_mapVariables s) (m_log s).
Definition with_stack (l : list TValue) (s : vm) : vm :=
  mkVM (objs s) (m_functionMap s) (m_functions s) (m_pc s) l (m_callStack s) (m_registers s)
    (m_variables s) (m_mapVariables s) (m_log s).
Definition with_calls (l : list fptr) (s : vm) : vm :=
  mkVM (objs s) (m_functionMap s) (m_functions s) (m_pc s) (m_stack s) l (m_registers s)
    (m_variables s) (m_mapVariables s) (m_log s).
Definition with_registers (l : list TValue) (s : vm) : vm :=
  mkVM (objs s) (m_functionMap s) (m_functions s) (m_pc s) (m_stack s) (m_callStack s) l
    (m_variables s) (m_mapVariables s) (m_log s).
Definition with_functions (o : list VFunction) (t : gmap str Z) (l : list fptr) (s : vm) : vm :=
  mkVM o t l (m_pc s) (m_stack s) (m_callStack s) (m_registers s)
    (m_variables s) (m_mapVariables s) (m_log s).
Definition with_variables (l : list TValue) (t : gmap str Z) (s : vm) : vm :=
  mkVM (objs s) (m_functionMap s) (m_functions s) (m_pc s) (m_stack s) (m_callStack s)
    (m_registers s) l t (m_log s).
Definition with_log (t : str) (s : vm) : vm :=
  mkVM (objs s) (m_functionMap s) (m_functions s) (m_pc s) (m_stack s) (m_callStack s)
    (m_registers s) (m_variables s) (m_mapVariables s) t.

(** The [Add] of the test: the sum of two [int]s (whose overflow is undefined). *)
Definition test_Add (lhs rhs : TValue) : result stop TValue :=
  match lhs, rhs with
  | VInt a, VInt b => if bool_decide (in_s 32 (a + b)) then Ok (VInt (a + b)) else Err UB
  | _, _ => Err (Throw invalid_argument)
  end.

Section Code.
Context (NDEBUG : bool) (AddFn : TValue -> TValue -> result stop TValue) (m_dumpArgFn : TValue -> str).
Abbreviation M := (ST vm).

Definition modify (f : vm -> vm) : M unit := s ← st_get; st_put (f s).
Definition lift {A} (r : result stop A) : M A := match r with Ok a => mret a | Err e => st_fail e end.

Definition get_string (v : TValue) : M str :=
  match v with VString s => mret s | _ => st_fail (Throw bad_variant_access) end.
Definition get_int (v : TValue) : M Z :=
  match v with VInt z => mret z | _ => st_fail (Throw bad_variant_access) end.
Definition get_reg (v : TValue) : M Z :=
  match v with VReg (Reg n) => mret n | _ => st_fail (Throw bad_variant_access) end.

Definition is_string (v : TValue) : bool := match v with VString _ => true | _ => false end.
Definition is_reg (v : TValue) : bool := match v with VReg _ => true | _ => false end.

(** ** Memory *)

(** [m_registers[i]] *)
Definition reg_get (i : Z) : M TValue :=
  s ← st_get; if i <? 0 then st_fail UB else st_some (m_registers s !! Z.to_nat i).
Definition reg_set (i : Z) (v : TValue) : M unit :=
  s ← st_get;
  if (i <? 0) || (Z.of_nat (length (m_registers s)) <=? i) then st_fail UB
  else st_put (with_registers (<[Z.to_nat i := v]> (m_registers s)) s).

Definition stack_front : M TValue := s ← st_get; st_some (head (m_stack s)).
Definition stack_pop_front : M unit :=
  s ← st_get; match m_stack s with [] => st_fail UB | _ :: l => st_put (with_stack l s) end.
Definition stack_pop_back : M unit :=
  s ← st_get;
  match m_stack s with [] => st_fail UB | l => st_put (with_stack (removelast l) s) end.
Definition stack_push_front (v : TValue) : M unit := modify (fun s => with_stack (v :: m_stack s) s).

Definition call_front : M VFunction :=
  s ← st_get; p ← st_some (head (m_callStack s)); st_some (objs s !! p).

Definition call_stack_assert : M unit :=
  st_assert NDEBUG (s ← st_get; mret (match m_callStack s with [] => false | _ => true end)).

(** ** Functions *)

Definition GetFunction (nm : str) : M fptr :=
  s ← st_get;
  match m_functionMap s !! nm with
  | None =>
      let pFn := length (objs s) in
      st_put (with_functions (objs s ++ [mkF nm [] [] None])
        (<[nm := u32 (Z.of_nat (length (m_functions s ++ [pFn])) - 1)]> (m_functionMap s))
        (m_functions s ++ [pFn]) s);;
      mret pFn
  | Some i => st_some (m_functions s !! Z.to_nat i)
  end.

(** [std::make_shared<VFunction>()] *)
Definition new_function : M fptr :=
  s ← st_get;
  st_put (with_functions (objs s ++ [mkF [] [] [] None]) (m_functionMap s) (m_functions s) s);;
  mret (length (objs s)).

Definition set_name (nm : str) (f : VFunction) : VFunction :=
  mkF nm (args f) (instructions f) (pFnNative f).
Definition set_native (g : list TValue -> Z -> result stop TValue) (f : VFunction) : VFunction :=
  mkF (name f) (args f) (instructions f) (Some g).

Definition AddFunction (nm : str) (p : fptr) : M unit :=
  st_assert NDEBUG (s ← st_get; mret (bool_decide (m_functionMap s !! nm = None)));;
  s ← st_get;
  st_some (objs s !! p);;
  st_put (with_functions (alter (set_name nm) p (objs s))
    (<[nm := u32 (Z.of_nat (length (m_functions s ++ [p])) - 1)]> (m_functionMap s))
    (m_functions s ++ [p]) s).

Definition AddNativeFunction (nm : str) (fn : list TValue -> Z -> result stop TValue) : M unit :=
  p ← new_function;
  AddFunction nm p;;
  modify (fun s => with_functions (alter (set_native fn) p (objs s)) (m_functionMap s) (m_functions s) s).

Definition RegisterByIndex (index : Z) : VM_Reg := Reg (i32 (u32 (0 + index))).

Definition AddReservedVariable (nm : str) : M Z :=
  st_assert NDEBUG (s ← st_get; mret (bool_decide (m_mapVariables s !! nm = None)));;
  s ← st_get;
  let vars := m_variables s ++ [VString nm] in
  st_put (with_variables vars (<[nm := u32 (Z.of_nat (length vars) - 1)]> (m_mapVariables s)) s);;
  mret (u32 (Z.of_nat (length vars) - 1)).

Definition RegAs_int (index : Z) : M Z := v ← reg_get index; get_int v.
Definition RegIs_int (index : Z) : M bool :=
  v ← reg_get index; mret (match v with VInt _ => true | _ => false end).

(** [Instruction()] *)
Definition Instruction : M VInstruction :=
  call_stack_assert;;
  f ← call_front; s ← st_get;
  if m_pc s <? 0 then st_fail UB else st_some (instructions f !! Z.to_nat (m_pc s)).

(** ** Execute *)

(** [while (count > 0) { m_registers[count - 1] = front; pop_front; count--; }] *)
Fixpoint pop_args_loop (count : nat) : M unit :=
  match count with
  | O => mret tt
  | S k => v ← stack_front; reg_set (Z.of_nat k) v;; stack_pop_front;; pop_args_loop k
  end.

(** The loop of [PopArgs], which does not change [count]: it only ends by failing. *)
Fixpoint popargs_loop (fuel : nat) (args count : Z) : M unit :=
  if count <=? 0 then mret tt
  else match fuel with
  | O => st_fail OutOfFuel
  | S fuel =>
      st_assert NDEBUG (mret false);;
      v ← stack_front; reg_set (args - count) v;; stack_pop_front;;
      popargs_loop fuel args count
  end.

Definition exec_call (instr : VInstruction) : M unit :=
  st_assert NDEBUG (mret (is_string (arg1 instr)));;
  fnName ← get_string (arg1 instr);
  fun_ ← GetFunction fnName;
  v ← stack_front; count ← get_int v;
  stack_pop_front;;
  pop_args_loop (Z.to_nat count);;
  s ← st_get;
  f ← st_some (objs s !! fun_);
  match pFnNative f with
  | Some fn => v ← lift (fn (m_registers s) count); reg_set 0 v
  | None =>
      (if m_pc s =? 2 ^ 31 - 1 then st_fail UB else stack_push_front (VInt (m_pc s + 1)));;
      modify (with_pc 0);;
      modify (fun s => with_calls (fun_ :: m_callStack s) s)
  end.

Definition exec_ret : M unit :=
  call_stack_assert;;
  v ← stack_front; pc ← get_int v;
  modify (with_pc pc);;
  stack_pop_back;;
  s ← st_get;
  match m_callStack s with [] => st_fail UB | _ :: l => st_put (with_calls l s) end.

Definition exec_add (instr : VInstruction) : M unit :=
  st_assert NDEBUG (mret (is_reg (arg1 instr)));;
  r ← get_reg (arg1 instr);
  target ← reg_get (u32 r);
  source ← (if is_reg (arg2 instr) then r ← get_reg (arg1 instr); reg_get (u32 r)
            else mret (arg1 instr));
  v ← lift (AddFn target source);
  reg_set (u32 r) v.

(** [fuel] is for the loop of [PopArgs]. *)
Definition Execute (fuel : nat) (instr : VInstruction) : M unit :=
  match type instr with
  | Call => exec_call instr
  | Ret => exec_ret
  | Push =>
      match arg1 instr with
      | VReg (Reg n) => v ← reg_get n; stack_push_front v
      | v => stack_push_front v
      end
  | Pop =>
      st_assert NDEBUG (mret (is_reg (arg1 instr)));;
      r ← get_reg (arg1 instr); v ← stack_front; reg_set r v;; stack_pop_front
  | PopArgs =>
      v ← stack_front; count ← get_int v; stack_pop_front;; popargs_loop fuel count count
  | Mov =>
      st_assert NDEBUG (mret (is_reg (arg1 instr)));;
      r ← get_reg (arg1 instr); reg_set (u32 r) (arg2 instr)
  | Add => exec_add instr
  end.

(** ** Run *)

Definition nl : str := [ascii_of_nat 10].
Definition log_text (t : str) : M unit := modify (fun s => with_log (m_log s ++ t) s).

(** The text for an instruction. [GetFunction] is called for a [Call]. *)
Definition describe (i : VInstruction) : M str :=
  match type i with
  | Call =>
      nm ← get_string (arg1 i); p ← GetFunction nm; s ← st_get; f ← st_some (objs s !! p);
      mret (lit "CALL " ++ m_dumpArgFn (arg1 i) ++
            (match pFnNative f with Some _ => lit " (native)" | None => [] end))
  | Ret => mret (lit "RET")
  | Push => mret (lit "PUSH " ++ m_dumpArgFn (arg1 i))
  | Pop => mret (lit "POP " ++ m_dumpArgFn (arg1 i))
  | PopArgs => mret (lit "POPARGS")
  | Mov => mret (lit "MOV " ++ m_dumpArgFn (arg1 i) ++ lit ", " ++ m_dumpArgFn (arg2 i))
  | Add => mret (lit "Add " ++ m_dumpArgFn (arg1 i) ++ lit ", " ++ m_dumpArgFn (arg2 i))
  end.

(** [std::setw(20) << std::left] *)
Definition setw20 (t : str) : str := t ++ replicate (20 - length t) " "%char.

Definition log_stack (stack : list TValue) : str :=
  concat (map (fun v => lit " [" ++ m_dumpArgFn v ++ lit "]") stack).

Definition trace (i : VInstruction) : M unit :=
  inst ← describe i;
  s ← st_get;
  log_text (setw20 inst ++ lit "Stack:" ++ log_stack (m_stack s) ++ nl).

(** [m_pc++] *)
Definition pc_incr : M unit :=
  s ← st_get; if m_pc s =? 2 ^ 31 - 1 then st_fail UB else st_put (with_pc (m_pc s + 1) s).

(** The loop condition compares the [int] [m_pc] with a [size_t]. *)
Definition pc_in (pc : Z) (l : list VInstruction) : bool := u64 pc <? Z.of_nat (length l).

Fixpoint run_loop (fuel : nat) : M unit :=
  f ← call_front; s ← st_get;
  if pc_in (m_pc s) (instructions f) then
    match fuel with
    | O => st_fail OutOfFuel
    | S fuel' =>
        i ← st_some (instructions f !! Z.to_nat (m_pc s));
        Execute fuel i;;
        trace i;;
        pc_incr;;
        run_loop fuel'
    end
  else mret tt.

Definition Run (fuel : nat) (pFn : fptr) : M unit :=
  modify (fun s => with_calls (pFn :: m_callStack s) s);;
  modify (with_pc 0);;
  s ← st_get;
  f ← st_some (objs s !! pFn);
  log_text (nl ++ lit "Running " ++ name f ++ nl);;
  run_loop fuel.

(** ** Dump *)

(** [GetFunction] while [m_functions] is iterated over: a name that is not
    there yet is added to the vector, which invalidates the iterators. *)
Definition dump_instruction (i : VInstruction) : M str :=
  match type i with
  | Call =>
      nm ← get_string (arg1 i); s ← st_get;
      match m_functionMap s !! nm with
      | None => st_fail UB
      | Some k =>
          p ← st_some (m_functions s !! Z.to_nat k); f ← st_some (objs s !! p);
          mret (lit "CALL " ++ m_dumpArgFn (arg1 i) ++
                (match pFnNative f with Some _ => lit " (native)" | None => [] end))
      end
  | Ret => mret (lit "RET" ++ nl)
  | Push => mret (lit "PUSH " ++ m_dumpArgFn (arg1 i))
  | Pop => mret (lit "POP " ++ m_dumpArgFn (arg1 i))
  | PopArgs => mret (lit "POPARGS")
  | Mov => mret (lit "MOV " ++ m_dumpArgFn (arg1 i) ++ lit ", " ++ m_dumpArgFn (arg2 i))
  | Add => mret []
  end.

Fixpoint dump_instructions (index : Z) (l : list VInstruction) : M unit :=
  match l with
  | [] => mret tt
  | i :: l =>
      log_text (to_string index ++ lit ": ");;
      t ← dump_instruction i;
      log_text (t ++ nl);;
      dump_instructions (u32 (index + 1)) l
  end.

Fixpoint dump_functions (l : list fptr) : M unit :=
  match l with
  | [] => mret tt
  | p :: l =>
      s ← st_get; f ← st_some (objs s !! p);
      log_text (nl ++ name f ++ lit ":" ++ nl);;
      dump_instructions 0 (instructions f);;
      log_text nl;;
      dump_functions l
  end.

Definition Dump : M unit :=
  log_text (nl ++ lit "VM:" ++ nl);;
  s ← st_get;
  dump_functions (m_functions s).

End Code.

(** ** Theory *)

(** [steps]: unfold the monad and what the code reads. *)
Ltac steps := repeat (progress (
  unfold modify, lift, st_some, st_fail, st_get, st_put, mbind, ST_bind, mret, ST_ret in *;
  cbn [m_pc m_stack m_callStack m_registers objs m_functionMap m_functions m_log m_variables m_mapVariables
       with_pc with_stack with_calls with_registers with_functions with_log with_variables head] in * )).

(** *** The table of functions *)

(** Every name in the table leads to a function of that name. *)
Definition table_ok (s : vm) : Prop :=
  forall nm i, m_functionMap s !! nm = Some i ->
    0 <= i /\ exists p f, m_functions s !! Z.to_nat i = Some p /\ objs s !! p = Some f /\ name f = nm.

Lemma lookup_last {A} (l : list A) x : (l ++ [x]) !! length l = Some x.
Proof. rewrite lookup_app_r, Nat.sub_diag by done. done. Qed.

Lemma u32_last {A} (l : list A) (x : A) :
  Z.of_nat (length l) < 2 ^ 32 -> u32 (Z.of_nat (length (l ++ [x])) - 1) = Z.of_nat (length l).
Proof.
  intros Hl. rewrite length_app. cbn [length]. rewrite wrap_small; [lia|]. unfold in_u. lia.
Qed.

Lemma table_ok_push s nm p f o :
  table_ok s -> o !! p = Some f -> name f = nm -> Z.of_nat (length (m_functions s)) < 2 ^ 32 ->
  (forall q g, q ∈ m_functions s -> objs s !! q = Some g -> o !! q = Some g) ->
  table_ok (with_functions o
    (<[nm := u32 (Z.of_nat (length (m_functions s ++ [p])) - 1)]> (m_functionMap s)) (m_functions s ++ [p]) s).
Proof.
  intros Hok Hp Hn Hlen Ho nm' i. cbn. rewrite u32_last by done. rewrite lookup_insert.
  case_decide as E; subst.
  - intros [= <-]. split; [lia|]. exists p, f. by rewrite Nat2Z.id, lookup_last.
  - intros Hi. destruct (Hok _ _ Hi) as (Hi0 & q & g & Hq & Hg & Hname). split; [done|].
    exists q, g. split; [by apply lookup_app_l_Some|]. split; [|done].
    apply Ho; [by eapply list_elem_of_lookup_2|done].
Qed.

(** *** Reference semantics of instructions that do not transfer control *)

Definition straight (i : VInstruction) : bool :=
  match type i with Push | Pop | Mov => true | _ => false end.

(** The operand must be a register. *)
Definition reg_operand (NDEBUG : bool) (v : TValue) : result stop Z :=
  match v with
  | VReg (Reg n) => Ok n
  | _ => Err (if NDEBUG then Throw bad_variant_access else AssertFail)
  end.

Definition reg_write (n : Z) (v : TValue) (regs : list TValue) : result stop (list TValue) :=
  if decide (0 <= n < Z.of_nat (length regs)) then Ok (<[Z.to_nat n := v]> regs) else Err UB.

(** One instruction on a stack and registers. *)
Definition step_core (NDEBUG : bool) (i : VInstruction) (c : list TValue * list TValue) :
    result stop (list TValue * list TValue) :=
  let '(stack, regs) := c in
  match type i with
  | Push =>
      match arg1 i with
      | VReg (Reg n) =>
          v ← of_option UB (if decide (0 <= n) then regs !! Z.to_nat n else None); Ok (v :: stack, regs)
      | v => Ok (v :: stack, regs)
      end
  | Pop =>
      n ← reg_operand NDEBUG (arg1 i);
      v ← of_option UB (head stack);
      regs ← reg_write n v regs; Ok (tail stack, regs)
  | Mov =>
      n ← reg_operand NDEBUG (arg1 i);
      regs ← reg_write (u32 n) (arg2 i) regs; Ok (stack, regs)
  | _ => Err UB
  end.

Fixpoint run_core (NDEBUG : bool) (l : list VInstruction) (c : list TValue * list TValue) :
    result stop (list TValue * list TValue) :=
  match l with
  | [] => Ok c
  | i :: l => c ← step_core NDEBUG i c; run_core NDEBUG l c
  end.

Section Theory.
Context (NDEBUG : bool) (AddFn : TValue -> TValue -> result stop TValue) (dumpArg : TValue -> str).

Lemma reg_set_eq n v s :
  reg_set n v s =
    match reg_write n v (m_registers s) with Ok regs => Ok (tt, with_registers regs s) | Err e => Err e end.
Proof.
  unfold reg_set, reg_write. steps. destruct (decide _) as [Hn|Hn].
  - by replace ((n <? 0) || (Z.of_nat (length (m_registers s)) <=? n)) with false by lia.
  - by replace ((n <? 0) || (Z.of_nat (length (m_registers s)) <=? n)) with true by lia.
Qed.

Lemma Execute_straight fuel i s :
  straight i = true ->
  Execute NDEBUG AddFn fuel i s =
    match step_core NDEBUG i (m_stack s, m_registers s) with
    | Ok (st, rg) => Ok (tt, with_stack st (with_registers rg s))
    | Err e => Err e
    end.
Proof.
  intros Hs. destruct i as [ty a1 a2]; destruct ty; try done; unfold Execute, step_core; cbn [type arg1 arg2].
  - destruct a1 as [t|z|[n]]; [done..|]. unfold reg_get. steps.
    destruct (Z.ltb_spec n 0); [by rewrite decide_False by lia|]. rewrite decide_True by lia.
    by destruct (m_registers s !! Z.to_nat n).
  - destruct a1 as [t|z|[n]]; [by destruct NDEBUG..|]. unfold st_assert. destruct NDEBUG; cbn [is_reg];
      unfold stack_front, stack_pop_front, get_reg; steps;
      (destruct (m_stack s) as [|v st] eqn:E; cbn; [done|]); rewrite reg_set_eq;
      destruct (reg_write n v (m_registers s)); cbn; steps; try done; by rewrite E.
  - destruct a1 as [t|z|[n]]; [by destruct NDEBUG..|]. unfold st_assert. destruct NDEBUG; cbn [is_reg];
      unfold get_reg; steps; rewrite reg_set_eq; cbn; unfold result_bind;
      destruct (reg_write (u32 n) a2 (m_registers s)); by destruct s.
Qed.

Lemma trace_straight i s :
  straight i = true -> exists t, trace dumpArg i s = Ok (tt, with_log t s).
Proof. intros Hs. destruct i as [ty a1 a2]; destruct ty; try done; unfold trace, describe; steps; by eexists. Qed.

Lemma call_front_ok s p cs f :
  m_callStack s = p :: cs -> objs s !! p = Some f -> call_front s = Ok (f, s).
Proof. intros E1 E2. unfold call_front. steps. by rewrite E1; cbn; rewrite E2. Qed.

(** One round of the loop of [Run]. *)
Lemma run_loop_step fuel s p cs f i :
  m_callStack s = p :: cs -> objs s !! p = Some f ->
  0 <= m_pc s < 2 ^ 31 -> instructions f !! Z.to_nat (m_pc s) = Some i ->
  run_loop NDEBUG AddFn dumpArg (S fuel) s =
    (Execute NDEBUG AddFn (S fuel) i;; trace dumpArg i;; pc_incr;; run_loop NDEBUG AddFn dumpArg fuel) s.
Proof.
  intros E1 E2 Hpc Hi. cbn [run_loop]. rewrite (st_bind_ok _ _ _ _ _ (call_front_ok _ _ _ _ E1 E2)).
  pose proof (lookup_lt_Some _ _ _ Hi) as Hlt.
  assert (pc_in (m_pc s) (instructions f) = true) as Hin.
  { unfold pc_in. rewrite wrap_small by (unfold in_u; lia). lia. }
  unfold st_get at 1. unfold mbind at 1. unfold ST_bind at 1. rewrite Hin, Hi. done.
Qed.

Lemma run_loop_stop fuel s p cs f :
  m_callStack s = p :: cs -> objs s !! p = Some f -> m_pc s = Z.of_nat (length (instructions f)) ->
  m_pc s < 2 ^ 31 -> run_loop NDEBUG AddFn dumpArg fuel s = Ok (tt, s).
Proof.
  intros E1 E2 Hpc Hlt.
  assert (pc_in (m_pc s) (instructions f) = false) as Hin.
  { unfold pc_in. rewrite wrap_small by (unfold in_u; lia). lia. }
  destruct fuel; cbn [run_loop]; rewrite (st_bind_ok _ _ _ _ _ (call_front_ok _ _ _ _ E1 E2));
    unfold st_get at 1; unfold mbind at 1; unfold ST_bind at 1; by rewrite Hin.
Qed.

Lemma run_straight p cs f : forall l fuel s,
  m_callStack s = p :: cs -> objs s !! p = Some f -> Z.of_nat (length (instructions f)) < 2 ^ 31 ->
  instructions f = take (Z.to_nat (m_pc s)) (instructions f) ++ l -> 0 <= m_pc s ->
  (Z.to_nat (m_pc s) + length l = length (instructions f))%nat ->
  forallb straight l = true -> (length l <= fuel)%nat ->
  match run_core NDEBUG l (m_stack s, m_registers s) with
  | Ok c => exists s', run_loop NDEBUG AddFn dumpArg fuel s = Ok (tt, s') /\
      (m_stack s', m_registers s') = c /\ m_pc s' = Z.of_nat (length (instructions f)) /\
      m_callStack s' = p :: cs
  | Err e => run_loop NDEBUG AddFn dumpArg fuel s = Err e
  end.
Proof.
  induction l as [|i l IH]; intros fuel s E1 E2 Hlen Hl Hpc Hk Hs Hfuel; cbn in Hk.
  - cbn [run_core]. exists s. split_and!; [eapply run_loop_stop; eauto; lia|done|lia|done].
  - destruct fuel as [|fuel]; cbn in Hfuel; [lia|]. cbn [forallb] in Hs. apply andb_prop in Hs as [Hi Hs].
    assert (instructions f !! Z.to_nat (m_pc s) = Some i) as Hlk.
    { rewrite Hl, lookup_app_r; rewrite length_take_le by lia; [by rewrite Nat.sub_diag|lia]. }
    rewrite (run_loop_step fuel s p cs f i E1 E2 ltac:(lia) Hlk). cbn [run_core].
    pose proof (Execute_straight (S fuel) i s Hi) as He.
    destruct (step_core NDEBUG i (m_stack s, m_registers s)) as [[st rg]|e] eqn:Ec; cbn.
    2:{ by rewrite (st_bind_err _ _ _ _ He). }
    rewrite (st_bind_ok _ _ _ _ _ He).
    destruct (trace_straight i (with_stack st (with_registers rg s)) Hi) as [t Ht].
    rewrite (st_bind_ok _ _ _ _ _ Ht).
    assert (forall x, pc_incr (with_log t (with_stack st (with_registers rg s))) = Ok (tt, x) <->
      x = with_pc (m_pc s + 1) (with_log t (with_stack st (with_registers rg s)))) as Hp.
    { intros x. unfold pc_incr. steps. replace (m_pc s =? 2 ^ 31 - 1) with false by lia. naive_solver. }
    rewrite (st_bind_ok _ _ _ _ _ (proj2 (Hp _) eq_refl)).
    assert (Z.to_nat (m_pc s + 1) = S (Z.to_nat (m_pc s))) as Hn by lia.
    apply (IH fuel (with_pc (m_pc s + 1) (with_log t (with_stack st (with_registers rg s))))); try done; cbn; [|lia..].
    rewrite Hn, (take_S_r _ _ i Hlk), <- app_assoc. done.
Qed.

(** *** Calls *)

Fixpoint exec_list (l : list VInstruction) : ST vm unit :=
  match l with
  | [] => mret tt
  | i :: l => Execute NDEBUG AddFn 0 i;; exec_list l
  end.

Lemma exec_list_app l1 l2 s : exec_list (l1 ++ l2) s = (exec_list l1;; exec_list l2) s.
Proof.
  revert s. induction l1 as [|i l1 IH]; intros s; [done|]. cbn. rewrite st_bind_assoc.
  unfold mbind, ST_bind. destruct (Execute _ _ _ i s) as [[[] s1]|]; [|done]. apply IH.
Qed.

Lemma exec_pushes vs : forall s,
  forallb (fun v => negb (is_reg v)) vs = true ->
  exec_list (map (fun v => mkI Push v v) vs) s = Ok (tt, with_stack (rev vs ++ m_stack s) s).
Proof.
  induction vs as [|v vs IH]; intros s Hv; [by destruct s|]. cbn [forallb] in Hv. apply andb_prop in Hv as [Hv Hvs].
  cbn [map exec_list]. assert (Execute NDEBUG AddFn 0 (mkI Push v v) s = Ok (tt, with_stack (v :: m_stack s) s)) as E
    by (by destruct v).
  rewrite (st_bind_ok _ _ _ _ _ E), IH by done. cbn. by rewrite <- app_assoc.
Qed.

Lemma pop_args_loop_spec vs : forall st s,
  m_stack s = rev vs ++ st -> (length vs <= length (m_registers s))%nat ->
  pop_args_loop (length vs) s =
    Ok (tt, with_stack st (with_registers (vs ++ drop (length vs) (m_registers s)) s)).
Proof.
  induction vs as [|v vs IH] using rev_ind; intros st s Hst Hlen.
  - cbn in *. rewrite drop_0. destruct s. cbn in *. by subst.
  - rewrite rev_app_distr in Hst. cbn in Hst. rewrite length_app in *. cbn [length] in *.
    rewrite Nat.add_1_r in *. cbn [pop_args_loop]. unfold stack_front at 1. steps. rewrite Hst. cbn [head].
    rewrite reg_set_eq. unfold reg_write. rewrite decide_True by lia. rewrite Nat2Z.id.
    unfold stack_pop_front. steps. rewrite Hst. cbn [m_stack].
    rewrite (IH st); [|done|cbn; rewrite length_insert; lia]. cbn.
    rewrite drop_insert_ge, Nat.sub_diag by done. rewrite <- app_assoc.
    destruct (lookup_lt_is_Some_2 (m_registers s) (length vs)) as [w Hw]; [lia|].
    by rewrite (drop_S _ _ _ Hw).
Qed.

(** A name the table knows. *)
Lemma GetFunction_known s nm k p :
  m_functionMap s !! nm = Some k -> m_functions s !! Z.to_nat k = Some p -> GetFunction nm s = Ok (p, s).
Proof. intros E1 E2. unfold GetFunction. steps. by rewrite E1, E2. Qed.

(** The start of a call: the function and its arguments. *)
Lemma exec_call_args s nm k p vs st a2 :
  m_functionMap s !! nm = Some k -> m_functions s !! Z.to_nat k = Some p ->
  m_stack s = VInt (Z.of_nat (length vs)) :: rev vs ++ st -> (length vs <= length (m_registers s))%nat ->
  exec_call NDEBUG (mkI Call (VString nm) a2) s =
    (s ← st_get;
     f ← st_some (objs s !! p);
     match pFnNative f with
     | Some fn => v ← lift (fn (m_registers s) (Z.of_nat (length vs))); reg_set 0 v
     | None =>
         (if m_pc s =? 2 ^ 31 - 1 then st_fail UB else stack_push_front (VInt (m_pc s + 1)));;
         modify (with_pc 0);;
         modify (fun s => with_calls (p :: m_callStack s) s)
     end) (with_stack st (with_registers (vs ++ drop (length vs) (m_registers s)) s)).
Proof.
  intros E1 E2 Hst Hlen. unfold exec_call. cbn [arg1 is_string].
  rewrite (st_bind_ok _ _ s tt s) by (by apply st_assert_ok).
  unfold get_string. rewrite st_ret_bind, (st_bind_ok _ _ _ _ _ (GetFunction_known _ _ _ _ E1 E2)).
  assert (stack_front s = Ok (VInt (Z.of_nat (length vs)), s)) as Ef by (unfold stack_front; steps; by rewrite Hst).
  rewrite (st_bind_ok _ _ _ _ _ Ef). unfold get_int. rewrite st_ret_bind.
  assert (stack_pop_front s = Ok (tt, with_stack (rev vs ++ st) s)) as Ep by (unfold stack_pop_front; steps; by rewrite Hst).
  rewrite (st_bind_ok _ _ _ _ _ Ep), Nat2Z.id.
  by rewrite (st_bind_ok _ _ _ _ _ (pop_args_loop_spec vs st (with_stack (rev vs ++ st) s) eq_refl Hlen)).
Qed.

(** ** Properties *)

(** C11. [Run] on a function made of [Push], [Pop] and [Mov] instructions ends
    after one round per instruction and does to the stack and the registers
    what the reference semantics does, instruction by instruction; if the
    reference stops (an operand that is not a register, a register out of
    range, an empty stack), [Run] stops in the same way. *)
Theorem Run_straight_correct s p f :
  objs s !! p = Some f -> forallb straight (instructions f) = true ->
  Z.of_nat (length (instructions f)) < 2 ^ 31 ->
  match run_core NDEBUG (instructions f) (m_stack s, m_registers s) with
  | Ok c => exists s', Run NDEBUG AddFn dumpArg (length (instructions f)) p s = Ok (tt, s') /\
      (m_stack s', m_registers s') = c /\ m_pc s' = Z.of_nat (length (instructions f)) /\
      m_callStack s' = p :: m_callStack s
  | Err e => Run NDEBUG AddFn dumpArg (length (instructions f)) p s = Err e
  end.
Proof.
  intros Hp Hs Hlen. unfold Run, log_text.
  steps. rewrite Hp. steps.
  match goal with |- context [run_loop _ _ _ _ ?x] => set (s0 := x) end.
  apply (run_straight p (m_callStack s) f _ _ s0); done.
Qed.

(** C21. The calling convention for native functions: pushing the arguments
    [vs] in order, then their number, then calling, puts argument [i] in
    register [i], calls the function with the number of arguments and leaves
    its result in register 0 and the stack as it was before the arguments. *)
Theorem native_call_correct s nm k p f fn vs v :
  m_functionMap s !! nm = Some k -> m_functions s !! Z.to_nat k = Some p ->
  objs s !! p = Some f -> pFnNative f = Some fn ->
  forallb (fun v => negb (is_reg v)) vs = true ->
  (length vs <= length (m_registers s))%nat -> m_registers s <> [] ->
  fn (vs ++ drop (length vs) (m_registers s)) (Z.of_nat (length vs)) = Ok v ->
  exec_list (map (fun v => mkI Push v v) (vs ++ [VInt (Z.of_nat (length vs))]) ++
             [mkI Call (VString nm) (VString nm)]) s =
    Ok (tt, with_registers (<[0%nat := v]> (vs ++ drop (length vs) (m_registers s))) s).
Proof.
  intros E1 E2 E3 E4 Hvs Hlen Hne Hfn. rewrite exec_list_app.
  rewrite (st_bind_ok _ _ _ _ _ (exec_pushes (vs ++ [VInt (Z.of_nat (length vs))]) s
    ltac:(rewrite forallb_app, Hvs; done))).
  rewrite rev_app_distr. cbn [rev app exec_list]. unfold Execute. cbn [type].
  erewrite st_bind_ok; [reflexivity|].
  rewrite (exec_call_args _ nm k p vs (m_stack s)) by done.
  unfold st_get at 1. unfold mbind at 1. unfold ST_bind at 1. cbn [objs with_stack with_registers].
  rewrite E3. cbn [st_some]. rewrite st_ret_bind, E4. cbn [m_registers with_stack with_registers]. rewrite Hfn. cbn [lift].
  rewrite st_ret_bind, reg_set_eq. unfold reg_write. cbn [m_registers with_stack with_registers].
  rewrite decide_True.
  - by destruct s.
  - rewrite length_app, length_drop. destruct (m_registers s); [done|]. cbn in *. lia.
Qed.

(** Calling a function that is not native loses instructions. [Run] adds
    one to [m_pc] after the call has set it to the callee's first instruction
    and again after the return has restored it: the callee [[i0; Ret]] is left
    again without [i0] having been executed, the caller goes on with the
    instruction after the next one, and the return address is still on the
    stack while the value at the bottom is gone. *)
Theorem call_skips_instructions fuel s p q cs f g nm k i0 a b st :
  m_callStack s = p :: cs -> objs s !! p = Some f -> 0 <= m_pc s < 2 ^ 31 - 2 ->
  instructions f !! Z.to_nat (m_pc s) = Some (mkI Call (VString nm) a) ->
  m_functionMap s !! nm = Some k -> m_functions s !! Z.to_nat k = Some q ->
  objs s !! q = Some g -> pFnNative g = None -> instructions g = [i0; mkI Ret b b] ->
  m_stack s = VInt 0 :: st ->
  exists s', run_loop NDEBUG AddFn dumpArg (S (S fuel)) s = run_loop NDEBUG AddFn dumpArg fuel s' /\
    m_pc s' = m_pc s + 2 /\ m_callStack s' = m_callStack s /\ m_registers s' = m_registers s /\
    m_stack s' = removelast (VInt (m_pc s + 1) :: st).
Proof.
  intros Hc Hf Hpc Hi E1 E2 Hg Hn Hgi Hst.
  rewrite (run_loop_step (S fuel) s p cs f _ Hc Hf ltac:(lia) Hi).
  unfold Execute at 1. cbn [type].
  pose proof (exec_call_args s nm k q [] st a E1 E2 Hst ltac:(cbn; lia)) as He.
  unfold mbind at 1. unfold ST_bind at 1. rewrite He. clear He. steps. rewrite Hg. steps. rewrite Hn.
  unfold stack_push_front. steps. replace (m_pc s =? 2 ^ 31 - 1) with false by lia. steps.
  unfold trace, describe. cbn [type arg1]. unfold get_string. steps.
  erewrite GetFunction_known by (cbn; eassumption). steps. rewrite Hg. steps. unfold log_text, pc_incr. steps.
  change (0 =? 2 ^ 31 - 1) with false. steps.
  match goal with |- context [run_loop _ _ _ (S fuel) ?x] => set (s1 := x) end.
  erewrite (run_loop_step fuel s1 q (p :: cs) g (mkI Ret b b)); [|cbn; by rewrite Hc|done|cbn; lia|cbn; by rewrite Hgi].
  unfold Execute. cbn [type]. unfold exec_ret, call_stack_assert.
  rewrite st_bind_assoc, (st_bind_ok _ _ s1 tt s1) by (apply st_assert_ok; intros _; by steps).
  unfold stack_front, get_int, stack_pop_back, trace, describe, log_text, pc_incr. steps. subst s1. steps.
  rewrite Hc. cbn [type]. steps. replace (m_pc s + 1 =? 2 ^ 31 - 1) with false by lia. steps.
  eexists. split; [reflexivity|]. cbn. rewrite drop_0. split_and!; [lia|done..].
Qed.

Lemma popargs_release_stops (c : Z) : 0 < c -> forall st s fuel,
  m_stack s = st -> m_registers s <> [] -> (length st < fuel)%nat ->
  popargs_loop true fuel c c s = Err UB.
Proof.
  intros Hc. induction st as [|v st IH]; intros s fuel Hst Hne Hfuel; (destruct fuel as [|fuel]; [cbn in Hfuel; lia|]);
    cbn [popargs_loop]; replace (c <=? 0) with false by lia; unfold st_assert, stack_front; steps; rewrite Hst; cbn; [done|].
  rewrite reg_set_eq, Z.sub_diag. unfold reg_write.
  rewrite decide_True by (destruct (m_registers s); [done|cbn; lia]).
  unfold stack_pop_front. steps. rewrite Hst. apply IH; [done| |cbn in Hfuel; lia].
  cbn. intros E. apply (f_equal length) in E. rewrite length_insert in E. by destruct (m_registers s).
Qed.

(** [PopArgs] never succeeds with arguments. With a positive count on the
    stack a debug build fails an assertion, and in a release build the loop,
    which does not count down, runs until it reads the front of an empty
    stack. *)
Theorem PopArgs_fails c st s a fuel :
  m_stack s = VInt c :: st -> 0 < c -> m_registers s <> [] -> (length st < fuel)%nat ->
  Execute false AddFn fuel (mkI PopArgs a a) s = Err AssertFail /\
  Execute true AddFn fuel (mkI PopArgs a a) s = Err UB.
Proof.
  intros Hst Hc Hne Hfuel. unfold Execute. cbn [type]. unfold stack_front, get_int, stack_pop_front.
  split; steps; rewrite Hst; steps; rewrite Hst; steps.
  - destruct fuel; [cbn in Hfuel; lia|]. cbn [popargs_loop]. by replace (c <=? 0) with false by lia.
  - by apply (popargs_release_stops c Hc st).
Qed.

(** [Add] does not look at its second operand: with a register there, the
    target is added to itself; with anything else there, the name of the
    target register is what is added, which the [Add] of the tests rejects. *)
Theorem Add_ignores_source fuel s n v a2 :
  m_registers s !! Z.to_nat n = Some v -> 0 <= n < 2 ^ 32 ->
  Execute NDEBUG AddFn fuel (mkI Add (VReg (Reg n)) a2) s =
    (x ← lift (AddFn v (if is_reg a2 then v else VReg (Reg n))); reg_set n x) s /\
  (is_reg a2 = false -> AddFn = test_Add ->
   Execute NDEBUG AddFn fuel (mkI Add (VReg (Reg n)) a2) s = Err (Throw invalid_argument)).
Proof.
  intros Hv Hn.
  assert (Execute NDEBUG AddFn fuel (mkI Add (VReg (Reg n)) a2) s =
    (x ← lift (AddFn v (if is_reg a2 then v else VReg (Reg n))); reg_set n x) s) as E.
  { unfold Execute, exec_add. cbn [type arg1 arg2 is_reg].
    rewrite (st_bind_ok _ _ s tt s) by (by apply st_assert_ok). unfold get_reg. rewrite st_ret_bind.
    rewrite !wrap_small by done.
    assert (reg_get n s = Ok (v, s)) as Hr.
    { unfold reg_get. steps. replace (n <? 0) with false by lia. by rewrite Hv. }
    rewrite (st_bind_ok _ _ _ _ _ Hr). destruct (is_reg a2).
    - rewrite st_bind_assoc, st_ret_bind, wrap_small by done. by rewrite (st_bind_ok _ _ _ _ _ Hr).
    - done. }
  split; [done|]. intros Ha HA. rewrite E, Ha, HA. by destruct v.
Qed.

(** The table of functions: [GetFunction] keeps it sound, answers with
    the same function from then on, creates an empty function of that name
    when the name is new and does not disturb the others; a function added
    with [AddFunction] is what its name gives. *)
Theorem GetFunction_correct s nm :
  table_ok s -> Z.of_nat (length (m_functions s)) < 2 ^ 32 ->
  exists p s' f, GetFunction nm s = Ok (p, s') /\ table_ok s' /\ objs s' !! p = Some f /\ name f = nm /\
    GetFunction nm s' = Ok (p, s') /\
    (m_functionMap s !! nm = None -> instructions f = [] /\ pFnNative f = None) /\
    (forall nm' q, GetFunction nm' s = Ok (q, s) -> GetFunction nm' s' = Ok (q, s')) /\
    (forall q g, objs s !! q = Some g -> q ∉ m_functions s -> m_functionMap s !! nm = None ->
       exists s1, AddFunction NDEBUG nm q s = Ok (tt, s1) /\ table_ok s1 /\ GetFunction nm s1 = Ok (q, s1)).
Proof.
  intros Hok Hlen.
  assert (HA : forall q g, objs s !! q = Some g -> q ∉ m_functions s -> m_functionMap s !! nm = None ->
       exists s1, AddFunction NDEBUG nm q s = Ok (tt, s1) /\ table_ok s1 /\ GetFunction nm s1 = Ok (q, s1)).
  { intros q g Hq Hnq Hnm. eexists. split.
    - unfold AddFunction. rewrite (st_bind_ok _ _ s tt s).
      + steps. rewrite Hq. reflexivity.
      + apply st_assert_ok. intros _. steps. by rewrite bool_decide_true.
    - split.
      + eapply table_ok_push; [done|rewrite list_lookup_alter_eq, Hq; reflexivity|done|done|].
        intros q' g' Hin Hg'. rewrite list_lookup_alter_ne; [done|]. by intros ->.
      + eapply GetFunction_known; cbn; [apply lookup_insert_eq|].
        by rewrite u32_last, Nat2Z.id, lookup_last. }
  destruct (m_functionMap s !! nm) as [k|] eqn:Ek.
  - destruct (Hok _ _ Ek) as (_ & p & f & Hp & Hf & Hn). exists p, s, f.
    pose proof (GetFunction_known _ _ _ _ Ek Hp). by split_and!.
  - eexists (length (objs s)), _, (mkF nm [] [] None). unfold GetFunction at 1. steps. rewrite Ek.
    split_and!; [reflexivity|..|done].
    + eapply table_ok_push; [done|apply lookup_last|done|done|].
      intros q g _ Hg. by apply lookup_app_l_Some.
    + cbn. apply lookup_last.
    + done.
    + eapply GetFunction_known; cbn; [apply lookup_insert_eq|]. by rewrite u32_last, Nat2Z.id, lookup_last.
    + done.
    + intros nm' q. unfold GetFunction. steps. destruct (m_functionMap s !! nm') as [k'|] eqn:Ek'.
      * rewrite lookup_insert_ne, Ek' by congruence. steps. destruct (m_functions s !! Z.to_nat k') as [q'|] eqn:Eq; [|done].
        intros [= ->]. by rewrite (lookup_app_l_Some _ _ _ _ Eq).
      * intros E. injection E as _ E. apply (f_equal (fun s => length (objs s))) in E. cbn in E.
        rewrite length_app in E. cbn in E. lia.
Qed.

End Theory.

(** ** Concrete programs *)

Definition demo_dump (v : TValue) : str := match v with VInt z => to_string z | _ => [] end.

(** [main] is [MOV R0, 6; PUSH R0; POP R1]; [sum] is native; [g] is [MOV R0, 1; RET]. *)
Definition demo_main : VFunction :=
  mkF (lit "main") [] [mkI Mov (VReg R0) (VInt 6); mkI Push (VReg R0) (VInt 0); mkI Pop (VReg R1) (VInt 0)] None.
Definition demo_sum : VFunction :=
  mkF (lit "sum") [] [] (Some (fun regs n => match regs with a :: b :: _ => test_Add a b | _ => Err UB end)).
Definition demo_g : VFunction := mkF (lit "g") [] [mkI Mov (VReg R0) (VInt 1); mkI Ret (VInt 0) (VInt 0)] None.
Definition demo_caller : VFunction :=
  mkF (lit "caller") [] [mkI Call (VString (lit "g")) (VInt 0); mkI Mov (VReg R2) (VInt 2)] None.

Definition demo_vm : vm :=
  mkVM [demo_main; demo_sum; demo_g; demo_caller]
    (<[lit "g" := 2]> (<[lit "sum" := 1]> (<[lit "main" := 0]> ∅))) [0; 1; 2; 3]%nat
    0 [VInt 0; VInt 5] [3%nat] (replicate 8 (VString [])) [] ∅ [].

Lemma Run_straight_correct_witness :
  exists s', Run false test_Add demo_dump 3 0 demo_vm = Ok (tt, s') /\
    (m_stack s', m_registers s') = ([VInt 0; VInt 5], VInt 6 :: VInt 6 :: replicate 6 (VString [])) /\
    m_pc s' = 3 /\ m_callStack s' = [0; 3]%nat.
Proof. exact (Run_straight_correct false test_Add demo_dump demo_vm 0 demo_main eq_refl eq_refl ltac:(cbn; lia)). Defined.

Lemma native_call_correct_witness :
  exec_list false test_Add [mkI Push (VInt 20) (VInt 20); mkI Push (VInt 22) (VInt 22); mkI Push (VInt 2) (VInt 2);
      mkI Call (VString (lit "sum")) (VString (lit "sum"))] demo_vm =
    Ok (tt, with_registers (VInt 42 :: VInt 22 :: replicate 6 (VString [])) demo_vm).
Proof.
  apply (native_call_correct false test_Add demo_vm (lit "sum") 1 1%nat demo_sum
    (fun regs n => match regs with a :: b :: _ => test_Add a b | _ => Err UB end) [VInt 20; VInt 22] (VInt 42));
    try reflexivity; cbn; [lia|done].
Defined.

Lemma call_skips_instructions_witness :
  exists s', run_loop false test_Add demo_dump 2 demo_vm = run_loop false test_Add demo_dump 0 s' /\
    m_pc s' = 2 /\ m_callStack s' = [3%nat] /\ m_registers s' = replicate 8 (VString []) /\
    m_stack s' = [VInt 1].
Proof.
  apply (call_skips_instructions false test_Add demo_dump 0 demo_vm 3 2 [] demo_caller demo_g (lit "g") 2
    (mkI Mov (VReg R0) (VInt 1)) (VInt 0) (VInt 0) [VInt 5]); try reflexivity. cbn. lia.
Defined.

Lemma PopArgs_fails_witness :
  Execute false test_Add 3 (mkI PopArgs (VInt 0) (VInt 0)) (with_stack [VInt 1; VInt 7] demo_vm) = Err AssertFail /\
  Execute true test_Add 3 (mkI PopArgs (VInt 0) (VInt 0)) (with_stack [VInt 1; VInt 7] demo_vm) = Err UB.
Proof. apply (PopArgs_fails test_Add 1 [VInt 7]); [reflexivity|lia|done|cbn; lia]. Defined.

Lemma Add_ignores_source_witness :
  Execute false test_Add 0 (mkI Add (VReg R0) (VReg R1)) (with_registers [VInt 3; VInt 4] demo_vm) =
    (x ← lift (test_Add (VInt 3) (VInt 3)); reg_set 0 x) (with_registers [VInt 3; VInt 4] demo_vm).
Proof.
  exact (proj1 (Add_ignores_source false test_Add 0 (with_registers [VInt 3; VInt 4] demo_vm) 0 (VInt 3) (VReg R1)
    eq_refl ltac:(lia))).
Defined.

Lemma demo_table_ok : table_ok demo_vm.
Proof.
  intros nm i Hi. cbn in Hi. rewrite !lookup_insert in Hi. repeat case_decide; simplify_eq; try done;
    (split; [lia|]); eexists _, _; split_and!; reflexivity.
Qed.

Lemma GetFunction_correct_witness :
  exists p s' f, GetFunction (lit "h") demo_vm = Ok (p, s') /\ table_ok s' /\ objs s' !! p = Some f /\
    name f = lit "h" /\ GetFunction (lit "h") s' = Ok (p, s').
Proof.
  destruct (GetFunction_correct false demo_vm (lit "h") demo_table_ok ltac:(cbn; lia))
    as (p & s' & f & H1 & H2 & H3 & H4 & H5 & _).
  exists p, s', f. split_and!; assumption.
Defined.
