(* ===== verification/Profiler.v ===== *)
(** * The profiler

    The recording side of src/time/profiler.cpp: sections, frames, regions
    and threads, the pause protocol and the two computations of the viewer
    that decide what is visible. The globals of the file are the fields of
    [globals]; the thread-local variables are kept per thread id in [tls].
    One call is one step (the source takes a mutex only for the thread table).

    The clock reading of a call is its argument [now], in nanoseconds; the
    text of a duration comes from a formatting library and is the parameter
    [fmt_ms]. The globals that only the window uses are in [Candles] and
    [Viewer], with what it draws. *)

From S2P Require Import Prelude StdString.

(** ** Data *)

Record ProfilerEntry : Type := mkEntry {
  szSection : option str;
  szFile : option str;
  line : Z;
  color : Z;
  level : Z;
  startTime : Z;
  endTime : Z;
  parent : Z }.

(** What [memset] leaves. *)
Definition zero_entry : ProfilerEntry := mkEntry None None 0 0 0 0 0 0.

Record FrameThreadInfo : Type := mkInfo { threadIndex : Z; activeEntry : Z }.

Record Region : Type := mkRegion { r_name : str; r_startTime : Z; r_endTime : Z }.

(** [Frame] derives from [Region]. *)
Record Frame : Type := mkFrame {
  f_base : Region;
  frameThreadCount : Z;
  frameThreads : list FrameThreadInfo }.

Record ThreadData : Type := mkThread {
  initialized : bool;
  callStackDepth : Z;
  maxLevel : Z;
  minTime : Z;
  maxTime : Z;
  currentEntry : Z;
  hidden : bool;
  t_name : str;
  entries : list ProfilerEntry;
  entryStack : list Z }.

Record ProfileSettings : Type := mkSettings {
  MaxThreads : nat;
  MaxCallStack : Z;
  MaxEntriesPerThread : nat;
  MaxFrames : nat;
  MaxRegions : nat }.

Definition default_settings : ProfileSettings := mkSettings 120 20 (Z.to_nat 100000) (Z.to_nat 10000) (Z.to_nat 10000).

Record globals : Type := mkG {
  settings : ProfileSettings;
  gTimer : Z;
  gPaused : bool;
  gRequestPause : bool;
  gRestarting : bool;
  gProfilerGeneration : Z;
  tls : gmap nat (Z * Z);
  gThreadData : list ThreadData;
  gFrameData : list Frame;
  gRegionData : list Region;
  gMaxFrameTime : Z;
  gCurrentFrame : Z;
  gCurrentRegion : Z;
  gRegionTimeLimit : Z;
  gRegionDisplayStart : Z;
  gFrameDisplayStart : Z;
  gTimeRange : Z * Z;
  gVisibleFrames : Z * Z }.

Definition int64_max : Z := 2 ^ 63 - 1.
Definition no_parent : Z := 0xFFFFFFFF.

(** The state a program starts in. *)
Definition start_globals : globals :=
  mkG default_settings 0 true false true 0 ∅ [] [] [] 20000000 0 0 0 0 0 (0, 0) (0, 0).

(** [gThreadIndexTLS] and [gGenerationTLS] of a thread: -1 and (uint64_t)-1 at first. *)
Definition tls_of (g : globals) (t : nat) : Z * Z := default (-1, 2 ^ 64 - 1) (tls g !! t).

Definition set_settings s g := mkG s (gTimer g) (gPaused g) (gRequestPause g) (gRestarting g) (gProfilerGeneration g) (tls g) (gThreadData g) (gFrameData g) (gRegionData g) (gMaxFrameTime g) (gCurrentFrame g) (gCurrentRegion g) (gRegionTimeLimit g) (gRegionDisplayStart g) (gFrameDisplayStart g) (gTimeRange g) (gVisibleFrames g).
Definition set_pause p r g := mkG (settings g) (gTimer g) p r (gRestarting g) (gProfilerGeneration g) (tls g) (gThreadData g) (gFrameData g) (gRegionData g) (gMaxFrameTime g) (gCurrentFrame g) (gCurrentRegion g) (gRegionTimeLimit g) (gRegionDisplayStart g) (gFrameDisplayStart g) (gTimeRange g) (gVisibleFrames g).
Definition set_restarting b g := mkG (settings g) (gTimer g) (gPaused g) (gRequestPause g) b (gProfilerGeneration g) (tls g) (gThreadData g) (gFrameData g) (gRegionData g) (gMaxFrameTime g) (gCurrentFrame g) (gCurrentRegion g) (gRegionTimeLimit g) (gRegionDisplayStart g) (gFrameDisplayStart g) (gTimeRange g) (gVisibleFrames g).
Definition set_tls m g := mkG (settings g) (gTimer g) (gPaused g) (gRequestPause g) (gRestarting g) (gProfilerGeneration g) m (gThreadData g) (gFrameData g) (gRegionData g) (gMaxFrameTime g) (gCurrentFrame g) (gCurrentRegion g) (gRegionTimeLimit g) (gRegionDisplayStart g) (gFrameDisplayStart g) (gTimeRange g) (gVisibleFrames g).
Definition set_threads l g := mkG (settings g) (gTimer g) (gPaused g) (gRequestPause g) (gRestarting g) (gProfilerGeneration g) (tls g) l (gFrameData g) (gRegionData g) (gMaxFrameTime g) (gCurrentFrame g) (gCurrentRegion g) (gRegionTimeLimit g) (gRegionDisplayStart g) (gFrameDisplayStart g) (gTimeRange g) (gVisibleFrames g).
Definition set_frames l c g := mkG (settings g) (gTimer g) (gPaused g) (gRequestPause g) (gRestarting g) (gProfilerGeneration g) (tls g) (gThreadData g) l (gRegionData g) (gMaxFrameTime g) c (gCurrentRegion g) (gRegionTimeLimit g) (gRegionDisplayStart g) (gFrameDisplayStart g) (gTimeRange g) (gVisibleFrames g).
Definition set_regions l c g := mkG (settings g) (gTimer g) (gPaused g) (gRequestPause g) (gRestarting g) (gProfilerGeneration g) (tls g) (gThreadData g) (gFrameData g) l (gMaxFrameTime g) (gCurrentFrame g) c (gRegionTimeLimit g) (gRegionDisplayStart g) (gFrameDisplayStart g) (gTimeRange g) (gVisibleFrames g).
Definition set_limit z g := mkG (settings g) (gTimer g) (gPaused g) (gRequestPause g) (gRestarting g) (gProfilerGeneration g) (tls g) (gThreadData g) (gFrameData g) (gRegionData g) (gMaxFrameTime g) (gCurrentFrame g) (gCurrentRegion g) z (gRegionDisplayStart g) (gFrameDisplayStart g) (gTimeRange g) (gVisibleFrames g).
Definition set_view r v g := mkG (settings g) (gTimer g) (gPaused g) (gRequestPause g) (gRestarting g) (gProfilerGeneration g) (tls g) (gThreadData g) (gFrameData g) (gRegionData g) (gMaxFrameTime g) (gCurrentFrame g) (gCurrentRegion g) (gRegionTimeLimit g) (gRegionDisplayStart g) (gFrameDisplayStart g) r v.

(** [std::vector::resize] *)
Definition resize_to {A} (n : nat) (x : A) (l : list A) : list A := take n l ++ replicate (n - length l) x.

(** A thread slot after the loop of [Init]. *)
Definition init_slot (s : ProfileSettings) (iZero : nat) (td : ThreadData) : ThreadData :=
  mkThread (Nat.eqb iZero 0) 0 0 int64_max 0 0 (hidden td) (lit "Thread " ++ to_string (Z.of_nat iZero))
    (replicate (MaxEntriesPerThread s) zero_entry) (resize_to 50 0 (entryStack td)).

Definition blank_thread : ThreadData := mkThread false 0 0 0 0 0 false [] [] [].
Definition blank_frame : Frame := mkFrame (mkRegion [] 0 0) 0 [].

Definition init_frame (s : ProfileSettings) (f : Frame) : Frame :=
  mkFrame (f_base f) 0 (replicate (MaxThreads s) (mkInfo 0 0)).

Section Code.
Context (NDEBUG : bool) (fmt_ms : Z -> str).
Abbreviation M := (ST globals).

Definition modify (f : globals -> globals) : M unit := g ← st_get; st_put (f g).

(** [timer_get_elapsed(gTimer)], stored in an [int64_t]. *)
Definition elapsed (g : globals) (now : Z) : Z := i64 (u64 (now - gTimer g)).

(** ** Vector elements *)

Definition vget {A} (l : list A) (i : Z) : option A := if i <? 0 then None else l !! Z.to_nat i.

Definition get_thread (i : Z) : M ThreadData := g ← st_get; st_some (vget (gThreadData g) i).
Definition set_thread (i : Z) (td : ThreadData) : M unit :=
  g ← st_get; st_some (vget (gThreadData g) i);;
  st_put (set_threads (<[Z.to_nat i := td]> (gThreadData g)) g).
Definition get_frame (i : Z) : M Frame := g ← st_get; st_some (vget (gFrameData g) i).
Definition set_frame (i : Z) (f : Frame) : M unit :=
  g ← st_get; st_some (vget (gFrameData g) i);;
  st_put (set_frames (<[Z.to_nat i := f]> (gFrameData g)) (gCurrentFrame g) g).
Definition get_region (i : Z) : M Region := g ← st_get; st_some (vget (gRegionData g) i).
Definition set_region (i : Z) (r : Region) : M unit :=
  g ← st_get; st_some (vget (gRegionData g) i);;
  st_put (set_regions (<[Z.to_nat i := r]> (gRegionData g)) (gCurrentRegion g) g).

(** ** Start and end *)

Definition Init (t : nat) (now : Z) : M unit :=
  g ← st_get;
  let s := settings g in
  let threads := imap (init_slot s) (resize_to (MaxThreads s) blank_thread (gThreadData g)) in
  st_some (threads !! 0%nat);;
  st_put (mkG s now false (gRequestPause g) true (u64 (gProfilerGeneration g + 1))
    (<[t := (0, 0)]> (tls g)) threads
    (map (init_frame s) (resize_to (MaxFrames s) blank_frame (gFrameData g)))
    (resize_to (MaxRegions s) (mkRegion [] 0 0) (gRegionData g))
    30000000 0 0 (gRegionTimeLimit g) 0 0 (gTimeRange g) (0, 0)).

Definition Reset (t : nat) (now : Z) : M unit :=
  modify (fun g => set_tls (<[t := (-1, (tls_of g t).2)]> (tls g)) g);;
  Init t now.

Definition SetProfileSettings (t : nat) (now : Z) (s : ProfileSettings) : M unit :=
  modify (set_settings s);; Reset t now.

Definition set_initialized (b : bool) (ce : Z) (td : ThreadData) : ThreadData :=
  mkThread b (callStackDepth td) (maxLevel td) (minTime td) (maxTime td) ce (hidden td) (t_name td)
    (entries td) (entryStack td).

(** The loop of [InitThread] from slot [i], [n] slots to go. *)
Fixpoint init_thread_loop (n : nat) (t : nat) (i : Z) : M unit :=
  match n with
  | O => st_assert NDEBUG (mret false)
  | S n =>
      td ← get_thread i;
      if negb (initialized td) then
        modify (fun g => set_tls (<[t := (i, gProfilerGeneration g)]> (tls g)) g);;
        set_thread i (set_initialized true 0 td)
      else init_thread_loop n t (i + 1)
  end.

Definition InitThread (t : nat) : M unit := g ← st_get; init_thread_loop (MaxThreads (settings g)) t 0.

Definition FinishThread (t : nat) : M unit :=
  g ← st_get;
  let i := (tls_of g t).1 in
  st_assert NDEBUG (mret (-1 <? i));;
  td ← get_thread i;
  set_thread i (set_initialized false (currentEntry td) td);;
  modify (fun g => set_tls (<[t := (-1, (tls_of g t).2)]> (tls g)) g).

Definition Finish : M unit := modify (set_threads []).

Definition SetPaused (pause : bool) : M unit :=
  modify (fun g => if negb (Bool.eqb (gPaused g) pause) then set_pause (gPaused g) pause g else g).

(** Returns the index of the calling thread's slot. *)
Definition GetThreadData (t : nat) : M Z :=
  modify (fun g => if (tls_of g t).2 =? gProfilerGeneration g then g
                   else set_tls (<[t := (-1, (tls_of g t).2)]> (tls g)) g);;
  g ← st_get;
  (if (tls_of g t).1 =? -1 then InitThread t else mret tt);;
  g ← st_get;
  let i := (tls_of g t).1 in
  get_thread i;;
  mret i.

Definition HideThread (t : nat) : M unit :=
  g ← st_get;
  if gPaused g then mret tt
  else
    i ← GetThreadData t; td ← get_thread i;
    set_thread i (mkThread (initialized td) (callStackDepth td) (maxLevel td) (minTime td) (maxTime td)
      (currentEntry td) true (t_name td) (entries td) (entryStack td)).

Definition NameThread (t : nat) (pszName : str) : M unit :=
  g ← st_get;
  if gPaused g then mret tt
  else
    i ← GetThreadData t; td ← get_thread i;
    set_thread i (mkThread (initialized td) (callStackDepth td) (maxLevel td) (minTime td) (maxTime td)
      (currentEntry td) (hidden td) pszName (entries td) (entryStack td)).

(** [CheckEndState]: pause when one of the stores is full. *)
Definition CheckEndState (t : nat) : M bool :=
  g ← st_get;
  td ← get_thread (tls_of g t).1;
  let s := settings g in
  (if Z.of_nat (MaxEntriesPerThread s) <=? currentEntry td then modify (set_pause true true) else mret tt);;
  (if Z.of_nat (MaxFrames s) <=? gCurrentFrame g then modify (set_pause true true) else mret tt);;
  (if Z.of_nat (MaxRegions s) <=? gCurrentRegion g then modify (set_pause true true) else mret tt);;
  g ← st_get;
  mret (gPaused g).

(** ** Sections *)

(** The slot after the writes of [PushSectionBase]. *)
Definition pushed (td : ThreadData) (e : ProfilerEntry) (start : Z) : ThreadData :=
  let depth := u32 (callStackDepth td + 1) in
  mkThread (initialized td) depth (Z.max (maxLevel td) depth) (Z.min start (minTime td))
    (Z.max start (maxTime td)) (u32 (currentEntry td + 1)) (hidden td) (t_name td)
    (<[Z.to_nat (currentEntry td) := e]> (entries td))
    (<[Z.to_nat (callStackDepth td) := currentEntry td]> (entryStack td)).

(** "Add this thread to the current frame info" *)
Definition add_frame_thread (fi : Z) (info : FrameThreadInfo) : M unit :=
  f ← get_frame fi;
  st_some (vget (frameThreads f) (frameThreadCount f));;
  set_frame fi (mkFrame (f_base f) (u32 (frameThreadCount f + 1))
    (<[Z.to_nat (frameThreadCount f) := info]> (frameThreads f))).

Definition PushSectionBase (t : nat) (now : Z) (section file : option str) (col ln : Z) : M unit :=
  g ← st_get;
  if gPaused g then mret tt
  else
    i ← GetThreadData t;
    stop_ ← CheckEndState t;
    if (stop_ : bool) then mret tt
    else
      td ← get_thread i;
      g ← st_get;
      st_assert NDEBUG (mret (callStackDepth td <? MaxCallStack (settings g)));;
      if gPaused g then mret tt
      else
        st_some (vget (entries td) (currentEntry td));;
        st_some (vget (entryStack td) (callStackDepth td));;
        par ← (if 0 <? callStackDepth td then
                 p ← st_some (vget (<[Z.to_nat (callStackDepth td) := currentEntry td]> (entryStack td))
                                   (callStackDepth td - 1));
                 st_assert NDEBUG (mret (p <? currentEntry td));; mret p
               else mret no_parent);
        st_assert NDEBUG (mret (match file with None => false | _ => true end));;
        st_assert NDEBUG (mret (match section with None => false | _ => true end));;
        let start := elapsed g now in
        let td := pushed td (mkEntry section file ln col (i32 (callStackDepth td)) start int64_max par) start in
        set_thread i td;;
        (if (currentEntry td =? 1) && (0 <? gCurrentFrame g) then
           add_frame_thread (gCurrentFrame g - 1) (mkInfo (u32 (tls_of g t).1) (u32 (currentEntry td - 1)))
         else mret tt);;
        modify (set_restarting false).

Definition PopSection (t : nat) (now : Z) : M unit :=
  g ← st_get;
  if gPaused g then mret tt
  else
    i ← GetThreadData t;
    stop_ ← CheckEndState t;
    if (stop_ : bool) then mret tt
    else
      g ← st_get;
      if gRestarting g || gPaused g then mret tt
      else
        td ← get_thread i;
        if callStackDepth td <=? 0 then mret tt
        else
          let depth := callStackDepth td - 1 in
          entryIndex ← st_some (vget (entryStack td) depth);
          let entryIndex := i32 entryIndex in
          e ← st_some (vget (entries td) entryIndex);
          st_assert NDEBUG (mret (match szSection e with None => false | _ => true end));;
          let end_ := elapsed g now in
          set_thread i (mkThread (initialized td) depth (maxLevel td) (minTime td) (Z.max end_ (maxTime td))
            (currentEntry td) (hidden td) (t_name td)
            (<[Z.to_nat entryIndex := mkEntry (szSection e) (szFile e) (line e) (color e) (level e)
                 (startTime e) end_ (parent e)]> (entries td)) (entryStack td)).

(** ** Regions and frames *)

Definition SetRegionLimit (maxTimeNs : Z) : M unit := modify (set_limit (i64 maxTimeNs)).

Definition BeginRegion (t : nat) (now : Z) : M unit :=
  g ← st_get;
  if gPaused g then mret tt
  else
    GetThreadData t;;
    stop_ ← CheckEndState t;
    if (stop_ : bool) then mret tt
    else
      g ← st_get;
      r ← get_region (gCurrentRegion g);
      set_region (gCurrentRegion g) (mkRegion (r_name r) (elapsed g now) (r_endTime r)).

Definition EndRegion (t : nat) (now : Z) : M unit :=
  g ← st_get;
  if gPaused g then mret tt
  else
    GetThreadData t;;
    stop_ ← CheckEndState t;
    if (stop_ : bool) then mret tt
    else
      g ← st_get;
      r ← get_region (gCurrentRegion g);
      let end_ := elapsed g now in
      set_region (gCurrentRegion g) (mkRegion (fmt_ms (end_ - r_startTime r)) (r_startTime r) end_);;
      modify (fun g => set_regions (gRegionData g) (u32 (gCurrentRegion g + 1)) g).

(** The loop of [NewFrame] from thread [ti], [n] threads to go. *)
Fixpoint new_frame_loop (n : nat) (fi ti : Z) : M unit :=
  match n with
  | O => mret tt
  | S n =>
      thread ← get_thread ti;
      (if initialized thread && (0 <? currentEntry thread) then
         add_frame_thread fi (mkInfo ti (u32 (currentEntry thread - 1)))
       else mret tt);;
      new_frame_loop n fi (ti + 1)
  end.

Definition NewFrame (t : nat) (now : Z) : M unit :=
  g ← st_get;
  if gPaused g then mret tt
  else
    stop_ ← CheckEndState t;
    if (stop_ : bool) then mret tt
    else
      g ← st_get;
      let fi := gCurrentFrame g in
      get_frame fi;;
      new_frame_loop (MaxThreads (settings g)) fi 0;;
      frame ← get_frame fi;
      let start := elapsed g now in
      set_frame fi (mkFrame (mkRegion (r_name (f_base frame)) start (r_endTime (f_base frame)))
        (frameThreadCount frame) (frameThreads frame));;
      (if 0 <? fi then
         prev ← get_frame (fi - 1);
         set_frame (fi - 1) (mkFrame (mkRegion (fmt_ms (start - r_startTime (f_base prev)))
             (r_startTime (f_base prev)) start) (frameThreadCount prev) (frameThreads prev))
       else mret tt);;
      modify (fun g => set_frames (gFrameData g) (u32 (gCurrentFrame g + 1)) g).

(** ** The viewer *)

(** The pause protocol at the top of [ShowProfile]; [pressed] is the button. *)
Definition ShowProfile_pause (t : nat) (now : Z) (pressed : bool) : M unit :=
  g ← st_get;
  let changed := negb (Bool.eqb (gPaused g) (gRequestPause g)) || pressed in
  let pause := if pressed then negb (gRequestPause g) else gRequestPause g in
  if changed then
    (if negb pause then Reset t now else mret tt);;
    modify (set_pause pause pause)
  else mret tt.

(** [std::clamp]; an empty range is undefined. *)
Definition clamp (v lo hi : Z) : M Z :=
  if hi <? lo then st_fail UB else mret (if v <? lo then lo else if hi <? v then hi else v).

(** The four loops of [UpdateVisibleFrameRange]. *)
Fixpoint frame_up (fuel : nat) (limit t y : Z) : M Z :=
  if y <? limit then
    f ← get_frame y;
    if r_endTime (f_base f) <? t then
      match fuel with O => st_fail OutOfFuel | S fuel => frame_up fuel limit t (y + 1) end
    else mret y
  else mret y.

Fixpoint frame_down (fuel : nat) (limit t y : Z) : M Z :=
  if limit <? y then
    f ← get_frame y;
    if t <? r_startTime (f_base f) then
      match fuel with O => st_fail OutOfFuel | S fuel => frame_down fuel limit t (y - 1) end
    else mret y
  else mret y.

Definition UpdateVisibleFrameRange (fuel : nat) : M unit :=
  modify (fun g => if gCurrentFrame g <? 2 then set_view (gTimeRange g) (0, 0) g else g);;
  g ← st_get;
  let limit_x := 0 in
  let limit_y := i32 (u32 (gCurrentFrame g - 2)) in
  x ← clamp (gVisibleFrames g).1 0 limit_x;
  y ← clamp (gVisibleFrames g).2 0 limit_y;
  y ← frame_up fuel limit_y (gTimeRange g).2 y;
  y ← frame_down fuel limit_x (gTimeRange g).2 y;
  x ← frame_up fuel limit_y (gTimeRange g).1 x;
  x ← frame_down fuel limit_x (gTimeRange g).1 x;
  modify (fun g => set_view (gTimeRange g) (x, y + 1) g).

(** The lambda [setTimeRange] of [ShowProfile], as far as [gTimeRange]; the
    length of the range is [visibleDuration]. Times are [int64_t]: a sum or a
    difference that does not fit is undefined. *)
Definition setTimeRange (minT maxT : Z) (range : Z * Z) : M unit :=
  let '(x, y) := range in
  st_assert NDEBUG (mret (x <=? y));;
  short ← (if y <? x then mret true else length ← st_lift (s_check 64 (y - x)); mret (length <? 1000));
  '(x, y) ← (if short : bool then
               last ← st_lift (s_check 64 (maxT - 1000));
               x ← clamp x minT last;
               y ← st_lift (s_check 64 (x + 1000)); mret (x, y)
             else mret (x, y));
  '(x, y) ← (if x <? minT then
               diff ← st_lift (s_check 64 (minT - x));
               x ← st_lift (s_check 64 (x + diff)); y ← st_lift (s_check 64 (y + diff)); mret (x, y)
             else if maxT <? y then
               diff ← st_lift (s_check 64 (y - maxT));
               y ← st_lift (s_check 64 (y - diff)); x ← st_lift (s_check 64 (x - diff)); mret (x, y)
             else mret (x, y));
  x ← clamp x minT maxT;
  y ← clamp y minT maxT;
  visibleDuration ← st_lift (s_check 64 (y - x));
  st_assert NDEBUG (mret (1000 <=? visibleDuration));;
  modify (fun g => set_view (x, y) (gVisibleFrames g) g).

(** "Walk up the stack to find the outer parent" *)
Fixpoint outer_parent (fuel : nat) (es : list ProfilerEntry) (e : Z) : result stop Z :=
  match vget es e with
  | None => Err UB
  | Some en =>
      if parent en =? no_parent then Ok e
      else match fuel with O => Err OutOfFuel | S fuel => outer_parent fuel es (parent en) end
  end.

(** "Step back to find entries that began before the frame" *)
Fixpoint step_back (fuel : nat) (es : list ProfilerEntry) (frameStart e : Z) : result stop Z :=
  if 0 <? e then
    match vget es e with
    | None => Err UB
    | Some en =>
        if frameStart <? endTime en then
          match fuel with O => Err OutOfFuel | S fuel => step_back fuel es frameStart (e - 1) end
        else Ok e
    end
  else Ok e.

(** The entries that are passed to [showEntry], in order. *)
Fixpoint shown_entries (fuel : nat) (td : ThreadData) (frameEnd e : Z) : result stop (list Z) :=
  if e <? u32 (currentEntry td - 1) then
    match vget (entries td) e with
    | None => Err UB
    | Some en =>
        if startTime en <? frameEnd then
          match fuel with
          | O => Err OutOfFuel
          | S fuel => l ← shown_entries fuel td frameEnd (e + 1); mret (e :: l)
          end
        else Ok []
    end
  else Ok [].

Definition frame_entries (fuel : nat) (td : ThreadData) (f : Frame) (active : Z) : result stop (list Z) :=
  e ← outer_parent fuel (entries td) active;
  e ← step_back fuel (entries td) (r_startTime (f_base f)) e;
  shown_entries fuel td (r_endTime (f_base f)) e.

End Code.
