(* ===== verification/ProfilerTheory.v ===== *)
(** * Theory of the profiler

    An invariant of the profiler's globals, kept by every call of the
    recording interface in a debug build whatever the interleaving of
    threads, with no access out of bounds; and the search for the visible
    frames. *)

From S2P Require Import Prelude StdString Profiler.

(** ** Safety triples: from [P], the code ends in [Q] or fails an assertion *)

Definition triple {A} (P : globals -> Prop) (c : ST globals A) (Q : A -> globals -> Prop) : Prop :=
  forall g, P g -> match c g with Ok (a, g') => Q a g' | Err e => e = AssertFail end.

Lemma triple_bind {A B} P (c : ST globals A) (f : A -> ST globals B) R Q :
  triple P c R -> (forall a, triple (R a) (f a) Q) -> triple P (c ≫= f) Q.
Proof.
  intros Hc Hf g Hg. specialize (Hc g Hg). unfold mbind, ST_bind.
  destruct (c g) as [[a g']|e]; [by apply Hf|done].
Qed.

Lemma triple_ret {A} (P : globals -> Prop) (a : A) Q : (forall g, P g -> Q a g) -> triple P (mret a) Q.
Proof. intros H g Hg. by apply H. Qed.

Lemma triple_get P {B} (f : globals -> ST globals B) Q :
  (forall g0, triple (fun g => P g /\ g = g0) (f g0) Q) -> triple P (st_get ≫= f) Q.
Proof. intros H g Hg. by apply (H g). Qed.

Lemma triple_assert P b (f : unit -> ST globals unit) Q :
  (b = true -> triple P (f tt) Q) -> triple P (st_assert false (mret b) ≫= f) Q.
Proof. intros H g Hg. destruct b; [by apply H|done]. Qed.

Lemma triple_pre {A} (P P' : globals -> Prop) (c : ST globals A) Q :
  (forall g, P g -> P' g) -> triple P' c Q -> triple P c Q.
Proof. intros Hp Hc g Hg. by apply Hc, Hp. Qed.

(** [vget] *)

Lemma vget_Some {A} (l : list A) i x : vget l i = Some x <-> 0 <= i /\ l !! Z.to_nat i = Some x.
Proof. unfold vget. destruct (Z.ltb_spec i 0); split; try done; try lia; naive_solver lia. Qed.

Lemma vget_lt {A} (l : list A) i x : vget l i = Some x -> 0 <= i < Z.of_nat (length l).
Proof. intros [Hi E]%vget_Some. apply lookup_lt_Some in E. lia. Qed.

Lemma vget_is_Some {A} (l : list A) i : 0 <= i < Z.of_nat (length l) -> exists x, vget l i = Some x.
Proof.
  intros Hi. destruct (lookup_lt_is_Some_2 l (Z.to_nat i)) as [x E]; [lia|]. exists x. apply vget_Some. split; [lia|done].
Qed.

Lemma vget_insert {A} (l : list A) i j y :
  0 <= i < Z.of_nat (length l) ->
  vget (<[Z.to_nat i := y]> l) j = if decide (i = j) then Some y else vget l j.
Proof.
  intros Hi. unfold vget. destruct (Z.ltb_spec j 0) as [Hj|Hj].
  - rewrite decide_False by lia. done.
  - case_decide as E.
    + subst. rewrite list_lookup_insert_eq; [done|lia].
    + rewrite list_lookup_insert_ne; [done|lia].
Qed.

(** ** The invariant *)

Record settings_ok (s : ProfileSettings) : Prop := {
  so_threads : (0 < MaxThreads s)%nat /\ Z.of_nat (MaxThreads s) < 2 ^ 31;
  so_stack : 0 <= MaxCallStack s <= 50;
  so_entries : Z.of_nat (MaxEntriesPerThread s) < 2 ^ 31;
  so_frames : Z.of_nat (MaxFrames s) < 2 ^ 31;
  so_regions : Z.of_nat (MaxRegions s) < 2 ^ 31 }.

(** An entry has its texts, and no parent, at level 0, or an earlier one, one level up. *)
Definition entry_ok (es : list ProfilerEntry) (e : Z) (en : ProfilerEntry) : Prop :=
  (szSection en <> None /\ szFile en <> None) /\
  (parent en = no_parent /\ level en = 0 \/
   0 <= parent en < e /\ exists pe, vget es (parent en) = Some pe /\ level en = level pe + 1).

(** The open sections: one per level, each an entry that has been written. *)
Definition stack_ok (td : ThreadData) : Prop :=
  forall k, 0 <= k < callStackDepth td -> exists e en,
    vget (entryStack td) k = Some e /\ 0 <= e < currentEntry td /\
    vget (entries td) e = Some en /\ level en = k.

Record slot_ok (s : ProfileSettings) (td : ThreadData) : Prop := {
  sl_entries : length (entries td) = MaxEntriesPerThread s;
  sl_stack : length (entryStack td) = 50%nat;
  sl_current : 0 <= currentEntry td <= Z.of_nat (MaxEntriesPerThread s);
  sl_depth : 0 <= callStackDepth td <= MaxCallStack s;
  sl_unused : initialized td = false -> currentEntry td = 0;
  sl_entry e en : 0 <= e < currentEntry td -> vget (entries td) e = Some en -> entry_ok (entries td) e en;
  sl_open : stack_ok td }.

(** The threads that a frame lists. *)
Definition frame_infos (f : Frame) : list FrameThreadInfo := take (Z.to_nat (frameThreadCount f)) (frameThreads f).

(** The threads of a frame are different, and each had recorded its active entry. *)
Record frame_ok (s : ProfileSettings) (threads : list ThreadData) (f : Frame) : Prop := {
  fr_size : length (frameThreads f) = MaxThreads s;
  fr_count : 0 <= frameThreadCount f <= Z.of_nat (MaxThreads s);
  fr_nodup : NoDup (map threadIndex (take (Z.to_nat (frameThreadCount f)) (frameThreads f)));
  fr_info info : info ∈ take (Z.to_nat (frameThreadCount f)) (frameThreads f) ->
    exists td, vget threads (threadIndex info) = Some td /\ 0 <= activeEntry info < currentEntry td }.

(** [c]: the frames from [c] on have no threads yet. *)
Record inv_from (c : Z) (g : globals) : Prop := {
  in_settings : settings_ok (settings g);
  in_threads : length (gThreadData g) = MaxThreads (settings g);
  in_slot i td : vget (gThreadData g) i = Some td -> slot_ok (settings g) td;
  in_frames : length (gFrameData g) = MaxFrames (settings g);
  in_frame i f : vget (gFrameData g) i = Some f ->
    frame_ok (settings g) (gThreadData g) f /\ (c <= i -> frameThreadCount f = 0);
  in_frame_no : 0 <= gCurrentFrame g <= Z.of_nat (MaxFrames (settings g));
  in_regions : length (gRegionData g) = MaxRegions (settings g);
  in_region_no : 0 <= gCurrentRegion g <= Z.of_nat (MaxRegions (settings g));
  in_generation : 0 < gProfilerGeneration g < 2 ^ 64 - 1;
  in_tls t : -1 <= (tls_of g t).1 /\
    ((tls_of g t).2 = 2 ^ 64 - 1 \/ (tls_of g t).2 <= gProfilerGeneration g);
  in_owner t : (tls_of g t).2 = gProfilerGeneration g -> (tls_of g t).1 <> -1 ->
    exists td, vget (gThreadData g) (tls_of g t).1 = Some td /\ initialized td = true;
  in_unique t t' : (tls_of g t).2 = gProfilerGeneration g -> (tls_of g t').2 = gProfilerGeneration g ->
    (tls_of g t).1 = (tls_of g t').1 -> (tls_of g t).1 <> -1 -> t = t' }.

(** The invariant: buffers have their sizes, every thread's entries form a
    forest with its open sections on its stack, frames list different
    threads, and no two threads write to the same slot. *)
Definition prof_inv (g : globals) : Prop := inv_from (gCurrentFrame g) g.

Lemma tls_of_insert g t p t' :
  tls_of (set_tls (<[t := p]> (tls g)) g) t' = if decide (t = t') then p else tls_of g t'.
Proof. unfold tls_of. cbn. rewrite lookup_insert. by case_decide. Qed.

(** Writing a slot. *)
Lemma inv_set_slot c g i td td' :
  inv_from c g -> vget (gThreadData g) i = Some td -> slot_ok (settings g) td' ->
  (initialized td = true -> initialized td' = true) -> currentEntry td <= currentEntry td' ->
  inv_from c (set_threads (<[Z.to_nat i := td']> (gThreadData g)) g).
Proof.
  intros Hi Htd Hok Hinit Hcur. pose proof (vget_lt _ _ _ Htd) as Hlt.
  assert (Hsome : forall j t, vget (gThreadData g) j = Some t -> exists t',
    vget (<[Z.to_nat i := td']> (gThreadData g)) j = Some t' /\ currentEntry t <= currentEntry t' /\
    (initialized t = true -> initialized t' = true)).
  { intros j t Hj. rewrite vget_insert by done. case_decide; subst; [|by exists t].
    exists td'. rewrite Htd in Hj. by injection Hj as <-. }
  destruct Hi. split; cbn; try done.
  - by rewrite length_insert.
  - intros j t. rewrite vget_insert by done. case_decide; [by intros [= <-]|apply in_slot0].
  - intros j f Hf. destruct (in_frame0 j f Hf) as [[] Hc]. split; [|done]. split; try done.
    intros info Hinfo. destruct (fr_info0 _ Hinfo) as (t & Ht & Ha).
    destruct (Hsome _ _ Ht) as (t' & Ht' & Hle & _). exists t'. split; [done|lia].
  - intros t Hg Hn. destruct (in_owner0 t Hg Hn) as (x & Hx & Hxi).
    destruct (Hsome _ _ Hx) as (x' & Hx' & _ & Hb). exists x'. auto.
Qed.

(** Taking a slot. *)
Lemma slot_take s td : slot_ok s td -> initialized td = false -> slot_ok s (set_initialized true 0 td).
Proof.
  intros [] Hu. pose proof (sl_unused0 Hu) as H0. split; cbn; try done; [lia|lia|].
  intros k Hk. destruct (sl_open0 k Hk) as (e & en & _ & He & _). lia.
Qed.

Lemma get_thread_ok g i td : vget (gThreadData g) i = Some td -> get_thread i g = Ok (td, g).
Proof. intros E. unfold get_thread, st_get, st_some. unfold mbind, ST_bind. by rewrite E. Qed.

Lemma set_thread_ok g i td td' :
  vget (gThreadData g) i = Some td ->
  set_thread i td' g = Ok (tt, set_threads (<[Z.to_nat i := td']> (gThreadData g)) g).
Proof. intros E. unfold set_thread, st_get, st_some, st_put. unfold mbind, ST_bind. by rewrite E. Qed.

(** What the calls below keep of the rest of the state. *)
Definition same_rest (g g' : globals) : Prop :=
  settings g' = settings g /\ gPaused g' = gPaused g /\ gCurrentFrame g' = gCurrentFrame g /\
  gCurrentRegion g' = gCurrentRegion g /\ gTimer g' = gTimer g.

(** Thread [t] owns slot [i] of [g]. *)
Definition owns (g : globals) (t : nat) (i : Z) : Prop :=
  tls_of g t = (i, gProfilerGeneration g) /\
  exists td, vget (gThreadData g) i = Some td /\ initialized td = true.

Lemma take_slot c g t i td :
  inv_from c g -> vget (gThreadData g) i = Some td -> initialized td = false ->
  let g1 := set_tls (<[t := (i, gProfilerGeneration g)]> (tls g)) g in
  let g' := set_threads (<[Z.to_nat i := set_initialized true 0 td]> (gThreadData g1)) g1 in
  inv_from c g' /\ owns g' t i.
Proof.
  intros Hi Htd Hu g1 g'. pose proof (vget_lt _ _ _ Htd) as Hlt.
  assert (Hsl : slot_ok (settings g) (set_initialized true 0 td)) by (apply slot_take; [by eapply in_slot|done]).
  pose proof (inv_set_slot c g i td _ Hi Htd Hsl ltac:(done)
    ltac:(cbn; rewrite (sl_unused _ _ (in_slot _ _ Hi _ _ Htd) Hu); lia)) as Hi'.
  assert (Hnew : vget (gThreadData g') i = Some (set_initialized true 0 td)).
  { cbn. rewrite vget_insert by done. by rewrite decide_True. }
  assert (Hfree : forall t', (tls_of g t').2 = gProfilerGeneration g -> (tls_of g t').1 <> i).
  { intros t' Hg E. destruct (in_owner _ _ Hi t' Hg) as (x & Hx & Hxi); [rewrite E; lia|].
    rewrite E, Htd in Hx. injection Hx as <-. congruence. }
  assert (Htls : forall t', tls_of g' t' = if decide (t = t') then (i, gProfilerGeneration g) else tls_of g t').
  { intros t'. apply (tls_of_insert g t). }
  split.
  - pose proof (in_threads _ _ Hi) as Hlen. destruct Hi'. split; try done.
    + intros t'. rewrite Htls. case_decide; [cbn; lia|apply in_tls0].
    + intros t'. rewrite Htls. case_decide; [intros _ _; by exists (set_initialized true 0 td)|apply in_owner0].
    + intros t1 t2. rewrite !Htls. cbn. repeat case_decide; subst; try done.
      * intros _ Hg E. exfalso. by apply (Hfree _ Hg).
      * intros Hg _ E. exfalso. by apply (Hfree _ Hg).
      * apply in_unique0.
  - split; [rewrite Htls; by rewrite decide_True|]. by exists (set_initialized true 0 td).
Qed.

Lemma init_thread_loop_spec c t : forall n i g,
  inv_from c g -> 0 <= i -> i + Z.of_nat n = Z.of_nat (MaxThreads (settings g)) ->
  match init_thread_loop false n t i g with
  | Ok (_, g') => inv_from c g' /\ (exists j, owns g' t j) /\ same_rest g g'
  | Err e => e = AssertFail
  end.
Proof.
  induction n as [|n IH]; intros i g Hi Hi0 Hn; [done|]. cbn [init_thread_loop].
  destruct (vget_is_Some (gThreadData g) i) as [td Htd]; [rewrite (in_threads _ _ Hi); lia|].
  rewrite (st_bind_ok _ _ _ _ _ (get_thread_ok _ _ _ Htd)).
  destruct (initialized td) eqn:Hu; cbn [negb].
  - apply IH; [done|lia|lia].
  - destruct (take_slot c g t i td Hi Htd Hu) as [Hi' Ho].
    unfold Profiler.modify, st_get, st_put. unfold mbind, ST_bind.
    erewrite set_thread_ok by exact Htd. split; [done|]. split; [by exists i|done].
Qed.

Lemma GetThreadData_spec c g t :
  inv_from c g ->
  match GetThreadData false t g with
  | Ok (i, g') => inv_from c g' /\ owns g' t i /\ same_rest g g'
  | Err e => e = AssertFail
  end.
Proof.
  intros Hi. unfold GetThreadData. unfold Profiler.modify at 1. rewrite st_bind_assoc.
  rewrite (st_bind_ok st_get _ g g g) by done.
  set (g0 := if (tls_of g t).2 =? _ then _ else _).
  rewrite (st_bind_ok _ _ g tt g0) by done.
  assert (H0 : inv_from c g0 /\ same_rest g g0 /\
    ((tls_of g0 t).1 = -1 \/ owns g0 t (tls_of g0 t).1)).
  { destruct (Z.eqb_spec (tls_of g t).2 (gProfilerGeneration g)) as [Hg|Hg]; subst g0.
    - split; [done|]. split; [done|]. destruct (decide ((tls_of g t).1 = -1)) as [|Hn]; [by left|right].
      split; [by rewrite <- Hg; destruct (tls_of g t)|by apply (in_owner _ _ Hi)].
    - assert (Htls : forall t', tls_of (set_tls (<[t := (-1, (tls_of g t).2)]> (tls g)) g) t' =
        if decide (t = t') then (-1, (tls_of g t).2) else tls_of g t') by (intros; apply tls_of_insert).
      split; [|split; [done|left; rewrite Htls; by rewrite decide_True]].
      destruct Hi. split; try done.
      + intros t'. rewrite Htls. specialize (in_tls0 t') as Ht'. case_decide; subst; [cbn|done].
        destruct in_settings0. lia.
      + intros t'. rewrite Htls. case_decide; [cbn; congruence|apply in_owner0].
      + intros t1 t2. rewrite !Htls. repeat case_decide; cbn; try congruence. apply in_unique0. }
  clearbody g0. destruct H0 as (Hi0 & Hr0 & Hown). rewrite (st_bind_ok st_get _ g0 g0 g0) by done.
  assert (Hend : forall g1, inv_from c g1 -> same_rest g g1 -> (exists j, owns g1 t j) ->
    match (g ← st_get; let i := (tls_of g t).1 in get_thread i;; mret i) g1 with
    | Ok (i, g') => inv_from c g' /\ owns g' t i /\ same_rest g g' | Err e => e = AssertFail end).
  { intros g1 Hi1 Hr1 [j [Ht (td & Htd & Hini)]]. rewrite (st_bind_ok st_get _ g1 g1 g1) by done.
    rewrite Ht. cbn [fst]. rewrite (st_bind_ok _ _ _ _ _ (get_thread_ok _ _ _ Htd)).
    split; [done|]. split; [|done]. split; [done|]. by exists td. }
  destruct (Z.eqb_spec (tls_of g0 t).1 (-1)) as [E|E].
  - unfold InitThread. rewrite st_bind_assoc, (st_bind_ok st_get _ g0 g0 g0) by done.
    pose proof (init_thread_loop_spec c t (MaxThreads (settings g0)) 0 g0 Hi0 ltac:(lia) ltac:(lia)) as Hl.
    unfold mbind at 1. unfold ST_bind at 1. destruct (init_thread_loop _ _ _ _ g0) as [[[] g1]|e]; [|done].
    destruct Hl as (Hi1 & Ho1 & Hr1). apply Hend; [done| |done].
    unfold same_rest in *. intuition congruence.
  - rewrite st_ret_bind. apply Hend; [done..|]. exists (tls_of g0 t).1. by destruct Hown.
Qed.

Lemma CheckEndState_spec g t td :
  vget (gThreadData g) (tls_of g t).1 = Some td ->
  exists b g', CheckEndState t g = Ok (b, g') /\ (g' = g \/ g' = set_pause true true g) /\ gPaused g' = b /\
    (b = false -> g' = g /\ currentEntry td < Z.of_nat (MaxEntriesPerThread (settings g)) /\
       gCurrentFrame g < Z.of_nat (MaxFrames (settings g)) /\
       gCurrentRegion g < Z.of_nat (MaxRegions (settings g))).
Proof.
  intros Htd. unfold CheckEndState. rewrite (st_bind_ok st_get _ g g g) by done.
  rewrite (st_bind_ok _ _ _ _ _ (get_thread_ok _ _ _ Htd)).
  unfold Profiler.modify, st_get, st_put. unfold mbind, ST_bind, mret, ST_ret.
  repeat match goal with |- context [?a <=? ?b] => destruct (Z.leb_spec a b) end;
    eexists _, _; (split; [reflexivity|]); cbn; (split; [auto|]); (split; [reflexivity|]); intros; try discriminate;
    by split_and!.
Qed.

Lemma inv_pause c g p r : inv_from c g -> inv_from c (set_pause p r g).
Proof. intros []. by split. Qed.

(** The start that sections and regions share: not paused, the thread has a
    slot, and there is room. *)
Lemma recording_spec (K : Z -> ST globals unit) t g :
  prof_inv g ->
  (forall i g1 td, prof_inv g1 -> tls_of g1 t = (i, gProfilerGeneration g1) ->
     vget (gThreadData g1) i = Some td -> initialized td = true -> gPaused g1 = false ->
     currentEntry td < Z.of_nat (MaxEntriesPerThread (settings g1)) ->
     gCurrentFrame g1 < Z.of_nat (MaxFrames (settings g1)) ->
     gCurrentRegion g1 < Z.of_nat (MaxRegions (settings g1)) ->
     match K i g1 with Ok (_, g') => prof_inv g' | Err e => e = AssertFail end) ->
  match (g ← st_get;
         if gPaused g then mret tt
         else i ← GetThreadData false t; stop_ ← CheckEndState t;
              if (stop_ : bool) then mret tt else K i) g with
  | Ok (_, g') => prof_inv g'
  | Err e => e = AssertFail
  end.
Proof.
  intros Hi HK. rewrite (st_bind_ok st_get _ g g g) by done. destruct (gPaused g); [done|].
  pose proof (GetThreadData_spec (gCurrentFrame g) g t Hi) as HG.
  unfold mbind at 1. unfold ST_bind at 1. destruct (GetThreadData false t g) as [[i g1]|e]; [|done].
  destruct HG as (Hi1 & (Ht & td & Htd & Hini) & (Hs & Hp & Hf & Hr & _)).
  destruct (CheckEndState_spec g1 t td) as (b & g2 & Hce & Hg2 & Hb & Hroom); [by rewrite Ht|].
  rewrite (st_bind_ok _ _ _ _ _ Hce). destruct b.
  - unfold mret, ST_ret. unfold prof_inv. destruct Hg2 as [->| ->]; cbn; [|apply inv_pause]; by rewrite Hf.
  - destruct (Hroom eq_refl) as (-> & ? & ? & ?). eapply HK; try done. unfold prof_inv. by rewrite Hf.
Qed.

Lemma vget_insert_old {A} (l : list A) i j x y :
  vget l j = Some x -> i <> j -> 0 <= i < Z.of_nat (length l) -> vget (<[Z.to_nat i := y]> l) j = Some x.
Proof. intros. rewrite vget_insert by done. by rewrite decide_False. Qed.

(** The slot after a push. *)
Lemma pushed_ok s td e start :
  settings_ok s -> slot_ok s td -> initialized td = true -> callStackDepth td < MaxCallStack s ->
  currentEntry td < Z.of_nat (MaxEntriesPerThread s) -> szSection e <> None /\ szFile e <> None ->
  level e = callStackDepth td ->
  (callStackDepth td = 0 /\ parent e = no_parent \/
   0 < callStackDepth td /\ vget (entryStack td) (callStackDepth td - 1) = Some (parent e)) ->
  slot_ok s (pushed td e start).
Proof.
  intros Hs [] Hini Hd Hc Hsec Hlev Hpar. destruct Hs. unfold pushed.
  assert (Hu1 : u32 (callStackDepth td + 1) = callStackDepth td + 1) by (apply wrap_small; unfold in_u; lia).
  assert (Hu2 : u32 (currentEntry td + 1) = currentEntry td + 1) by (apply wrap_small; unfold in_u; lia).
  rewrite Hu1, Hu2.
  assert (Hin : 0 <= currentEntry td < Z.of_nat (length (entries td))) by lia.
  assert (Hst : 0 <= callStackDepth td < Z.of_nat (length (entryStack td))) by lia.
  assert (Hold : forall j x, 0 <= j < currentEntry td -> vget (entries td) j = Some x ->
    vget (<[Z.to_nat (currentEntry td) := e]> (entries td)) j = Some x)
    by (intros j x Hj Hx; apply vget_insert_old; [done|lia|done]).
  split; cbn [entries entryStack currentEntry callStackDepth initialized].
  - by rewrite length_insert.
  - by rewrite length_insert.
  - lia.
  - lia.
  - congruence.
  - intros j en Hj. rewrite vget_insert by done. case_decide as E.
    + subst j. intros [= <-]. split; [done|].
      destruct Hpar as [[H0 Hp]|[H0 Hp]]; [left; split; [done|lia]|right].
      destruct (sl_open0 (callStackDepth td - 1)) as (pe & pen & Hpe & Hpr & Hpen & Hplev); [lia|].
      rewrite Hp in Hpe. injection Hpe as <-. split; [lia|]. exists pen. split; [by apply Hold|lia].
    + intros Hen. destruct (sl_entry0 j en ltac:(lia) Hen) as [Hsn Hcase]. split; [done|].
      destruct Hcase as [?|[Hpr (pe & Hpe & Hl)]]; [by left|right]. split; [done|]. exists pe. split; [|done].
      apply Hold; [lia|done].
  - intros k Hk. cbn in Hk. cbn [entries entryStack currentEntry]. rewrite vget_insert by done. case_decide as E.
    + subst k. exists (currentEntry td), e. split; [done|]. split; [lia|]. rewrite vget_insert by done.
      by rewrite decide_True.
    + destruct (sl_open0 k ltac:(lia)) as (x & xn & Hx & Hxr & Hxn & Hl). exists x, xn.
      split; [done|]. split; [lia|]. split; [by apply Hold|done].
Qed.

(** The frame after a thread is added to it. *)
Definition with_thread (f : Frame) (info : FrameThreadInfo) : Frame :=
  mkFrame (f_base f) (u32 (frameThreadCount f + 1)) (<[Z.to_nat (frameThreadCount f) := info]> (frameThreads f)).

Lemma frame_infos_add f info : 0 <= frameThreadCount f < Z.of_nat (length (frameThreads f)) ->
  Z.of_nat (length (frameThreads f)) < 2 ^ 31 -> frame_infos (with_thread f info) = frame_infos f ++ [info].
Proof.
  intros Hc Hmax. unfold frame_infos, with_thread. cbn. rewrite wrap_small by (unfold in_u; lia).
  replace (Z.to_nat (frameThreadCount f + 1)) with (S (Z.to_nat (frameThreadCount f))) by lia.
  rewrite (take_S_r _ _ info) by (apply list_lookup_insert_eq; lia). by rewrite take_insert_ge by lia.
Qed.

(** A thread that is not in the frame yet can be added to it. *)
Lemma frame_ok_add s threads f info td :
  frame_ok s threads f -> length threads = MaxThreads s -> Z.of_nat (MaxThreads s) < 2 ^ 31 ->
  vget threads (threadIndex info) = Some td -> 0 <= activeEntry info < currentEntry td ->
  threadIndex info ∉ map threadIndex (take (Z.to_nat (frameThreadCount f)) (frameThreads f)) ->
  frameThreadCount f < Z.of_nat (MaxThreads s) /\
  frame_ok s threads (with_thread f info).
Proof.
  intros [Hsize Hcount Hnd Hinfo] Hlen Hmax Htd Ha Hnew.
  set (l := take _ _) in *.
  assert (Hl : length l = Z.to_nat (frameThreadCount f)) by (subst l; rewrite length_take_le; lia).
  assert (Hlt : (length (threadIndex info :: map threadIndex l) <= MaxThreads s)%nat).
  { assert (threadIndex info :: map threadIndex l ⊆+ seqZ 0 (Z.of_nat (MaxThreads s))) as Hsub.
    { apply NoDup_submseteq; [by apply NoDup_cons|]. intros x Hx. apply elem_of_seqZ.
      apply elem_of_cons in Hx as [->|(y & -> & Hy)%list_elem_of_fmap].
      - apply vget_lt in Htd. lia.
      - destruct (Hinfo y Hy) as (t & Ht & _). apply vget_lt in Ht. lia. }
    apply submseteq_length in Hsub. rewrite length_seqZ in Hsub. lia. }
  cbn [length] in Hlt. rewrite length_map, Hl in Hlt. split; [lia|].
  pose proof (frame_infos_add f info ltac:(lia) ltac:(lia)) as Htake. fold l in Htake.
  split; fold (frame_infos (with_thread f info)).
  - cbn. by rewrite length_insert.
  - cbn. rewrite wrap_small by (unfold in_u; lia). lia.
  - rewrite Htake, map_app. cbn. apply NoDup_app. split_and!; [done| |apply NoDup_singleton].
    intros x Hx ->%list_elem_of_singleton. done.
  - rewrite Htake. intros x [Hx| ->%list_elem_of_singleton]%elem_of_app; [by apply Hinfo|]. by exists td.
Qed.

Lemma get_frame_ok g i f : vget (gFrameData g) i = Some f -> get_frame i g = Ok (f, g).
Proof. intros E. unfold get_frame, st_get, st_some. unfold mbind, ST_bind. by rewrite E. Qed.

Lemma set_frame_ok g i f f' :
  vget (gFrameData g) i = Some f ->
  set_frame i f' g = Ok (tt, set_frames (<[Z.to_nat i := f']> (gFrameData g)) (gCurrentFrame g) g).
Proof. intros E. unfold set_frame, st_get, st_some, st_put. unfold mbind, ST_bind. by rewrite E. Qed.

(** Writing a frame. *)
Lemma inv_set_frame c g i f f' cur :
  inv_from c g -> vget (gFrameData g) i = Some f -> frame_ok (settings g) (gThreadData g) f' ->
  (c <= i -> frameThreadCount f' = 0) -> 0 <= cur <= Z.of_nat (MaxFrames (settings g)) ->
  inv_from c (set_frames (<[Z.to_nat i := f']> (gFrameData g)) cur g).
Proof.
  intros [] Hf Hok Hc Hcur. pose proof (vget_lt _ _ _ Hf) as Hlt. split; cbn; try done.
  - by rewrite length_insert.
  - intros j x. rewrite vget_insert by done. case_decide; [intros [= <-]; subst; done|apply in_frame0].
Qed.

Lemma add_frame_thread_spec c g fi f info td :
  inv_from c g -> vget (gFrameData g) fi = Some f -> fi < c ->
  vget (gThreadData g) (threadIndex info) = Some td -> 0 <= activeEntry info < currentEntry td ->
  threadIndex info ∉ map threadIndex (take (Z.to_nat (frameThreadCount f)) (frameThreads f)) ->
  exists f' g', add_frame_thread fi info g = Ok (tt, g') /\ inv_from c g' /\
    g' = set_frames (<[Z.to_nat fi := f']> (gFrameData g)) (gCurrentFrame g) g /\
    frame_infos f' = frame_infos f ++ [info] /\ f_base f' = f_base f.
Proof.
  intros Hi Hf Hc Htd Ha Hnew. destruct (in_frame _ _ Hi _ _ Hf) as [Hok _].
  pose proof (so_threads _ (in_settings _ _ Hi)) as [_ Hmax].
  destruct (frame_ok_add _ _ _ _ _ Hok (in_threads _ _ Hi) Hmax Htd Ha Hnew) as [Hlt Hok'].
  pose proof Hok as [Hsize Hcount _ _].
  eexists _, _. split_and!; [|by eapply inv_set_frame; [..|eapply in_frame_no]; try done; lia|done| |done].
  - unfold add_frame_thread. rewrite (st_bind_ok _ _ _ _ _ (get_frame_ok _ _ _ Hf)).
    destruct (vget_is_Some (frameThreads f) (frameThreadCount f)) as [x Hx]; [lia|].
    rewrite Hx. unfold st_some. rewrite st_ret_bind. by apply (set_frame_ok _ _ f).
  - apply frame_infos_add; lia.
Qed.

Lemma PushSectionBase_spec t now section file col ln g :
  prof_inv g ->
  match PushSectionBase false t now section file col ln g with
  | Ok (_, g') => prof_inv g' | Err e => e = AssertFail end.
Proof.
  intros Hi. unfold PushSectionBase. apply recording_spec; [done|].
  clear g Hi. intros i g td Hi Ht Htd Hini Hp Hroom Hfr Hre.
  rewrite (st_bind_ok _ _ _ _ _ (get_thread_ok _ _ _ Htd)), (st_bind_ok st_get _ g g g) by done.
  pose proof (in_slot _ _ Hi _ _ Htd) as Hsl. pose proof (in_settings _ _ Hi) as Hs.
  destruct (Z.ltb_spec (callStackDepth td) (MaxCallStack (settings g))) as [Hd|Hd]; [|done].
  rewrite (st_bind_ok _ _ g tt g), Hp by done. pose proof Hsl as []. pose proof Hs as [].
  destruct (vget_is_Some (entries td) (currentEntry td)) as [x ->]; [lia|].
  destruct (vget_is_Some (entryStack td) (callStackDepth td)) as [y Hy]; [lia|]. rewrite Hy.
  rewrite (st_bind_ok _ _ g x g), (st_bind_ok _ _ g y g) by done.
  assert (exists par, (if 0 <? callStackDepth td then
                 p ← st_some (vget (<[Z.to_nat (callStackDepth td) := currentEntry td]> (entryStack td))
                                   (callStackDepth td - 1));
                 st_assert false (mret (p <? currentEntry td));; mret p
               else mret no_parent) g = Ok (par, g) /\
      (callStackDepth td = 0 /\ par = no_parent \/
       0 < callStackDepth td /\ vget (entryStack td) (callStackDepth td - 1) = Some par)) as (par & Hpar & Hpc).
  { destruct (Z.ltb_spec 0 (callStackDepth td)) as [H0|H0]; [|exists no_parent; split; [done|left; split; [lia|done]]].
    destruct (sl_open0 (callStackDepth td - 1)) as (p & pn & Hpe & Hpr & _); [lia|].
    exists p. rewrite (vget_insert_old _ _ _ p) by (done || lia).
    rewrite (st_bind_ok _ _ g p g) by done. replace (p <? currentEntry td) with true by lia.
    split; [done|]. by right. }
  rewrite (st_bind_ok _ _ _ _ _ Hpar).
  destruct file as [file|]; [|done]. destruct section as [section|]; [|done].
  do 2 rewrite (st_bind_ok _ _ g tt g) by done.
  set (td' := pushed td _ _). rewrite (st_bind_ok _ _ _ _ _ (set_thread_ok _ _ _ td' Htd)).
  assert (Hcur : currentEntry td' = currentEntry td + 1) by (cbn; apply wrap_small; unfold in_u; lia).
  assert (Hsl' : slot_ok (settings g) td').
  { apply pushed_ok; try done. cbn. unfold swrap. rewrite Z.mod_small; lia. }
  set (g1 := set_threads _ g).
  assert (Hi1 : inv_from (gCurrentFrame g) g1) by (by apply (inv_set_slot _ g i td); [..|lia]).
  assert (Hend : forall g2, inv_from (gCurrentFrame g) g2 -> gCurrentFrame g2 = gCurrentFrame g ->
    match Profiler.modify (set_restarting false) g2 with Ok (_, g') => prof_inv g' | Err e => e = AssertFail end).
  { intros g2 Hi2 E. change (inv_from (gCurrentFrame g2) (set_restarting false g2)). rewrite E. destruct Hi2. by split. }
  pose proof (vget_lt _ _ _ Htd) as Hilt. rewrite (in_threads _ _ Hi) in Hilt.
  rewrite Ht. cbn [fst]. rewrite (wrap_small 32 i) by (unfold in_u; lia).
  destruct (Z.eqb_spec (currentEntry td') 1) as [E1|E1]; [|by apply Hend].
  destruct (Z.ltb_spec 0 (gCurrentFrame g)) as [E2|E2]; [cbn [andb]|by apply Hend].
  pose proof (in_frame_no _ _ Hi) as Hfn.
  destruct (vget_is_Some (gFrameData g) (gCurrentFrame g - 1)) as [f Hf]; [rewrite (in_frames _ _ Hi); lia|].
  destruct (in_frame _ _ Hi _ _ Hf) as [Hfok _].
  destruct (add_frame_thread_spec (gCurrentFrame g) g1 (gCurrentFrame g - 1) f (mkInfo i (u32 (currentEntry td' - 1))) td')
    as (f' & g2 & Hr & Hi2 & Hg2 & _); try done.
  - lia.
  - cbn. rewrite vget_insert by (rewrite (in_threads _ _ Hi); lia). by rewrite decide_True.
  - cbn [activeEntry]. rewrite E1. by vm_compute.
  - cbn [threadIndex]. intros (info & Hix & Hin)%list_elem_of_fmap.
    destruct (fr_info _ _ _ Hfok _ Hin) as (x' & Hx' & Ha). rewrite <- Hix, Htd in Hx'. injection Hx' as <-. lia.
  - rewrite (st_bind_ok _ _ _ _ _ Hr). apply Hend; [done|by subst].
Qed.

(** The slot after a pop. *)
Lemma popped_ok s td k e en end_ mt :
  slot_ok s td -> 0 < callStackDepth td -> k = callStackDepth td - 1 ->
  vget (entries td) e = Some en -> 0 <= e < currentEntry td ->
  slot_ok s (mkThread (initialized td) k (maxLevel td) (minTime td) mt (currentEntry td) (hidden td) (t_name td)
    (<[Z.to_nat e := mkEntry (szSection en) (szFile en) (line en) (color en) (level en) (startTime en) end_ (parent en)]>
       (entries td)) (entryStack td)).
Proof.
  intros [] Hd -> Hen He. pose proof (vget_lt _ _ _ Hen) as Hlt.
  set (en' := mkEntry _ _ _ _ _ _ _ _).
  assert (Hget : forall j x, vget (entries td) j = Some x -> exists x',
    vget (<[Z.to_nat e := en']> (entries td)) j = Some x' /\ level x' = level x /\ parent x' = parent x /\ szSection x' = szSection x /\ szFile x' = szFile x).
  { intros j x Hx. rewrite vget_insert by done. case_decide; [subst|by exists x].
    rewrite Hen in Hx. injection Hx as <-. by exists en'. }
  split; cbn; try done.
  - by rewrite length_insert.
  - lia.
  - intros j x Hj Hx. assert (exists x0, vget (entries td) j = Some x0) as [x0 Hx0]
      by (apply vget_is_Some; apply vget_lt in Hx; by rewrite length_insert in Hx).
    destruct (Hget _ _ Hx0) as (x' & Hx' & Hl & Hp & Hsn & Hfn). rewrite Hx in Hx'. injection Hx' as <-.
    destruct (sl_entry0 j x0 Hj Hx0) as [Hn Hcase]. unfold entry_ok. rewrite Hl, Hp, Hsn, Hfn. split; [done|].
    destruct Hcase as [?|[Hr (pe & Hpe & Hle)]]; [by left|right]. split; [done|].
    destruct (Hget _ _ Hpe) as (pe' & Hpe' & Hl' & _). exists pe'. split; [done|lia].
  - intros j Hj. cbn in Hj. destruct (sl_open0 j ltac:(lia)) as (x & xn & Hx & Hxr & Hxn & Hl).
    destruct (Hget _ _ Hxn) as (xn' & Hxn' & Hl' & _). exists x, xn'. cbn. split_and!; try done; lia.
Qed.

Lemma PopSection_spec t now g :
  prof_inv g ->
  match PopSection false t now g with Ok (_, g') => prof_inv g' | Err e => e = AssertFail end.
Proof.
  intros Hi. unfold PopSection. apply recording_spec; [done|].
  clear g Hi. intros i g td Hi Ht Htd Hini Hp Hroom Hfr Hre.
  rewrite (st_bind_ok st_get _ g g g) by done. destruct (gRestarting g || gPaused g); [done|].
  rewrite (st_bind_ok _ _ _ _ _ (get_thread_ok _ _ _ Htd)).
  destruct (Z.leb_spec (callStackDepth td) 0) as [|Hd]; [done|].
  pose proof (in_slot _ _ Hi _ _ Htd) as Hsl. pose proof (in_settings _ _ Hi) as Hs.
  pose proof Hsl as []. pose proof Hs as [].
  destruct (sl_open0 (callStackDepth td - 1)) as (e & en & Hse & Her & Hen & Hl); [lia|].
  rewrite Hse, (st_bind_ok _ _ g e g) by done.
  assert (i32 e = e) as -> by (unfold swrap; rewrite Z.mod_small; lia).
  rewrite Hen, (st_bind_ok _ _ g en g) by done.
  destruct (sl_entry0 e en Her Hen) as [[Hsec _] _]. destruct (szSection en) eqn:Esec; [|done].
  rewrite (st_bind_ok _ _ g tt g) by done. rewrite <- Esec.
  rewrite (set_thread_ok _ _ _ _ Htd).
  apply (inv_set_slot (gCurrentFrame g) g i td); try done. by eapply popped_ok.
Qed.

(** *** Names, regions *)

(** Changing a slot's name or visibility. *)
Lemma slot_label s td h nm :
  slot_ok s td -> slot_ok s (mkThread (initialized td) (callStackDepth td) (maxLevel td) (minTime td)
    (maxTime td) (currentEntry td) h nm (entries td) (entryStack td)).
Proof. intros []. by split. Qed.

Lemma label_spec (F : ThreadData -> ThreadData) t g :
  (forall s td, slot_ok s td -> slot_ok s (F td)) ->
  (forall td, initialized (F td) = initialized td /\ currentEntry (F td) = currentEntry td) ->
  prof_inv g ->
  match (g ← st_get;
         if gPaused g then mret tt
         else i ← GetThreadData false t; td ← get_thread i; set_thread i (F td)) g with
  | Ok (_, g') => prof_inv g' | Err e => e = AssertFail end.
Proof.
  intros HF HF' Hi. rewrite (st_bind_ok st_get _ g g g) by done. destruct (gPaused g); [done|].
  pose proof (GetThreadData_spec (gCurrentFrame g) g t Hi) as HG.
  unfold mbind at 1. unfold ST_bind at 1. destruct (GetThreadData false t g) as [[i g1]|e]; [|done].
  destruct HG as (Hi1 & (Ht & td & Htd & Hini) & (_ & _ & Hf & _)).
  rewrite (st_bind_ok _ _ _ _ _ (get_thread_ok _ _ _ Htd)), (set_thread_ok _ _ _ _ Htd).
  destruct (HF' td) as [E1 E2]. unfold prof_inv. cbn. rewrite Hf.
  apply (inv_set_slot _ g1 i td); try done; [by apply HF, (in_slot _ _ Hi1 _ _ Htd)|congruence|lia].
Qed.

Lemma inv_set_region c g l n :
  inv_from c g -> length l = MaxRegions (settings g) -> 0 <= n <= Z.of_nat (MaxRegions (settings g)) ->
  inv_from c (set_regions l n g).
Proof. intros [] Hl Hn. by split. Qed.

Lemma region_write_ok g r :
  prof_inv g -> gCurrentRegion g < Z.of_nat (MaxRegions (settings g)) ->
  exists r0, vget (gRegionData g) (gCurrentRegion g) = Some r0 /\
    set_region (gCurrentRegion g) r g =
      Ok (tt, set_regions (<[Z.to_nat (gCurrentRegion g) := r]> (gRegionData g)) (gCurrentRegion g) g) /\
    prof_inv (set_regions (<[Z.to_nat (gCurrentRegion g) := r]> (gRegionData g)) (gCurrentRegion g) g).
Proof.
  intros Hi Hlt. pose proof (in_region_no _ _ Hi). pose proof (in_regions _ _ Hi) as Hl.
  destruct (vget_is_Some (gRegionData g) (gCurrentRegion g)) as [r0 Hr]; [lia|].
  exists r0. split; [done|]. split.
  - unfold set_region, st_get, st_some, st_put. unfold mbind, ST_bind. by rewrite Hr.
  - apply inv_set_region; [done|by rewrite length_insert|done].
Qed.

Lemma get_region_ok g i r : vget (gRegionData g) i = Some r -> get_region i g = Ok (r, g).
Proof. intros E. unfold get_region, st_get, st_some. unfold mbind, ST_bind. by rewrite E. Qed.

Lemma BeginRegion_spec t now g :
  prof_inv g -> match BeginRegion false t now g with Ok (_, g') => prof_inv g' | Err e => e = AssertFail end.
Proof.
  intros Hi. unfold BeginRegion. apply (recording_spec (fun _ => _)); [done|].
  clear g Hi. intros i g td Hi _ _ _ _ _ _ Hre. rewrite (st_bind_ok st_get _ g g g) by done.
  destruct (vget_is_Some (gRegionData g) (gCurrentRegion g)) as [r Hr].
  { rewrite (in_regions _ _ Hi). pose proof (in_region_no _ _ Hi). lia. }
  rewrite (st_bind_ok _ _ _ _ _ (get_region_ok _ _ _ Hr)).
  destruct (region_write_ok g (mkRegion (r_name r) (elapsed g now) (r_endTime r)) Hi Hre) as (? & _ & -> & Hi'). done.
Qed.

Lemma EndRegion_spec fmt_ms t now g :
  prof_inv g -> match EndRegion false fmt_ms t now g with Ok (_, g') => prof_inv g' | Err e => e = AssertFail end.
Proof.
  intros Hi. unfold EndRegion. apply (recording_spec (fun _ => _)); [done|].
  clear g Hi. intros i g td Hi _ _ _ _ _ _ Hre. rewrite (st_bind_ok st_get _ g g g) by done.
  pose proof (in_region_no _ _ Hi) as Hn. pose proof (so_regions _ (in_settings _ _ Hi)) as Hmax.
  destruct (vget_is_Some (gRegionData g) (gCurrentRegion g)) as [r Hr]; [rewrite (in_regions _ _ Hi); lia|].
  rewrite (st_bind_ok _ _ _ _ _ (get_region_ok _ _ _ Hr)).
  destruct (region_write_ok g (mkRegion (fmt_ms (elapsed g now - r_startTime r)) (r_startTime r) (elapsed g now)) Hi Hre)
    as (? & _ & Hw & Hi').
  rewrite (st_bind_ok _ _ _ _ _ Hw).
  change (inv_from (gCurrentFrame g) (set_regions (<[Z.to_nat (gCurrentRegion g) :=
    mkRegion (fmt_ms (elapsed g now - r_startTime r)) (r_startTime r) (elapsed g now)]> (gRegionData g))
    (u32 (gCurrentRegion g + 1)) g)).
  apply inv_set_region; [done|rewrite length_insert; by apply (in_regions _ _ Hi)|].
  rewrite wrap_small by (unfold in_u; lia). lia.
Qed.

(** *** Frames *)

Lemma inv_weaken c c' g : c <= c' -> inv_from c g -> inv_from c' g.
Proof.
  intros Hc []. split; try done. intros i f Hf. destruct (in_frame0 i f Hf). split; [done|]. intros. apply H0. lia.
Qed.

Lemma new_frame_loop_spec c fi : forall n ti g f,
  inv_from c g -> fi < c -> vget (gFrameData g) fi = Some f -> 0 <= ti ->
  ti + Z.of_nat n = Z.of_nat (MaxThreads (settings g)) ->
  (forall x, x ∈ map threadIndex (take (Z.to_nat (frameThreadCount f)) (frameThreads f)) -> x < ti) ->
  exists f' g', new_frame_loop n fi ti g = Ok (tt, g') /\ inv_from c g' /\
    g' = set_frames (<[Z.to_nat fi := f']> (gFrameData g)) (gCurrentFrame g) g /\
    frame_infos f ⊆ frame_infos f' /\
    forall i td, ti <= i -> vget (gThreadData g) i = Some td -> 0 < currentEntry td -> i ∈ map threadIndex (frame_infos f').
Proof.
  induction n as [|n IH]; intros ti g f Hi Hc Hf Hti Hn Hlt.
  { exists f, g. split; [done|]. split; [done|]. apply vget_Some in Hf as [_ Hf]. split; [|split; [done|]].
    - rewrite list_insert_id by done. by destruct g.
    - intros i td Hle Htd%vget_lt. rewrite (in_threads _ _ Hi) in Htd. lia. }
  cbn [new_frame_loop]. destruct (vget_is_Some (gThreadData g) ti) as [td Htd]; [rewrite (in_threads _ _ Hi); lia|].
  rewrite (st_bind_ok _ _ _ _ _ (get_thread_ok _ _ _ Htd)).
  pose proof (in_slot _ _ Hi _ _ Htd) as []. pose proof (in_settings _ _ Hi) as [].
  destruct (initialized td && (0 <? currentEntry td)) eqn:E.
  - destruct (add_frame_thread_spec c g fi f (mkInfo ti (u32 (currentEntry td - 1))) td) as (f1 & g1 & Hr & Hi1 & Hg1 & Hm & _);
      try done.
    + cbn. rewrite wrap_small by (unfold in_u; lia). lia.
    + cbn. intros Hin. specialize (Hlt _ Hin). lia.
    + rewrite (st_bind_ok _ _ _ _ _ Hr).
      pose proof (vget_lt _ _ _ Hf) as Hfl.
      assert (Hf1 : vget (gFrameData g1) fi = Some f1)
        by (subst g1; cbn; rewrite vget_insert by done; by rewrite decide_True).
      destruct (IH (ti + 1) g1 f1) as (f' & g' & Hr' & Hi' & Hg' & Hsub & Hall); [done..|lia|subst g1; cbn; lia| |].
      * intros x. fold (frame_infos f1). rewrite Hm, map_app, elem_of_app. cbn [map threadIndex].
        rewrite list_elem_of_singleton. intros [Hx| ->]; [specialize (Hlt _ Hx)|]; lia.
      * exists f', g'. split; [done|]. split; [done|]. split; [subst g1 g'; cbn; by rewrite list_insert_insert_eq|].
        rewrite Hm in Hsub. split; [set_solver|]. intros i x Hle Hx Hpos. destruct (decide (i = ti)) as [->|].
        -- apply list_elem_of_fmap. exists (mkInfo ti (u32 (currentEntry td - 1))). split; [done|set_solver].
        -- eapply Hall; [lia|subst g1; exact Hx|done].
  - rewrite st_ret_bind. destruct (IH (ti + 1) g f) as (f' & g' & Hr' & Hi' & Hg' & Hsub & Hall); [done..|lia|lia| |].
    { intros x Hx. specialize (Hlt _ Hx). lia. }
    exists f', g'. split_and!; [done..|]. intros i x Hle Hx Hpos. destruct (decide (i = ti)) as [->|]; [|eapply Hall; eauto; lia].
    rewrite Htd in Hx. injection Hx as <-. destruct (initialized td) eqn:Ei; [cbn in E; lia|]. specialize (sl_unused0 eq_refl). lia.
Qed.

(** A frame's times and name do not matter to the invariant. *)
Lemma frame_ok_base s threads f b :
  frame_ok s threads f -> frame_ok s threads (mkFrame b (frameThreadCount f) (frameThreads f)).
Proof. intros []. by split. Qed.

(** The index a thread has kept is that of an element of the table; it does not
    matter while the recording is paused. *)
Definition has_slot (g : globals) (t : nat) : Prop :=
  gPaused g = true \/ 0 <= (tls_of g t).1 < Z.of_nat (MaxThreads (settings g)).

Lemma has_slot_get g t : prof_inv g -> gPaused g = false -> has_slot g t -> exists td, vget (gThreadData g) (tls_of g t).1 = Some td.
Proof. intros Hi Hp [|Ht]; [congruence|]. apply vget_is_Some. by rewrite (in_threads _ _ Hi). Qed.

Lemma NewFrame_spec fmt_ms t now g :
  prof_inv g -> has_slot g t ->
  match NewFrame fmt_ms t now g with Ok (_, g') => prof_inv g' | Err e => e = AssertFail end.
Proof.
  intros Hi Ht. unfold NewFrame. rewrite (st_bind_ok st_get _ g g g) by done. destruct (gPaused g) eqn:Hp; [done|].
  destruct (has_slot_get g t Hi Hp Ht) as [td Htd].
  destruct (CheckEndState_spec g t td Htd) as (b & g2 & Hce & Hg2 & Hb & Hroom).
  rewrite (st_bind_ok _ _ _ _ _ Hce). destruct b.
  { unfold mret, ST_ret. destruct Hg2 as [->| ->]; [done|by apply inv_pause]. }
  destruct (Hroom eq_refl) as (-> & _ & Hfr & _). rewrite (st_bind_ok st_get _ g g g) by done.
  pose proof (in_frame_no _ _ Hi) as Hfn. pose proof (in_frames _ _ Hi) as Hfs.
  pose proof (so_frames _ (in_settings _ _ Hi)) as Hmax.
  set (fi := gCurrentFrame g) in *.
  destruct (vget_is_Some (gFrameData g) fi) as [f Hf]; [lia|].
  rewrite (st_bind_ok _ _ _ _ _ (get_frame_ok _ _ _ Hf)).
  destruct (in_frame _ _ Hi _ _ Hf) as [_ Hzero]. specialize (Hzero ltac:(subst fi; lia)).
  destruct (new_frame_loop_spec (fi + 1) fi (MaxThreads (settings g)) 0 g f) as (f1 & g1 & Hr & Hi1 & Hg1 & _).
  { eapply inv_weaken; [|exact Hi]. lia. } { lia. } { done. } { lia. } { lia. }
  { rewrite Hzero. cbn. intros x Hx. by apply elem_of_nil in Hx. }
  rewrite (st_bind_ok _ _ _ _ _ Hr).
  assert (Hf1 : vget (gFrameData g1) fi = Some f1)
    by (subst g1; cbn; rewrite vget_insert by lia; by rewrite decide_True).
  rewrite (st_bind_ok _ _ _ _ _ (get_frame_ok _ _ _ Hf1)), (st_bind_ok _ _ _ _ _ (set_frame_ok _ _ _ _ Hf1)).
  set (fn := mkFrame _ _ _). set (g3 := set_frames _ _ g1).
  assert (Hi3 : inv_from (fi + 1) g3).
  { apply (inv_set_frame _ _ _ f1); [done..| |lia|by apply (in_frame_no _ _ Hi1)].
    apply frame_ok_base. by apply (in_frame _ _ Hi1 fi). }
  assert (Hend : forall g4, inv_from (fi + 1) g4 -> gCurrentFrame g4 = fi ->
    settings g4 = settings g ->
    match Profiler.modify (fun g => set_frames (gFrameData g) (u32 (gCurrentFrame g + 1)) g) g4 with
    | Ok (_, g') => prof_inv g' | Err e => e = AssertFail end).
  { intros g4 Hi4 E4 Es. change (inv_from (u32 (gCurrentFrame g4 + 1)) (set_frames (gFrameData g4) (u32 (gCurrentFrame g4 + 1)) g4)).
    rewrite E4, wrap_small by (unfold in_u; lia). destruct Hi4. split; try done. cbn. rewrite Es. lia. }
  destruct (Z.ltb_spec 0 fi) as [H0|H0]; [|apply Hend; [done|by subst g3 g1..]].
  destruct (vget_is_Some (gFrameData g3) (fi - 1)) as [fp Hfp].
  { subst g3 g1. cbn. rewrite !length_insert. lia. }
  rewrite st_bind_assoc, (st_bind_ok _ _ _ _ _ (get_frame_ok _ _ _ Hfp)), (st_bind_ok _ _ _ _ _ (set_frame_ok _ _ _ _ Hfp)).
  apply Hend; [|by subst g3 g1..].
  apply (inv_set_frame _ _ _ fp); [done..| |lia|by apply (in_frame_no _ _ Hi3)].
  apply frame_ok_base. by apply (in_frame _ _ Hi3 (fi - 1)).
Qed.

(** *** Init *)

Lemma length_resize_to {A} n (x : A) l : length (resize_to n x l) = n.
Proof. unfold resize_to. rewrite length_app, length_take, length_replicate. lia. Qed.

Lemma vget_imap {A B} (F : nat -> A -> B) l i y :
  vget (imap F l) i = Some y -> exists x, y = F (Z.to_nat i) x.
Proof.
  intros [_ E]%vget_Some. rewrite list_lookup_imap in E. destruct (l !! Z.to_nat i) as [x|]; [|done].
  injection E as <-. by exists x.
Qed.

Lemma init_slot_ok s k td : settings_ok s -> slot_ok s (init_slot s k td).
Proof.
  intros []. unfold init_slot. split; cbn [entries entryStack currentEntry callStackDepth initialized]; try done.
  - by rewrite length_replicate.
  - by rewrite length_resize_to.
  - lia.
  - lia.
  - intros e en He. lia.
  - intros j Hj. cbn in Hj. lia.
Qed.

Lemma init_frame_ok s threads f : frame_ok s threads (init_frame s f).
Proof.
  unfold init_frame. split; cbn.
  - by rewrite length_replicate.
  - lia.
  - constructor.
  - intros info Hi. by apply elem_of_nil in Hi.
Qed.

Lemma Init_spec t now g :
  settings_ok (settings g) -> 0 <= gProfilerGeneration g < 2 ^ 64 - 2 ->
  (forall t, -1 <= (tls_of g t).1 /\
    ((tls_of g t).2 = 2 ^ 64 - 1 \/ (tls_of g t).2 <= gProfilerGeneration g)) ->
  exists g', Init t now g = Ok (tt, g') /\ prof_inv g' /\ settings g' = settings g /\
    gProfilerGeneration g' = gProfilerGeneration g + 1 /\ tls_of g' t = (0, 0).
Proof.
  intros Hs Hg Htls. pose proof Hs as [[Hmt Hmt'] Hcs Hme Hmf Hmr].
  unfold Init. rewrite (st_bind_ok st_get _ g g g) by done. cbv zeta.
  set (threads := imap _ _).
  assert (Hlen : length threads = MaxThreads (settings g)) by (subst threads; by rewrite length_imap, length_resize_to).
  destruct (lookup_lt_is_Some_2 threads 0) as [x Hx]; [lia|]. rewrite Hx, (st_bind_ok _ _ g x g) by done.
  assert (Hgen : u64 (gProfilerGeneration g + 1) = gProfilerGeneration g + 1) by (apply wrap_small; unfold in_u; lia).
  eexists. split; [reflexivity|]. rewrite Hgen. set (g' := mkG _ _ _ _ _ _ _ _ _ _ _ _ _ _ _ _ _ _).
  assert (Ht' : forall t', tls_of g' t' = if decide (t = t') then (0, 0) else tls_of g t').
  { intros t'. unfold tls_of. cbn. rewrite lookup_insert. by case_decide. }
  split; [|split; [done|split; [done|by rewrite Ht', decide_True]]].
  split; try done.
  - intros i td Htd. destruct (vget_imap _ _ _ _ Htd) as [x0 ->]. by apply init_slot_ok.
  - cbn. by rewrite length_map, length_resize_to.
  - intros i f [_ Hf]%vget_Some. cbn in Hf. rewrite list_lookup_fmap in Hf.
    destruct (_ !! Z.to_nat i) as [f0|]; [|done]. injection Hf as <-. split; [apply init_frame_ok|done].
  - cbn. lia.
  - cbn. by rewrite length_resize_to.
  - cbn. lia.
  - cbn. lia.
  - intros t'. rewrite Ht'. case_decide; cbn; [lia|]. specialize (Htls t'). lia.
  - intros t'. rewrite Ht'. case_decide; cbn; [lia|]. specialize (Htls t'). lia.
  - intros t1 t2. rewrite !Ht'. repeat case_decide; cbn; subst; try done; try lia; specialize (Htls t1); lia.
Qed.

(** ** Runs of the profiler *)

Inductive prof_op : Type :=
| OpPush (t : nat) (now : Z) (section file : option str) (col ln : Z)
| OpPop (t : nat) (now : Z)
| OpNewFrame (t : nat) (now : Z)
| OpName (t : nat) (nm : str)
| OpHide (t : nat)
| OpBeginRegion (t : nat) (now : Z)
| OpEndRegion (t : nat) (now : Z)
| OpSetPaused (b : bool)
| OpRegionLimit (z : Z)
| OpReset (t : nat) (now : Z)
| OpInit (t : nat) (now : Z)
| OpSettings (t : nat) (now : Z) (s : ProfileSettings)
| OpPauseButton (t : nat) (now : Z) (pressed : bool).

Definition run_prof (fmt_ms : Z -> str) (op : prof_op) : ST globals unit :=
  match op with
  | OpPush t now s f c l => PushSectionBase false t now s f c l
  | OpPop t now => PopSection false t now
  | OpNewFrame t now => NewFrame fmt_ms t now
  | OpName t nm => NameThread false t nm
  | OpHide t => HideThread false t
  | OpBeginRegion t now => BeginRegion false t now
  | OpEndRegion t now => EndRegion false fmt_ms t now
  | OpSetPaused b => SetPaused b
  | OpRegionLimit z => SetRegionLimit z
  | OpReset t now => Reset t now
  | OpInit t now => Init t now
  | OpSettings t now s => SetProfileSettings t now s
  | OpPauseButton t now b => ShowProfile_pause t now b
  end.

(** [NewFrame] is called by a thread that has an element of the table, or while
    the recording is paused; new settings are in range; and the generation
    counter does not wrap around. *)
Definition allowed (g : globals) (op : prof_op) : Prop :=
  match op with
  | OpNewFrame t _ => has_slot g t
  | OpReset _ _ | OpInit _ _ | OpPauseButton _ _ _ => gProfilerGeneration g < 2 ^ 64 - 2
  | OpSettings _ _ s => settings_ok s /\ gProfilerGeneration g < 2 ^ 64 - 2
  | _ => True
  end.

(** The calls a program begins with. *)
Definition first_call (op : prof_op) : Prop :=
  match op with OpInit _ _ => True | OpSettings _ _ s => settings_ok s | _ => False end.

(** States of a debug build after [Init] or [SetProfileSettings] and any calls
    by any threads. *)
Inductive reachable (fmt_ms : Z -> str) : globals -> Prop :=
| reach_start op g :
    first_call op -> run_prof fmt_ms op start_globals = Ok (tt, g) -> reachable fmt_ms g
| reach_step g op g' :
    reachable fmt_ms g -> allowed g op -> run_prof fmt_ms op g = Ok (tt, g') -> reachable fmt_ms g'.

(** The part of the invariant that starting again needs. *)
Definition restartable (g : globals) : Prop :=
  0 <= gProfilerGeneration g < 2 ^ 64 - 2 /\
  forall t, -1 <= (tls_of g t).1 /\ ((tls_of g t).2 = 2 ^ 64 - 1 \/ (tls_of g t).2 <= gProfilerGeneration g).

Lemma inv_restartable g : prof_inv g -> gProfilerGeneration g < 2 ^ 64 - 2 -> restartable g.
Proof. intros Hi Hg. pose proof (in_generation _ _ Hi). split; [lia|]. apply (in_tls _ _ Hi). Qed.

Lemma start_restartable : restartable start_globals.
Proof. split; [cbn; lia|]. intros t. unfold tls_of. cbn. rewrite lookup_empty. cbn. lia. Qed.

Lemma Init_ok t now g : settings_ok (settings g) -> restartable g -> exists g', Init t now g = Ok (tt, g') /\ prof_inv g'.
Proof. intros Hs [Hg Ht]. destruct (Init_spec t now g Hs Hg Ht) as (g' & E & Hi & _). eauto. Qed.

Lemma Reset_spec t now g : settings_ok (settings g) -> restartable g -> exists g', Reset t now g = Ok (tt, g') /\ prof_inv g'.
Proof.
  intros Hs [Hg Htls]. unfold Reset. set (g0 := set_tls (<[t := (-1, (tls_of g t).2)]> (tls g)) g).
  rewrite (st_bind_ok _ _ g tt g0) by done. apply Init_ok; [done|]. split; [done|].
  intros t'. subst g0. rewrite tls_of_insert. pose proof (Htls t') as Ht'.
  cbn [gProfilerGeneration set_tls]. case_decide; subst; cbn; lia.
Qed.

Lemma SetProfileSettings_spec t now s g : settings_ok s -> restartable g -> exists g', SetProfileSettings t now s g = Ok (tt, g') /\ prof_inv g'.
Proof.
  intros Hs Hg. unfold SetProfileSettings. rewrite (st_bind_ok _ _ g tt (set_settings s g)) by done. by apply Reset_spec.
Qed.

Lemma default_settings_ok : settings_ok default_settings.
Proof. split; cbn; lia. Qed.

Lemma run_prof_inv fmt_ms op g :
  prof_inv g -> allowed g op ->
  match run_prof fmt_ms op g with Ok (_, g') => prof_inv g' | Err e => e = AssertFail end.
Proof.
  intros Hi Ha. destruct op; cbn [run_prof allowed] in *.
  - by apply PushSectionBase_spec.
  - by apply PopSection_spec.
  - by apply NewFrame_spec.
  - apply (label_spec (fun td => mkThread _ _ _ _ _ _ _ nm _ _)); [|done..]. intros s td. apply slot_label.
  - apply (label_spec (fun td => mkThread _ _ _ _ _ _ true _ _ _)); [|done..]. intros s td. apply slot_label.
  - by apply BeginRegion_spec.
  - by apply EndRegion_spec.
  - change (prof_inv (if negb (Bool.eqb (gPaused g) b) then set_pause (gPaused g) b g else g)).
    destruct (negb _); [by apply inv_pause|done].
  - change (prof_inv (set_limit (i64 z) g)). destruct Hi. by split.
  - destruct (Reset_spec t now g) as (g' & -> & ?); [by apply Hi|by apply inv_restartable|done].
  - destruct (Init_ok t now g) as (g' & -> & ?); [by apply Hi|by apply inv_restartable|done].
  - destruct Ha as [Hs Hg]. destruct (SetProfileSettings_spec t now s g Hs) as (g' & -> & ?); [by apply inv_restartable|done].
  - unfold ShowProfile_pause. rewrite (st_bind_ok st_get _ g g g) by done. cbv zeta.
    destruct (_ || _); [|done]. destruct (if pressed then _ else _).
    + change (prof_inv (set_pause true true g)). by apply inv_pause.
    + cbn [negb]. destruct (Reset_spec t now g) as (g' & Hr & Hi'); [by apply Hi|by apply inv_restartable|].
      rewrite (st_bind_ok _ _ _ _ _ Hr). change (prof_inv (set_pause false false g')). by apply inv_pause.
Qed.

Lemma reachable_inv fmt_ms g : reachable fmt_ms g -> prof_inv g.
Proof.
  induction 1 as [op g Hop Hr|g op g' _ IH Ha Hr].
  - destruct op; try done; cbn [run_prof first_call] in *.
    + destruct (Init_ok t now start_globals default_settings_ok start_restartable) as (g' & E & Hi). rewrite Hr in E. by injection E as ->.
    + destruct (SetProfileSettings_spec t now s start_globals Hop start_restartable) as (g' & E & Hi). rewrite Hr in E. by injection E as ->.
  - pose proof (run_prof_inv fmt_ms op g IH Ha) as H. by rewrite Hr in H.
Qed.

(** ** The viewer *)

(** Walking up from an entry ends at an entry without a parent. *)
Lemma outer_parent_spec s td : slot_ok s td -> Z.of_nat (MaxEntriesPerThread s) < 2 ^ 31 -> forall fuel e,
  0 <= e < currentEntry td -> e <= Z.of_nat fuel ->
  exists r en, outer_parent fuel (entries td) e = Ok r /\ 0 <= r <= e /\
    vget (entries td) r = Some en /\ parent en = no_parent /\ level en = 0.
Proof.
  intros [] Hmax fuel. induction fuel as [|fuel IH]; intros e He Hfuel;
    (destruct (vget_is_Some (entries td) e) as [en Hen]; [lia|]); cbn [outer_parent]; rewrite Hen;
    destruct (sl_entry0 e en He Hen) as [_ [[Hp Hl]|[Hp (pe & Hpe & Hl)]]].
  1,3: exists e, en; rewrite Hp; cbn; split_and!; done || lia.
  - lia.
  - replace (parent en =? no_parent) with false by (unfold no_parent; lia).
    destruct (IH (parent en)) as (r & rn & Hr & Hle & ?); [lia|lia|]. exists r, rn. split; [done|]. split; [lia|done].
Qed.

Lemma step_back_spec es t : forall fuel e,
  0 <= e < Z.of_nat (length es) -> e <= Z.of_nat fuel ->
  exists r, step_back fuel es t e = Ok r /\ 0 <= r <= e.
Proof.
  induction fuel as [|fuel IH]; intros e He Hfuel; cbn [step_back]; (destruct (Z.ltb_spec 0 e); [|exists e; split; [done|lia]]).
  - lia.
  - destruct (vget_is_Some es e) as [en ->]; [lia|]. destruct (t <? endTime en); [|exists e; split; [done|lia]].
    destruct (IH (e - 1)) as (r & Hr & ?); [lia|lia|]. exists r. split; [done|lia].
Qed.

Lemma shown_entries_spec s td t : slot_ok s td -> 0 < currentEntry td ->
  Z.of_nat (MaxEntriesPerThread s) < 2 ^ 31 -> forall fuel e,
  0 <= e -> currentEntry td <= e + Z.of_nat fuel ->
  exists l, shown_entries fuel td t e = Ok l /\ forall x, x ∈ l -> e <= x < currentEntry td.
Proof.
  intros [] Hpos Hmax. assert (u32 (currentEntry td - 1) = currentEntry td - 1) as Hu by (apply wrap_small; unfold in_u; lia).
  induction fuel as [|fuel IH]; intros e He Hfuel; cbn [shown_entries]; rewrite Hu;
    (destruct (Z.ltb_spec e (currentEntry td - 1)); [|exists []; split; [done|intros x Hx; by apply elem_of_nil in Hx]]).
  - lia.
  - destruct (vget_is_Some (entries td) e) as [en ->]; [lia|].
    destruct (startTime en <? t); [|exists []; split; [done|intros x Hx; by apply elem_of_nil in Hx]].
    destruct (IH (e + 1)) as (l & Hl & Hin); [lia|lia|]. rewrite Hl. exists (e :: l). split; [done|].
    intros x [->|Hx]%elem_of_cons; [lia|]. specialize (Hin x Hx). lia.
Qed.

(** The walks over the entries of a thread that a frame lists. *)
Lemma frame_entries_ok c g f info : inv_from c g -> frame_ok (settings g) (gThreadData g) f ->
  info ∈ take (Z.to_nat (frameThreadCount f)) (frameThreads f) ->
  exists td l, vget (gThreadData g) (threadIndex info) = Some td /\ initialized td = true /\
    frame_entries (MaxEntriesPerThread (settings g)) td f (activeEntry info) = Ok l /\
    forall e, e ∈ l -> 0 <= e < currentEntry td.
Proof.
  intros Hi Hf Hinfo. destruct (fr_info _ _ _ Hf _ Hinfo) as (td & Htd & Ha).
  pose proof (in_slot _ _ Hi _ _ Htd) as Hsl. pose proof Hsl as [Hlen _ Hcur _ Hun _ _].
  pose proof (so_entries _ (in_settings _ _ Hi)) as Hmax. set (n := MaxEntriesPerThread (settings g)) in *.
  destruct (outer_parent_spec _ td Hsl Hmax n (activeEntry info) Ha ltac:(lia)) as (r & en & Hp & Hr1 & _).
  destruct (step_back_spec (entries td) (r_startTime (f_base f)) n r ltac:(lia) ltac:(lia)) as (r2 & Hb & Hr2).
  destruct (shown_entries_spec _ td (r_endTime (f_base f)) Hsl ltac:(lia) Hmax n r2 ltac:(lia) ltac:(lia)) as (l & Hl & Hin).
  exists td, l. split; [done|]. split; [destruct (initialized td); [done|specialize (Hun eq_refl); lia]|].
  split; [|intros e He; specialize (Hin e He); lia]. unfold frame_entries. rewrite Hp. cbn. rewrite Hb. cbn. done.
Qed.

(** *** The visible frames *)

Section Visible.
Context (g : globals).

Definition start_of (k : Z) : Z := match vget (gFrameData g) k with Some f => r_startTime (f_base f) | None => 0 end.
Definition end_of (k : Z) : Z := match vget (gFrameData g) k with Some f => r_endTime (f_base f) | None => 0 end.

(** Frames 0 to [n] - 1 follow each other. *)
Definition consecutive (n : Z) : Prop :=
  n <= Z.of_nat (length (gFrameData g)) /\
  (forall k, 0 <= k < n - 1 -> end_of k = start_of (k + 1)) /\
  (forall k, 0 <= k < n - 1 -> start_of k <= end_of k).

Lemma frame_up_spec n limit t : consecutive n -> limit <= n - 2 -> forall fuel y,
  0 <= y <= limit -> limit - y <= Z.of_nat fuel ->
  exists r, frame_up fuel limit t y g = Ok (r, g) /\ y <= r <= limit /\ (r = limit \/ t <= end_of r).
Proof.
  intros (Hlen & _) Hlim. induction fuel as [|fuel IH]; intros y Hy Hfuel; cbn [frame_up];
    (destruct (Z.ltb_spec y limit); [|exists y; split; [done|lia]]).
  - lia.
  - destruct (vget_is_Some (gFrameData g) y) as [f Hf]; [lia|].
    rewrite (st_bind_ok _ _ _ _ _ (get_frame_ok _ _ _ Hf)).
    destruct (Z.ltb_spec (r_endTime (f_base f)) t) as [Ht|Ht].
    + destruct (IH (y + 1)) as (r & Hr & ? & ?); [lia|lia|]. exists r. split; [done|]. split; [lia|done].
    + exists y. split; [done|]. split; [lia|]. right. unfold end_of. by rewrite Hf.
Qed.

Lemma frame_down_spec n limit t : consecutive n -> limit <= n - 2 -> forall fuel y,
  0 <= y <= limit -> y <= Z.of_nat fuel -> (y = limit \/ t <= end_of y) ->
  exists r, frame_down fuel 0 t y g = Ok (r, g) /\ 0 <= r <= limit /\
    (r = limit \/ t <= end_of r) /\ (r = 0 \/ start_of r <= t).
Proof.
  intros (Hlen & Hnext & Hord) Hlim. induction fuel as [|fuel IH]; intros y Hy Hfuel Hend; cbn [frame_down];
    (destruct (Z.ltb_spec 0 y); [|exists y; split; [done|split; [lia|split; [done|lia]]]]).
  - lia.
  - destruct (vget_is_Some (gFrameData g) y) as [f Hf]; [lia|].
    rewrite (st_bind_ok _ _ _ _ _ (get_frame_ok _ _ _ Hf)).
    destruct (Z.ltb_spec t (r_startTime (f_base f))) as [Ht|Ht].
    + apply IH; [lia|lia|]. right. rewrite Hnext by lia. replace (y - 1 + 1) with y by lia.
      unfold start_of. rewrite Hf. lia.
    + exists y. split; [done|]. split; [lia|]. split; [done|]. right. unfold start_of. by rewrite Hf.
Qed.

(** Times do not decrease from frame to frame. *)
Lemma start_mono n : consecutive n -> forall j k, 0 <= j -> j < k < n -> end_of j <= start_of k.
Proof.
  intros (_ & Hnext & Hord) j k Hj Hk. remember (Z.to_nat (k - j - 1)) as d eqn:Ed. revert k Hk Ed.
  induction d as [|d IH]; intros k Hk Ed.
  - replace k with (j + 1) by lia. rewrite Hnext by lia. done.
  - etrans; [apply (IH (k - 1)); lia|]. etrans; [apply Hord; lia|].
    rewrite Hnext by lia. by replace (k - 1 + 1) with k by lia.
Qed.

End Visible.

Lemma clamp_ok g v lo hi : lo <= hi -> clamp v lo hi g = Ok (Z.max lo (Z.min v hi), g).
Proof.
  intros Hhi. unfold clamp. replace (hi <? lo) with false by lia. unfold mret, ST_ret. f_equal. f_equal.
  destruct (Z.ltb_spec v lo), (Z.ltb_spec hi v); lia.
Qed.

(** The range stored by [UpdateVisibleFrameRange] when the frames follow each
    other in time. *)
Lemma UpdateVisibleFrameRange_spec g :
  2 <= gCurrentFrame g < 2 ^ 31 -> consecutive g (gCurrentFrame g) ->
  exists x y, UpdateVisibleFrameRange (Z.to_nat (gCurrentFrame g)) g =
      Ok (tt, set_view (gTimeRange g) (x, y + 1) g) /\
    0 <= x <= gCurrentFrame g - 2 /\ 0 <= y <= gCurrentFrame g - 2 /\
    forall k, 0 <= k <= gCurrentFrame g - 2 -> ~ (x <= k <= y) ->
      end_of g k <= (gTimeRange g).1 \/ (gTimeRange g).2 <= start_of g k.
Proof.
  intros Hn Hc. set (n := gCurrentFrame g) in *. set (lim := n - 2).
  assert (i32 (u32 (n - 2)) = lim) as Hlim.
  { rewrite wrap_small by (unfold in_u; lia). unfold swrap. rewrite Z.mod_small; lia. }
  unfold UpdateVisibleFrameRange.
  rewrite (st_bind_ok _ _ g tt g).
  2:{ unfold Profiler.modify. rewrite (st_bind_ok st_get _ g g g) by done. fold n. by replace (n <? 2) with false by lia. }
  rewrite (st_bind_ok st_get _ g g g) by done. cbv zeta. fold n. rewrite Hlim.
  rewrite (st_bind_ok _ _ _ _ _ (clamp_ok g (gVisibleFrames g).1 0 0 ltac:(lia))). set (x0 := Z.max 0 _).
  rewrite (st_bind_ok _ _ _ _ _ (clamp_ok g (gVisibleFrames g).2 0 lim ltac:(lia))). set (y0 := Z.max 0 _).
  destruct (frame_up_spec g n lim (gTimeRange g).2 Hc ltac:(lia) (Z.to_nat n) y0 ltac:(lia) ltac:(lia)) as (y1 & Hy1 & ? & Ey1).
  rewrite (st_bind_ok _ _ _ _ _ Hy1).
  destruct (frame_down_spec g n lim (gTimeRange g).2 Hc ltac:(lia) (Z.to_nat n) y1 ltac:(lia) ltac:(lia) Ey1) as (y & Hy & Hyr & Hy2 & _).
  rewrite (st_bind_ok _ _ _ _ _ Hy).
  destruct (frame_up_spec g n lim (gTimeRange g).1 Hc ltac:(lia) (Z.to_nat n) x0 ltac:(lia) ltac:(lia)) as (x1 & Hx1 & ? & Ex1).
  rewrite (st_bind_ok _ _ _ _ _ Hx1).
  destruct (frame_down_spec g n lim (gTimeRange g).1 Hc ltac:(lia) (Z.to_nat n) x1 ltac:(lia) ltac:(lia) Ex1) as (x & Hx & Hxr & _ & Hx2).
  rewrite (st_bind_ok _ _ _ _ _ Hx).
  exists x, y. split; [done|]. split; [lia|]. split; [lia|]. intros k Hk Hout.
  destruct (decide (k < x)) as [Hkx|Hkx].
  - left. destruct Hx2 as [->|Hx2]; [lia|]. etrans; [|exact Hx2]. apply (start_mono g n Hc); lia.
  - right. assert (y < k) by lia. destruct Hy2 as [->|Hy2]; [lia|]. etrans; [exact Hy2|].
    apply (start_mono g n Hc); lia.
Qed.

(** A range of times moved into [minT..maxT]: a range of less than a microsecond
    becomes one of a microsecond, a longer one keeps its length as far as there
    is room. *)
Definition shown (minT maxT : Z) (range : Z * Z) : Z * Z :=
  let '(x, y) := range in
  if y - x <? 1000 then (Z.max minT (Z.min x (maxT - 1000)), Z.max minT (Z.min x (maxT - 1000)) + 1000)
  else if x <? minT then (minT, Z.min maxT (minT + (y - x)))
  else if maxT <? y then (Z.max minT (maxT - (y - x)), maxT)
  else (x, y).

(** At least a microsecond of the time from [minT] to [maxT]. *)
Definition in_view (minT maxT : Z) (range : Z * Z) : Prop := minT <= range.1 /\ range.2 <= maxT /\ 1000 <= range.2 - range.1.

Lemma shown_in_view minT maxT range : minT + 1000 <= maxT -> in_view minT maxT (shown minT maxT range).
Proof.
  intros Hm. destruct range as [x y]. unfold in_view, shown.
  destruct (Z.ltb_spec (y - x) 1000), (Z.ltb_spec x minT), (Z.ltb_spec maxT y); cbn [fst snd]; lia.
Qed.

Lemma shown_same minT maxT range : in_view minT maxT range -> shown minT maxT range = range.
Proof.
  destruct range as [x y]. unfold in_view, shown. cbn [fst snd]. intros (H1 & H2 & H3).
  destruct (Z.ltb_spec (y - x) 1000), (Z.ltb_spec x minT), (Z.ltb_spec maxT y); lia || done.
Qed.

(** The range before it is cut at both ends. *)
Definition moved_in (minT maxT : Z) (p : Z * Z) : Z * Z :=
  if p.1 <? minT then (minT, p.2 + (minT - p.1)) else if maxT <? p.2 then (p.1 - (p.2 - maxT), maxT) else p.

(** Run one checked step of the times whose value is in range. *)
Ltac time_step := erewrite st_lift_ok by (apply s_check_64; lia).

Lemma setTimeRange_spec NDEBUG minT maxT x y g :
  0 <= minT -> minT + 1000 <= maxT < 2 ^ 61 -> NDEBUG = true \/ x <= y -> - 2 ^ 61 <= x < 2 ^ 62 -> - 2 ^ 61 <= y < 2 ^ 62 ->
  setTimeRange NDEBUG minT maxT (x, y) g = Ok (tt, set_view (shown minT maxT (x, y)) (gVisibleFrames g) g).
Proof.
  intros H0 Hm Hxy Hx Hy. unfold setTimeRange.
  rewrite (st_bind_ok _ _ g tt g) by (apply st_assert_ok; intros ->; destruct Hxy; [done|]; by replace (x <=? y) with true by lia).
  rewrite (st_bind_ok _ _ g (y - x <? 1000) g).
  2:{ destruct (Z.ltb_spec y x); [by replace (y - x <? 1000) with true by lia|]. by repeat time_step. }
  set (p := if y - x <? 1000 then (Z.max minT (Z.min x (maxT - 1000)), Z.max minT (Z.min x (maxT - 1000)) + 1000) else (x, y)).
  rewrite (st_bind_ok _ _ g p g).
  2:{ subst p. destruct (_ <? 1000); [|done]. time_step. rewrite (st_bind_ok _ _ _ _ _ (clamp_ok g x minT (maxT - 1000) ltac:(lia))). by time_step. }
  assert (- 2 ^ 61 <= p.1 < 2 ^ 62 /\ - 2 ^ 61 <= p.2 < 2 ^ 62 /\ 1000 <= p.2 - p.1) as Hp by (subst p; destruct (Z.ltb_spec (y - x) 1000); cbn; lia).
  assert (Z.max minT (Z.min (moved_in minT maxT p).1 maxT) = (shown minT maxT (x, y)).1 /\
    Z.max minT (Z.min (moved_in minT maxT p).2 maxT) = (shown minT maxT (x, y)).2) as [E1 E2].
  { subst p. unfold shown, moved_in. destruct (Z.ltb_spec (y - x) 1000); cbn [fst snd]; repeat case_match; cbn [fst snd]; lia. }
  destruct p as [a b]. cbn [fst snd] in Hp. rewrite (st_bind_ok _ _ g (moved_in minT maxT (a, b)) g).
  2:{ unfold moved_in. cbn [fst snd]. destruct (Z.ltb_spec a minT); [|destruct (Z.ltb_spec maxT b)]; [repeat time_step..|done].
      all: unfold mret, ST_ret; do 3 f_equal; lia. }
  destruct (moved_in minT maxT (a, b)) as [c e]. pose proof (shown_in_view minT maxT (x, y) ltac:(lia)) as (V1 & V2 & V3).
  destruct (shown minT maxT (x, y)) as [x' y']. cbn [fst snd] in *.
  rewrite (st_bind_ok _ _ _ _ _ (clamp_ok g c minT maxT ltac:(lia))), (st_bind_ok _ _ _ _ _ (clamp_ok g e minT maxT ltac:(lia))), E1, E2.
  time_step. rewrite (st_bind_ok _ _ g tt g) by (apply st_assert_ok; intros _; by replace (1000 <=? _) with true by lia). done.
Qed.

(** ** Properties *)

(** C2. Memory safety and isolation of the profiler. From the first [Init] or
    [SetProfileSettings] on, and up to [Finish], whatever threads record, name,
    hide, pause, reset, initialise again or change the settings, in whatever
    order, a debug build never reads or writes out of bounds: every call
    returns, or fails one of the assertions that guard the number of threads
    and the depth of sections. The one call that is not allowed is [NewFrame]
    by a thread whose index is not that of an element of the thread table, which
    reads outside it ([NewFrame_new_thread], [NewFrame_fewer_threads]). In every
    state reached the buffers have their sizes, each thread's entries form a
    forest in which a child has a later index than its parent and the level
    below, the threads listed in a frame are different, and two threads that are
    recording never share a slot. Settings have a maximal depth of at most 50,
    the size of the stack that [Init] makes, and sizes that fit in 31 bits. *)
Theorem profiler_safe fmt_ms g op :
  reachable fmt_ms g -> allowed g op ->
  prof_inv g /\
  match run_prof fmt_ms op g with Ok (_, g') => reachable fmt_ms g' | Err e => e = AssertFail end.
Proof.
  intros Hr Ha. pose proof (reachable_inv _ _ Hr) as Hi. split; [done|].
  pose proof (run_prof_inv fmt_ms op g Hi Ha) as H.
  destruct (run_prof fmt_ms op g) as [[[] g']|e] eqn:E; [|done]. by eapply reach_step.
Qed.

(** The depth of sections is only checked by an assertion against a
    setting, not against the 50 places of the stack: at depth 50 a release
    build, and a debug build whose [MaxCallStack] is larger than 50, write
    past the end. *)
Theorem PushSection_overflows NDEBUG g t i td now section file col ln :
  prof_inv (set_settings (mkSettings (MaxThreads (settings g)) 50 (MaxEntriesPerThread (settings g))
     (MaxFrames (settings g)) (MaxRegions (settings g))) g) ->
  gPaused g = false -> tls_of g t = (i, gProfilerGeneration g) -> i <> -1 ->
  vget (gThreadData g) i = Some td -> callStackDepth td = 50 ->
  currentEntry td < Z.of_nat (MaxEntriesPerThread (settings g)) ->
  gCurrentFrame g < Z.of_nat (MaxFrames (settings g)) ->
  gCurrentRegion g < Z.of_nat (MaxRegions (settings g)) ->
  (NDEBUG = true \/ 50 < MaxCallStack (settings g)) ->
  PushSectionBase NDEBUG t now (Some section) (Some file) col ln g = Err UB.
Proof.
  intros Hi Hp Ht Hn Htd Hd Hc Hf Hr Hmode. pose proof (in_slot _ _ Hi _ _ Htd) as [Hel Hsl Hcur _ _ _ _].
  cbn [settings set_settings MaxEntriesPerThread] in *.
  unfold PushSectionBase. rewrite (st_bind_ok st_get _ g g g), Hp by done.
  assert (GetThreadData NDEBUG t g = Ok (i, g)) as HG.
  { unfold GetThreadData. rewrite (st_bind_ok _ _ g tt g).
    - rewrite (st_bind_ok st_get _ g g g) by done. rewrite Ht. cbn [fst].
      rewrite (proj2 (Z.eqb_neq _ _) Hn), st_ret_bind, (st_bind_ok st_get _ g g g) by done. rewrite Ht. cbn [fst].
      by rewrite (st_bind_ok _ _ _ _ _ (get_thread_ok _ _ _ Htd)).
    - unfold Profiler.modify. rewrite (st_bind_ok st_get _ g g g) by done. rewrite Ht. cbn [snd]. by rewrite Z.eqb_refl. }
  rewrite (st_bind_ok _ _ _ _ _ HG).
  assert (CheckEndState t g = Ok (false, g)) as HC.
  { unfold CheckEndState. rewrite (st_bind_ok st_get _ g g g) by done. rewrite Ht. cbn [fst].
    rewrite (st_bind_ok _ _ _ _ _ (get_thread_ok _ _ _ Htd)). cbv zeta.
    replace (_ <=? currentEntry td) with false by lia. replace (_ <=? gCurrentFrame g) with false by lia.
    replace (_ <=? gCurrentRegion g) with false by lia. unfold st_get. unfold mbind, ST_bind, mret, ST_ret. by rewrite Hp. }
  rewrite (st_bind_ok _ _ _ _ _ HC), (st_bind_ok _ _ _ _ _ (get_thread_ok _ _ _ Htd)), (st_bind_ok st_get _ g g g) by done.
  rewrite (st_bind_ok _ _ g tt g), Hp.
  - destruct (vget_is_Some (entries td) (currentEntry td)) as [x Hx]; [lia|]. rewrite Hx, (st_bind_ok _ _ g x g) by done.
    rewrite Hd. assert (vget (entryStack td) 50 = None) as ->; [|done].
    unfold vget. cbn. apply lookup_ge_None_2. rewrite Hsl. lia.
  - apply st_assert_ok. intros ->. destruct Hmode as [|Hm]; [done|]. rewrite Hd. by replace (50 <? _) with true by lia.
Qed.

(** [NewFrame] does not look up the calling thread's slot: called by a
    thread that has recorded nothing yet, it reads element -1 of the thread
    table. *)
Theorem NewFrame_new_thread fmt_ms g t now :
  gPaused g = false -> (tls_of g t).1 = -1 -> NewFrame fmt_ms t now g = Err UB.
Proof.
  intros Hp Ht. unfold NewFrame. rewrite (st_bind_ok st_get _ g g g), Hp by done. apply st_bind_err.
  unfold CheckEndState. rewrite (st_bind_ok st_get _ g g g), Ht by done. done.
Qed.

(** The index outlives the table: after new settings with fewer threads, a
    thread that had one of the last slots and has recorded nothing since reads
    behind the end of the table. *)
Theorem NewFrame_fewer_threads fmt_ms g t now :
  prof_inv g -> gPaused g = false -> Z.of_nat (MaxThreads (settings g)) <= (tls_of g t).1 -> NewFrame fmt_ms t now g = Err UB.
Proof.
  intros Hi Hp Ht. unfold NewFrame. rewrite (st_bind_ok st_get _ g g g), Hp by done. apply st_bind_err.
  unfold CheckEndState. rewrite (st_bind_ok st_get _ g g g) by done. apply st_bind_err.
  unfold get_thread. rewrite (st_bind_ok st_get _ g g g) by done. unfold vget. replace (_ <? 0) with false by lia.
  rewrite lookup_ge_None_2; [done|]. rewrite (in_threads _ _ Hi). lia.
Qed.

(** [Finish] clears the thread table and does not pause: the next frame reads
    outside it. *)
Theorem Finish_then_NewFrame fmt_ms g t now : gPaused g = false -> (Finish;; NewFrame fmt_ms t now) g = Err UB.
Proof.
  intros Hp. unfold Finish. rewrite (st_bind_ok _ _ g tt (set_threads [] g)) by done. unfold NewFrame.
  rewrite (st_bind_ok st_get _ _ _ (set_threads [] g)) by done. cbn [gPaused set_threads]. rewrite Hp. apply st_bind_err.
  unfold CheckEndState. rewrite (st_bind_ok st_get _ _ _ (set_threads [] g)) by done. apply st_bind_err.
  unfold get_thread. rewrite (st_bind_ok st_get _ _ _ (set_threads [] g)) by done. cbn. unfold vget. by destruct (_ <? 0).
Qed.

(** ** Concrete runs *)

Definition demo_settings : ProfileSettings := mkSettings 3 50 60 4 4.
Definition demo_fmt (z : Z) : str := to_string z.

Definition from_ok (r : result stop (unit * globals)) : globals :=
  match r with Ok (_, g) => g | Err _ => start_globals end.

Definition demo_start : globals := from_ok (SetProfileSettings 0 100 demo_settings start_globals).

Lemma demo_settings_ok : settings_ok demo_settings.
Proof. split; cbn; lia. Qed.

Lemma demo_start_reachable : reachable demo_fmt demo_start.
Proof. apply (reach_start demo_fmt (OpSettings 0 100 demo_settings)); [apply demo_settings_ok|reflexivity]. Qed.

(** Sections pushed one inside the other by thread 0. *)
Definition demo_push : prof_op := OpPush 0 200 (Some (lit "s")) (Some (lit "f")) 0 1.

Fixpoint run_all (ops : list prof_op) (g : globals) : result stop (unit * globals) :=
  match ops with
  | [] => Ok (tt, g)
  | op :: ops => match run_prof demo_fmt op g with Ok (_, g') => run_all ops g' | Err e => Err e end
  end.

Lemma reach_run ops : forall g g',
  reachable demo_fmt g -> Forall (fun op => forall g, allowed g op) ops -> run_all ops g = Ok (tt, g') ->
  reachable demo_fmt g'.
Proof.
  induction ops as [|op ops IH]; intros g g' Hg Ha Hr; [by injection Hr as <-|].
  apply Forall_cons in Ha as [Ha Has]. cbn [run_all] in Hr.
  destruct (run_prof demo_fmt op g) as [[[] g1]|] eqn:E; [|done].
  eapply IH; [|done|exact Hr]. by eapply reach_step.
Qed.

Definition demo_deep : globals := from_ok (run_all (replicate 50 demo_push) demo_start).

Lemma demo_deep_reachable : reachable demo_fmt demo_deep.
Proof.
  eapply (reach_run (replicate 50 demo_push)); [apply demo_start_reachable| |by vm_compute].
  apply Forall_replicate. done.
Qed.

(** New settings in the middle of a run. *)
Lemma profiler_safe_witness :
  prof_inv demo_deep /\
  match run_prof demo_fmt (OpSettings 0 300 demo_settings) demo_deep with
  | Ok (_, g') => reachable demo_fmt g' | Err e => e = AssertFail end.
Proof.
  apply (profiler_safe demo_fmt demo_deep (OpSettings 0 300 demo_settings) demo_deep_reachable).
  split; [apply demo_settings_ok|by vm_compute].
Defined.

Lemma set_settings_same g :
  MaxCallStack (settings g) = 50 ->
  set_settings (mkSettings (MaxThreads (settings g)) 50 (MaxEntriesPerThread (settings g))
     (MaxFrames (settings g)) (MaxRegions (settings g))) g = g.
Proof. destruct g as [[]]. cbn. by intros ->. Qed.

Lemma PushSection_overflows_witness :
  PushSectionBase true 0 500 (Some (lit "s")) (Some (lit "f")) 0 1 demo_deep = Err UB.
Proof.
  eapply (PushSection_overflows true demo_deep 0 1 _ 500 (lit "s") (lit "f") 0 1);
    [rewrite set_settings_same by (by vm_compute); exact (reachable_inv _ _ demo_deep_reachable)|by vm_compute|by vm_compute|done|by vm_compute|by vm_compute|by vm_compute..|by left].
Defined.

Lemma NewFrame_new_thread_witness : NewFrame demo_fmt 5 300 demo_start = Err UB.
Proof. apply (NewFrame_new_thread demo_fmt demo_start 5 300); by vm_compute. Defined.
