(* ===== verification/Containers.v ===== *)
(** * Containers and the ring iterator

    The templates of include/mutils/algorithm/container_utils.h on vectors
    (lists) and maps (association lists in key order, or [gmap]), and
    [RingIterator] of include/mutils/algorithm/ringiterator.h. An iterator is
    an offset from the beginning of its container; forming one past the end
    is undefined. Callbacks are functions on a client state [S]. *)

From S2P Require Import Prelude.

Section Algorithms.
Context {A : Type}.

(** [accumulate_pairs] *)
Fixpoint accumulate_pairs {N} (fn : N -> A -> A -> N) (l : list A) (c : N) : N :=
  match l with
  | [] => c
  | x :: l => accumulate_pairs fn l (foldl (fun c y => fn (fn c x y) y x) c l)
  end.

(** One row of [container_test_pairs]: [false] when the callback asked to stop. *)
Fixpoint test_row {S} (fn : A -> S -> bool * S) (l : list A) (s : S) : bool * S :=
  match l with
  | [] => (true, s)
  | y :: l => match fn y s with (true, s) => test_row fn l s | (false, s) => (false, s) end
  end.

Fixpoint container_test_pairs {S} (fn : A -> A -> S -> bool * S) (l : list A) (s : S) : S :=
  match l with
  | [] => s
  | x :: l => match test_row (fn x) l s with
              | (true, s) => container_test_pairs fn l s
              | (false, s) => s
              end
  end.

Fixpoint triples_row {S} (fn : A -> A -> S -> bool * S) (l : list A) (s : S) : bool * S :=
  match l with
  | [] => (true, s)
  | y :: l => match test_row (fn y) l s with (true, s) => triples_row fn l s | (false, s) => (false, s) end
  end.

Fixpoint container_test_triples {S} (fn : A -> A -> A -> S -> bool * S) (l : list A) (s : S) : S :=
  match l with
  | [] => s
  | x :: l => match triples_row (fn x) l s with
              | (true, s) => container_test_triples fn l s
              | (false, s) => s
              end
  end.

(** [container_splice] on a container of [n] elements: the pairs of offsets
    handed to the callback. *)
Fixpoint splice_loop (fuel : nat) (n size itr itr2 : Z) : result stop (list (Z * Z)) :=
  if itr2 <? n then
    if n - itr2 <? size then Ok [(itr, itr2)]
    else match fuel with
    | O => Err OutOfFuel
    | S fuel => l ← splice_loop fuel n size (itr + size) (itr2 + size); mret ((itr, itr2) :: l)
    end
  else Ok [].

Definition container_splice (fuel : nat) (n itrStart size : Z) : result stop (list (Z * Z)) :=
  if (n <? itrStart + size) || (itrStart + size <? 0) then Err UB
  else splice_loop fuel n size itrStart (itrStart + size).

(** [container_erase_if] on a sequence: erase where the predicate holds, else advance. *)
Fixpoint container_erase_if (predicate : A -> bool) (fuel : nat) (items : list A) (it : nat) : result stop (list A) :=
  match items !! it with
  | None => Ok items
  | Some x =>
      match fuel with
      | O => Err OutOfFuel
      | S fuel =>
          if predicate x then container_erase_if predicate fuel (delete it items) it
          else container_erase_if predicate fuel items (S it)
      end
  end.

Definition map_all (functor : A -> A) (iterable : list A) : list A := map functor iterable.

End Algorithms.

Section Maps.
Context {K V : Type} `{Countable K}.

(** [vector_convert_to_pairs], from offset [first]. With one value left, the
    second iterator is the end and is then incremented. *)
Fixpoint convert_loop (l : list K) (pairs : gmap K K) : result stop (gmap K K) :=
  match l with
  | [] => Ok pairs
  | [_] => Err UB
  | a :: b :: l => convert_loop l (<[a := b]> pairs)
  end.

Definition vector_convert_to_pairs (vals : list K) : result stop (gmap K K) := convert_loop vals ∅.

Definition map_get_with_default (m : gmap K V) (key : K) (defval : V) : V :=
  match m !! key with None => defval | Some v => v end.

Definition map_apply (m : gmap K V) (key : K) (defVal : V) (fn : V -> V) : gmap K V :=
  match m !! key with
  | None => <[key := fn defVal]> (<[key := defVal]> m)
  | Some v => <[key := fn v]> m
  end.

(** Iteration over a [std::map] is in key order: the entries are a list. *)
Fixpoint filter_map_to_vector (iterable : list (K * V)) (functor : K * V -> bool) : list V :=
  match iterable with
  | [] => []
  | e :: l => if functor e then e.2 :: filter_map_to_vector l functor else filter_map_to_vector l functor
  end.

Fixpoint filter_map_to_set `{Countable V} (iterable : list (K * V)) (functor : K * V -> bool) (out : gset V) : gset V :=
  match iterable with
  | [] => out
  | e :: l => filter_map_to_set l functor (if functor e then {[e.2]} ∪ out else out)
  end.

End Maps.

(** ** RingIterator *)

Module Ring.

Record RingIterator : Type := mkRing { cursor : Z; begin_ : Z; end_ : Z }.

(** The four constructors, for a container of [n] elements. *)
Definition make (n : Z) : RingIterator := mkRing 0 0 n.
Definition make_at (n i : Z) : RingIterator := mkRing i 0 n.
Definition make_range (i j : Z) : RingIterator := mkRing i i j.
Definition make_index (n i : Z) : result stop RingIterator :=
  if n =? 0 then Err UB else Ok (mkRing (i mod n) 0 n).

Definition equal (r x : RingIterator) : bool := cursor r =? cursor x.

(** [++cursor; if (cursor == end) cursor = begin]; incrementing the end of
    the container is undefined. *)
Definition incr (n : Z) (r : RingIterator) : result stop RingIterator :=
  if n <=? cursor r then Err UB
  else let c := cursor r + 1 in
       Ok (mkRing (if c =? end_ r then begin_ r else c) (begin_ r) (end_ r)).

(** [if (cursor == begin) cursor = end; --cursor] *)
Definition decr (r : RingIterator) : result stop RingIterator :=
  let c := if cursor r =? begin_ r then end_ r else cursor r in
  if c <=? 0 then Err UB else Ok (mkRing (c - 1) (begin_ r) (end_ r)).

Fixpoint plus (n : Z) (count : nat) (r : RingIterator) : result stop RingIterator :=
  match count with O => Ok r | S k => r ← incr n r; plus n k r end.

Fixpoint minus (count : nat) (r : RingIterator) : result stop RingIterator :=
  match count with O => Ok r | S k => r ← decr r; minus k r end.

(** [insert], [erase] and [insertAfter]: the container and the iterator returned. *)
Definition insert_at {A} (i : Z) (x : A) (data : list A) : list A :=
  take (Z.to_nat i) data ++ x :: drop (Z.to_nat i) data.

Definition insert {A} (data : list A) (r : RingIterator) (x : A) : list A * RingIterator :=
  let d := insert_at (cursor r) x data in (d, make_at (Z.of_nat (length d)) (cursor r)).

Definition erase {A} (data : list A) (r : RingIterator) : result stop (list A * RingIterator) :=
  if Z.of_nat (length data) <=? cursor r then Err UB
  else let d := delete (Z.to_nat (cursor r)) data in Ok (d, make_at (Z.of_nat (length d)) (cursor r)).

Definition insertAfter {A} (data : list A) (r : RingIterator) (x : A) : list A * RingIterator :=
  if negb (cursor r =? end_ r) then
    let d := insert_at (cursor r + 1) x data in (d, make_at (Z.of_nat (length d)) (cursor r + 1))
  else
    let d := insert_at (cursor r) x data in (d, make_at (Z.of_nat (length d)) (cursor r)).

(** An iterator inside a non-empty range of a container of [n] elements. *)
Definition ok (n : Z) (r : RingIterator) : Prop :=
  0 <= begin_ r /\ begin_ r <= cursor r < end_ r /\ end_ r <= n.

Definition offset (r : RingIterator) : Z := cursor r - begin_ r.
Definition size (r : RingIterator) : Z := end_ r - begin_ r.

Lemma incr_spec n r :
  ok n r -> exists r', incr n r = Ok r' /\ ok n r' /\ begin_ r' = begin_ r /\ end_ r' = end_ r /\
    offset r' = (offset r + 1) mod size r.
Proof.
  intros (Hb & Hc & He). unfold incr. replace (n <=? cursor r) with false by lia.
  eexists. split; [reflexivity|]. unfold ok, offset, size. cbn.
  destruct (Z.eqb_spec (cursor r + 1) (end_ r)) as [E|E].
  - replace (cursor r - begin_ r + 1) with (end_ r - begin_ r) by lia. rewrite Z.mod_same by lia.
    split_and!; lia.
  - rewrite Z.mod_small by lia. split_and!; lia.
Qed.

Lemma decr_spec n r :
  ok n r -> exists r', decr r = Ok r' /\ ok n r' /\ begin_ r' = begin_ r /\ end_ r' = end_ r /\
    offset r' = (offset r - 1) mod size r.
Proof.
  intros (Hb & Hc & He). unfold decr. destruct (Z.eqb_spec (cursor r) (begin_ r)) as [E|E].
  - replace (end_ r <=? 0) with false by lia. eexists. split; [reflexivity|]. unfold ok, offset, size. cbn.
    assert ((cursor r - begin_ r - 1) mod (end_ r - begin_ r) = end_ r - begin_ r - 1) as ->.
    { symmetry. apply (Z.mod_unique _ _ (-1)); lia. }
    split_and!; lia.
  - replace (cursor r <=? 0) with false by lia. eexists. split; [reflexivity|]. unfold ok, offset, size. cbn.
    rewrite Z.mod_small by lia. split_and!; lia.
Qed.

Lemma plus_spec n : forall k r,
  ok n r -> exists r', plus n k r = Ok r' /\ ok n r' /\ begin_ r' = begin_ r /\ end_ r' = end_ r /\
    offset r' = (offset r + Z.of_nat k) mod size r.
Proof.
  induction k as [|k IH]; intros r Hr.
  - exists r. split_and!; try done. rewrite Z.add_0_r, Z.mod_small; [done|]. unfold ok, offset, size in *. lia.
  - destruct (incr_spec n r Hr) as (r1 & E1 & Hr1 & Hb1 & He1 & Ho1). cbn [plus]. rewrite E1.
    destruct (IH r1 Hr1) as (r' & E & Hr' & Hb & He & Ho). exists r'. split_and!; [exact E|done|congruence..|].
    assert (size r1 = size r) as Hs by (unfold size; congruence).
    rewrite Ho, Ho1, Hs, Z.add_mod_idemp_l; [f_equal; lia|]. unfold ok, size in *. lia.
Qed.

Lemma minus_spec n : forall k r,
  ok n r -> exists r', minus k r = Ok r' /\ ok n r' /\ begin_ r' = begin_ r /\ end_ r' = end_ r /\
    offset r' = (offset r - Z.of_nat k) mod size r.
Proof.
  induction k as [|k IH]; intros r Hr.
  - exists r. split_and!; try done. rewrite Z.sub_0_r, Z.mod_small; [done|]. unfold ok, offset, size in *. lia.
  - destruct (decr_spec n r Hr) as (r1 & E1 & Hr1 & Hb1 & He1 & Ho1). cbn [minus]. rewrite E1.
    destruct (IH r1 Hr1) as (r' & E & Hr' & Hb & He & Ho). exists r'. split_and!; [exact E|done|congruence..|].
    assert (size r1 = size r) as Hs by (unfold size; congruence).
    rewrite Ho, Ho1, Hs. rewrite Zminus_mod_idemp_l. f_equal. lia.
Qed.

Lemma ring_eq r r' : begin_ r = begin_ r' -> end_ r = end_ r' -> offset r = offset r' -> r = r'.
Proof. destruct r, r'. unfold offset. cbn. intros. f_equal; lia. Qed.

(** A ring iterator over a non-empty range is arithmetic modulo the size
    of the range: [k] steps forward or back never leave the range, move the
    offset by [k] modulo the size, and undo each other. *)
Theorem ring_arithmetic n k r :
  ok n r ->
  (exists r1, plus n k r = Ok r1 /\ ok n r1 /\ offset r1 = (offset r + Z.of_nat k) mod size r /\ minus k r1 = Ok r) /\
  (exists r2, minus k r = Ok r2 /\ ok n r2 /\ offset r2 = (offset r - Z.of_nat k) mod size r /\ plus n k r2 = Ok r).
Proof.
  intros Hr. assert (0 <= offset r < size r) as Ho by (unfold ok, offset, size in *; lia). split.
  - destruct (plus_spec n k r Hr) as (r1 & E & Hr1 & Hb & He & Ho1). exists r1. split_and!; [done..|].
    destruct (minus_spec n k r1 Hr1) as (r2 & E2 & _ & Hb2 & He2 & Ho2). rewrite E2. f_equal.
    assert (size r1 = size r) as Hs by (unfold size; congruence).
    apply ring_eq; [congruence..|]. rewrite Ho2, Ho1, Hs, Zminus_mod_idemp_l, Z.mod_small; lia.
  - destruct (minus_spec n k r Hr) as (r1 & E & Hr1 & Hb & He & Ho1). exists r1. split_and!; [done..|].
    destruct (plus_spec n k r1 Hr1) as (r2 & E2 & _ & Hb2 & He2 & Ho2). rewrite E2. f_equal.
    assert (size r1 = size r) as Hs by (unfold size; congruence).
    apply ring_eq; [congruence..|]. rewrite Ho2, Ho1, Hs, Z.add_mod_idemp_l, Z.mod_small; lia.
Qed.

Lemma ring_arithmetic_witness :
  exists r1, plus 5 7 (mkRing 4 1 5) = Ok r1 /\ ok 5 r1 /\ offset r1 = 2 /\ minus 7 r1 = Ok (mkRing 4 1 5).
Proof. apply (ring_arithmetic 5 7 (mkRing 4 1 5)). unfold ok. cbn. lia. Defined.

(** Erasing the last element of the container returns an iterator at the end,
    not at the beginning; it cannot be stepped forward. *)
Theorem ring_erase_last {A} (data : list A) x :
  exists r, erase (data ++ [x]) (make_at (Z.of_nat (length (data ++ [x]))) (Z.of_nat (length data))) = Ok (data, r) /\
    cursor r = end_ r /\ incr (Z.of_nat (length data)) r = Err UB.
Proof.
  unfold erase, make_at. cbn [cursor]. rewrite length_app.
  change (length [x]) with 1%nat. rewrite (proj2 (Z.leb_gt _ _)) by lia.
  rewrite Nat2Z.id.
  assert (delete (length data) (data ++ [x]) = data) as ->
    by (rewrite delete_middle; apply app_nil_r).
  eexists. split; [reflexivity|]. cbn. split; [done|]. unfold incr. cbn. by rewrite Z.leb_refl.
Qed.

End Ring.

(** ** What the algorithms compute *)

(** All pairs and triples of elements at increasing positions, in order. *)
Fixpoint pairs_of {A} (l : list A) : list (A * A) :=
  match l with [] => [] | x :: l => map (pair x) l ++ pairs_of l end.

Fixpoint triples_of {A} (l : list A) : list (A * (A * A)) :=
  match l with [] => [] | x :: l => map (pair x) (pairs_of l) ++ triples_of l end.

Lemma test_row_app {A S} (fn : A -> S -> bool * S) l1 l2 s :
  test_row fn (l1 ++ l2) s =
    match test_row fn l1 s with (true, s) => test_row fn l2 s | (false, s) => (false, s) end.
Proof.
  revert s. induction l1 as [|x l1 IH]; intros s; [done|]. cbn. destruct (fn x s) as [[] s1]; [apply IH|done].
Qed.

Lemma test_row_map {A B S} (g : A -> B) (fn : B -> S -> bool * S) l s :
  test_row fn (map g l) s = test_row (fun x => fn (g x)) l s.
Proof. revert s. induction l as [|x l IH]; intros s; [done|]. cbn. destruct (fn (g x) s) as [[] s1]; [apply IH|done]. Qed.

Lemma triples_row_eq {A S} (fn : A -> A -> S -> bool * S) l s :
  triples_row fn l s = test_row (fun p => fn p.1 p.2) (pairs_of l) s.
Proof.
  revert s. induction l as [|x l IH]; intros s; [done|]. cbn. rewrite test_row_app, test_row_map. cbn.
  destruct (test_row (fn x) l s) as [[] s1]; [apply IH|done].
Qed.

(** [container_test_pairs] and [container_test_triples] call the callback
    on every pair (triple) of elements at increasing positions, once and in
    lexicographic order, until a call answers [false]. *)
Theorem container_tests_all {A S} (fn : A -> A -> S -> bool * S) (fn3 : A -> A -> A -> S -> bool * S) l s :
  container_test_pairs fn l s = (test_row (fun p => fn p.1 p.2) (pairs_of l) s).2 /\
  container_test_triples fn3 l s = (test_row (fun p => fn3 p.1 p.2.1 p.2.2) (triples_of l) s).2.
Proof.
  split; revert s; induction l as [|x l IH]; intros s; try done; cbn.
  - rewrite test_row_app, test_row_map. cbn. destruct (test_row (fn x) l s) as [[] s1]; [apply IH|done].
  - rewrite triples_row_eq, test_row_app, test_row_map. cbn.
    destruct (test_row _ (pairs_of l) s) as [[] s1]; [apply IH|done].
Qed.

Lemma erase_if_spec {A} (p : A -> bool) : forall l2 l1 fuel,
  (length l2 <= fuel)%nat ->
  container_erase_if p fuel (l1 ++ l2) (length l1) = Ok (l1 ++ List.filter (fun x => negb (p x)) l2).
Proof.
  induction l2 as [|x l2 IH]; intros l1 fuel Hfuel.
  - destruct fuel; cbn; rewrite lookup_app_r, Nat.sub_diag by done; done.
  - destruct fuel as [|fuel]; cbn in Hfuel; [lia|]. cbn [container_erase_if].
    rewrite lookup_app_r, Nat.sub_diag by done. cbn [lookup list_lookup]. cbn [List.filter].
    destruct (p x); cbn [negb].
    + rewrite delete_middle. apply IH. lia.
    + specialize (IH (l1 ++ [x]) fuel ltac:(lia)). rewrite length_app, <- !app_assoc in IH. cbn in IH.
      by rewrite Nat.add_1_r in IH.
Qed.

Lemma convert_loop_spec {K} `{Countable K} : forall (l : list (K * K)) (m : gmap K K),
  convert_loop (l ≫= (fun p => [p.1; p.2])) m = Ok (foldl (fun m p => <[p.1 := p.2]> m) m l).
Proof. induction l as [|[a b] l IH]; intros m; [done|]. apply IH. Qed.

(** [container_erase_if] keeps exactly the elements the predicate rejects,
    in order, one round per element; [vector_convert_to_pairs] reads the
    values two by two, the last value of a key winning, and runs past the end
    of a vector of odd length. *)
Theorem erase_and_convert {A K} `{Countable K} (p : A -> bool) (items : list A) (l : list (K * K)) (x : K) :
  container_erase_if p (length items) items 0 = Ok (List.filter (fun x => negb (p x)) items) /\
  vector_convert_to_pairs (l ≫= (fun p => [p.1; p.2])) = Ok (foldl (fun m p => <[p.1 := p.2]> m) ∅ l) /\
  vector_convert_to_pairs ((l ≫= (fun p => [p.1; p.2])) ++ [x]) = Err UB.
Proof.
  split; [by apply (erase_if_spec p items [])|]. split; [apply convert_loop_spec|].
  unfold vector_convert_to_pairs. generalize (∅ : gmap K K).
  induction l as [|[a b] l IH]; intros m; [done|]. apply IH.
Qed.

(** The chunks [container_splice] hands out: chunk [i] from [i * size] on, as
    long as an element is left behind it. *)
Lemma splice_loop_spec n size : 0 < size -> forall k fuel itr,
  (k <= fuel)%nat -> itr + Z.of_nat k * size + size <= n < itr + Z.of_nat k * size + 2 * size ->
  splice_loop fuel n size itr (itr + size) =
    Ok (map (fun i => (itr + Z.of_nat i * size, itr + Z.of_nat i * size + size))
            (seq 0 (if decide (n = itr + Z.of_nat k * size + size) then k else S k))).
Proof.
  intros Hs. induction k as [|k IH]; intros fuel itr Hfuel Hn.
  - case_decide as E.
    + destruct fuel; cbn [splice_loop]; by replace (itr + size <? n) with false by lia.
    + destruct fuel; cbn [splice_loop]; replace (itr + size <? n) with true by lia;
        replace (n - (itr + size) <? size) with true by lia; cbn; by rewrite Z.add_0_r.
  - destruct fuel as [|fuel]; [lia|]. cbn [splice_loop].
    assert (Z.of_nat (S k) * size = Z.of_nat k * size + size) as Hk by lia.
    replace (itr + size <? n) with true by nia. replace (n - (itr + size) <? size) with false by nia.
    rewrite IH by (lia || nia). cbn. f_equal.
    assert (forall j, map (fun i => (itr + size + Z.of_nat i * size, itr + size + Z.of_nat i * size + size)) (seq 0 j) =
      map (fun i => (itr + Z.of_nat i * size, itr + Z.of_nat i * size + size)) (seq 1 j)) as Hshift.
    { intros j. rewrite <- seq_shift, map_map. apply map_ext. intros i. f_equal; lia. }
    rewrite Hshift. rewrite (decide_ext (n = itr + size + Z.of_nat k * size + size)
      (n = itr + Z.of_nat (S k) * size + size)) by lia.
    case_decide; cbn [seq map]; f_equal; f_equal; lia.
Qed.

(** [container_splice] does not hand out the last chunk when it ends exactly at
    the end of the container: of [k + 1] full chunks it visits [k]. *)
Theorem container_splice_misses_last size k start :
  0 < size ->
  container_splice k (start + Z.of_nat k * size + size) start size =
    Ok (map (fun i => (start + Z.of_nat i * size, start + Z.of_nat i * size + size)) (seq 0 k)) \/ start + size < 0.
Proof.
  intros Hs. destruct (decide (start + size < 0)); [by right|left]. unfold container_splice.
  assert (0 <= Z.of_nat k * size) by nia.
  rewrite (proj2 (Z.ltb_ge _ _)), (proj2 (Z.ltb_ge (start + size) 0)) by lia. cbn [orb].
  rewrite (splice_loop_spec _ _ Hs k) by lia. by rewrite decide_True.
Qed.
