(* ===== verification/SpinLock.v ===== *)
(** * The spin lock

    [audio_spin_mutex] of include/mutils/thread/thread_utils.h, as a state
    machine: any number of threads, each at a point of its own code, and one
    atomic flag. One step of a thread is one atomic access of the flag
    ([test_and_set] or [clear]) or one move of its loop counters; the pause
    instructions have no effect. *)

From S2P Require Import Prelude.

(** [constexpr std::array iterations = { 5, 10, 3000 }] *)
Definition iterations (phase : nat) : nat := match phase with 0%nat => 5%nat | 1%nat => 10%nat | _ => 3000%nat end.

(** Where a thread is: outside; in round [i] of one of the three loops of
    [lock]; at [yield]; or holding the lock. *)
Inductive pc : Type :=
| Outside
| Spinning (phase i : nat)
| Yielding
| Holding.

(** What a thread outside or inside chooses to call. *)
Inductive call : Type := Call_lock | Call_try_lock | Call_unlock.

(** [!flag.test_and_set()]: the new flag and the answer. *)
Definition try_lock (flag : bool) : bool * bool := (true, negb flag).

(** [flag.clear()] *)
Definition unlock (flag : bool) : bool := false.

(** One step of [lock], from inside it. *)
Definition lock_step (flag : bool) (p : pc) : bool * pc :=
  match p with
  | Spinning phase i =>
      if (i <? iterations phase)%nat then
        let '(flag, locked) := try_lock flag in
        if (locked : bool) then (flag, Holding) else (flag, Spinning phase (S i))
      else if (phase <? 2)%nat then (flag, Spinning (S phase) 0%nat)
      else (flag, Yielding)
  | Yielding => (flag, Spinning 2%nat 0%nat)
  | p => (flag, p)
  end.

Definition in_lock (p : pc) : bool := match p with Spinning _ _ | Yielding => true | _ => false end.

(** The system: the flag and the threads. *)
Record system : Type := mkSys { flag : bool; threads : gmap nat pc }.

Inductive step : system -> system -> Prop :=
| step_enter f m t :
    m !! t = Some Outside -> step (mkSys f m) (mkSys f (<[t := Spinning 0%nat 0%nat]> m))
| step_try f m t f' locked :
    m !! t = Some Outside -> try_lock f = (f', locked) ->
    step (mkSys f m) (mkSys f' (<[t := if locked : bool then Holding else Outside]> m))
| step_spin f m t p f' p' :
    m !! t = Some p -> in_lock p = true -> lock_step f p = (f', p') ->
    step (mkSys f m) (mkSys f' (<[t := p']> m))
| step_leave f m t :
    m !! t = Some Holding -> step (mkSys f m) (mkSys (unlock f) (<[t := Outside]> m)).

(** All threads start outside, with the flag clear. *)
Definition initial (s : system) : Prop := flag s = false /\ forall t p, threads s !! t = Some p -> p = Outside.

(** ** The abstract lock: who holds it *)

Inductive lock_spec : option nat -> option nat -> Prop :=
| spec_acquire t : lock_spec None (Some t)
| spec_release t : lock_spec (Some t) None
| spec_stay o : lock_spec o o.

(** The flag says whether there is a holder, and only the holder is [Holding]. *)
Definition represents (s : system) (o : option nat) : Prop :=
  flag s = bool_decide (o <> None) /\
  forall t, threads s !! t = Some Holding <-> o = Some t.

Lemma represents_stay f m t p p' o :
  represents (mkSys f m) o -> m !! t = Some p -> p <> Holding -> p' <> Holding ->
  represents (mkSys f (<[t := p']> m)) o.
Proof.
  intros [Hf Ht] Hp Hn Hn'. split; [done|]. intros t'. cbn. rewrite lookup_insert, <- Ht. cbn.
  case_decide; [subst; naive_solver|done].
Qed.

Lemma represents_acquire m t p :
  represents (mkSys false m) None -> m !! t = Some p -> represents (mkSys true (<[t := Holding]> m)) (Some t).
Proof.
  intros [_ Ht] Hp. split; [done|]. intros t'. cbn. rewrite lookup_insert. case_decide; [naive_solver|].
  cbn in Ht. rewrite Ht. naive_solver.
Qed.

Lemma represents_owner f m o : represents (mkSys f m) o -> f = false -> o = None.
Proof. intros [Hf _] ->. cbn in Hf. destruct o; [done|done]. Qed.

Lemma represents_held f m o : represents (mkSys f m) o -> f = true -> exists t, o = Some t.
Proof. intros [Hf _] ->. cbn in Hf. destruct o as [t|]; [by exists t|done]. Qed.

(** A step of the machine is a step of the abstract lock. *)
Lemma step_refines s s' o :
  step s s' -> represents s o -> exists o', represents s' o' /\ lock_spec o o'.
Proof.
  intros Hs Hr. destruct Hs as [f m t Hp|f m t f' locked Hp Ht|f m t p f' p' Hp Hin Hl|f m t Hp].
  - exists o. split; [by eapply represents_stay|constructor].
  - injection Ht as <- <-. destruct f; cbn.
    + exists o. split; [by eapply represents_stay|constructor].
    + pose proof (represents_owner _ _ _ Hr eq_refl) as ->. exists (Some t).
      split; [by eapply represents_acquire|constructor].
  - destruct p as [|phase i| |]; try done; cbn [lock_step try_lock] in Hl.
    + destruct (i <? iterations phase)%nat; [|destruct (phase <? 2)%nat; injection Hl as <- <-;
        (exists o; split; [by eapply represents_stay|constructor])].
      destruct f; injection Hl as <- <-.
      * exists o. split; [by eapply represents_stay|constructor].
      * pose proof (represents_owner _ _ _ Hr eq_refl) as ->. exists (Some t).
        split; [by eapply represents_acquire|constructor].
    + injection Hl as <- <-. exists o. split; [by eapply represents_stay|constructor].
  - pose proof (proj1 (proj2 Hr t) Hp) as ->. exists None. split; [|constructor].
    split; [done|]. intros t'. cbn. rewrite lookup_insert. destruct Hr as [_ Hr]. cbn in Hr.
    case_decide; [naive_solver|]. rewrite Hr. naive_solver.
Qed.

Lemma initial_represents s : initial s -> represents s None.
Proof. intros [Hf Ht]. split; [done|]. intros t. split; [|done]. intros E. by apply Ht in E. Qed.

Lemma reachable_represents s s' : rtc step s s' -> (exists o, represents s o) -> exists o, represents s' o.
Proof.
  induction 1 as [|s1 s2 s3 Hs _ IH]; [done|]. intros [o Ho]. apply IH.
  destruct (step_refines _ _ _ Hs Ho) as (o' & Ho' & _). by exists o'.
Qed.

(** C17. [audio_spin_mutex] implements a lock: from a start with the flag clear,
    every reachable state has at most one thread between [lock] (or a
    successful [try_lock]) and [unlock], the flag tells whether there is one,
    and every further step of any thread acquires a free lock, releases a
    held one, or changes nothing about who holds it. *)
Theorem spin_mutex_refines s0 s :
  initial s0 -> rtc step s0 s ->
  (forall t t', threads s !! t = Some Holding -> threads s !! t' = Some Holding -> t = t') /\
  exists o, represents s o /\ forall s', step s s' -> exists o', represents s' o' /\ lock_spec o o'.
Proof.
  intros Hi Hs.
  destruct (reachable_represents _ _ Hs ltac:(by exists None; apply initial_represents)) as [o Ho]. split.
  - intros t t' H1 H2. apply (proj2 Ho) in H1, H2. congruence.
  - exists o. split; [done|]. intros s' Hs'. by eapply step_refines.
Qed.

(** The steps of [lock] by one thread while the flag stays as the thread leaves it. *)
Fixpoint run_lock (n : nat) (flag : bool) (p : pc) : bool * pc :=
  match n with
  | O => (flag, p)
  | S n => if in_lock p then let '(flag, p) := lock_step flag p in run_lock n flag p else (flag, p)
  end.

(** C23. Once the flag is clear, a thread inside [lock], wherever it is in the
    three loops, has the lock within three of its own steps if no other
    thread takes it; while the flag is set, it never leaves [lock]. *)
Theorem spin_mutex_progress p n :
  in_lock p = true ->
  run_lock 3 false p = (true, Holding) /\
  exists p', run_lock n true p = (true, p') /\ in_lock p' = true.
Proof.
  intros Hp. split.
  - destruct p as [|phase i| |]; try done.
    cbn [run_lock in_lock lock_step]. destruct (i <? iterations phase)%nat eqn:Ei; [done|].
    destruct phase as [|[|phase]]; done.
  - revert p Hp. induction n as [|n IH]; intros p Hp; [by exists p|]. cbn [run_lock]. rewrite Hp.
    assert (exists p', lock_step true p = (true, p') /\ in_lock p' = true) as (p' & -> & Hp').
    { destruct p as [|phase i| |]; try done; cbn [lock_step try_lock negb]; [|by eexists].
      destruct (i <? iterations phase)%nat; [by eexists|]. destruct (phase <? 2)%nat; by eexists. }
    by apply IH.
Qed.

(** ** Two threads *)

Definition demo_sys : system := mkSys false {[0%nat := Outside; 1%nat := Outside]}.
Definition demo_held_lock : system := mkSys true (<[0%nat := Holding]> (threads demo_sys)).

Lemma demo_run : rtc step demo_sys demo_held_lock.
Proof.
  apply rtc_once.
  apply (step_try false {[0%nat := Outside; 1%nat := Outside]} 0 true true); reflexivity.
Qed.

Lemma demo_initial : initial demo_sys.
Proof.
  split; [done|]. intros t p. cbn. rewrite lookup_insert, lookup_singleton.
  repeat case_decide; intros E; simplify_eq; done.
Qed.

Lemma spin_mutex_refines_witness :
  (forall t t', threads demo_held_lock !! t = Some Holding -> threads demo_held_lock !! t' = Some Holding -> t = t') /\
  exists o, represents demo_held_lock o /\ forall s', step demo_held_lock s' -> exists o', represents s' o' /\ lock_spec o o'.
Proof. exact (spin_mutex_refines demo_sys demo_held_lock demo_initial demo_run). Defined.

Lemma spin_mutex_progress_witness :
  run_lock 3 false (Spinning 2 3000) = (true, Holding) /\
  exists p', run_lock 20 true (Spinning 2 3000) = (true, p') /\ in_lock p' = true.
Proof. apply (spin_mutex_progress (Spinning 2 3000) 20). reflexivity. Defined.
