(* ===== verification/Float32.v ===== *)
(** * Scalars: IEEE floating point and machine integers

    What include/mutils/math/math.h and the code above it use of the types
    [float], [double], [int] and [long], as one class of operations
    [Scalar T] with the instances [sfloat prec emax] (IEEE 754 binary
    floating point, round to nearest even, as executable functions of the
    Standard Library's [SpecFloat]) and [sint w] (two's complement, where
    overflow, division by zero and a conversion out of range are undefined
    behaviour). The lemmas at the end show that [float] arithmetic on
    integers of at most 24 bits, and [double] arithmetic on integers of at
    most 53, is exact. *)

From S2P Require Import Prelude.
From Stdlib Require Export SpecFloat.

(** ** The types *)

Definition sfloat (prec emax : Z) : Type := spec_float.
Definition sint (w : Z) : Type := Z.
Abbreviation f32 := (sfloat 24 128).
Abbreviation f64 := (sfloat 53 1024).
#[global] Typeclasses Opaque sfloat sint.

(** ** Conversions *)

(** Between floating-point formats: [(float)d], [(double)f]. *)
Definition sf_conv (prec emax : Z) (x : spec_float) : sfloat prec emax :=
  match x with S754_finite s m e => binary_round prec emax s m e | x => x end.

(** From an integer, correctly rounded. *)
Definition sf_of_Z (prec emax : Z) (z : Z) : sfloat prec emax := binary_normalize prec emax z 0 false.
Abbreviation f32_of_Z := (sf_of_Z 24 128).

(** The decimal literal [n/d], correctly rounded. *)
Definition sf_lit (prec emax n d : Z) : sfloat prec emax :=
  let '(m, e, l) := SFdiv_core_binary prec emax n 0 d 0 in binary_round_aux prec emax false m e l.
Abbreviation f32_lit := (sf_lit 24 128).

(** Arithmetic of [float]. *)
Module F32Notations.
Infix "+." := (SFadd 24 128) (at level 50, left associativity).
Infix "-." := (SFsub 24 128) (at level 50, left associativity).
Infix "*." := (SFmul 24 128) (at level 40, left associativity).
Infix "/." := (SFdiv 24 128) (at level 40, left associativity).
Notation "'#' z" := (f32_of_Z z) (at level 1, format "'#' z").
End F32Notations.

(** The integer part, of a finite number. *)
Definition sf_trunc (x : spec_float) : option Z :=
  match x with
  | S754_zero _ => Some 0
  | S754_finite s m e => Some (cond_Zopp s (Z.shiftl (Zpos m) e))
  | _ => None
  end.

(** Conversion to an integer type with the values [lo..hi-1]: out of range is
    undefined behaviour. *)
Definition sf_to_int (lo hi : Z) (x : spec_float) : result stop Z :=
  match sf_trunc x with
  | Some z => if (lo <=? z) && (z <? hi) then Ok z else Err UB
  | None => Err UB
  end.

(** ** The operations *)

Class Scalar (T : Type) : Type := {
  sc_of_Z : Z -> T;
  sc_eqb : T -> T -> bool;
  sc_ltb : T -> T -> bool;
  sc_leb : T -> T -> bool;
  sc_add : T -> T -> result stop T;
  sc_sub : T -> T -> result stop T;
  sc_mul : T -> T -> result stop T;
  sc_div : T -> T -> result stop T;
  sc_opp : T -> result stop T;
  sc_abs : T -> result stop T;
  (** [(T)sqrt(x)] *)
  sc_sqrt : T -> result stop T;
  (** [(T)(x * f)] and [(T)(x / f)] for a [float] [f] *)
  sc_mulf : T -> f32 -> result stop T;
  sc_divf : T -> f32 -> result stop T;
  (** [x == f] for a [float] [f] *)
  sc_eqf : T -> f32 -> bool;
  (** [(float)x] *)
  sc_to_f32 : T -> f32
}.

#[global] Instance sfloat_scalar prec emax : Scalar (sfloat prec emax) := {
  sc_of_Z := sf_of_Z prec emax;
  sc_eqb := SFeqb; sc_ltb := SFltb; sc_leb := SFleb;
  sc_add x y := Ok (SFadd prec emax x y);
  sc_sub x y := Ok (SFsub prec emax x y);
  sc_mul x y := Ok (SFmul prec emax x y);
  sc_div x y := Ok (SFdiv prec emax x y);
  sc_opp x := Ok (SFopp x);
  sc_abs x := Ok (SFabs x);
  sc_sqrt x := Ok (SFsqrt prec emax x);
  sc_mulf x f := Ok (SFmul prec emax x (sf_conv prec emax f));
  sc_divf x f := Ok (SFdiv prec emax x (sf_conv prec emax f));
  sc_eqf x f := SFeqb x (sf_conv prec emax f);
  sc_to_f32 x := sf_conv 24 128 x
}.

#[global] Instance sint_scalar w : Scalar (sint w) := {
  sc_of_Z z := z;
  sc_eqb := Z.eqb; sc_ltb := Z.ltb; sc_leb := Z.leb;
  sc_add x y := s_check w (x + y);
  sc_sub x y := s_check w (x - y);
  sc_mul x y := s_check w (x * y);
  sc_div x y := if y =? 0 then Err UB else s_check w (Z.quot x y);
  sc_opp x := s_check w (- x);
  sc_abs x := s_check w (Z.abs x);
  sc_sqrt x := sf_to_int (- 2 ^ (w - 1)) (2 ^ (w - 1)) (SFsqrt 53 1024 (sf_of_Z 53 1024 x));
  sc_mulf x f := sf_to_int (- 2 ^ (w - 1)) (2 ^ (w - 1)) (SFmul 24 128 (f32_of_Z x) f);
  sc_divf x f := sf_to_int (- 2 ^ (w - 1)) (2 ^ (w - 1)) (SFdiv 24 128 (f32_of_Z x) f);
  sc_eqf x f := SFeqb (f32_of_Z x) f;
  sc_to_f32 x := f32_of_Z x
}.

(** [std::min], [std::max] *)
Definition sc_min `{Scalar T} (a b : T) : T := if sc_ltb b a then b else a.
Definition sc_max `{Scalar T} (a b : T) : T := if sc_ltb a b then b else a.

Definition lex_lt (p q : Z * Z * Z) : Prop :=
  p.1.1 < q.1.1 \/ p.1.1 = q.1.1 /\ (p.1.2 < q.1.2 \/ p.1.2 = q.1.2 /\ p.2 < q.2).

(** ** The order of a scalar type

    What a sort, a search or a map needs of [<], [<=] and [==], for the values
    that [sc_ordered] says are in the order (all integers, and all floats but
    NaN): they embed a value into the lexicographic order of triples of
    integers. *)
Class ScalarOrder (T : Type) `{Scalar T} : Type := {
  sc_ordered : T -> Prop;
  sc_key : T -> Z * Z * Z;
  sc_lt_key x y : sc_ordered x -> sc_ordered y -> sc_ltb x y = true <-> lex_lt (sc_key x) (sc_key y);
  sc_eq_key x y : sc_ordered x -> sc_ordered y -> sc_eqb x y = true <-> sc_key x = sc_key y;
  sc_le_key x y : sc_ordered x -> sc_ordered y -> sc_leb x y = true <-> ~ lex_lt (sc_key y) (sc_key x)
}.

#[global] Instance sint_order w : ScalarOrder (sint w).
Proof.
  refine {| sc_ordered := fun _ => True; sc_key := fun x => (0, 0, x) |}; cbn; unfold lex_lt, sint; cbn;
    intros x y _ _; [lia| |lia]. rewrite Z.eqb_eq. split; intros; simplify_eq; done.
Defined.

(** A float as a triple of integers in whose lexicographic order it stands. *)
Definition sf_key (x : spec_float) : Z * Z * Z :=
  match x with
  | S754_infinity s => (if s then -2 else 2, 0, 0)
  | S754_finite s m e => if s then (-1, - e, Zneg m) else (1, e, Zpos m)
  | _ => (0, 0, 0)
  end.

Lemma SFcompare_key x y :
  x <> S754_nan -> y <> S754_nan ->
  match SFcompare x y with
  | Some Lt => lex_lt (sf_key x) (sf_key y)
  | Some Eq => sf_key x = sf_key y
  | Some Gt => lex_lt (sf_key y) (sf_key x)
  | None => False
  end.
Proof.
  intros Hx Hy. unfold lex_lt.
  destruct x as [s|s| |s m e], y as [s'|s'| |s' m' e']; try done; destruct s; try destruct s'; cbn; try lia; try done.
  all: change (Pos.compare_cont Eq m m') with (Pos.compare m m').
  all: destruct (Z.compare_spec e e'), (Pos.compare_spec m m'); subst; cbn; lia || done.
Qed.

Lemma sf_tests_key x y :
  x <> S754_nan -> y <> S754_nan ->
  (SFltb x y = true <-> lex_lt (sf_key x) (sf_key y)) /\
  (SFeqb x y = true <-> sf_key x = sf_key y) /\
  (SFleb x y = true <-> ~ lex_lt (sf_key y) (sf_key x)).
Proof.
  intros Hx Hy. pose proof (SFcompare_key x y Hx Hy) as H. unfold SFltb, SFeqb, SFleb, lex_lt in *.
  destruct (sf_key x) as [[a b] c], (sf_key y) as [[a' b'] c']; cbn in *.
  destruct (SFcompare x y) as [[]|]; [..|done]; split_and!; split; intros; try done; try congruence;
    try (injection H as -> -> ->); try simplify_eq; lia.
Qed.

#[global] Instance sfloat_order prec emax : ScalarOrder (sfloat prec emax).
Proof.
  refine {| sc_ordered := fun x => x <> S754_nan; sc_key := sf_key |}; cbn; unfold sfloat; intros x y Hx Hy;
    apply (sf_tests_key x y Hx Hy).
Defined.

Lemma lex_lt_eq p q : p = q <-> ~ lex_lt p q /\ ~ lex_lt q p.
Proof.
  unfold lex_lt. destruct p as [[a b] c], q as [[a' b'] c']; cbn. split; [intros; simplify_eq; lia|].
  intros. repeat f_equal; lia.
Qed.

Lemma lex_lt_trans p q r : lex_lt p q -> lex_lt q r -> lex_lt p r.
Proof. unfold lex_lt. lia. Qed.

Lemma lex_lt_irrefl p : ~ lex_lt p p.
Proof. unfold lex_lt. lia. Qed.

Lemma decided (b : bool) (P : Prop) : (b = true <-> P) -> if b then P else ~ P.
Proof. destruct b; [by intros [H _]; apply H|]. intros [_ H] HP. by specialize (H HP). Qed.

(** Decide a goal about comparisons of scalars in the order. *)
Ltac sc_decide t H := let E := fresh in generalize (decided _ _ H); case_eq t; intros E; cbn match; intros ?; clear E.
Ltac sc_compare :=
  repeat match goal with
  | |- context [sc_ltb ?x ?y] => sc_decide constr:(sc_ltb x y) constr:(sc_lt_key x y ltac:(done) ltac:(done))
  | |- context [sc_eqb ?x ?y] => sc_decide constr:(sc_eqb x y) constr:(sc_eq_key x y ltac:(done) ltac:(done))
  | |- context [sc_leb ?x ?y] => sc_decide constr:(sc_leb x y) constr:(sc_le_key x y ltac:(done) ltac:(done))
  end; cbn; try done; rewrite ?lex_lt_eq in *; unfold lex_lt in *; intros; try done; lia.

(** ** Exactness of [float] on integers

    [p2 k m] is [m * 2^k]. *)
Definition p2 (k : nat) (m : positive) : positive := Nat.iter k xO m.
Abbreviation digits := digits2_pos.

Lemma p2_add j k m : p2 (j + k) m = p2 j (p2 k m).
Proof. induction j as [|j IH]; [done|]. exact (f_equal xO IH). Qed.

Lemma p2_value k m : Zpos (p2 k m) = Zpos m * 2 ^ Z.of_nat k.
Proof.
  induction k as [|k IH]; [cbn; lia|]. change (p2 (S k) m) with (xO (p2 k m)).
  rewrite Pos2Z.inj_xO, IH, Nat2Z.inj_succ, Z.pow_succ_r by lia. lia.
Qed.

Lemma p2_digits k m : Zpos (digits (p2 k m)) = Zpos (digits m) + Z.of_nat k.
Proof.
  induction k as [|k IH]; [cbn; lia|]. change (p2 (S k) m) with (xO (p2 k m)). cbn [digits2_pos]. lia.
Qed.

Lemma p2_compare k m n : Pos.compare (p2 k m) (p2 k n) = Pos.compare m n.
Proof. induction k as [|k IH]; [done|]. cbn. exact IH. Qed.

Lemma digits_bounds m : 2 ^ (Zpos (digits m) - 1) <= Zpos m < 2 ^ Zpos (digits m).
Proof.
  assert (forall p, 2 ^ (Zpos (Pos.succ p)) = 2 * 2 ^ Zpos p /\ 2 ^ (Zpos (Pos.succ p) - 1) = 2 * 2 ^ (Zpos p - 1)) as E.
  { intros p. rewrite <- !Z.pow_succ_r by lia. split; f_equal; lia. }
  induction m as [m IH|m IH|]; cbn [digits2_pos]; [..|cbn; lia].
  all: destruct (E (digits m)) as [-> ->]; lia.
Qed.

Lemma digits_le m k : 0 <= k -> Zpos m < 2 ^ k -> Zpos (digits m) <= k.
Proof.
  intros Hk Hm. pose proof (digits_bounds m) as [H _].
  assert (2 ^ (Zpos (digits m) - 1) < 2 ^ k) as H1 by lia. apply Z.pow_lt_mono_r_iff in H1; lia.
Qed.

Lemma digits_lt m n : Zpos (digits m) < Zpos (digits n) -> (m < n)%positive.
Proof.
  intros H. pose proof (digits_bounds m). pose proof (digits_bounds n).
  pose proof (Z.pow_le_mono_r 2 (Zpos (digits m)) (Zpos (digits n) - 1)). lia.
Qed.

Lemma iter_pos_nat {A} (f : A -> A) n x : iter_pos f n x = Nat.iter (Pos.to_nat n) f x.
Proof.
  assert (forall j k y, Nat.iter j f (Nat.iter k f y) = Nat.iter (j + k) f y) as E.
  { intros j k y. induction j as [|j IH]; [done|]. exact (f_equal f IH). }
  revert x. induction n as [n IH|n IH|]; intros x; cbn [iter_pos]; [..|done]; rewrite !IH.
  - change (f x) with (Nat.iter 1 f x). rewrite !E. f_equal. lia.
  - rewrite !E. f_equal. lia.
Qed.

(** Shifting zeros out loses nothing. *)
Lemma shr_p2 j k m e :
  shr (Build_shr_record (Zpos (p2 (j + k) m)) false false) e (Z.of_nat j) =
  (Build_shr_record (Zpos (p2 k m)) false false, e + Z.of_nat j).
Proof.
  assert (Nat.iter j shr_1 (Build_shr_record (Zpos (p2 (j + k) m)) false false) =
          Build_shr_record (Zpos (p2 k m)) false false) as E.
  { revert k. induction j as [|j IH]; intros k; [done|].
    replace (S j + k)%nat with (j + S k)%nat by lia. exact (f_equal shr_1 (IH (S k))). }
  unfold shr. destruct (Z.of_nat j) as [|p|p] eqn:Ep; [|rewrite iter_pos_nat|lia].
  - replace j with 0%nat by lia. cbn. f_equal. lia.
  - replace (Pos.to_nat p) with j by lia. by rewrite E.
Qed.

Lemma iter_xO n m : PosDef.Pos.iter xO m n = p2 (Pos.to_nat n) m.
Proof. exact (Pos2Nat.inj_iter n xO m). Qed.

Section exact.
Context (prec emax : Z) (Hprec : 1 < prec < emax).

(** A mantissa of at most [prec] digits is rounded to itself, whatever zeros it
    comes with. *)
Lemma binary_round_p2 s m e k :
  Zpos (digits m) <= prec -> 3 - emax <= e + Zpos (digits m) <= emax ->
  binary_round prec emax s (p2 k m) (e - Z.of_nat k) =
  S754_finite s (p2 (Z.to_nat (prec - Zpos (digits m))) m) (e + Zpos (digits m) - prec).
Proof.
  intros Hm He. set (d := Zpos (digits m)) in *. set (j := Z.to_nat (prec - d)).
  assert (forall e', fexp prec emax (prec + (e + d - prec)) = e + d - prec /\ (e' = e + d - prec ->
    binary_round_aux prec emax s (Zpos (p2 j m)) e' loc_Exact = S754_finite s (p2 j m) (e + d - prec))) as Haux.
  { intros e'. split; [unfold fexp, emin; lia|]. intros ->. unfold binary_round_aux, shr_fexp. cbn [Zdigits2 shr_record_of_loc].
    rewrite p2_digits. fold d. replace (d + Z.of_nat j) with prec by lia.
    replace (fexp prec emax (prec + (e + d - prec))) with (e + d - prec) by (unfold fexp, emin; lia).
    rewrite Z.sub_diag. cbn [shr shr_m loc_of_shr_record round_nearest_even]. cbn [Zdigits2 shr_record_of_loc].
    rewrite p2_digits. fold d. replace (d + Z.of_nat j) with prec by lia.
    replace (fexp prec emax (prec + (e + d - prec))) with (e + d - prec) by (unfold fexp, emin; lia).
    rewrite Z.sub_diag. cbn [shr shr_m]. by replace (e + d - prec <=? emax - prec) with true by lia. }
  unfold binary_round, shl_align. rewrite p2_digits. fold d.
  replace (fexp prec emax (d + Z.of_nat k + (e - Z.of_nat k))) with (e + d - prec) by (unfold fexp, emin; lia).
  destruct (e + d - prec - (e - Z.of_nat k)) as [|n|n] eqn:En.
  - replace k with j by lia. apply Haux; lia.
  - unfold binary_round_aux. unfold shr_fexp at 1. cbn [Zdigits2 shr_record_of_loc]. rewrite p2_digits. fold d.
    replace (fexp prec emax (d + Z.of_nat k + (e - Z.of_nat k))) with (e + d - prec) by (unfold fexp, emin; lia).
    rewrite En. replace (Zpos n) with (Z.of_nat (k - j)) by lia.
    replace (p2 k m) with (p2 ((k - j) + j) m) by (f_equal; lia).
    rewrite shr_p2. replace (e - Z.of_nat k + Z.of_nat (k - j)) with (e + d - prec) by lia.
    pose proof (proj2 (Haux _) eq_refl) as H. unfold binary_round_aux in H. unfold shr_fexp at 1 in H.
    cbn [Zdigits2 shr_record_of_loc] in H. rewrite p2_digits in H. fold d in H.
    replace (d + Z.of_nat j) with prec in H by lia. rewrite (proj1 (Haux 0)), Z.sub_diag in H. exact H.
  - rewrite iter_xO, <- p2_add. replace (Pos.to_nat n + k)%nat with j by lia. apply Haux; lia.
Qed.

Definition sf_exact (z : Z) : Prop := Z.abs z < 2 ^ prec.

Lemma sf_of_Z_shift z k :
  sf_exact z -> binary_normalize prec emax (z * 2 ^ Z.of_nat k) (- Z.of_nat k) false = sf_of_Z prec emax z.
Proof.
  unfold sf_exact. intros Hz. unfold sf_of_Z, binary_normalize.
  destruct z as [|m|m]; [done| |]; replace (- Z.of_nat k) with (0 - Z.of_nat k) by lia.
  all: pose proof (digits_le m prec ltac:(lia) ltac:(lia)).
  all: rewrite ?Z.mul_opp_l, <- ?Pos2Z.opp_pos, ?Z.mul_opp_l, <- p2_value, ?Pos2Z.opp_pos.
  all: rewrite binary_round_p2 by lia.
  all: symmetry; exact (binary_round_p2 _ m 0 0 ltac:(lia) ltac:(lia)).
Qed.

(** The representation of a nonzero integer, and its mantissa at any smaller
    exponent. *)
Lemma sf_of_Z_rep z :
  sf_exact z -> z <> 0 ->
  exists m e, sf_of_Z prec emax z = S754_finite (z <? 0) m e /\ e <= 0 /\
    forall ez, ez <= e -> cond_Zopp (z <? 0) (Zpos (fst (shl_align m e ez))) = z * 2 ^ (- ez).
Proof.
  unfold sf_exact. intros Hz Hn.
  assert (forall m ez, Zpos m < 2 ^ prec -> ez <= Zpos (digits m) - prec ->
    Zpos (fst (shl_align (p2 (Z.to_nat (prec - Zpos (digits m))) m) (Zpos (digits m) - prec) ez)) =
    Zpos m * 2 ^ (- ez)) as Ha.
  { intros m ez Hm He. pose proof (digits_le m prec ltac:(lia) Hm). unfold shl_align.
    destruct (ez - (Zpos (digits m) - prec)) as [|n|n] eqn:En; [..|rewrite iter_xO, <- p2_add]; cbn [fst];
      rewrite ?p2_value; [do 2 f_equal; lia|lia|]. do 2 f_equal. lia. }
  destruct z as [|m|m]; [done| |]; unfold sf_of_Z, binary_normalize;
    pose proof (digits_le m prec ltac:(lia) ltac:(lia)).
  all: exists (p2 (Z.to_nat (prec - Zpos (digits m))) m), (Zpos (digits m) - prec); split_and!; [|lia|intros ez He].
  all: try exact (binary_round_p2 _ m 0 0 ltac:(lia) ltac:(lia)).
  - apply Ha; lia.
  - unfold cond_Zopp. change (Zneg m <? 0) with true. cbn match. rewrite Ha by lia. lia.
Qed.

Lemma sf_of_Z_add a b :
  sf_exact a -> sf_exact b -> sf_exact (a + b) ->
  SFadd prec emax (sf_of_Z prec emax a) (sf_of_Z prec emax b) = sf_of_Z prec emax (a + b).
Proof.
  intros Ha Hb Hab. destruct (decide (a = 0)) as [->|Ha0].
  { destruct (decide (b = 0)) as [->|Hb0]; [done|].
    destruct (sf_of_Z_rep b Hb Hb0) as (m & e & E & _). rewrite Z.add_0_l, E. done. }
  destruct (decide (b = 0)) as [->|Hb0].
  { destruct (sf_of_Z_rep a Ha Ha0) as (m & e & E & _). rewrite Z.add_0_r, E. done. }
  destruct (sf_of_Z_rep a Ha Ha0) as (m & e & E & He & Hm).
  destruct (sf_of_Z_rep b Hb Hb0) as (m' & e' & E' & He' & Hm'). rewrite E, E'. cbn -[Z.add Z.min].
  rewrite Hm, Hm', <- Z.mul_add_distr_r by lia. rewrite <- (sf_of_Z_shift (a + b) (Z.to_nat (- Z.min e e'))) by done.
  f_equal; [do 2 f_equal|]; lia.
Qed.

Lemma sf_of_Z_sub a b :
  sf_exact a -> sf_exact b -> sf_exact (a - b) ->
  SFsub prec emax (sf_of_Z prec emax a) (sf_of_Z prec emax b) = sf_of_Z prec emax (a - b).
Proof.
  intros Ha Hb Hab. destruct (decide (a = 0)) as [->|Ha0].
  { destruct (decide (b = 0)) as [->|Hb0]; [done|]. destruct b as [|m|m]; [done| |]; unfold sf_exact in Hb;
      pose proof (digits_le m prec ltac:(lia) ltac:(lia));
      rewrite Z.sub_0_l, ?Pos2Z.opp_pos, ?Pos2Z.opp_neg; unfold sf_of_Z, binary_normalize;
      rewrite (binary_round_p2 false m 0 0 ltac:(lia) ltac:(lia) : binary_round prec emax false m 0 = _),
        (binary_round_p2 true m 0 0 ltac:(lia) ltac:(lia) : binary_round prec emax true m 0 = _); done. }
  destruct (decide (b = 0)) as [->|Hb0].
  { destruct (sf_of_Z_rep a Ha Ha0) as (m & e & E & _). rewrite Z.sub_0_r, E. done. }
  destruct (sf_of_Z_rep a Ha Ha0) as (m & e & E & He & Hm).
  destruct (sf_of_Z_rep b Hb Hb0) as (m' & e' & E' & He' & Hm'). rewrite E, E'. cbn -[Z.sub Z.min].
  rewrite Hm, Hm', <- Z.mul_sub_distr_r by lia. rewrite <- (sf_of_Z_shift (a - b) (Z.to_nat (- Z.min e e'))) by done.
  f_equal; [do 2 f_equal|]; lia.
Qed.

Lemma sf_of_Z_compare a b :
  sf_exact a -> sf_exact b -> SFcompare (sf_of_Z prec emax a) (sf_of_Z prec emax b) = Some (Z.compare a b).
Proof.
  unfold sf_exact. intros Ha Hb.
  assert (forall s m, Zpos m < 2 ^ prec -> binary_round prec emax s m 0 =
    S754_finite s (p2 (Z.to_nat (prec - Zpos (digits m))) m) (Zpos (digits m) - prec)) as E.
  { intros s m Hm. pose proof (digits_le m prec ltac:(lia) Hm). exact (binary_round_p2 s m 0 0 ltac:(lia) ltac:(lia)). }
  assert (forall m n, Zpos m < 2 ^ prec -> Zpos n < 2 ^ prec ->
    match Z.compare (Zpos (digits m) - prec) (Zpos (digits n) - prec) with
    | Lt => Lt | Gt => Gt
    | Eq => Pos.compare (p2 (Z.to_nat (prec - Zpos (digits m))) m) (p2 (Z.to_nat (prec - Zpos (digits n))) n)
    end = Pos.compare m n) as Hc.
  { intros m n _ _. destruct (Z.compare_spec (Zpos (digits m) - prec) (Zpos (digits n) - prec)) as [H|H|H].
    - replace (digits n) with (digits m) by lia. apply p2_compare.
    - symmetry. apply Pos.compare_lt_iff, digits_lt. lia.
    - symmetry. apply Pos.compare_gt_iff, digits_lt. lia. }
  unfold sf_of_Z, binary_normalize. destruct a as [|m|m], b as [|n|n]; try done; rewrite ?E by lia; try done; cbn [SFcompare].
  - f_equal. apply Hc; lia.
  - f_equal. change (Zneg m ?= Zneg n) with (CompOpp (Pos.compare m n)). rewrite <- (Hc m n) by lia.
    by destruct (Z.pos (digits m) - prec ?= Z.pos (digits n) - prec).
Qed.

Lemma sf_of_Z_tests a b :
  sf_exact a -> sf_exact b ->
  SFltb (sf_of_Z prec emax a) (sf_of_Z prec emax b) = (a <? b) /\ SFleb (sf_of_Z prec emax a) (sf_of_Z prec emax b) = (a <=? b) /\
  SFeqb (sf_of_Z prec emax a) (sf_of_Z prec emax b) = Z.eqb a b.
Proof.
  intros Ha Hb. unfold SFltb, SFleb, SFeqb. rewrite sf_of_Z_compare by done. unfold Z.ltb, Z.leb.
  rewrite Z.eqb_compare. by destruct (Z.compare a b).
Qed.

Lemma sf_of_Z_inj a b : sf_exact a -> sf_exact b -> sf_of_Z prec emax a = sf_of_Z prec emax b -> a = b.
Proof.
  intros Ha Hb E. destruct (sf_of_Z_tests a b Ha Hb) as (_ & _ & H). rewrite E in H.
  destruct (sf_of_Z_tests b b Hb Hb) as (_ & _ & H'). rewrite H' in H. lia.
Qed.
(** Zeros at the end of a canonical mantissa are shifted out again. *)
Lemma round_canonical s m e k :
  bounded prec emax m e = true ->
  binary_round_aux prec emax s (Zpos (p2 k m)) (e - Z.of_nat k) loc_Exact = S754_finite s m e.
Proof.
  unfold bounded, canonical_mantissa. intros H. apply andb_true_iff in H as [Hc He]. apply Z.eqb_eq in Hc.
  unfold binary_round_aux. unfold shr_fexp at 1. cbn [Zdigits2 shr_record_of_loc]. rewrite p2_digits.
  replace (Zpos (digits m) + Z.of_nat k + (e - Z.of_nat k)) with (Zpos (digits m) + e) by lia. rewrite Hc.
  replace (e - (e - Z.of_nat k)) with (Z.of_nat k) by lia.
  replace (p2 k m) with (p2 (k + 0) m) by (f_equal; lia). rewrite shr_p2.
  cbn [shr_m loc_of_shr_record round_nearest_even]. change (p2 0 m) with m. unfold shr_fexp. cbn [Zdigits2 shr_record_of_loc].
  replace (e - Z.of_nat k + Z.of_nat k) with e by lia. rewrite Hc, Z.sub_diag. cbn [shr shr_m]. by rewrite He.
Qed.

(** A nonzero integer divided by itself is one. *)
Lemma sf_of_Z_div_self a :
  sf_exact a -> a <> 0 -> 2 * prec + 3 <= emax ->
  SFdiv prec emax (sf_of_Z prec emax a) (sf_of_Z prec emax a) = sf_of_Z prec emax 1.
Proof.
  intros Ha Hn He. destruct (sf_of_Z_rep a Ha Hn) as (m & e & E & _). rewrite E. cbn [SFdiv].
  unfold SFdiv_core_binary. rewrite !Z.sub_diag.
  replace (Z.min (fexp prec emax 0) 0) with (- prec) by (unfold fexp, emin; lia).
  destruct (0 - - prec) as [|k|k] eqn:Ek; [lia| |lia].
  rewrite Z.shiftl_mul_pow2 by lia.
  assert (Z.div_eucl (Zpos m * 2 ^ Zpos k) (Zpos m) = (2 ^ Zpos k, 0)) as ->.
  { pose proof (Z_div_mod (Zpos m * 2 ^ Zpos k) (Zpos m) ltac:(lia)) as H. destruct (Z.div_eucl _ _) as [q r].
    destruct H as [H1 H2]. assert (q = 2 ^ Zpos k) as -> by nia. f_equal. lia. }
  rewrite xorb_nilpotent. replace (new_location (Zpos m) 0) with loc_Exact
    by (unfold new_location, new_location_even, new_location_odd; by destruct (IntDef.Z.even (Zpos m))).
  assert (sf_of_Z prec emax 1 = S754_finite false (p2 (Z.to_nat (prec - 1)) 1) (1 - prec)) as ->.
  { exact (binary_round_p2 false 1 0 0 ltac:(cbn; lia) ltac:(cbn; lia)). }
  rewrite <- (round_canonical false _ (1 - prec) 1).
  - rewrite <- p2_add, p2_value, Z.mul_1_l.
    replace (Z.of_nat (1 + Z.to_nat (prec - 1))) with (Zpos k) by lia.
    by replace (1 - prec - Z.of_nat 1) with (- prec) by lia.
  - unfold bounded, canonical_mantissa, fexp, emin. rewrite p2_digits. cbn [digits2_pos].
    apply andb_true_iff. split; [apply Z.eqb_eq|apply Z.leb_le]; lia.
Qed.
End exact.

(** The lemmas for [float]. *)
Abbreviation f32_exact := (sf_exact 24).
Definition f32_of_Z_add := sf_of_Z_add 24 128 ltac:(lia).
Definition f32_of_Z_sub := sf_of_Z_sub 24 128 ltac:(lia).
Definition f32_of_Z_tests := sf_of_Z_tests 24 128 ltac:(lia).
