(* ===== verification/FloatBounds.v ===== *)
(** * How large the result of a floating-point operation is

    The value of a finite float compared with a fraction, and bounds on the
    results of the operations: rounding at most doubles a value, so sums and
    products of numbers that are small enough are finite, and their integer
    parts fit. *)

From S2P Require Import Prelude Float32.

(** The float is finite and not above [n/d] in magnitude. *)
Definition at_most (n d : Z) (x : spec_float) : bool :=
  match x with
  | S754_zero _ => true
  | S754_finite _ m e => Zpos m * 2 ^ Z.max 0 e * d <=? n * 2 ^ Z.max 0 (- e)
  | _ => false
  end.

Definition sign_of (x : spec_float) : option bool :=
  match x with S754_zero s | S754_infinity s | S754_finite s _ _ => Some s | S754_nan => None end.

(** The value of a mantissa at an exponent, compared at any scale that makes it
    an integer. *)
Definition below (n d m e : Z) : Prop := forall k, 0 <= k -> 0 <= e + k -> m * 2 ^ (e + k) * d <= n * 2 ^ k.

Lemma below_at n d m e k : 0 <= k -> 0 <= e + k -> m * 2 ^ (e + k) * d <= n * 2 ^ k -> below n d m e.
Proof.
  intros Hk He H j Hj Hej. apply (Z.mul_le_mono_pos_r _ _ (2 ^ k)); [lia|].
  replace (m * 2 ^ (e + j) * d * 2 ^ k) with (m * (2 ^ (e + j) * 2 ^ k) * d) by ring. rewrite <- Z.pow_add_r by lia.
  replace (e + j + k) with (e + k + j) by lia. rewrite Z.pow_add_r by lia.
  replace (m * (2 ^ (e + k) * 2 ^ j) * d) with (m * 2 ^ (e + k) * d * 2 ^ j) by ring.
  replace (n * 2 ^ j * 2 ^ k) with (n * 2 ^ k * 2 ^ j) by ring. apply Z.mul_le_mono_nonneg_r; lia.
Qed.

Lemma at_most_finite n d s m e : at_most n d (S754_finite s m e) = true <-> below n d (Zpos m) e.
Proof.
  cbn [at_most]. rewrite Z.leb_le. split.
  - intros H. apply (below_at _ _ _ _ (Z.max 0 (- e))); [lia..|]. by replace (e + Z.max 0 (- e)) with (Z.max 0 e) by lia.
  - intros H. specialize (H (Z.max 0 (- e)) ltac:(lia) ltac:(lia)). by replace (e + Z.max 0 (- e)) with (Z.max 0 e) in H by lia.
Qed.

Lemma below_mul n1 d1 m1 e1 n2 d2 m2 e2 : 0 <= m1 -> 0 <= m2 -> 0 <= d1 -> 0 <= d2 -> below n1 d1 m1 e1 -> below n2 d2 m2 e2 ->
  below (n1 * n2) (d1 * d2) (m1 * m2) (e1 + e2).
Proof.
  intros Hm1 Hm2 Hd1 Hd2 H1 H2. set (j1 := Z.max 0 (- e1)). set (j2 := Z.max 0 (- e2)).
  specialize (H1 j1 ltac:(lia) ltac:(lia)). specialize (H2 j2 ltac:(lia) ltac:(lia)).
  apply (below_at _ _ _ _ (j1 + j2)); [lia..|]. replace (e1 + e2 + (j1 + j2)) with ((e1 + j1) + (e2 + j2)) by lia. rewrite !Z.pow_add_r by lia.
  rewrite <- !Z.pow_add_r by lia. rewrite Z.pow_add_r, (Z.pow_add_r 2 j1 j2) by lia.
  assert (0 <= 2 ^ (e1 + j1) /\ 0 <= 2 ^ (e2 + j2)) as [P1 P2] by lia.
  transitivity ((m1 * 2 ^ (e1 + j1) * d1) * (m2 * 2 ^ (e2 + j2) * d2)); [apply Z.eq_le_incl; ring|].
  transitivity ((n1 * 2 ^ j1) * (n2 * 2 ^ j2)); [|apply Z.eq_le_incl; ring].
  apply Z.mul_le_mono_nonneg; try done; repeat apply Z.mul_nonneg_nonneg; lia.
Qed.

(** ** Rounding *)

(** Twice the number that is left when bits are shifted out, with the last of
    them. *)
Definition doubled (r : shr_record) : Z := 2 * shr_m r + Z.b2z (shr_r r).

Lemma shr_1_doubled r : 0 <= shr_m r -> 0 <= shr_m (shr_1 r) /\ doubled (shr_1 r) * 2 <= doubled r.
Proof. destruct r as [m r s]. unfold doubled. destruct m as [|[p|p|]|p]; cbn; destruct r; cbn; lia. Qed.

Lemma shr_doubled r e n r' e' : 0 <= shr_m r -> shr r e n = (r', e') ->
  0 <= shr_m r' /\ e <= e' /\ doubled r' * 2 ^ (e' - e) <= doubled r.
Proof.
  intros Hr. unfold shr. destruct n as [|n|n]; intros [= <- <-]; [rewrite Z.sub_diag; lia| |rewrite Z.sub_diag; lia].
  rewrite iter_pos_nat. replace (e + Zpos n - e) with (Z.of_nat (Pos.to_nat n)) by lia.
  assert (forall k, 0 <= shr_m (Nat.iter k shr_1 r) /\ doubled (Nat.iter k shr_1 r) * 2 ^ Z.of_nat k <= doubled r) as Hk.
  { induction k as [|k [H1 H2]]; [cbn; lia|]. rewrite Nat2Z.inj_succ, Z.pow_succ_r by lia. cbn [Nat.iter].
    destruct (shr_1_doubled _ H1) as [H3 H4]. split; [done|]. etrans; [|exact H2]. rewrite Z.mul_assoc. apply Z.mul_le_mono_nonneg_r; [lia|exact H4]. }
  specialize (Hk (Pos.to_nat n)). lia.
Qed.

Lemma round_nearest_le r : 0 <= shr_m r -> 0 <= round_nearest_even (shr_m r) (loc_of_shr_record r) <= doubled r.
Proof. destruct r as [m [] []]; unfold doubled; cbn; intros H; try destruct (Z.even m); lia. Qed.

Lemma at_most_mono n n' d x : n <= n' -> at_most n d x = true -> at_most n' d x = true.
Proof.
  intros Hn. destruct x as [s|s| |s m e]; [done..|]. rewrite !at_most_finite. intros H k Hk He. specialize (H k Hk He).
  assert (n * 2 ^ k <= n' * 2 ^ k) by (apply Z.mul_le_mono_nonneg_r; lia). lia.
Qed.

Lemma below_double n d m e : below n d m e -> below (2 * n) d (doubled (shr_record_of_loc m loc_Exact)) e.
Proof. intros H k Hk He. specialize (H k Hk He). unfold doubled. cbn [shr_record_of_loc shr_m shr_r Z.b2z]. lia. Qed.

Lemma shl_align_value m e ez : exists k, Zpos (fst (shl_align m e ez)) = Zpos m * 2 ^ Z.of_nat k /\ snd (shl_align m e ez) = e - Z.of_nat k.
Proof.
  unfold shl_align. destruct (ez - e) as [|p|p] eqn:E; [exists 0%nat; cbn; lia..|]. exists (Pos.to_nat p). cbn [fst snd].
  rewrite iter_xO, p2_value. lia.
Qed.

Lemma below_shift n d m e k : below n d m e <-> below n d (m * 2 ^ Z.of_nat k) (e - Z.of_nat k).
Proof.
  split; intros H.
  - set (j := Z.max 0 (- e) + Z.of_nat k). apply (below_at _ _ _ _ j); [lia..|]. specialize (H j ltac:(lia) ltac:(lia)).
    rewrite <- (Z.mul_assoc m), <- Z.pow_add_r by lia. by replace (Z.of_nat k + (e - Z.of_nat k + j)) with (e + j) by lia.
  - set (j := Z.max 0 (- e) + Z.of_nat k). apply (below_at _ _ _ _ j); [lia..|]. specialize (H j ltac:(lia) ltac:(lia)).
    rewrite <- (Z.mul_assoc m), <- Z.pow_add_r in H by lia. by replace (Z.of_nat k + (e - Z.of_nat k + j)) with (e + j) in H by lia.
Qed.

Lemma below_align n d s m e ez : ez <= e -> below n d (Zpos m) e -> below n d (Z.abs (cond_Zopp s (Zpos (fst (shl_align m e ez))))) ez.
Proof.
  intros He Hb. replace (Z.abs _) with (Zpos (fst (shl_align m e ez))) by (destruct s; cbn; lia).
  destruct (shl_align_value m e ez) as (k & E1 & E2). rewrite E1. replace ez with (e - Z.of_nat k); [by apply below_shift|].
  rewrite <- E2. unfold shl_align. destruct (ez - e) eqn:E; cbn [snd]; lia.
Qed.

Lemma below_sum n1 n2 d a b c e : 0 < d -> Z.abs c <= Z.abs a + Z.abs b -> below n1 d (Z.abs a) e -> below n2 d (Z.abs b) e -> below (n1 + n2) d (Z.abs c) e.
Proof.
  intros Hd Hc H1 H2 k Hk He. specialize (H1 k Hk He). specialize (H2 k Hk He).
  assert (Z.abs c * (2 ^ (e + k) * d) <= (Z.abs a + Z.abs b) * (2 ^ (e + k) * d)) by (apply Z.mul_le_mono_nonneg_r; [apply Z.mul_nonneg_nonneg; lia|done]).
  lia.
Qed.

Section Bounds.
Context (prec emax : Z) (Hprec : 1 < prec < emax).

(** No float above this is infinite after rounding. *)
Let huge : Z := 2 ^ (emax - prec).

Lemma round_aux_at_most s m e l n d : 0 <= m -> 0 < d -> n < huge * d -> below n d (doubled (shr_record_of_loc m l)) e ->
  at_most n d (binary_round_aux prec emax s m e l) = true /\ sign_of (binary_round_aux prec emax s m e l) = Some s.
Proof.
  intros Hm Hd Hn Hb. unfold binary_round_aux. destruct (shr_fexp prec emax m e l) as [r1 e1] eqn:E1.
  assert (0 <= shr_m (shr_record_of_loc m l)) as Hm0 by (by destruct l as [|[]]).
  destruct (shr_doubled _ _ _ _ _ Hm0 E1) as (P1 & L1 & D1).
  pose proof (round_nearest_le r1 P1) as R1. set (m1 := round_nearest_even _ _) in *.
  destruct (shr_fexp prec emax m1 e1 loc_Exact) as [r2 e2] eqn:E2. cbv beta iota.
  destruct (shr_doubled (shr_record_of_loc m1 loc_Exact) _ _ _ _ (proj1 R1) E2) as (P2 & L2 & D2).
  assert (shr_m r2 * 2 ^ (e2 - e) <= doubled (shr_record_of_loc m l)) as Hlow.
  { etrans; [|exact D1]. replace (e2 - e) with ((e2 - e1) + (e1 - e)) by lia. rewrite Z.pow_add_r, Z.mul_assoc by lia.
    apply Z.mul_le_mono_nonneg_r; [lia|]. etrans; [|apply R1]. unfold doubled in D2. cbn [shr_record_of_loc shr_m shr_r Z.b2z] in D2.
    destruct (shr_r r2); cbn [Z.b2z] in D2; lia. }
  assert (below n d (shr_m r2) e2) as B2.
  { set (k := Z.max 0 (- e)). apply (below_at _ _ _ _ k); [lia..|]. etrans; [|apply (Hb k); lia].
    replace (e2 + k) with ((e2 - e) + (e + k)) by lia. rewrite Z.pow_add_r, Z.mul_assoc by lia.
    apply Z.mul_le_mono_nonneg_r; [lia|]. apply Z.mul_le_mono_nonneg_r; [lia|done]. }
  destruct (shr_m r2) as [|m2|m2] eqn:Em; [done| |lia].
  destruct (Z.leb_spec e2 (emax - prec)); [split; [by apply at_most_finite|done]|].
  exfalso. specialize (B2 0 ltac:(lia) ltac:(lia)). rewrite Z.add_0_r, Z.pow_0_r, Z.mul_1_r in B2.
  assert (huge <= 2 ^ e2) by (apply Z.pow_le_mono_r; lia). assert (1 * 2 ^ e2 <= Zpos m2 * 2 ^ e2) by (apply Z.mul_le_mono_nonneg_r; lia).
  assert (huge * d <= Zpos m2 * 2 ^ e2 * d) by (apply Z.mul_le_mono_nonneg_r; lia). lia.
Qed.

Lemma round_at_most s m e n d : 0 < d -> 2 * n < huge * d -> below n d (Zpos m) e ->
  at_most (2 * n) d (binary_round prec emax s m e) = true /\ sign_of (binary_round prec emax s m e) = Some s.
Proof.
  intros Hd Hn Hb. unfold binary_round. set (ez := fexp _ _ _). destruct (shl_align_value m e ez) as (k & E1 & E2).
  destruct (shl_align m e ez) as [m' e']. cbn [fst snd] in E1, E2. subst e'. apply round_aux_at_most; [lia..|].
  apply below_double. rewrite E1. by apply below_shift.
Qed.

Lemma normalize_at_most z e s n d : 0 < d -> 2 * n < huge * d -> below n d (Z.abs z) e ->
  at_most (2 * n) d (binary_normalize prec emax z e s) = true.
Proof. intros Hd Hn Hb. destruct z as [|m|m]; [done| |]; by apply round_at_most. Qed.

(** ** The operations *)

Lemma of_Z_at_most z n : Z.abs z <= n -> 2 * n < huge ->
  at_most (2 * n) 1 (sf_of_Z prec emax z) = true /\ sign_of (sf_of_Z prec emax z) = Some (z <? 0).
Proof.
  intros Hz Hn. assert (below n 1 (Z.abs z) 0) as Hb by (apply (below_at _ _ _ _ 0); cbn; lia).
  destruct z as [|m|m]; [done| |]; apply round_at_most; lia || done.
Qed.

Lemma conv_at_most x n d : 0 < d -> 0 <= n -> 2 * n < huge * d -> at_most n d x = true -> at_most (2 * n) d (sf_conv prec emax x) = true.
Proof.
  intros Hd H0 Hn Hx. destruct x as [s|s| |s m e]; [done..|]. unfold sf_conv. apply round_at_most; [done..|]. by apply (at_most_finite _ _ s).
Qed.

Lemma SFmul_at_most x y n1 d1 n2 d2 : 0 < d1 -> 0 < d2 -> 2 * (n1 * n2) < huge * (d1 * d2) -> at_most n1 d1 x = true -> at_most n2 d2 y = true ->
  at_most (2 * (n1 * n2)) (d1 * d2) (SFmul prec emax x y) = true.
Proof.
  intros Hd1 Hd2 Hn Hx Hy. destruct x as [s|s| |s m e]; destruct y as [t|t| |t k f]; try done.
  apply at_most_finite in Hx, Hy. cbn [SFmul]. apply round_aux_at_most; [lia|by apply Z.mul_pos_pos|lia|].
  apply below_double. rewrite Pos2Z.inj_mul. apply below_mul; lia || done.
Qed.

Lemma SFmul_sign x y s t n d : at_most n d (SFmul prec emax x y) = true -> sign_of x = Some s -> sign_of y = Some t ->
  sign_of (SFmul prec emax x y) = Some (xorb s t).
Proof.
  destruct x as [sx|sx| |sx m e]; destruct y as [sy|sy| |sy k f]; try done; intros Ha [= <-] [= <-]; try done.
  cbn [SFmul] in *. unfold binary_round_aux in *. destruct (shr_fexp _ _ _ _ _) as [r1 e1]. destruct (shr_fexp _ _ _ _ _) as [r2 e2].
  destruct (shr_m r2); [done| |done]. by destruct (_ <=? _).
Qed.

Section Sum.
Context (x y : spec_float) (n1 n2 d : Z).
Hypothesis Hd : 0 < d.
Hypothesis H1 : 0 <= n1.
Hypothesis H2 : 0 <= n2.
Hypothesis Hn : 2 * (n1 + n2) < huge * d.
Hypothesis Hx : at_most n1 d x = true.
Hypothesis Hy : at_most n2 d y = true.

Lemma SFadd_at_most : at_most (2 * (n1 + n2)) d (SFadd prec emax x y) = true.
Proof.
  destruct x as [s|s| |s m e]; try done; destruct y as [t|t| |t k f]; try done.
  - by destruct s, t.
  - by apply (at_most_mono n2); [lia|].
  - by apply (at_most_mono n1); [lia|].
  - apply at_most_finite in Hx, Hy. apply normalize_at_most; [done..|].
    apply (below_sum n1 n2 d (cond_Zopp s (Zpos (fst (shl_align m e (Z.min e f))))) (cond_Zopp t (Zpos (fst (shl_align k f (Z.min e f))))));
      [done|cbv zeta; apply Z.abs_triangle|apply below_align; [lia|done]..].
Qed.

Lemma SFsub_at_most : at_most (2 * (n1 + n2)) d (SFsub prec emax x y) = true.
Proof.
  destruct x as [s|s| |s m e]; try done; destruct y as [t|t| |t k f]; try done.
  - by destruct s, t.
  - by apply (at_most_mono n2); [lia|].
  - by apply (at_most_mono n1); [lia|].
  - apply at_most_finite in Hx, Hy. apply normalize_at_most; [done..|].
    apply (below_sum n1 n2 d (cond_Zopp s (Zpos (fst (shl_align m e (Z.min e f))))) (cond_Zopp t (Zpos (fst (shl_align k f (Z.min e f))))));
      [done|cbv zeta; set (a := cond_Zopp s _); set (b := cond_Zopp t _); lia|apply below_align; [lia|done]..].
Qed.
End Sum.

(** An integer that the mantissa holds is not rounded. *)
Lemma of_Z_exact_at_most z : sf_exact prec z ->
  at_most (Z.abs z) 1 (sf_of_Z prec emax z) = true /\ sign_of (sf_of_Z prec emax z) = Some (z <? 0).
Proof.
  intros Hz. destruct (decide (z = 0)) as [E|Hn]; [by rewrite E|].
  destruct (sf_of_Z_rep prec emax Hprec z Hz Hn) as (m & e & E1 & He & Hs). unfold at_most, sign_of. rewrite E1. split; [|done].
  specialize (Hs e ltac:(lia)). unfold shl_align in Hs. rewrite Z.sub_diag in Hs. cbn [fst] in Hs. apply Z.leb_le.
  replace (Z.max 0 e) with 0 by lia. replace (Z.max 0 (- e)) with (- e) by lia. rewrite Z.pow_0_r, !Z.mul_1_r.
  unfold cond_Zopp in Hs. destruct (Z.ltb_spec z 0); lia.
Qed.
End Bounds.

(** The integer part of a bounded float fits. *)
Lemma to_int_at_most lo hi n d x : 0 < d -> 0 <= n -> lo * d <= - n -> n < hi * d -> at_most n d x = true ->
  exists z, sf_to_int lo hi x = Ok z /\ Z.abs z * d <= n /\ (sign_of x = Some false -> 0 <= z) /\ (sign_of x = Some true -> z <= 0).
Proof.
  intros Hd Hn Hlo Hhi Ha.
  assert (exists z, sf_trunc x = Some z /\ Z.abs z * d <= n /\ (sign_of x = Some false -> 0 <= z) /\ (sign_of x = Some true -> z <= 0)) as (z & Ez & Hz & Hs).
  { destruct x as [s|s| |s m e]; [by exists 0|done..|]. apply at_most_finite in Ha.
    exists (cond_Zopp s (Z.shiftl (Zpos m) e)). split; [done|]. assert (0 <= Z.shiftl (Zpos m) e) as H0 by (by apply Z.shiftl_nonneg).
    split; [|split; intros [= ->]; cbn; lia]. replace (Z.abs _) with (Z.shiftl (Zpos m) e) by (destruct s; cbn; lia).
    destruct (Z.le_gt_cases 0 e) as [He|He].
    - rewrite Z.shiftl_mul_pow2 by done. specialize (Ha 0 ltac:(lia) ltac:(lia)). rewrite Z.add_0_r in Ha. lia.
    - rewrite Z.shiftl_div_pow2 by lia. specialize (Ha (- e) ltac:(lia) ltac:(lia)). rewrite Z.add_opp_diag_r, Z.pow_0_r, Z.mul_1_r in Ha.
      assert (0 < 2 ^ (- e)) as Hp by lia. pose proof (Z.mul_div_le (Zpos m) _ Hp) as Hq.
      apply (Z.mul_le_mono_pos_r _ _ _ Hp). etrans; [|exact Ha]. nia. }
  unfold sf_to_int. rewrite Ez. exists z. replace ((lo <=? z) && (z <? hi)) with true; [done|]. symmetry. apply andb_true_iff.
  split; [apply Z.leb_le|apply Z.ltb_lt]; nia.
Qed.
