(* ===== verification/MathVec.v ===== *)
(** * Vectors, rectangles and colours

    include/mutils/math/math.h: the templates [NVec2], [NVec3], [NVec4] and
    [NRect] over any scalar type, and the functions on [float] vectors that
    pack and mix colours. A template is a definition over a type [T] with
    [Scalar T]; an operation whose arithmetic can be undefined for an integer
    type is a result. A compound assignment returns the new value of its left
    operand. *)

From S2P Require Import Prelude Float32.

(** [const inline float ZPI] *)
Definition ZPI : f32 := f32_lit 314159862 100000000.

Record NVec2 (T : Type) : Type := mkVec2 { x2 : T; y2 : T }.
Record NVec3 (T : Type) : Type := mkVec3 { x3 : T; y3 : T; z3 : T }.
Record NVec4 (T : Type) : Type := mkVec4 { x4 : T; y4 : T; z4 : T; w4 : T }.
Arguments mkVec2 {T}. Arguments x2 {T}. Arguments y2 {T}.
Arguments mkVec3 {T}. Arguments x3 {T}. Arguments y3 {T}. Arguments z3 {T}.
Arguments mkVec4 {T}. Arguments x4 {T}. Arguments y4 {T}. Arguments z4 {T}. Arguments w4 {T}.

(** ** NVec2 *)

Section vec2.
Context {T : Type} `{Scalar T}.

Definition NVec2_splat (v : T) : NVec2 T := mkVec2 v v.
Definition NVec2_default : NVec2 T := mkVec2 (sc_of_Z 0) (sc_of_Z 0).

(** The conversion from [NVec2<Y>], with the cast from [Y] to [T]. *)
Definition NVec2_convert {Y} (cast : Y -> result stop T) (val : NVec2 Y) : result stop (NVec2 T) :=
  x ← cast (x2 val); y ← cast (y2 val); Ok (mkVec2 x y).

Definition NVec2_eqb (lhs rhs : NVec2 T) : bool :=
  if sc_eqb (x2 lhs) (x2 rhs) && sc_eqb (y2 lhs) (y2 rhs) then true else false.
Definition NVec2_neqb (lhs rhs : NVec2 T) : bool := negb (NVec2_eqb lhs rhs).

Definition NVec2_map (f : T -> result stop T) (v : NVec2 T) : result stop (NVec2 T) :=
  x ← f (x2 v); y ← f (y2 v); Ok (mkVec2 x y).
Definition NVec2_zip (f : T -> T -> result stop T) (l r : NVec2 T) : result stop (NVec2 T) :=
  x ← f (x2 l) (x2 r); y ← f (y2 l) (y2 r); Ok (mkVec2 x y).

Definition NVec2_Abs (lhs : NVec2 T) : result stop (NVec2 T) := NVec2_map sc_abs lhs.
Definition NVec2_Min (lhs rhs : NVec2 T) : NVec2 T := mkVec2 (sc_min (x2 lhs) (x2 rhs)) (sc_min (y2 lhs) (y2 rhs)).
Definition NVec2_Max (lhs rhs : NVec2 T) : NVec2 T := mkVec2 (sc_max (x2 lhs) (x2 rhs)) (sc_max (y2 lhs) (y2 rhs)).
Definition NVec2_add (lhs rhs : NVec2 T) : result stop (NVec2 T) := NVec2_zip sc_add lhs rhs.
Definition NVec2_sub (lhs rhs : NVec2 T) : result stop (NVec2 T) := NVec2_zip sc_sub lhs rhs.
Definition NVec2_div (lhs rhs : NVec2 T) : result stop (NVec2 T) := NVec2_zip sc_div lhs rhs.
Definition NVec2_mul (lhs rhs : NVec2 T) : result stop (NVec2 T) := NVec2_zip sc_mul lhs rhs.
Definition NVec2_add_assign (lhs rhs : NVec2 T) : result stop (NVec2 T) :=
  x ← sc_add (x2 lhs) (x2 rhs); y ← sc_add (y2 lhs) (y2 rhs); Ok (mkVec2 x y).
Definition NVec2_sub_assign (lhs rhs : NVec2 T) : result stop (NVec2 T) :=
  x ← sc_sub (x2 lhs) (x2 rhs); y ← sc_sub (y2 lhs) (y2 rhs); Ok (mkVec2 x y).
Definition NVec2_mulf (lhs : NVec2 T) (val : f32) : result stop (NVec2 T) := NVec2_map (fun a => sc_mulf a val) lhs.
Definition NVec2_divf (lhs : NVec2 T) (val : f32) : result stop (NVec2 T) := NVec2_map (fun a => sc_divf a val) lhs.
Definition NVec2_mulf_assign (lhs : NVec2 T) (val : f32) : result stop (NVec2 T) :=
  x ← sc_mulf (x2 lhs) val; y ← sc_mulf (y2 lhs) val; Ok (mkVec2 x y).

(** [operator<]: by [y], then by [x]. *)
Definition NVec2_ltb (lhs rhs : NVec2 T) : bool :=
  if negb (sc_eqb (y2 lhs) (y2 rhs)) then sc_ltb (y2 lhs) (y2 rhs) else sc_ltb (x2 lhs) (x2 rhs).

Definition NVec2_Clamp (val min max : NVec2 T) : NVec2 T :=
  mkVec2 (sc_min (x2 max) (sc_max (x2 min) (x2 val))) (sc_min (y2 max) (sc_max (y2 min) (y2 val))).

Definition ManhattanDistance (l r : NVec2 T) : result stop T :=
  dx ← sc_sub (x2 l) (x2 r); ax ← sc_abs dx;
  dy ← sc_sub (y2 r) (y2 l); ay ← sc_abs dy;
  sc_add ax ay.

Definition NVec2_LengthSquared (v : NVec2 T) : result stop T :=
  a ← sc_mul (x2 v) (x2 v); b ← sc_mul (y2 v) (y2 v); sc_add a b.
Definition NVec2_Length (v : NVec2 T) : result stop T := NVec2_LengthSquared v ≫= sc_sqrt.

(** [val / Length(val)], by the operator that takes a [float]. *)
Definition NVec2_Normalized (val : NVec2 T) : result stop (NVec2 T) :=
  len ← NVec2_Length val; NVec2_divf val (sc_to_f32 len).

(** [operator<<], with the printing of a scalar. *)
Definition NVec2_print (show : T -> str) (v : NVec2 T) : str :=
  lit "(" ++ show (x2 v) ++ lit ", " ++ show (y2 v) ++ lit ")".
End vec2.

(** ** NVec3 *)

Section vec3.
Context {T : Type} `{Scalar T}.

Definition NVec3_splat (val : T) : NVec3 T := mkVec3 val val val.
Definition NVec3_default : NVec3 T := mkVec3 (sc_of_Z 0) (sc_of_Z 0) (sc_of_Z 0).
Definition NVec3_convert {Y} (cast : Y -> result stop T) (val : NVec3 Y) : result stop (NVec3 T) :=
  x ← cast (x3 val); y ← cast (y3 val); z ← cast (z3 val); Ok (mkVec3 x y z).

Definition NVec3_eqb (lhs rhs : NVec3 T) : bool :=
  if sc_eqb (x3 lhs) (x3 rhs) && sc_eqb (y3 lhs) (y3 rhs) && sc_eqb (z3 lhs) (z3 rhs) then true else false.
Definition NVec3_neqb (lhs rhs : NVec3 T) : bool := negb (NVec3_eqb lhs rhs).

(** [operator[]]: which field an index names; one out of range fails an
    assertion or, without assertions, names [x]. *)
Definition NVec3_at (NDEBUG : bool) (v : NVec3 T) (index : Z) : result stop T :=
  match index with
  | 0 => Ok (x3 v) | 1 => Ok (y3 v) | 2 => Ok (z3 v)
  | _ => if NDEBUG then Ok (x3 v) else Err AssertFail
  end.
(** Writing through the reference that the mutable [operator[]] returns. *)
Definition NVec3_set (NDEBUG : bool) (v : NVec3 T) (index : Z) (a : T) : result stop (NVec3 T) :=
  match index with
  | 0 => Ok (mkVec3 a (y3 v) (z3 v)) | 1 => Ok (mkVec3 (x3 v) a (z3 v)) | 2 => Ok (mkVec3 (x3 v) (y3 v) a)
  | _ => if NDEBUG then Ok (mkVec3 a (y3 v) (z3 v)) else Err AssertFail
  end.

Definition NVec3_map (f : T -> result stop T) (v : NVec3 T) : result stop (NVec3 T) :=
  x ← f (x3 v); y ← f (y3 v); z ← f (z3 v); Ok (mkVec3 x y z).
Definition NVec3_zip (f : T -> T -> result stop T) (l r : NVec3 T) : result stop (NVec3 T) :=
  x ← f (x3 l) (x3 r); y ← f (y3 l) (y3 r); z ← f (z3 l) (z3 r); Ok (mkVec3 x y z).

Definition NVec3_Abs (lhs : NVec3 T) : result stop (NVec3 T) := NVec3_map sc_abs lhs.
Definition NVec3_Min (lhs rhs : NVec3 T) : NVec3 T :=
  mkVec3 (sc_min (x3 lhs) (x3 rhs)) (sc_min (y3 lhs) (y3 rhs)) (sc_min (z3 lhs) (z3 rhs)).
Definition NVec3_Max (lhs rhs : NVec3 T) : NVec3 T :=
  mkVec3 (sc_max (x3 lhs) (x3 rhs)) (sc_max (y3 lhs) (y3 rhs)) (sc_max (z3 lhs) (z3 rhs)).
Definition NVec3_add (lhs rhs : NVec3 T) : result stop (NVec3 T) := NVec3_zip sc_add lhs rhs.
Definition NVec3_sub (lhs rhs : NVec3 T) : result stop (NVec3 T) := NVec3_zip sc_sub lhs rhs.
Definition NVec3_add_assign (lhs rhs : NVec3 T) : result stop (NVec3 T) :=
  x ← sc_add (x3 lhs) (x3 rhs); y ← sc_add (y3 lhs) (y3 rhs); z ← sc_add (z3 lhs) (z3 rhs); Ok (mkVec3 x y z).
Definition NVec3_sub_assign (lhs rhs : NVec3 T) : result stop (NVec3 T) :=
  x ← sc_sub (x3 lhs) (x3 rhs); y ← sc_sub (y3 lhs) (y3 rhs); z ← sc_sub (z3 lhs) (z3 rhs); Ok (mkVec3 x y z).
Definition NVec3_scale (lhs : NVec3 T) (val : T) : result stop (NVec3 T) := NVec3_map (fun a => sc_mul a val) lhs.
Definition NVec3_mul (lhs rhs : NVec3 T) : result stop (NVec3 T) := NVec3_zip sc_mul lhs rhs.
Definition NVec3_unscale (lhs : NVec3 T) (val : T) : result stop (NVec3 T) := NVec3_map (fun a => sc_div a val) lhs.
Definition NVec3_div (lhs rhs : NVec3 T) : result stop (NVec3 T) := NVec3_zip sc_div lhs rhs.
Definition NVec3_mulf_assign (lhs : NVec3 T) (val : f32) : result stop (NVec3 T) :=
  x ← sc_mulf (x3 lhs) val; y ← sc_mulf (y3 lhs) val; z ← sc_mulf (z3 lhs) val; Ok (mkVec3 x y z).
Definition NVec3_mul_assign (lhs rhs : NVec3 T) : result stop (NVec3 T) :=
  x ← sc_mul (x3 lhs) (x3 rhs); y ← sc_mul (y3 lhs) (y3 rhs); z ← sc_mul (z3 lhs) (z3 rhs); Ok (mkVec3 x y z).
Definition NVec3_unscale_assign (lhs : NVec3 T) (val : T) : result stop (NVec3 T) :=
  x ← sc_div (x3 lhs) val; y ← sc_div (y3 lhs) val; z ← sc_div (z3 lhs) val; Ok (mkVec3 x y z).
Definition NVec3_div_assign (lhs rhs : NVec3 T) : result stop (NVec3 T) :=
  x ← sc_div (x3 lhs) (x3 rhs); y ← sc_div (y3 lhs) (y3 rhs); z ← sc_div (z3 lhs) (z3 rhs); Ok (mkVec3 x y z).
Definition NVec3_Clamp (val min max : NVec3 T) : NVec3 T :=
  mkVec3 (sc_min (x3 max) (sc_max (x3 min) (x3 val))) (sc_min (y3 max) (sc_max (y3 min) (y3 val)))
    (sc_min (z3 max) (sc_max (z3 min) (z3 val))).
Definition NVec3_LengthSquared (v : NVec3 T) : result stop T :=
  a ← sc_mul (x3 v) (x3 v); b ← sc_mul (y3 v) (y3 v); c ← sc_mul (z3 v) (z3 v); ab ← sc_add a b; sc_add ab c.
Definition NVec3_Length (v : NVec3 T) : result stop T := NVec3_LengthSquared v ≫= sc_sqrt.
Definition NVec3_Normalized (val : NVec3 T) : result stop (NVec3 T) := len ← NVec3_Length val; NVec3_unscale val len.
Definition NVec3_print (show : T -> str) (v : NVec3 T) : str :=
  lit "(" ++ show (x3 v) ++ lit ", " ++ show (y3 v) ++ lit ", " ++ show (z3 v) ++ lit ")".
End vec3.

(** ** NVec4 *)

Section vec4.
Context {T : Type} `{Scalar T}.

Definition NVec4_splat (val : T) : NVec4 T := mkVec4 val val val val.
Definition NVec4_default : NVec4 T := mkVec4 (sc_of_Z 0) (sc_of_Z 0) (sc_of_Z 0) (sc_of_Z 1).
Definition NVec4_convert {Y} (cast : Y -> result stop T) (val : NVec4 Y) : result stop (NVec4 T) :=
  x ← cast (x4 val); y ← cast (y4 val); z ← cast (z4 val); w ← cast (w4 val); Ok (mkVec4 x y z w).

Definition NVec4_eqb (lhs rhs : NVec4 T) : bool :=
  if sc_eqb (x4 lhs) (x4 rhs) && sc_eqb (y4 lhs) (y4 rhs) && sc_eqb (z4 lhs) (z4 rhs) && sc_eqb (w4 lhs) (w4 rhs)
  then true else false.
Definition NVec4_neqb (lhs rhs : NVec4 T) : bool := negb (NVec4_eqb lhs rhs).

Definition NVec4_at (NDEBUG : bool) (v : NVec4 T) (index : Z) : result stop T :=
  match index with
  | 0 => Ok (x4 v) | 1 => Ok (y4 v) | 2 => Ok (z4 v) | 3 => Ok (w4 v)
  | _ => if NDEBUG then Ok (x4 v) else Err AssertFail
  end.
Definition NVec4_set (NDEBUG : bool) (v : NVec4 T) (index : Z) (a : T) : result stop (NVec4 T) :=
  match index with
  | 0 => Ok (mkVec4 a (y4 v) (z4 v) (w4 v))
  | 1 => Ok (mkVec4 (x4 v) a (z4 v) (w4 v))
  | 2 => Ok (mkVec4 (x4 v) (y4 v) a (w4 v))
  | 3 => Ok (mkVec4 (x4 v) (y4 v) (z4 v) a)
  | _ => if NDEBUG then Ok (mkVec4 a (y4 v) (z4 v) (w4 v)) else Err AssertFail
  end.

Definition NVec4_map (f : T -> result stop T) (v : NVec4 T) : result stop (NVec4 T) :=
  x ← f (x4 v); y ← f (y4 v); z ← f (z4 v); w ← f (w4 v); Ok (mkVec4 x y z w).
Definition NVec4_zip (f : T -> T -> result stop T) (l r : NVec4 T) : result stop (NVec4 T) :=
  x ← f (x4 l) (x4 r); y ← f (y4 l) (y4 r); z ← f (z4 l) (z4 r); w ← f (w4 l) (w4 r); Ok (mkVec4 x y z w).

Definition NVec4_Abs (lhs : NVec4 T) : result stop (NVec4 T) := NVec4_map sc_abs lhs.
Definition NVec4_Min (lhs rhs : NVec4 T) : NVec4 T :=
  mkVec4 (sc_min (x4 lhs) (x4 rhs)) (sc_min (y4 lhs) (y4 rhs)) (sc_min (z4 lhs) (z4 rhs)) (sc_min (w4 lhs) (w4 rhs)).
Definition NVec4_Max (lhs rhs : NVec4 T) : NVec4 T :=
  mkVec4 (sc_max (x4 lhs) (x4 rhs)) (sc_max (y4 lhs) (y4 rhs)) (sc_max (z4 lhs) (z4 rhs)) (sc_max (w4 lhs) (w4 rhs)).
Definition NVec4_add (lhs rhs : NVec4 T) : result stop (NVec4 T) := NVec4_zip sc_add lhs rhs.
Definition NVec4_sub (lhs rhs : NVec4 T) : result stop (NVec4 T) := NVec4_zip sc_sub lhs rhs.
Definition NVec4_opp (lhs : NVec4 T) : result stop (NVec4 T) := NVec4_map sc_opp lhs.
Definition NVec4_add_assign (lhs rhs : NVec4 T) : result stop (NVec4 T) :=
  x ← sc_add (x4 lhs) (x4 rhs); y ← sc_add (y4 lhs) (y4 rhs);
  z ← sc_add (z4 lhs) (z4 rhs); w ← sc_add (w4 lhs) (w4 rhs); Ok (mkVec4 x y z w).
Definition NVec4_sub_assign (lhs rhs : NVec4 T) : result stop (NVec4 T) :=
  x ← sc_sub (x4 lhs) (x4 rhs); y ← sc_sub (y4 lhs) (y4 rhs);
  z ← sc_sub (z4 lhs) (z4 rhs); w ← sc_sub (w4 lhs) (w4 rhs); Ok (mkVec4 x y z w).
Definition NVec4_scale (lhs : NVec4 T) (val : T) : result stop (NVec4 T) := NVec4_map (fun a => sc_mul a val) lhs.
Definition NVec4_mul (lhs rhs : NVec4 T) : result stop (NVec4 T) := NVec4_zip sc_mul lhs rhs.
Definition NVec4_unscale (lhs : NVec4 T) (val : T) : result stop (NVec4 T) := NVec4_map (fun a => sc_div a val) lhs.
Definition NVec4_div (lhs rhs : NVec4 T) : result stop (NVec4 T) := NVec4_zip sc_div lhs rhs.
Definition NVec4_mulf_assign (lhs : NVec4 T) (val : f32) : result stop (NVec4 T) :=
  x ← sc_mulf (x4 lhs) val; y ← sc_mulf (y4 lhs) val; z ← sc_mulf (z4 lhs) val; w ← sc_mulf (w4 lhs) val;
  Ok (mkVec4 x y z w).
Definition NVec4_mul_assign (lhs rhs : NVec4 T) : result stop (NVec4 T) :=
  x ← sc_mul (x4 lhs) (x4 rhs); y ← sc_mul (y4 lhs) (y4 rhs);
  z ← sc_mul (z4 lhs) (z4 rhs); w ← sc_mul (w4 lhs) (w4 rhs); Ok (mkVec4 x y z w).
Definition NVec4_unscale_assign (lhs : NVec4 T) (val : T) : result stop (NVec4 T) :=
  x ← sc_div (x4 lhs) val; y ← sc_div (y4 lhs) val; z ← sc_div (z4 lhs) val; w ← sc_div (w4 lhs) val;
  Ok (mkVec4 x y z w).
Definition NVec4_div_assign (lhs rhs : NVec4 T) : result stop (NVec4 T) :=
  x ← sc_div (x4 lhs) (x4 rhs); y ← sc_div (y4 lhs) (y4 rhs);
  z ← sc_div (z4 lhs) (z4 rhs); w ← sc_div (w4 lhs) (w4 rhs); Ok (mkVec4 x y z w).
Definition NVec4_Clamp (val min max : NVec4 T) : NVec4 T :=
  mkVec4 (sc_min (x4 max) (sc_max (x4 min) (x4 val))) (sc_min (y4 max) (sc_max (y4 min) (y4 val)))
    (sc_min (z4 max) (sc_max (z4 min) (z4 val))) (sc_min (w4 max) (sc_max (w4 min) (w4 val))).
Definition NVec4_print (show : T -> str) (v : NVec4 T) : str :=
  lit "(" ++ show (x4 v) ++ lit ", " ++ show (y4 v) ++ lit ", " ++ show (z4 v) ++ lit ", " ++ show (w4 v) ++ lit ")".
End vec4.

(** ** Colours

    [uint32_t(c * 255.0f)] *)
Definition channel (c : f32) : result stop Z := sf_to_int 0 (2 ^ 32) (SFmul 24 128 c (f32_of_Z 255)).

Definition NVec3_ToPacked (val : NVec3 f32) : result stop Z :=
  x ← channel (x3 val); y ← channel (y3 val); z ← channel (z3 val);
  Ok (u32 (x .<< 24) .| u32 (y .<< 16) .| u32 (z .<< 8) .| 255).
Definition NVec3_ToPackedARGB (val : NVec3 f32) : result stop Z :=
  x ← channel (x3 val); y ← channel (y3 val); z ← channel (z3 val);
  Ok (0xFF000000 .| u32 (x .<< 16) .| u32 (y .<< 8) .| z).
Definition NVec3_ToPackedABGR (val : NVec3 f32) : result stop Z :=
  x ← channel (x3 val); y ← channel (y3 val); z ← channel (z3 val);
  Ok (0xFF000000 .| x .| u32 (y .<< 8) .| u32 (z .<< 16)).
Definition NVec3_ToPackedBGRA (val : NVec3 f32) : result stop Z :=
  x ← channel (x3 val); y ← channel (y3 val); z ← channel (z3 val);
  Ok (255 .| u32 (x .<< 16) .| u32 (y .<< 24) .| u32 (z .<< 8)).

Definition NVec4_ToPacked (val : NVec4 f32) : result stop Z :=
  x ← channel (x4 val); y ← channel (y4 val); z ← channel (z4 val); w ← channel (w4 val);
  Ok (u32 (x .<< 24) .| u32 (y .<< 16) .| u32 (z .<< 8) .| w).
Definition NVec4_ToPackedARGB (val : NVec4 f32) : result stop Z :=
  w ← channel (w4 val); x ← channel (x4 val); y ← channel (y4 val); z ← channel (z4 val);
  Ok (u32 (w .<< 24) .| u32 (x .<< 16) .| u32 (y .<< 8) .| z).
Definition NVec4_ToPackedABGR (val : NVec4 f32) : result stop Z :=
  w ← channel (w4 val); x ← channel (x4 val); y ← channel (y4 val); z ← channel (z4 val);
  Ok (u32 (w .<< 24) .| x .| u32 (y .<< 8) .| u32 (z .<< 16)).
Definition NVec4_ToPackedBGRA (val : NVec4 f32) : result stop Z :=
  w ← channel (w4 val); x ← channel (x4 val); y ← channel (y4 val); z ← channel (z4 val);
  Ok (u32 (w .<< 8) .| u32 (x .<< 16) .| u32 (y .<< 24) .| z).

Import F32Notations.

Definition NVec3_Luminosity (intensity : NVec3 f32) : f32 :=
  f32_lit 2126 10000 *. x3 intensity +. f32_lit 7152 10000 *. y3 intensity +. f32_lit 722 10000 *. z3 intensity.
Definition NVec4_Luminosity (intensity : NVec4 f32) : f32 :=
  f32_lit 2126 10000 *. x4 intensity +. f32_lit 7152 10000 *. y4 intensity +. f32_lit 722 10000 *. z4 intensity.

Definition NVec3_Mix (c1 c2 : NVec3 f32) (factor : f32) : result stop (NVec3 f32) :=
  ret ← NVec3_scale c1 (#1 -. factor); c ← NVec3_scale c2 factor; NVec3_add ret c.
Definition NVec4_Mix (c1 c2 : NVec4 f32) (factor : f32) : result stop (NVec4 f32) :=
  ret ← NVec4_scale c1 (#1 -. factor); c ← NVec4_scale c2 factor; NVec4_add ret c.

(** The [switch] of [HSVToRGB]. *)
Definition hsv_sector (i : Z) (v p q t : f32) : f32 * f32 * f32 :=
  match i with
  | 0 => (v, t, p)
  | 1 => (q, v, p)
  | 2 => (p, v, t)
  | 3 => (p, q, v)
  | 4 => (t, p, v)
  | _ => (v, p, q)
  end.

(** The branch of [HSVToRGB] for a saturation that is not zero. *)
Definition hsv_rgb (h s v : f32) : result stop (f32 * f32 * f32) :=
  let h : f32 := if SFeqb h (#360) then #0 else h /. #60 in
  match sf_to_int (- 2 ^ 31) (2 ^ 31) h with
  | Err e => Err e
  | Ok i =>
      let f := h -. #i in
      let p := v *. (#1 -. s) in
      let q := v *. (#1 -. s *. f) in
      let t := v *. (#1 -. s *. (#1 -. f)) in
      Ok (hsv_sector i v p q t)
  end.

Definition HSVToRGB (h s v : f32) : result stop (NVec4 f32) :=
  match (if SFeqb s (#0) then Ok (v, v, v) else hsv_rgb h s v) with
  | Err e => Err e
  | Ok (r, g, b) => Ok (mkVec4 (r /. #255) (g /. #255) (b /. #255) (#1))
  end.

Definition ZClamp (x lowerlimit upperlimit : f32) : f32 :=
  let x := sc_max lowerlimit x in
  sc_min upperlimit x.

Definition ZSmoothStep (edge0 edge1 x : f32) : f32 :=
  let x := ZClamp ((x -. edge0) /. (edge1 -. edge0)) (#0) (#1) in
  x *. x *. (#3 -. #2 *. x).

Definition degToRad (deg : f32) : f32 := deg /. #180 *. f32_lit 31415926 10000000.
Definition radToDeg (rad : f32) : f32 := rad /. f32_lit 31415926 10000000 *. #180.

(** ** Hashing

    [hash_combine] on a 64-bit [size_t], and the hashes built from the
    library's hash of a scalar. *)
Definition hash_combine (seed hash : Z) : Z :=
  let hash := u64 (hash + (0x9e3779b9 + u64 (seed .<< 6) + (seed .>> 2))) in
  seed .^ hash.

Definition NVec2_hash {T} (hasher : T -> Z) (v : NVec2 T) : Z :=
  let seed := 0 in
  let seed := hash_combine seed (hasher (x2 v)) in
  hash_combine seed (hasher (y2 v)).

Definition NVec4_hash {T} (hasher : T -> Z) (v : NVec4 T) : Z :=
  let seed := 0 in
  let seed := hash_combine seed (hasher (x4 v)) in
  let seed := hash_combine seed (hasher (y4 v)) in
  let seed := hash_combine seed (hasher (z4 v)) in
  hash_combine seed (hasher (w4 v)).

(** ** NRect *)

Record NRect (T : Type) : Type := mkRect { topLeftPx : NVec2 T; bottomRightPx : NVec2 T }.
Arguments mkRect {T}. Arguments topLeftPx {T}. Arguments bottomRightPx {T}.

Section rect.
Context {T : Type} `{Scalar T}.
Implicit Types (r : NRect T) (v pt : NVec2 T).

Definition NRect_make (left top width height : T) : result stop (NRect T) :=
  br ← NVec2_add (mkVec2 left top) (mkVec2 width height); Ok (mkRect (mkVec2 left top) br).
Definition NRect_default : NRect T := mkRect NVec2_default NVec2_default.

Definition Contains r pt : bool :=
  sc_leb (x2 (topLeftPx r)) (x2 pt) && sc_leb (y2 (topLeftPx r)) (y2 pt) &&
  sc_ltb (x2 pt) (x2 (bottomRightPx r)) && sc_ltb (y2 pt) (y2 (bottomRightPx r)).

Definition BottomLeft r : NVec2 T := mkVec2 (x2 (topLeftPx r)) (y2 (bottomRightPx r)).
Definition TopRight r : NVec2 T := mkVec2 (x2 (bottomRightPx r)) (y2 (topLeftPx r)).
Definition Left r : T := x2 (topLeftPx r).
Definition Right r : T := x2 (TopRight r).
Definition Top r : T := y2 (TopRight r).
Definition Bottom r : T := y2 (bottomRightPx r).
Definition Height r : result stop T := sc_sub (y2 (bottomRightPx r)) (y2 (topLeftPx r)).
Definition Width r : result stop T := sc_sub (x2 (bottomRightPx r)) (x2 (topLeftPx r)).
Definition Center r : result stop (NVec2 T) :=
  s ← NVec2_add (bottomRightPx r) (topLeftPx r); NVec2_mulf s (f32_lit 1 2).
Definition Size r : result stop (NVec2 T) := NVec2_sub (bottomRightPx r) (topLeftPx r).
Definition Empty r : result stop bool :=
  h ← Height r;
  if sc_eqf h (f32_of_Z 0) then Ok true
  else w ← Width r; Ok (sc_eqf w (f32_of_Z 0)).

Definition Clear r : NRect T := mkRect NVec2_default NVec2_default.

Definition Normalize r : NRect T :=
  let r := if sc_ltb (x2 (bottomRightPx r)) (x2 (topLeftPx r))
           then mkRect (mkVec2 (x2 (bottomRightPx r)) (y2 (topLeftPx r)))
                       (mkVec2 (x2 (topLeftPx r)) (y2 (bottomRightPx r)))
           else r in
  if sc_ltb (y2 (bottomRightPx r)) (y2 (topLeftPx r))
  then mkRect (mkVec2 (x2 (topLeftPx r)) (y2 (bottomRightPx r)))
              (mkVec2 (x2 (bottomRightPx r)) (y2 (topLeftPx r)))
  else r.

Definition SetSize r (size : NVec2 T) : result stop (NRect T) :=
  br ← NVec2_add (topLeftPx r) size; Ok (mkRect (topLeftPx r) br).

(** [Adjust(x, y, z, w)] *)
Definition Adjust4 r (x y z w : T) : result stop (NRect T) :=
  a ← sc_add (x2 (topLeftPx r)) x; b ← sc_add (y2 (topLeftPx r)) y;
  c ← sc_add (x2 (bottomRightPx r)) z; d ← sc_add (y2 (bottomRightPx r)) w;
  Ok (mkRect (mkVec2 a b) (mkVec2 c d)).
(** [Adjust(x, y)] *)
Definition Adjust2 r (x y : T) : result stop (NRect T) :=
  a ← sc_add (x2 (topLeftPx r)) x; b ← sc_add (y2 (topLeftPx r)) y;
  c ← sc_add (x2 (bottomRightPx r)) x; d ← sc_add (y2 (bottomRightPx r)) y;
  Ok (mkRect (mkVec2 a b) (mkVec2 c d)).
Definition Adjust_v2 r v : result stop (NRect T) := Adjust2 r (x2 v) (y2 v).
Definition Adjust_v4 r (v : NVec4 T) : result stop (NRect T) := Adjust4 r (x4 v) (y4 v) (z4 v) (w4 v).
Definition Adjusted_v4 r (v : NVec4 T) : result stop (NRect T) := Adjust_v4 (mkRect (topLeftPx r) (bottomRightPx r)) v.
Definition Adjusted_v2 r v : result stop (NRect T) := Adjust_v2 (mkRect (topLeftPx r) (bottomRightPx r)) v.

Definition Move r (x y : T) : result stop (NRect T) :=
  width ← Width r; height ← Height r;
  z ← sc_add x width; w ← sc_add y height;
  Ok (mkRect (mkVec2 x y) (mkVec2 z w)).
Definition Move_v r v : result stop (NRect T) := Move r (x2 v) (y2 v).
Definition Moved r v : result stop (NRect T) := Move_v (mkRect (topLeftPx r) (bottomRightPx r)) v.

Definition Expand r (x y z w : T) : result stop (NRect T) :=
  a ← sc_sub (x2 (topLeftPx r)) x; b ← sc_sub (y2 (topLeftPx r)) y;
  c ← sc_add (x2 (bottomRightPx r)) z; d ← sc_add (y2 (bottomRightPx r)) w;
  Ok (mkRect (mkVec2 a b) (mkVec2 c d)).
Definition Expand_v r (v : NVec4 T) : result stop (NRect T) := Expand r (x4 v) (y4 v) (z4 v) (w4 v).
Definition Expanded r (v : NVec4 T) : result stop (NRect T) := Expand_v (mkRect (topLeftPx r) (bottomRightPx r)) v.

Definition NRect_eqb (r region : NRect T) : bool :=
  NVec2_eqb (topLeftPx r) (topLeftPx region) && NVec2_eqb (bottomRightPx r) (bottomRightPx region).
Definition NRect_neqb (r region : NRect T) : bool := negb (NRect_eqb r region).

Definition NRect_mulf r (val : f32) : result stop (NRect T) :=
  a ← NVec2_mulf (topLeftPx r) val; b ← NVec2_mulf (bottomRightPx r) val; Ok (mkRect a b).
(** [operator*(NRect, NVec2f)]: the top left corner by [val.x], the bottom
    right one by [val.y]. *)
Definition NRect_mulv r (val : NVec2 f32) : result stop (NRect T) :=
  a ← NVec2_mulf (topLeftPx r) (x2 val); b ← NVec2_mulf (bottomRightPx r) (y2 val); Ok (mkRect a b).
(** [operator-(NRect, NRect)]: two scalars, each made a vector by the
    converting constructor of [NVec2]. *)
Definition NRect_sub (lhs rhs : NRect T) : result stop (NRect T) :=
  a ← sc_sub (x2 (topLeftPx lhs)) (x2 (topLeftPx rhs));
  b ← sc_sub (y2 (bottomRightPx lhs)) (y2 (topLeftPx rhs));
  Ok (mkRect (NVec2_splat a) (NVec2_splat b)).
Definition NRect_add lhs (pos : NVec2 T) : result stop (NRect T) := Adjusted_v2 lhs pos.

Definition NRect_print (show : T -> str) (region : NRect T) : result stop str :=
  w ← Width region; h ← Height region;
  Ok (NVec2_print show (topLeftPx region) ++ lit ", " ++ NVec2_print show (bottomRightPx region) ++
      lit ", size: " ++ show w ++ lit ", " ++ show h).

Definition NRectFits_axis (areaLo areaHi rectLo rectHi : T) : result stop bool :=
  diff ← sc_sub rectHi areaHi;
  if sc_ltb (sc_of_Z 0) diff then Ok false
  else
    diff ← sc_sub rectLo areaLo;
    if sc_ltb diff (sc_of_Z 0) then Ok false else Ok true.
End rect.

Inductive FitCriteria : Type := FitX | FitY.

Definition NRectFits `{Scalar T} (area rect : NRect T) (criteria : FitCriteria) : result stop bool :=
  match criteria with
  | FitX => NRectFits_axis (x2 (topLeftPx area)) (x2 (bottomRightPx area)) (x2 (topLeftPx rect)) (x2 (bottomRightPx rect))
  | FitY => NRectFits_axis (y2 (topLeftPx area)) (y2 (bottomRightPx area)) (y2 (topLeftPx rect)) (y2 (bottomRightPx rect))
  end.

(** [Clamp] of a rectangle: [std::max(0.0f, z)] makes it a function of
    [float] rectangles only. The first step looks at where the rectangle
    begins, the second at where it ends, on each axis alike. *)
Definition clamp_begin (x z lo hi : f32) : f32 * f32 :=
  if SFltb hi x then (hi, #0)
  else if SFltb x lo then
    let z := (x +. z) -. lo in
    (lo, sc_max (#0 : f32) z)
  else (x, z).

Definition clamp_end (x z hi : f32) : f32 :=
  if SFleb hi (x +. z) then
    let z := hi -. x in
    sc_max (#0 : f32) z
  else z.

Definition NRect_Clamp (s r : NRect f32) : NRect f32 :=
  let x := x2 (topLeftPx s) in
  let y := y2 (topLeftPx s) in
  let z := x2 (bottomRightPx s) -. x2 (topLeftPx s) in
  let w := y2 (bottomRightPx s) -. y2 (topLeftPx s) in
  let '(x, z) := clamp_begin x z (Left r) (Right r) in
  let '(y, w) := clamp_begin y w (Top r) (Bottom r) in
  let z := clamp_end x z (Right r) in
  let w := clamp_end y w (Bottom r) in
  mkRect (mkVec2 x y) (mkVec2 (x +. z) (y +. w)).
