(* ===== verification/MathTheory.v ===== *)
(** * Theorems on vectors, rectangles and colours

    The order and the clamping of vectors over any ordered scalar, the packing
    of colours in IEEE arithmetic, and [NRect::Clamp] as intersection on pixel
    coordinates, where [float] is exact. *)

From S2P Require Import Prelude Float32 MathVec.
From Stdlib Require Import Btauto.

(** ** Order and clamping *)

Section order.
Context {T : Type} `{!Scalar T} `{!ScalarOrder T}.

Definition ordered2 (v : NVec2 T) : Prop := sc_ordered (x2 v) /\ sc_ordered (y2 v).

Lemma NVec2_ltb_spec (a b : NVec2 T) :
  ordered2 a -> ordered2 b ->
  NVec2_ltb a b = true <->
  lex_lt (sc_key (y2 a)) (sc_key (y2 b)) \/
  sc_key (y2 a) = sc_key (y2 b) /\ lex_lt (sc_key (x2 a)) (sc_key (x2 b)).
Proof.
  intros [Hx Hy] [Hx' Hy']. unfold NVec2_ltb. pose proof (decided _ _ (sc_eq_key (y2 a) (y2 b) Hy Hy')) as E.
  destruct (sc_eqb (y2 a) (y2 b)); cbn.
  - rewrite (sc_lt_key (x2 a)), E by done. pose proof (lex_lt_irrefl (sc_key (y2 b))). naive_solver.
  - rewrite (sc_lt_key (y2 a)) by done. naive_solver.
Qed.

Lemma NVec2_eqb_spec (a b : NVec2 T) :
  ordered2 a -> ordered2 b ->
  NVec2_eqb a b = true <-> sc_key (x2 a) = sc_key (x2 b) /\ sc_key (y2 a) = sc_key (y2 b).
Proof.
  intros [Hx Hy] [Hx' Hy']. unfold NVec2_eqb. rewrite <- !sc_eq_key by done.
  destruct (sc_eqb (x2 a) _), (sc_eqb (y2 a) _); cbn; naive_solver.
Qed.

(** [operator<] on [NVec2] orders the vectors whose components are in
    order (no NaN): it is irreflexive and transitive, and two vectors of which
    neither is less are exactly the ones [operator==] makes equal. Vectors
    can therefore key a [std::map]. *)
Theorem NVec2_less_order (a b c : NVec2 T) :
  ordered2 a -> ordered2 b -> ordered2 c ->
  NVec2_ltb a a = false /\
  (NVec2_ltb a b = true -> NVec2_ltb b c = true -> NVec2_ltb a c = true) /\
  NVec2_eqb a b = negb (NVec2_ltb a b) && negb (NVec2_ltb b a).
Proof.
  intros Ha Hb Hc. split_and!.
  - apply not_true_iff_false. rewrite NVec2_ltb_spec by done. intros [H|[_ H]]; by apply lex_lt_irrefl in H.
  - rewrite !NVec2_ltb_spec by done. intros [H|[E H]] [H'|[E' H']]; [left..|right].
    + by eapply lex_lt_trans.
    + by rewrite <- E'.
    + by rewrite E.
    + rewrite E. split; [done|]. by eapply lex_lt_trans.
  - apply eq_true_iff_eq. rewrite andb_true_iff, !negb_true_iff, <- !not_true_iff_false.
    rewrite !NVec2_ltb_spec, NVec2_eqb_spec by done. rewrite !lex_lt_eq. tauto.
Qed.

(** [std::min(max, std::max(min, val))] *)
Lemma sc_clamp_spec (val lo hi : T) :
  sc_ordered val -> sc_ordered lo -> sc_ordered hi -> sc_leb lo hi = true ->
  let c := sc_min hi (sc_max lo val) in
  sc_ordered c /\ sc_leb lo c = true /\ sc_leb c hi = true /\
  (sc_leb lo val = true -> sc_leb val hi = true -> sc_eqb c val = true).
Proof.
  intros Hv Hl Hh. unfold sc_min, sc_max. cbn.
  destruct (sc_ltb lo val) eqn:E1; [destruct (sc_ltb val hi) eqn:E2|destruct (sc_ltb lo hi) eqn:E2].
  all: intros Hle; split; [done|]; revert Hle E1 E2; sc_compare.
Qed.

(** [c] is [val] brought into [lo..hi]. *)
Definition clamped (lo val hi c : T) : Prop :=
  sc_leb lo c = true /\ sc_leb c hi = true /\
  (sc_leb lo val = true -> sc_leb val hi = true -> sc_eqb c val = true).

(** The components of a vector. *)
Definition list2 (v : NVec2 T) : list T := [x2 v; y2 v].
Definition list3 (v : NVec3 T) : list T := [x3 v; y3 v; z3 v].
Definition list4 (v : NVec4 T) : list T := [x4 v; y4 v; z4 v; w4 v].

(** Bounds in the order, each lower bound at most the upper one. *)
Definition valid_range (l h : list T) : Prop :=
  Forall2 (fun l h => sc_ordered l /\ sc_ordered h /\ sc_leb l h = true) l h.

(** The clamping of the components, one by one. *)
Definition all_clamped (lo val hi c : list T) : Prop :=
  Forall2 (fun lh vc => clamped lh.1 vc.1 lh.2 vc.2) (zip lo hi) (zip val c).

Lemma clamped_spec lo val hi :
  sc_ordered val -> sc_ordered lo /\ sc_ordered hi /\ sc_leb lo hi = true ->
  clamped lo val hi (sc_min hi (sc_max lo val)).
Proof. intros Hv (Hl & Hh & Hle). destruct (sc_clamp_spec val lo hi) as (_ & ? & ? & ?); done. Qed.
End order.

(** [Clamp] on [NVec2], [NVec3] and [NVec4] over any ordered scalar: with
    lower bounds at most the upper ones, every component of the result lies
    between its bounds and is the component of the value if that did. *)
Theorem NVec_Clamp_bounds `{ScalarOrder T} (v lo hi : NVec2 T) (v' lo' hi' : NVec3 T) (v'' lo'' hi'' : NVec4 T) :
  Forall sc_ordered (list2 v ++ list3 v' ++ list4 v'') ->
  valid_range (list2 lo ++ list3 lo' ++ list4 lo'') (list2 hi ++ list3 hi' ++ list4 hi'') ->
  all_clamped (list2 lo) (list2 v) (list2 hi) (list2 (NVec2_Clamp v lo hi)) /\
  all_clamped (list3 lo') (list3 v') (list3 hi') (list3 (NVec3_Clamp v' lo' hi')) /\
  all_clamped (list4 lo'') (list4 v'') (list4 hi'') (list4 (NVec4_Clamp v'' lo'' hi'')).
Proof.
  unfold all_clamped, valid_range, list2, list3, list4. cbn. intros Hv Hr.
  repeat match goal with
  | H : Forall _ (_ :: _) |- _ => apply Forall_cons_1 in H as [? ?]
  | H : Forall2 _ (_ :: _) (_ :: _) |- _ => apply Forall2_cons_1 in H as [? ?]
  end.
  split_and!; repeat (apply Forall2_cons_2; [by apply clamped_spec|]); constructor.
Qed.

(** ** Colours *)

(** The [float] [b / 255.0f] of a channel. *)
Definition of_byte (b : Z) : f32 := SFdiv 24 128 (f32_of_Z b) (f32_of_Z 255).

(** Byte [k] of a packed colour. *)
Definition byte_of (p k : Z) : Z := (p .>> (8 * k)) .& 255.

(** Evaluated for each of the 256 values. *)
Lemma channel_all : forallb (fun n => match channel (of_byte (Z.of_nat n)) with Ok z => z =? Z.of_nat n | _ => false end) (seq 0 256) = true.
Proof. vm_compute. reflexivity. Qed.

Lemma channel_of_byte b : in_u 8 b -> channel (of_byte b) = Ok b.
Proof.
  intros Hb. unfold in_u in Hb. change (2 ^ 8) with 256 in Hb.
  pose proof (proj1 (forallb_forall _ _) channel_all (Z.to_nat b) ltac:(apply in_seq; lia)) as H.
  cbn beta in H. rewrite Z2Nat.id in H by lia. destruct (channel (of_byte b)) as [z|]; [|done].
  by apply Z.eqb_eq in H as ->.
Qed.

(** Four bytes from the highest to the lowest. *)
Definition pack4 (a b c d : Z) : Z := a * 2 ^ 24 + b * 2 ^ 16 + c * 2 ^ 8 + d.

Lemma lor_shift_add a d k : 0 <= k -> in_u k d -> (a .<< k) .| d = a * 2 ^ k + d.
Proof.
  intros Hk Hd. rewrite <- Z.shiftl_mul_pow2 by done. rewrite <- Z.add_lor_land.
  enough ((a .<< k) .& d = 0) by lia. zbits i. rewrite Z.bits_0.
  destruct (Z.ltb_spec i k); [by rewrite Z.testbit_neg_r by lia|]. zbit_out d k. btauto.
Qed.

(** The four layouts come from the same four shifted bytes. *)
Lemma lor_pack4 a b c d :
  in_u 8 a -> in_u 8 b -> in_u 8 c -> in_u 8 d ->
  u32 (a .<< 24) .| u32 (b .<< 16) .| u32 (c .<< 8) .| d = pack4 a b c d /\ in_u 32 (pack4 a b c d).
Proof.
  unfold in_u, pack4. intros Ha Hb Hc Hd. split; [|lia].
  rewrite !wrap_small by (unfold in_u; rewrite Z.shiftl_mul_pow2 by lia; lia).
  rewrite <- !Z.lor_assoc, (lor_shift_add c), (lor_shift_add b), (lor_shift_add a) by (unfold in_u; lia). lia.
Qed.

Lemma byte_of_pack4 a b c d :
  in_u 8 a -> in_u 8 b -> in_u 8 c -> in_u 8 d ->
  byte_of (pack4 a b c d) 3 = a /\ byte_of (pack4 a b c d) 2 = b /\
  byte_of (pack4 a b c d) 1 = c /\ byte_of (pack4 a b c d) 0 = d.
Proof.
  unfold in_u, byte_of, pack4. intros Ha Hb Hc Hd. rewrite !byte_mod, !Z.shiftr_div_pow2 by lia. unfold wrap.
  split_and!; Z.div_mod_to_equations; lia.
Qed.

(** The bytes of a packed colour from the highest to the lowest. *)
Definition bytes_of (p : Z) : list Z := [byte_of p 3; byte_of p 2; byte_of p 1; byte_of p 0].

Lemma packed_bytes p a b c d :
  in_u 8 a -> in_u 8 b -> in_u 8 c -> in_u 8 d ->
  p = u32 (a .<< 24) .| u32 (b .<< 16) .| u32 (c .<< 8) .| d ->
  bytes_of <$> (Ok p : result stop Z) = Ok [a; b; c; d].
Proof.
  intros Ha Hb Hc Hd ->. rewrite (proj1 (lor_pack4 a b c d Ha Hb Hc Hd)). cbn. unfold bytes_of.
  by destruct (byte_of_pack4 a b c d Ha Hb Hc Hd) as (-> & -> & -> & ->).
Qed.

(** Reorder a disjunction of shifted bytes. *)
Ltac lor_bits := let i := fresh "i" in zbits i; btauto.

(** C22. Packing a colour whose channels are bytes divided by 255 in [float]
    gives the bytes back, in IEEE single precision and for all 2^32 colours:
    [ToPacked] as RGBA, [ToPackedARGB] and [ToPackedABGR] as their names say.
    [ToPackedBGRA] has the bytes in the order G, R, A, B for a vector of four
    and G, R, B, 255 for a vector of three. *)
Theorem packed_colours_roundtrip r g b a :
  in_u 8 r -> in_u 8 g -> in_u 8 b -> in_u 8 a ->
  let v := mkVec4 (of_byte r) (of_byte g) (of_byte b) (of_byte a) in
  let v' := mkVec3 (of_byte r) (of_byte g) (of_byte b) in
  (bytes_of <$> NVec4_ToPacked v = Ok [r; g; b; a] /\ bytes_of <$> NVec3_ToPacked v' = Ok [r; g; b; 255]) /\
  (bytes_of <$> NVec4_ToPackedARGB v = Ok [a; r; g; b] /\ bytes_of <$> NVec3_ToPackedARGB v' = Ok [255; r; g; b]) /\
  (bytes_of <$> NVec4_ToPackedABGR v = Ok [a; b; g; r] /\ bytes_of <$> NVec3_ToPackedABGR v' = Ok [255; b; g; r]) /\
  (bytes_of <$> NVec4_ToPackedBGRA v = Ok [g; r; a; b] /\ bytes_of <$> NVec3_ToPackedBGRA v' = Ok [g; r; b; 255]).
Proof.
  intros Hr Hg Hb Ha. assert (in_u 8 255) by (unfold in_u; lia).
  unfold NVec4_ToPacked, NVec4_ToPackedARGB, NVec4_ToPackedABGR, NVec4_ToPackedBGRA,
    NVec3_ToPacked, NVec3_ToPackedARGB, NVec3_ToPackedABGR, NVec3_ToPackedBGRA.
  cbn -[channel of_byte Z.lor Z.shiftl wrap fmap]. rewrite !channel_of_byte by done. cbn -[Z.lor Z.shiftl wrap fmap].
  change 0xFF000000 with (u32 (255 .<< 24)).
  split_and!; apply packed_bytes; try done; lor_bits.
Qed.

Lemma packed_colours_roundtrip_witness :
  bytes_of <$> NVec4_ToPackedARGB (mkVec4 (of_byte 10) (of_byte 20) (of_byte 30) (of_byte 40)) = Ok [40; 10; 20; 30].
Proof.
  apply (packed_colours_roundtrip 10 20 30 40); unfold in_u; lia.
Defined.

(** ** Clamping rectangles on the pixel grid *)

(** Vectors and rectangles with integer coordinates, as [float] ones. *)
Definition px2 (v : NVec2 Z) : NVec2 f32 := mkVec2 (f32_of_Z (x2 v)) (f32_of_Z (y2 v)).
Definition px (r : NRect Z) : NRect f32 := mkRect (px2 (topLeftPx r)) (px2 (bottomRightPx r)).

Definition pixel (z : Z) : Prop := Z.abs z <= 2 ^ 22.
Definition pixel2 (v : NVec2 Z) : Prop := pixel (x2 v) /\ pixel (y2 v).

(** Coordinates on the grid, the corners in order. *)
Definition pixel_rect (r : NRect Z) : Prop :=
  pixel2 (topLeftPx r) /\ pixel2 (bottomRightPx r) /\
  x2 (topLeftPx r) <= x2 (bottomRightPx r) /\ y2 (topLeftPx r) <= y2 (bottomRightPx r).

(** [Contains] on the grid. *)
Definition inside (r : NRect Z) (pt : NVec2 Z) : Prop :=
  x2 (topLeftPx r) <= x2 pt < x2 (bottomRightPx r) /\ y2 (topLeftPx r) <= y2 pt < y2 (bottomRightPx r).

Lemma Contains_px r pt :
  pixel_rect r -> pixel2 pt -> Contains (px r) (px2 pt) = true <-> inside r pt.
Proof.
  unfold pixel_rect, pixel2, pixel, inside, Contains. intros (? & ? & _) ?. cbn.
  rewrite !(fun a b Ha Hb => proj1 (f32_of_Z_tests a b Ha Hb)),
    !(fun a b Ha Hb => proj1 (proj2 (f32_of_Z_tests a b Ha Hb))) by (unfold f32_exact; lia). lia.
Qed.

(** One axis, on integers: where the clamped interval begins and ends. *)
Definition clamp_lo (x z lo hi : Z) : Z := Z.min hi (Z.max lo x).
Definition clamp_hi (x z lo hi : Z) : Z := Z.max (clamp_lo x z lo hi) (Z.min hi (x + z)).

(** The [float] steps do the integer ones. *)
Lemma clamp_axis_px x z lo hi :
  pixel x -> pixel lo -> pixel hi -> pixel (x + z) -> 0 <= z -> lo <= hi ->
  let '(x', z') := clamp_begin (f32_of_Z x) (f32_of_Z z) (f32_of_Z lo) (f32_of_Z hi) in
  let z'' := clamp_end x' z' (f32_of_Z hi) in
  x' = f32_of_Z (clamp_lo x z lo hi) /\ SFadd 24 128 x' z'' = f32_of_Z (clamp_hi x z lo hi).
Proof.
  unfold pixel. intros Hx Hl Hh Hz Hz0 Hlh.
  assert (forall a b, Z.abs a <= 2 ^ 23 -> Z.abs b <= 2 ^ 23 -> SFltb (f32_of_Z a) (f32_of_Z b) = (a <? b)) as Elt.
  { intros a b Ha Hb. apply f32_of_Z_tests; unfold f32_exact; lia. }
  assert (forall a b, Z.abs a <= 2 ^ 23 -> Z.abs b <= 2 ^ 23 -> SFleb (f32_of_Z a) (f32_of_Z b) = (a <=? b)) as Ele.
  { intros a b Ha Hb. apply f32_of_Z_tests; unfold f32_exact; lia. }
  assert (forall a, Z.abs a <= 2 ^ 23 -> sc_max (f32_of_Z 0 : f32) (f32_of_Z a) = f32_of_Z (Z.max 0 a)) as Emax.
  { intros a Ha. unfold sc_max. cbn [sc_ltb sfloat_scalar]. rewrite Elt by lia. destruct (Z.ltb_spec 0 a); f_equal; lia. }
  unfold clamp_begin, clamp_hi, clamp_end. rewrite !Elt by lia.
  destruct (Z.ltb_spec hi x); [|destruct (Z.ltb_spec x lo)].
  all: rewrite ?f32_of_Z_add by (unfold f32_exact; lia); rewrite ?f32_of_Z_sub by (unfold f32_exact; lia);
       rewrite ?Emax by lia; rewrite ?f32_of_Z_add by (unfold f32_exact; lia); rewrite ?Ele by lia.
  all: match goal with |- context [?a <=? ?b] => destruct (Z.leb_spec a b) end.
  all: rewrite ?f32_of_Z_sub by (unfold f32_exact; lia); rewrite ?Emax by lia; rewrite ?f32_of_Z_add by (unfold f32_exact; lia).
  all: unfold clamp_lo; split; f_equal; lia.
Qed.

(** The clamped rectangle. *)
Definition clamp_px (s r : NRect Z) : NRect Z :=
  let lo := topLeftPx r in let hi := bottomRightPx r in
  let a := topLeftPx s in let b := bottomRightPx s in
  mkRect (mkVec2 (clamp_lo (x2 a) (x2 b - x2 a) (x2 lo) (x2 hi)) (clamp_lo (y2 a) (y2 b - y2 a) (y2 lo) (y2 hi)))
         (mkVec2 (clamp_hi (x2 a) (x2 b - x2 a) (x2 lo) (x2 hi)) (clamp_hi (y2 a) (y2 b - y2 a) (y2 lo) (y2 hi))).

Lemma NRect_Clamp_px s r : pixel_rect s -> pixel_rect r -> NRect_Clamp (px s) (px r) = px (clamp_px s r).
Proof.
  intros ((Hsx & Hsy) & (Hsz & Hsw) & Hs1 & Hs2) ((Hrx & Hry) & (Hrz & Hrw) & Hr1 & Hr2).
  unfold NRect_Clamp, Left, Right, Top, Bottom, TopRight. cbn [px px2 topLeftPx bottomRightPx x2 y2].
  unfold pixel in *. rewrite !f32_of_Z_sub by (unfold f32_exact; lia).
  pose proof (clamp_axis_px (x2 (topLeftPx s)) (x2 (bottomRightPx s) - x2 (topLeftPx s)) (x2 (topLeftPx r))
    (x2 (bottomRightPx r)) ltac:(done) ltac:(done) ltac:(done) ltac:(unfold pixel; lia) ltac:(lia) Hr1) as Hx.
  pose proof (clamp_axis_px (y2 (topLeftPx s)) (y2 (bottomRightPx s) - y2 (topLeftPx s)) (y2 (topLeftPx r))
    (y2 (bottomRightPx r)) ltac:(done) ltac:(done) ltac:(done) ltac:(unfold pixel; lia) ltac:(lia) Hr2) as Hy.
  destruct (clamp_begin _ _ _ _) as [x z]. destruct (clamp_begin _ _ _ _) as [y w].
  destruct Hx as [-> ->], Hy as [-> ->]. done.
Qed.

Lemma clamp_axis_spec x z lo hi :
  0 <= z -> lo <= hi ->
  lo <= clamp_lo x z lo hi <= clamp_hi x z lo hi /\ clamp_hi x z lo hi <= hi /\
  forall p, clamp_lo x z lo hi <= p < clamp_hi x z lo hi <-> x <= p < x + z /\ lo <= p < hi.
Proof. unfold clamp_hi, clamp_lo. intros. split_and!; [lia..|]. intros p. lia. Qed.

(** C16. [NRect::Clamp] is intersection. For rectangles with integer
    coordinates of at most 2^22 and corners in order, the [float] computation
    is exact, the result lies inside [r] with its corners in order, and it
    contains exactly the points that both rectangles contain (none, when they
    do not meet). *)
Theorem NRect_Clamp_intersection s r :
  pixel_rect s -> pixel_rect r ->
  exists c, NRect_Clamp (px s) (px r) = px c /\ pixel_rect c /\
    (x2 (topLeftPx r) <= x2 (topLeftPx c) /\ x2 (bottomRightPx c) <= x2 (bottomRightPx r)) /\
    (y2 (topLeftPx r) <= y2 (topLeftPx c) /\ y2 (bottomRightPx c) <= y2 (bottomRightPx r)) /\
    forall pt, pixel2 pt ->
      Contains (px c) (px2 pt) = Contains (px s) (px2 pt) && Contains (px r) (px2 pt).
Proof.
  intros Hs Hr. exists (clamp_px s r). split; [by apply NRect_Clamp_px|].
  destruct s as [[sx sy] [sz sw]], r as [[rx ry] [rz rw]].
  pose proof Hs as (_ & _ & Hs1 & Hs2). pose proof Hr as (_ & _ & Hr1 & Hr2). cbn in Hs1, Hs2, Hr1, Hr2.
  destruct (clamp_axis_spec sx (sz - sx) rx rz ltac:(lia) Hr1) as (Hx1 & Hx2 & Hx).
  destruct (clamp_axis_spec sy (sw - sy) ry rw ltac:(lia) Hr2) as (Hy1 & Hy2 & Hy).
  unfold clamp_px; cbn. set (cx := clamp_lo sx _ _ _) in *. set (cz := clamp_hi sx _ _ _) in *.
  set (cy := clamp_lo sy _ _ _) in *. set (cw := clamp_hi sy _ _ _) in *. clearbody cx cz cy cw.
  assert (pixel_rect (mkRect (mkVec2 cx cy) (mkVec2 cz cw))) as Hc.
  { unfold pixel_rect, pixel2, pixel in *. cbn in *. lia. }
  split; [done|]. split_and!; try lia.
  intros pt Hpt. apply eq_true_iff_eq. rewrite andb_true_iff, !Contains_px by done.
  unfold inside. cbn. rewrite Hx, Hy. lia.
Qed.

Definition demo_rect : NRect Z := mkRect (mkVec2 (-5) 10) (mkVec2 50 90).
Definition demo_clip : NRect Z := mkRect (mkVec2 0 0) (mkVec2 40 200).

Lemma NRect_Clamp_intersection_witness :
  exists c, NRect_Clamp (px demo_rect) (px demo_clip) = px c /\ pixel_rect c /\
    Contains (px c) (px2 (mkVec2 3 20)) = true /\ Contains (px c) (px2 (mkVec2 45 20)) = false.
Proof.
  destruct (NRect_Clamp_intersection demo_rect demo_clip) as (c & E & Hc & _ & _ & H);
    [unfold pixel_rect, pixel2, pixel; cbn; lia..|].
  exists c. split_and!; [done|done| |]; rewrite H by (unfold pixel2, pixel; cbn; lia); vm_compute; reflexivity.
Defined.

Lemma NVec2_less_order_witness :
  NVec2_ltb (mkVec2 1 2 : NVec2 (sint 32)) (mkVec2 0 4) = true.
Proof.
  assert (forall v : NVec2 (sint 32), ordered2 v) as Ho by (intros v; split; exact I).
  apply (proj1 (proj2 (NVec2_less_order (T := sint 32) (mkVec2 1 2) (mkVec2 7 2) (mkVec2 0 4)
    (Ho _) (Ho _) (Ho _)))); reflexivity.
Defined.

Definition demo_lo : sint 32 := 4.
Definition demo_hi : sint 32 := 8.
Definition demo_v2 : NVec2 (sint 32) := mkVec2 9 2.
Definition demo_v3 : NVec3 (sint 32) := mkVec3 9 2 5.
Definition demo_v4 : NVec4 (sint 32) := mkVec4 9 2 5 7.

Lemma NVec_Clamp_bounds_witness :
  all_clamped (list2 (NVec2_splat demo_lo)) (list2 demo_v2) (list2 (NVec2_splat demo_hi))
    (list2 (NVec2_Clamp demo_v2 (NVec2_splat demo_lo) (NVec2_splat demo_hi))) /\
  NVec4_Clamp demo_v4 (NVec4_splat demo_lo) (NVec4_splat demo_hi) = mkVec4 (8 : sint 32) 4 5 7.
Proof.
  split; [|reflexivity].
  apply (NVec_Clamp_bounds (T := sint 32) demo_v2 (NVec2_splat demo_lo) (NVec2_splat demo_hi)
    demo_v3 (NVec3_splat demo_lo) (NVec3_splat demo_hi) demo_v4 (NVec4_splat demo_lo) (NVec4_splat demo_hi));
    unfold valid_range; repeat constructor.
Defined.
