(* ===== verification/MathUtils.v ===== *)
(** * Mathematical helpers

    include/mutils/math/math_utils.h and src/math/math_utils.cpp: clipping,
    bounds, luminance, alignment and Bezier curves. The random numbers of
    [RandRange] come from the library's generator and are not modelled. *)

From S2P Require Import Prelude Float32 MathVec.

Import F32Notations.

Definition SmoothStep (val : f32) : f32 := val *. val *. (#3 -. #2 *. val).

(** ** Rectangles as a vector (x, y, width, height) *)

Definition IsRectEmpty `{Scalar T} (rect : NVec4 T) : bool :=
  sc_eqb (z4 rect) (sc_of_Z 0) || sc_eqb (w4 rect) (sc_of_Z 0).

Definition RectContains (rect : NVec4 f32) (point : NVec2 f32) : bool :=
  (SFleb (x4 rect) (x2 point) && SFleb (x2 point) (x4 rect +. z4 rect)) &&
  (SFleb (y4 rect) (y2 point) && SFleb (y2 point) (y4 rect +. w4 rect)).

(** One axis of [RectClip]: the start and the size. *)
Definition clip_start (x clipx : f32) : f32 := if SFltb x clipx then clipx else x.
Definition clip_size (x z clipx clipz : f32) : f32 :=
  if SFltb (clipx +. clipz) (x +. z) then (clipz +. clipx) -. x else z.

Definition RectClip (rect clip : NVec4 f32) : NVec4 f32 :=
  let x := clip_start (x4 rect) (x4 clip) in
  let y := clip_start (y4 rect) (y4 clip) in
  let z := clip_size x (z4 rect) (x4 clip) (z4 clip) in
  let w := clip_size y (w4 rect) (y4 clip) (w4 clip) in
  mkVec4 x y z w.

(** ** Bounds of a point cloud *)

(** [std::numeric_limits<float>::max()] *)
Definition FLT_MAX : f32 := SFmax_float 24 128.

(** The loop, from point [i] on; [fuel] points are left. *)
Fixpoint bounds_loop {prec emax} (coords : list (NVec3 (sfloat prec emax))) (fuel i : nat)
  (min max : NVec3 (sfloat prec emax)) : result stop (NVec3 (sfloat prec emax) * NVec3 (sfloat prec emax)) :=
  match fuel with
  | O => Ok (min, max)
  | S fuel =>
      match coords !! i with
      | None => Err UB
      | Some c => bounds_loop coords fuel (S i) (NVec3_Min min c) (NVec3_Max max c)
      end
  end.

Definition GetBounds {prec emax} (coords : option (list (NVec3 (sfloat prec emax)))) (count : nat) :
  result stop (NVec3 (sfloat prec emax) * NVec3 (sfloat prec emax)) :=
  match coords, count with
  | None, _ | _, O => Ok (NVec3_default, NVec3_default)
  | Some coords, count =>
      bounds_loop coords count 0 (NVec3_splat (sf_conv prec emax FLT_MAX)) (NVec3_splat (sf_conv prec emax (SFopp FLT_MAX)))
  end.

(** ** Luminance and saturation *)

Definition NVec3_Luminance (color : NVec3 f32) : f32 :=
  f32_lit 299 1000 *. x3 color +. f32_lit 587 1000 *. y3 color +. f32_lit 114 1000 *. z3 color.

Definition NVec4_Luminance (color : NVec4 f32) : result stop f32 :=
  c ← NVec3_scale (mkVec3 (x4 color) (y4 color) (z4 color)) (w4 color); Ok (NVec3_Luminance c).

Definition LuminanceABGR (color : Z) : f32 :=
  let red := #(color .& 0xFF) *. f32_lit 299 1000 in
  let green := #((color .& 0xFF00) .>> 8) *. f32_lit 587 1000 in
  let blue := #((color .& 0xFF0000) .>> 16) *. f32_lit 114 1000 in
  (red +. green +. blue) /. #255.

Definition LuminanceARGB (color : Z) : f32 :=
  let blue := #(color .& 0xFF) *. f32_lit 299 1000 in
  let green := #((color .& 0xFF00) .>> 8) *. f32_lit 587 1000 in
  let red := #((color .& 0xFF0000) .>> 16) *. f32_lit 114 1000 in
  (red +. green +. blue) /. #255.

Definition Desaturate (col : NVec4 f32) : NVec4 f32 :=
  let r := x4 col +. f32_lit 1 2 in
  let g := y4 col +. f32_lit 1 2 in
  let b := z4 col +. f32_lit 1 2 in
  let sq := SFsqrt 24 128 (r *. r +. g *. g +. b *. b) in
  let sq := if negb (SFeqb sq (#0)) then #1 /. sq else sq in
  mkVec4 (r *. sq) (g *. sq) (b *. sq) (w4 col).

Definition floor0 (r : f32) : f32 := if SFltb r (#0) then #0 else r.

Definition Saturate (col : NVec4 f32) : NVec4 f32 :=
  let r := x4 col -. f32_lit 1 4 in
  let g := y4 col -. f32_lit 1 4 in
  let b := z4 col -. f32_lit 1 4 in
  mkVec4 (floor0 r) (floor0 g) (floor0 b) (w4 col).

(** [Clamp(val, min, max)] for any scalar *)
Definition Clamp `{Scalar T} (val min max : T) : T := sc_max min (sc_min max val).

(** ** Alignment, for an unsigned type of [w] bits (at most the 64 of
    [size_t]) *)

Definition AlignUpWithMask (w value mask : Z) : Z := wrap w (u64 (value + mask) .& u64 (Z.lnot mask)).
Definition AlignDownWithMask (w value mask : Z) : Z := wrap w (value .& u64 (Z.lnot mask)).
Definition AlignUp (w value alignment : Z) : Z := AlignUpWithMask w value (u64 (alignment - 1)).
Definition AlignDown (w value alignment : Z) : Z := AlignDownWithMask w value (u64 (alignment - 1)).
Definition IsAligned (value alignment : Z) : bool := 0 =? value .& u64 (alignment - 1).
Definition DivideByMultiple (w value alignment : Z) : result stop Z :=
  if alignment =? 0 then Err UB else Ok (wrap w (u64 (u64 (value + alignment) - 1) / alignment)).
Definition IsPowerOfTwo (w value : Z) : bool := 0 =? value .& wrap w (value - 1).
Definition IsDivisible (w value divisor : Z) : result stop bool :=
  if divisor =? 0 then Err UB else Ok (wrap w (value / divisor * divisor) =? value).

(** ** Bezier curves, on [float] *)

Definition Cube `{Scalar T} (f : T) : result stop T := a ← sc_mul f f; sc_mul a f.
Definition Square `{Scalar T} (f : T) : result stop T := sc_mul f f.
(** The same at [float]. *)
Definition cube (f : f32) : f32 := f *. f *. f.
Definition square (f : f32) : f32 := f *. f.

Definition Bezier (t p0 p1 p2 p3 : f32) : f32 :=
  cube (#1 -. t) *. p0 +. #3 *. square (#1 -. t) *. t *. p1 +. #3 *. (#1 -. t) *. square t *. p2 +. cube t *. p3.

Definition NVec2_Bezier (t : f32) (p0 p1 p2 p3 : NVec2 f32) : NVec2 f32 :=
  mkVec2 (Bezier t (x2 p0) (x2 p1) (x2 p2) (x2 p3)) (Bezier t (y2 p0) (y2 p1) (y2 p2) (y2 p3)).

Definition BezierDerivative (t p0 p1 p2 p3 : f32) : f32 :=
  #3 *. square (#1 -. t) *. (p1 -. p0) +. #6 *. (#1 -. t) *. t *. (p2 -. p1) +. #3 *. square t *. (p3 -. p2).

Definition NVec2_BezierDerivative (t : f32) (p0 p1 p2 p3 : NVec2 f32) : NVec2 f32 :=
  mkVec2 (BezierDerivative t (x2 p0) (x2 p1) (x2 p2) (x2 p3)) (BezierDerivative t (y2 p0) (y2 p1) (y2 p2) (y2 p3)).

Definition BezierNormal (t : f32) (p0 p1 p2 p3 : NVec2 f32) : result stop (NVec2 f32) :=
  let deriv := NVec2_BezierDerivative t p0 p1 p2 p3 in
  NVec2_Normalized (T := f32) (mkVec2 (SFopp (y2 deriv)) (x2 deriv)).

(** ** Alignment: what the functions compute *)

Lemma land_mask v k : 0 <= k -> v .& (2 ^ k - 1) = v mod 2 ^ k.
Proof. intros. by rewrite <- Z.land_ones, Z.ones_equiv by done. Qed.

Lemma land_not_mask v k : 0 <= k < 64 -> in_u 64 v -> v .& u64 (Z.lnot (2 ^ k - 1)) = v - v mod 2 ^ k.
Proof.
  intros Hk Hv. transitivity (v .& Z.lnot (Z.ones k)).
  - rewrite Z.ones_equiv. replace (Z.pred (2 ^ k)) with (2 ^ k - 1) by lia.
    zbits i. destruct (Z.ltb_spec i 64); [done|]. zbit_out v 64. done.
  - rewrite <- Z.ldiff_land, Z.ldiff_ones_r, Z.shiftl_mul_pow2, Z.shiftr_div_pow2 by lia.
    pose proof (Z.div_mod v (2 ^ k) ltac:(lia)). lia.
Qed.

Lemma mask_u64 k : 0 <= k < 64 -> u64 (2 ^ k - 1) = 2 ^ k - 1.
Proof.
  intros. apply wrap_small. unfold in_u. pose proof (Z.pow_le_mono_r 2 k 64). lia.
Qed.

Lemma IsPowerOfTwo_spec v : in_u 64 v -> IsPowerOfTwo 64 v = true <-> v = 0 \/ exists j, 0 <= j /\ v = 2 ^ j.
Proof.
  unfold in_u, IsPowerOfTwo. intros Hv. rewrite Z.eqb_eq. destruct (decide (v = 0)) as [->|Hn]; [cbn; tauto|].
  rewrite wrap_small by (unfold in_u; lia). split.
  - intros E. right. exists (Z.log2 v). split; [apply Z.log2_nonneg|].
    pose proof (Z.log2_spec v ltac:(lia)) as [H1 H2]. destruct (decide (v = 2 ^ Z.log2 v)) as [|Hne]; [done|].
    exfalso. assert (Z.log2 (v - 1) = Z.log2 v) as El.
    { apply Z.log2_unique; [apply Z.log2_nonneg|lia]. }
    assert (0 < 2 ^ Z.log2 v) by (apply Z.pow_pos_nonneg; [lia|apply Z.log2_nonneg]).
    assert (Z.testbit (v .& (v - 1)) (Z.log2 v) = true) as Hb.
    { rewrite Z.land_spec, Z.bit_log2 by lia. rewrite <- El, Z.bit_log2 by lia. done. }
    by rewrite <- E, Z.bits_0 in Hb.
  - intros [|(j & Hj & ->)]; [done|]. rewrite land_mask by done. rewrite Z_mod_same_full. done.
Qed.

Lemma AlignUp_spec v k :
  in_u 64 v -> 0 <= k < 64 -> v + (2 ^ k - 1) < 2 ^ 64 ->
  AlignUp 64 v (2 ^ k) = (v + (2 ^ k - 1)) / 2 ^ k * 2 ^ k.
Proof.
  unfold in_u. intros Hv Hk Hs. pose proof (Z.pow_pos_nonneg 2 k ltac:(lia) ltac:(lia)).
  unfold AlignUp, AlignUpWithMask. rewrite mask_u64 by done.
  rewrite (wrap_small 64 (v + _)) by (unfold in_u; lia). rewrite land_not_mask by (unfold in_u; lia).
  pose proof (Z.div_mod (v + (2 ^ k - 1)) (2 ^ k) ltac:(lia)).
  pose proof (Z.mod_pos_bound (v + (2 ^ k - 1)) (2 ^ k) ltac:(lia)).
  pose proof (Z.mod_le (v + (2 ^ k - 1)) (2 ^ k) ltac:(lia) ltac:(lia)).
  rewrite wrap_small by (unfold in_u; lia). lia.
Qed.

(** The alignment helpers on 64-bit values. For a power of two [2^k],
    [AlignDown] is the largest multiple not above the value; [AlignUp] is the
    smallest one not below it as long as that does not wrap around;
    [IsAligned] tells the multiples; [IsPowerOfTwo] tells the powers of two,
    and zero; and [DivideByMultiple] is division rounded up, by any divisor. *)
Theorem alignment_correct v k a :
  in_u 64 v -> 0 <= k < 64 -> 0 < a < 2 ^ 64 ->
  (exists q, AlignDown 64 v (2 ^ k) = q * 2 ^ k /\ q * 2 ^ k <= v < (q + 1) * 2 ^ k) /\
  (v + (2 ^ k - 1) < 2 ^ 64 ->
   exists q, AlignUp 64 v (2 ^ k) = q * 2 ^ k /\ (q - 1) * 2 ^ k < v <= q * 2 ^ k) /\
  (IsAligned v (2 ^ k) = true <-> (2 ^ k | v)) /\
  (IsPowerOfTwo 64 v = true <-> v = 0 \/ exists j, 0 <= j /\ v = 2 ^ j) /\
  (v + a < 2 ^ 64 -> exists q, DivideByMultiple 64 v a = Ok q /\ (q - 1) * a < v <= q * a).
Proof.
  unfold in_u. intros Hv Hk Ha. pose proof (Z.pow_pos_nonneg 2 k ltac:(lia) ltac:(lia)).
  pose proof (Z.div_mod v (2 ^ k) ltac:(lia)). pose proof (Z.mod_pos_bound v (2 ^ k) ltac:(lia)).
  pose proof (Z.mod_le v (2 ^ k) ltac:(lia) ltac:(lia)). split_and!.
  - exists (v / 2 ^ k). unfold AlignDown, AlignDownWithMask. rewrite mask_u64, land_not_mask by (unfold in_u; lia).
    rewrite wrap_small by (unfold in_u; lia). lia.
  - intros Hs. exists ((v + (2 ^ k - 1)) / 2 ^ k). split; [apply AlignUp_spec; unfold in_u; lia|].
    pose proof (Z.div_mod (v + (2 ^ k - 1)) (2 ^ k) ltac:(lia)).
    pose proof (Z.mod_pos_bound (v + (2 ^ k - 1)) (2 ^ k) ltac:(lia)). lia.
  - unfold IsAligned. rewrite mask_u64, land_mask, Z.eqb_eq by lia. rewrite <- Z.mod_divide by lia. done.
  - by apply IsPowerOfTwo_spec.
  - intros Hs. unfold DivideByMultiple. replace (a =? 0) with false by lia.
    rewrite (wrap_small 64 (v + a)) by (unfold in_u; lia). rewrite (wrap_small 64 (v + a - 1)) by (unfold in_u; lia).
    exists ((v + a - 1) / a). pose proof (Z.div_mod (v + a - 1) a ltac:(lia)).
    pose proof (Z.mod_pos_bound (v + a - 1) a ltac:(lia)). split; [|nia].
    rewrite wrap_small; [done|]. unfold in_u. split; [apply Z.div_pos; lia|nia].
Qed.

Lemma alignment_correct_witness :
  (exists q, AlignUp 64 1000 (2 ^ 8) = q * 2 ^ 8 /\ (q - 1) * 2 ^ 8 < 1000 <= q * 2 ^ 8) /\
  AlignUp 64 1000 256 = 1024 /\ AlignDown 64 1000 256 = 768 /\ IsPowerOfTwo 64 1024 = true.
Proof.
  split; [|vm_compute; done].
  apply (alignment_correct 1000 8 3); unfold in_u; lia.
Defined.
