(* ===== verification/MathUtilsTheory.v ===== *)
(** * Theorems on bounds, clipping and Bezier curves *)

From S2P Require Import Prelude Float32 MathVec MathTheory MathUtils.

(** ** [GetBounds] *)

Section bounds.
Context {prec emax : Z}.
Abbreviation T := (sfloat prec emax).

(** [lo] is a lower bound of the values and [hi] an upper bound, and each is
    one of them (or what the search started from). *)
Definition bound_of (lo0 hi0 : T) (l : list T) (lo hi : T) : Prop :=
  Forall (fun c => sc_leb lo c = true /\ sc_leb c hi = true) l /\
  (lo = lo0 \/ lo ∈ l) /\ (hi = hi0 \/ hi ∈ l).

Lemma sc_min_cases (a b : T) : sc_ordered a -> sc_ordered b ->
  (sc_min a b = a \/ sc_min a b = b) /\ sc_leb (sc_min a b) a = true /\ sc_leb (sc_min a b) b = true.
Proof.
  intros Ha Hb. unfold sc_min. destruct (sc_ltb b a) eqn:E; (split; [tauto|]); revert E; sc_compare.
Qed.

Lemma sc_max_cases (a b : T) : sc_ordered a -> sc_ordered b ->
  (sc_max a b = a \/ sc_max a b = b) /\ sc_leb a (sc_max a b) = true /\ sc_leb b (sc_max a b) = true.
Proof.
  intros Ha Hb. unfold sc_max. destruct (sc_ltb a b) eqn:E; (split; [tauto|]); revert E; sc_compare.
Qed.

Lemma sc_leb_trans (a b c : T) : sc_ordered a -> sc_ordered b -> sc_ordered c ->
  sc_leb a b = true -> sc_leb b c = true -> sc_leb a c = true.
Proof. intros Ha Hb Hc. sc_compare. Qed.

Lemma sc_leb_refl (a : T) : sc_ordered a -> sc_leb a a = true.
Proof. intros Ha. apply sc_le_key; [done..|]. apply lex_lt_irrefl. Qed.

(** The least and the greatest of a list of numbers. *)
Lemma fold_bounds (l : list T) (lo hi : T) :
  sc_ordered lo -> sc_ordered hi -> Forall sc_ordered l ->
  let lo' := foldl sc_min lo l in let hi' := foldl sc_max hi l in
  (sc_ordered lo' /\ sc_ordered hi') /\ (sc_leb lo' lo = true /\ sc_leb hi hi' = true) /\ bound_of lo hi l lo' hi'.
Proof.
  revert lo hi. induction l as [|c l IH]; intros lo hi Hlo Hhi Hl; cbn.
  - unfold bound_of. split_and!; try done; try (by left); by apply sc_leb_refl.
  - apply Forall_cons in Hl as [Hc Hl].
    destruct (sc_min_cases lo c Hlo Hc) as (Em & Hm1 & Hm2). destruct (sc_max_cases hi c Hhi Hc) as (EM & HM1 & HM2).
    assert (sc_ordered (sc_min lo c)) as Hm by (destruct Em as [->| ->]; done).
    assert (sc_ordered (sc_max hi c)) as HM by (destruct EM as [->| ->]; done).
    destruct (IH _ _ Hm HM Hl) as ([H1 H2] & [H3 H4] & H5 & H6 & H7). unfold bound_of.
    split_and!; try done; try (by apply (sc_leb_trans _ (sc_min lo c))); try (by apply (sc_leb_trans _ (sc_max hi c))).
    + constructor; [|done]. split; [by apply (sc_leb_trans _ (sc_min lo c))|by apply (sc_leb_trans _ (sc_max hi c))].
    + destruct H6 as [->|H6]; [|set_solver]. destruct Em as [->| ->]; set_solver.
    + destruct H7 as [->|H7]; [|set_solver]. destruct EM as [->| ->]; set_solver.
Qed.

Lemma bounds_loop_spec (l : list (NVec3 T)) : forall pre (mn mx : NVec3 T),
  bounds_loop (pre ++ l) (length l) (length pre) mn mx =
  Ok (mkVec3 (foldl sc_min (x3 mn) (x3 <$> l)) (foldl sc_min (y3 mn) (y3 <$> l)) (foldl sc_min (z3 mn) (z3 <$> l)),
      mkVec3 (foldl sc_max (x3 mx) (x3 <$> l)) (foldl sc_max (y3 mx) (y3 <$> l)) (foldl sc_max (z3 mx) (z3 <$> l))).
Proof.
  induction l as [|c l IH]; intros pre mn mx; cbn; [by destruct mn, mx|].
  rewrite list_lookup_middle by done. specialize (IH (pre ++ [c]) (NVec3_Min mn c) (NVec3_Max mx c)).
  rewrite <- app_assoc, length_app in IH. cbn in IH. by rewrite Nat.add_1_r in IH.
Qed.

(** A coordinate the search can bound: a number between [-FLT_MAX] and
    [FLT_MAX]. *)
Definition bounded_coord (c : T) : Prop :=
  sc_ordered c /\ sc_leb (sf_conv prec emax (SFopp FLT_MAX)) c = true /\ sc_leb c (sf_conv prec emax FLT_MAX) = true.

(** [lo] and [hi] are equal to values of the list and bound it. *)
Definition tight (l : list T) (lo hi : T) : Prop :=
  Forall (fun c => sc_leb lo c = true /\ sc_leb c hi = true) l /\
  Exists (fun c => sc_eqb lo c = true) l /\ Exists (fun c => sc_eqb hi c = true) l.

Lemma eqb_antisym (a b : T) : sc_ordered a -> sc_ordered b -> sc_leb a b = true -> sc_leb b a = true -> sc_eqb a b = true.
Proof. intros Ha Hb. sc_compare. Qed.

Lemma eqb_refl (a : T) : sc_ordered a -> sc_eqb a a = true.
Proof. intros Ha. by apply sc_eq_key. Qed.

Lemma fold_tight c (l : list T) :
  sc_ordered (sf_conv prec emax FLT_MAX) -> sc_ordered (sf_conv prec emax (SFopp FLT_MAX)) ->
  Forall bounded_coord (c :: l) ->
  tight (c :: l) (foldl sc_min (sf_conv prec emax FLT_MAX) (c :: l))
    (foldl sc_max (sf_conv prec emax (SFopp FLT_MAX)) (c :: l)).
Proof.
  intros HM Hm Hl. assert (Forall sc_ordered (c :: l)) as Ho by (eapply Forall_impl; [exact Hl|]; by intros ? []).
  destruct (fold_bounds (c :: l) _ _ HM Hm Ho) as ([H1 H2] & _ & Hb & Hlo & Hhi).
  split; [done|]. pose proof (proj1 (Forall_cons _ _ _) Hl) as ((Hc & Hc1 & Hc2) & _).
  pose proof (proj1 (Forall_cons _ _ _) Hb) as ((Hb1 & Hb2) & _). rewrite Forall_forall in Ho. split.
  - destruct Hlo as [E|E]; [|apply Exists_exists; eexists; split; [exact E|by apply eqb_refl]].
    left. apply eqb_antisym; try done. rewrite E. done.
  - destruct Hhi as [E|E]; [|apply Exists_exists; eexists; split; [exact E|by apply eqb_refl]].
    left. apply eqb_antisym; try done. rewrite E. done.
Qed.

(** [GetBounds] of a non-empty set of points whose coordinates are numbers
    within the range of [float] reads each point once and returns the bounding
    box: on every axis the bounds contain all coordinates, and each is the
    coordinate of a point. *)
Theorem GetBounds_correct (c : NVec3 T) (l : list (NVec3 T)) :
  sc_ordered (sf_conv prec emax FLT_MAX) -> sc_ordered (sf_conv prec emax (SFopp FLT_MAX)) ->
  Forall (fun c => bounded_coord (x3 c) /\ bounded_coord (y3 c) /\ bounded_coord (z3 c)) (c :: l) ->
  exists mn mx, GetBounds (Some (c :: l)) (length (c :: l)) = Ok (mn, mx) /\
    tight (x3 <$> c :: l) (x3 mn) (x3 mx) /\ tight (y3 <$> c :: l) (y3 mn) (y3 mx) /\ tight (z3 <$> c :: l) (z3 mn) (z3 mx).
Proof.
  intros HM Hm Hl. do 2 eexists. split; [exact (bounds_loop_spec (c :: l) [] _ _)|].
  cbn [x3 y3 z3 NVec3_splat].
  split_and!; cbn [fmap list_fmap]; apply fold_tight; try done;
    change (?f c :: (?f <$> l)) with (f <$> c :: l); rewrite Forall_fmap; (eapply Forall_impl; [exact Hl|]); intros ? (? & ? & ?); done.
Qed.
End bounds.

Definition demo_points : list (NVec3 f32) := [mkVec3 (f32_of_Z 3) (f32_of_Z (-5)) (f32_of_Z 6)].

Lemma GetBounds_correct_witness :
  exists mn mx, GetBounds (Some (mkVec3 (f32_of_Z 9) (f32_of_Z (-8)) (f32_of_Z 6) :: demo_points)) 2 = Ok (mn, mx) /\
    tight (x3 <$> mkVec3 (f32_of_Z 9) (f32_of_Z (-8)) (f32_of_Z 6) :: demo_points) (x3 mn) (x3 mx).
Proof.
  destruct (GetBounds_correct (prec := 24) (emax := 128) (mkVec3 (f32_of_Z 9) (f32_of_Z (-8)) (f32_of_Z 6)) demo_points)
    as (mn & mx & E & H & _); [done|done| |by exists mn, mx].
  repeat constructor; done.
Defined.

(** ** [RectClip] on the pixel grid *)

Definition px4 (r : NVec4 Z) : NVec4 f32 := mkVec4 (f32_of_Z (x4 r)) (f32_of_Z (y4 r)) (f32_of_Z (z4 r)) (f32_of_Z (w4 r)).

Definition pixel4 (r : NVec4 Z) : Prop :=
  pixel (x4 r) /\ pixel (y4 r) /\ 0 <= z4 r <= 2 ^ 22 /\ 0 <= w4 r <= 2 ^ 22.

(** The points a rectangle contains, its edges included. *)
Definition covers (r : NVec4 Z) (pt : NVec2 Z) : Prop :=
  x4 r <= x2 pt <= x4 r + z4 r /\ y4 r <= y2 pt <= y4 r + w4 r.

Definition clip_px (rect clip : NVec4 Z) : NVec4 Z :=
  let x := Z.max (x4 rect) (x4 clip) in
  let y := Z.max (y4 rect) (y4 clip) in
  mkVec4 x y (Z.min (x + z4 rect) (x4 clip + z4 clip) - x) (Z.min (y + w4 rect) (y4 clip + w4 clip) - y).

Lemma clip_axis_px x z cx cz :
  pixel x -> 0 <= z <= 2 ^ 22 -> pixel cx -> 0 <= cz <= 2 ^ 22 ->
  clip_start (f32_of_Z x) (f32_of_Z cx) = f32_of_Z (Z.max x cx) /\
  clip_size (f32_of_Z (Z.max x cx)) (f32_of_Z z) (f32_of_Z cx) (f32_of_Z cz) =
    f32_of_Z (Z.min (Z.max x cx + z) (cx + cz) - Z.max x cx).
Proof.
  unfold pixel, clip_start, clip_size. intros Hx Hz Hcx Hcz.
  rewrite !f32_of_Z_add by (unfold f32_exact; lia). rewrite f32_of_Z_sub by (unfold f32_exact; lia).
  rewrite !(fun a b Ha Hb => proj1 (f32_of_Z_tests a b Ha Hb)) by (unfold f32_exact; lia).
  destruct (Z.ltb_spec x cx), (Z.ltb_spec (cx + cz) (Z.max x cx + z)); split; f_equal; lia.
Qed.

Lemma RectContains_px r pt :
  Z.abs (x4 r) <= 2 ^ 23 -> Z.abs (y4 r) <= 2 ^ 23 -> Z.abs (x4 r + z4 r) <= 2 ^ 23 -> Z.abs (y4 r + w4 r) <= 2 ^ 23 ->
  Z.abs (z4 r) <= 2 ^ 23 -> Z.abs (w4 r) <= 2 ^ 23 -> pixel2 pt ->
  RectContains (px4 r) (px2 pt) = true <-> covers r pt.
Proof.
  unfold pixel2, pixel, covers, RectContains. intros. cbn. rewrite !f32_of_Z_add by (unfold f32_exact; lia).
  rewrite !(fun a b Ha Hb => proj1 (proj2 (f32_of_Z_tests a b Ha Hb))) by (unfold f32_exact; lia). lia.
Qed.

(** [RectClip] on rectangles with integer coordinates: the [float]
    computation is exact, the result lies in the clip rectangle and contains
    every point that both contain; it is their intersection if the rectangle
    begins inside the clip on both axes. It does not shrink a rectangle whose
    start is moved: (0, 0, 5, 5) clipped to (3, 3, 10, 10) is (3, 3, 5, 5). *)
Theorem RectClip_pixels rect clip :
  pixel4 rect -> pixel4 clip ->
  RectClip (px4 rect) (px4 clip) = px4 (clip_px rect clip) /\
  (forall pt, pixel2 pt ->
    (RectContains (px4 rect) (px2 pt) = true -> RectContains (px4 clip) (px2 pt) = true ->
     RectContains (px4 (clip_px rect clip)) (px2 pt) = true) /\
    (RectContains (px4 (clip_px rect clip)) (px2 pt) = true -> RectContains (px4 clip) (px2 pt) = true) /\
    (x4 clip <= x4 rect -> y4 clip <= y4 rect ->
     RectContains (px4 (clip_px rect clip)) (px2 pt) = true -> RectContains (px4 rect) (px2 pt) = true)) /\
  RectClip (px4 (mkVec4 0 0 5 5)) (px4 (mkVec4 3 3 10 10)) = px4 (mkVec4 3 3 5 5).
Proof.
  destruct rect as [x y z w], clip as [cx cy cz cw]. intros (Hx & Hy & Hz & Hw) (Hcx & Hcy & Hcz & Hcw). cbn in *. split_and!.
  - unfold RectClip. cbn. destruct (clip_axis_px x z cx cz) as [-> ->]; try done.
    by destruct (clip_axis_px y w cy cw) as [-> ->].
  - unfold pixel in *. intros pt Hpt. rewrite !RectContains_px by (done || (unfold clip_px; cbn; lia)).
    unfold covers, clip_px. cbn. split_and!; intros; lia.
  - vm_compute. reflexivity.
Qed.

Lemma RectClip_pixels_witness :
  RectClip (px4 (mkVec4 3 3 5 5)) (px4 (mkVec4 4 4 2 2)) = px4 (clip_px (mkVec4 3 3 5 5) (mkVec4 4 4 2 2)) /\
  clip_px (mkVec4 3 3 5 5) (mkVec4 4 4 2 2) = mkVec4 4 4 2 2.
Proof.
  split; [|reflexivity]. apply (RectClip_pixels (mkVec4 3 3 5 5) (mkVec4 4 4 2 2)); unfold pixel4, pixel; cbn; lia.
Defined.

(** ** Bezier curves *)

(** A finite [float] in its canonical form. *)
Definition fin32 (x : f32) : Prop :=
  match x with S754_zero _ => True | S754_finite s m e => bounded 24 128 m e = true | _ => False end.

Lemma mul_one x : fin32 x -> SFmul 24 128 (f32_of_Z 1) x = x.
Proof.
  destruct x as [s|s| |s m e]; try done. intros H. change (f32_of_Z 1) with (S754_finite false (p2 23 1) (-23)).
  cbn [SFmul xorb]. replace (-23 + e) with (e - Z.of_nat 23) by lia.
  replace (Zpos (p2 23 1 * m)) with (Zpos (p2 23 m)) by (rewrite Pos2Z.inj_mul, !p2_value; lia).
  rewrite round_canonical by (done || lia). by destruct s.
Qed.

Definition is_zero (x : f32) : Prop := exists s, x = S754_zero s.

Lemma mul_zero z x : is_zero z -> fin32 x -> is_zero (SFmul 24 128 z x).
Proof. intros [s ->]. destruct x as [s'|s'| |s' m e]; try done; intros _; cbn; by eexists. Qed.

(** Adding a zero changes at most the sign of a zero. *)
Definition same (x y : f32) : Prop := x = y \/ is_zero x /\ is_zero y.

Lemma add_zero_r x z : fin32 x -> is_zero z -> same (SFadd 24 128 x z) x /\ same (SFadd 24 128 z x) x.
Proof.
  intros Hx [s ->]. destruct x as [s'|s'| |s' m e]; try done; unfold same, is_zero.
  - destruct s, s'; cbn; eauto 10.
  - cbn. eauto.
Qed.

Lemma same_fin x y : same x y -> fin32 y -> fin32 x.
Proof. intros [->|[[s ->] _]]; done. Qed.

Lemma same_trans x y z : same x y -> same y z -> same x z.
Proof. intros [->|[Hx Hy]] [->|[Hy' Hz]]; unfold same in *; tauto. Qed.

Lemma same_eqb x y : same x y -> fin32 y -> SFeqb x y = true.
Proof.
  intros [->|[[s ->] [s' ->]]] Hy; [|done]. pose proof (sf_tests_key y y) as H.
  destruct y; try done; by apply H.
Qed.

(** A Bezier curve begins at its first control point and ends at its last:
    for all finite [float] control points the IEEE computation at 0 and at 1
    gives a value equal to [p0] and to [p3]. *)
Theorem Bezier_endpoints p0 p1 p2 p3 :
  fin32 p0 -> fin32 p1 -> fin32 p2 -> fin32 p3 ->
  SFeqb (Bezier (f32_of_Z 0) p0 p1 p2 p3) p0 = true /\ SFeqb (Bezier (f32_of_Z 1) p0 p1 p2 p3) p3 = true.
Proof.
  intros H0 H1 H2 H3. assert (forall s, is_zero (S754_zero s)) as Hz by (intros s; by exists s). unfold Bezier. split.
  - change (cube (SFsub 24 128 (f32_of_Z 1) (f32_of_Z 0))) with (f32_of_Z 1). rewrite mul_one by done.
    set (a := SFmul 24 128 (SFmul _ _ _ (f32_of_Z 0)) p1). set (b := SFmul 24 128 _ p2). set (c := SFmul 24 128 _ p3).
    assert (is_zero a) by (apply mul_zero; [vm_compute; by eexists|done]).
    assert (is_zero b) by (apply mul_zero; [vm_compute; by eexists|done]).
    assert (is_zero c) by (apply mul_zero; [vm_compute; by eexists|done]). clearbody a b c.
    destruct (add_zero_r p0 a H0 ltac:(done)) as [Ea _]. pose proof (same_fin _ _ Ea H0) as Fa.
    destruct (add_zero_r _ b Fa ltac:(done)) as [Eb _]. pose proof (same_fin _ _ Eb Fa) as Fb.
    destruct (add_zero_r _ c Fb ltac:(done)) as [Ec _].
    apply same_eqb; [|done]. eapply same_trans; [exact Ec|]. by eapply same_trans.
  - change (cube (f32_of_Z 1)) with (f32_of_Z 1). rewrite mul_one by done.
    set (a := SFmul 24 128 _ p0). set (b := SFmul 24 128 _ p1). set (c := SFmul 24 128 _ p2).
    assert (is_zero a) as Za by (apply mul_zero; [vm_compute; by eexists|done]).
    assert (is_zero b) as Zb by (apply mul_zero; [vm_compute; by eexists|done]).
    assert (is_zero c) as Zc by (apply mul_zero; [vm_compute; by eexists|done]). clearbody a b c.
    destruct Za as [sa ->], Zb as [sb ->], Zc as [sc ->]. apply same_eqb; [|done].
    destruct (add_zero_r p3 (SFadd 24 128 (SFadd 24 128 (S754_zero sa) (S754_zero sb)) (S754_zero sc))) as [_ E]; try done.
    by destruct sa, sb, sc; apply Hz.
Qed.

Lemma Bezier_endpoints_witness :
  SFeqb (Bezier (f32_of_Z 1) (f32_of_Z 2) (f32_of_Z 100) (f32_of_Z (-7)) (f32_lit 1 10)) (f32_lit 1 10) = true.
Proof.
  apply (Bezier_endpoints (f32_of_Z 2) (f32_of_Z 100) (f32_of_Z (-7)) (f32_lit 1 10)); vm_compute; reflexivity.
Defined.
