(* ===== verification/TimeModel.v ===== *)
(** * Timers, time ranges, the scheduler and the time provider

    include/mutils/time/timer.h, src/time/timer.cpp (its dates are in [Dates]),
    src/callback/callback.cpp and
    src/time/time_provider.cpp. A clock reading, in nanoseconds, is an
    argument of the operation that takes it. *)

From S2P Require Import Prelude Float32.

(** ** Timers *)

(** [timerT]: the start time, a signed 64-bit number of nanoseconds. *)
Record timerT : Type := mkTimer { startTime : Z }.

Definition timer_get_time_now (now : Z) : Z := u64 now.
Definition timer_restart (t : timerT) (now : Z) : timerT := mkTimer now.
Definition timer_start (t : timerT) (now : Z) : timerT := timer_restart t now.
(** The difference of two signed numbers, as an unsigned one. *)
Definition timer_get_elapsed (t : timerT) (now : Z) : result stop Z :=
  d ← s_check 64 (now - startTime t); Ok (u64 d).

(** [now] is read from the timer's clock and [utcNow] from the system clock. *)
Definition timer_to_epoch_utc_seconds (t : timerT) (now utcNow : Z) : Z :=
  let nowSeconds := Z.quot now 1000000000 in
  let utcNow := Z.quot utcNow 1000000000 in
  u64 (Z.quot (startTime t) 1000000000 + (utcNow - nowSeconds)).

Definition timer_to_seconds (value : Z) : f64 := SFdiv 53 1024 (sf_of_Z 53 1024 value) (sf_of_Z 53 1024 1000000000).
Definition timer_to_ms (value : Z) : f64 := SFdiv 53 1024 (sf_of_Z 53 1024 value) (sf_of_Z 53 1024 1000000).
Definition timer_get_elapsed_seconds (t : timerT) (now : Z) : result stop f64 :=
  e ← timer_get_elapsed t now; Ok (timer_to_seconds e).

(** ** Time ranges, in seconds *)

Definition DateTime_min : Z := - 2 ^ 63.

Record TimeRange : Type := mkRange { Start : Z; End_ : Z }.

Definition TimeRange_default : TimeRange := mkRange DateTime_min DateTime_min.
Definition Valid (r : TimeRange) : bool := negb (Start r =? DateTime_min) && negb (End_ r =? DateTime_min).
Definition Duration (r : TimeRange) : result stop Z := s_check 64 (End_ r - Start r).
Definition InRange (r : TimeRange) (val : Z) : bool := (Start r <=? val) && (val <=? End_ r).
Definition IncludeTime (r : TimeRange) (time : Z) : TimeRange := mkRange (Z.min time (Start r)) (Z.max time (End_ r)).
(** [IncludeRange(start, end)]: four assignments, one after the other. *)
Definition IncludeRange (r : TimeRange) (start end_ : Z) : TimeRange :=
  let r := mkRange (Z.min start (Start r)) (End_ r) in
  let r := mkRange (Z.max start (Start r)) (End_ r) in
  let r := mkRange (Start r) (Z.min end_ (End_ r)) in
  mkRange (Start r) (Z.max end_ (End_ r)).

(** ** The scheduler *)

Inductive SchedulerState : Type := Off | Started | Triggered.

(** A callback is known by a name of type [C]. *)
Record scheduler (C : Type) : Type := mkSched { callback : option C; cb_timer : timerT; timeout : f32; state : SchedulerState }.
Arguments mkSched {C}. Arguments callback {C}. Arguments cb_timer {C}. Arguments timeout {C}. Arguments state {C}.

Section scheduler.
(** [W] is what a callback can change besides the scheduler, and [call] is
    what the named callback does; it may use the scheduler too. *)
Context {C W : Type} (call : C -> scheduler C * W -> scheduler C * W).

Definition scheduler_start (sched : scheduler C) (now : Z) (seconds : f32) (fnCallback : C) : scheduler C :=
  let sched := mkSched (callback sched) (timer_start (cb_timer sched) now) (timeout sched) (state sched) in
  mkSched (Some fnCallback) (cb_timer sched) seconds Started.

Definition set_state (st : SchedulerState) (sched : scheduler C) : scheduler C :=
  mkSched (callback sched) (cb_timer sched) (timeout sched) st.

Definition scheduler_stop (sched : scheduler C) : scheduler C := set_state Off sched.

(** Calling an empty [std::function] throws. *)
Definition scheduler_update (sw : scheduler C * W) (now : Z) : result stop (scheduler C * W) :=
  let '(sched, w) := sw in
  match state sched with
  | Started =>
      match timer_get_elapsed_seconds (cb_timer sched) now with
      | Err e => Err e
      | Ok elapsed =>
          if SFleb (sf_conv 53 1024 (timeout sched)) elapsed then
            match callback sched with
            | None => Err (Throw bad_function_call)
            | Some cb => let '(sched, w) := call cb (sched, w) in Ok (set_state Triggered sched, w)
            end
          else Ok (sched, w)
      end
  | _ => Ok (sched, w)
  end.

(** Updates at the given times. *)
Fixpoint updates (sw : scheduler C * W) (times : list Z) : result stop (scheduler C * W) :=
  match times with
  | [] => Ok sw
  | now :: times => match scheduler_update sw now with Ok sw => updates sw times | Err e => Err e end
  end.
End scheduler.

(** ** The time provider *)

Record TimeProvider : Type := mkTP {
  m_startTime : Z;
  m_consumers : gset nat;
  m_quitTimer : bool;
  m_quantum : f64;
  m_tempo : f64;
  m_beat : f64;
  m_frame : Z;
  m_lastTime : Z;
  m_lastBeat : option f64;   (** not initialised before the first tick *)
  m_timePerBeat : Z          (** microseconds *)
}.

Definition set_startTime t p := mkTP t (m_consumers p) (m_quitTimer p) (m_quantum p) (m_tempo p) (m_beat p) (m_frame p) (m_lastTime p) (m_lastBeat p) (m_timePerBeat p).
Definition set_consumers c p := mkTP (m_startTime p) c (m_quitTimer p) (m_quantum p) (m_tempo p) (m_beat p) (m_frame p) (m_lastTime p) (m_lastBeat p) (m_timePerBeat p).
Definition set_quit b p := mkTP (m_startTime p) (m_consumers p) b (m_quantum p) (m_tempo p) (m_beat p) (m_frame p) (m_lastTime p) (m_lastBeat p) (m_timePerBeat p).
Definition set_tempo q t tpb p := mkTP (m_startTime p) (m_consumers p) (m_quitTimer p) q t (m_beat p) (m_frame p) (m_lastTime p) (m_lastBeat p) tpb.
Definition set_beat b p := mkTP (m_startTime p) (m_consumers p) (m_quitTimer p) (m_quantum p) (m_tempo p) b (m_frame p) (m_lastTime p) (m_lastBeat p) (m_timePerBeat p).
Definition set_frame f p := mkTP (m_startTime p) (m_consumers p) (m_quitTimer p) (m_quantum p) (m_tempo p) (m_beat p) f (m_lastTime p) (m_lastBeat p) (m_timePerBeat p).
Definition set_last t b p := mkTP (m_startTime p) (m_consumers p) (m_quitTimer p) (m_quantum p) (m_tempo p) (m_beat p) (m_frame p) t (Some b) (m_timePerBeat p).

Abbreviation d_of_Z := (sf_of_Z 53 1024).

Definition StartTime (p : TimeProvider) : Z := m_startTime p.
Definition ResetStartTime (now : Z) (p : TimeProvider) : TimeProvider := set_startTime now p.
Definition RegisterConsumer (c : nat) (p : TimeProvider) : TimeProvider := set_consumers ({[c]} ∪ m_consumers p) p.
Definition UnRegisterConsumer (c : nat) (p : TimeProvider) : TimeProvider := set_consumers (m_consumers p ∖ {[c]}) p.
Definition SetBeat (beat : f64) (p : TimeProvider) : TimeProvider := set_beat beat p.
Definition SetFrame (frame : Z) (p : TimeProvider) : TimeProvider := set_frame frame p.
(** [(uint64_t)(60000000.0 / tempo)] microseconds; a tempo of zero or less
    makes the conversion undefined. *)
Definition SetTempo (tempo quantum : f64) (p : TimeProvider) : result stop TimeProvider :=
  n ← sf_to_int 0 (2 ^ 64) (SFdiv 53 1024 (d_of_Z 60000000) tempo);
  Ok (set_tempo quantum tempo (i64 n) p).

(** The members before the constructor's body, and the constructor. *)
Definition TimeProvider_init : TimeProvider :=
  mkTP 0 ∅ false (d_of_Z 4) (d_of_Z 120) (d_of_Z 0) 0 0 None (1000000 / 120).
Definition TimeProvider_make (now : Z) : result stop TimeProvider :=
  SetTempo (d_of_Z 120) (d_of_Z 4) (set_startTime now TimeProvider_init).

Definition GetFrame (p : TimeProvider) : Z := m_frame p.
Definition GetBeat (p : TimeProvider) : f64 := m_beat p.
Definition GetTempo (p : TimeProvider) : f64 := m_tempo p.
Definition GetQuantum (p : TimeProvider) : f64 := m_quantum p.
Definition GetTimePerBeat (p : TimeProvider) : Z := m_timePerBeat p.

Definition GetBeatAtTime (p : TimeProvider) (time : Z) : result stop f64 :=
  match s_check 64 (time - m_lastTime p), m_lastBeat p with
  | Err e, _ => Err e
  | _, None => Err UB
  | Ok d, Some beat =>
      let d := Z.quot d 1000 in
      let beatsPerTime := SFdiv 53 1024 (d_of_Z d) (d_of_Z (GetTimePerBeat p)) in
      Ok (SFadd 53 1024 beat beatsPerTime)
  end.

(** *** The thread

    Where the thread that ticks is: at the top of its loop; after it has read
    the clock, the period, the beat and the frame (one step, though another
    thread may set the beat and the frame between the two loads); at the test
    of [m_quitTimer]; asleep; or ended. *)
Inductive tick_pc : Type :=
| TickTop
| TickLoaded (startTime nextTime : Z) (beat : f64) (frame : Z)
| TickTest (nextTime : Z)
| TickSleep (nextTime : Z)
| TickEnded.

(** The part under the lock, and the consumers it ticks. *)
Definition tick_locked (startTime : Z) (beat : f64) (frame : Z) (p : TimeProvider) : TimeProvider * list nat :=
  let p := set_last startTime beat p in
  let ticked := elements (m_consumers p) in
  let p := set_frame (u32 (frame + 1)) p in
  (set_beat (SFadd 53 1024 beat (d_of_Z 1)) p, ticked).

(** One step of the thread at the clock reading [now]: the state, where the
    thread is then, and the consumers ticked. *)
Definition tick_step (now : Z) (p : TimeProvider) (at_ : tick_pc) : TimeProvider * tick_pc * list nat :=
  match at_ with
  | TickTop => (p, TickLoaded now (now + m_timePerBeat p * 1000) (m_beat p) (m_frame p), [])
  | TickLoaded startTime nextTime beat frame =>
      let '(p, ticked) := tick_locked startTime beat frame p in (p, TickTest nextTime, ticked)
  | TickTest nextTime => (p, if m_quitTimer p then TickEnded else TickSleep nextTime, [])
  | TickSleep nextTime => (p, if nextTime <=? now then TickTop else TickSleep nextTime, [])
  | TickEnded => (p, TickEnded, [])
  end.

(** [StartThread]; [EndThread] before the join. *)
Definition StartThread (p : TimeProvider) : TimeProvider * tick_pc := (set_quit false p, TickTop).
Definition EndThread (p : TimeProvider) : TimeProvider := set_quit true p.

(** ** Time ranges: what including a time does *)

(** [IncludeRange(time)] extends a range: it then contains the time and
    everything it contained before, and nothing outside the two. But it cannot
    begin a range: one made by default stays invalid for ever, since its start
    is the least time there is. [IncludeRange(start, end)] forgets the range
    it had. *)
Theorem TimeRange_include r t x ts start end_ :
  Start r <= End_ r ->
  (InRange (IncludeTime r t) x = true <-> InRange r x = true \/ Z.min t (Start r) <= x <= t \/ t <= x <= Z.max t (End_ r)) /\
  (Forall (fun t => DateTime_min <= t) ts -> Valid (foldl IncludeTime TimeRange_default ts) = false) /\
  IncludeRange r start end_ = mkRange start end_.
Proof.
  intros Hr. unfold InRange, IncludeRange. cbn. split_and!; [lia| |f_equal; lia].
  intros Hts. enough (Start (foldl IncludeTime TimeRange_default ts) = DateTime_min) as E.
  { unfold Valid. by rewrite E, Z.eqb_refl. }
  assert (forall r, Start r = DateTime_min -> Start (foldl IncludeTime r ts) = DateTime_min) as H; [|by apply H].
  induction Hts as [|t' ts Ht _ IH]; intros r' E; [done|]. cbn. apply IH. cbn. rewrite E. lia.
Qed.

Lemma TimeRange_include_witness :
  InRange (IncludeTime (mkRange 10 20) 30) 25 = true.
Proof.
  apply (TimeRange_include (mkRange 10 20) 30 25 [] 0 0); cbn; lia.
Defined.

(** ** The scheduler fires once *)

Section fires.
Context {C W : Type} (call : C -> scheduler C * W -> scheduler C * W).

(** The timer readings the arithmetic of the code covers. *)
Definition clock_ok (t0 now : Z) : Prop := t0 <= now < t0 + 2 ^ 63.

(** Whether the time-out has passed at [now]. *)
Definition due (sched : scheduler C) (now : Z) : bool :=
  SFleb (sf_conv 53 1024 (timeout sched)) (timer_to_seconds (now - startTime (cb_timer sched))).

Lemma elapsed_ok t now : clock_ok (startTime t) now -> timer_get_elapsed_seconds t now = Ok (timer_to_seconds (now - startTime t)).
Proof.
  unfold clock_ok. intros H. unfold timer_get_elapsed_seconds, timer_get_elapsed, s_check.
  change (64 - 1) with 63. replace (_ && _) with true by lia. cbn. do 2 f_equal. apply wrap_small. unfold in_u. lia.
Qed.

Lemma updates_idle sw times : state sw.1 <> Started -> updates call sw times = Ok sw.
Proof.
  intros H. induction times as [|t times IH]; [done|]. cbn [updates]. unfold scheduler_update.
  destruct sw as [s w]. cbn in H. by destruct (state s).
Qed.

(** The scheduler fires at most once. After [scheduler_start], whatever
    the callback does, a sequence of updates calls it exactly once if one of
    them comes after the time-out (at the first that does) and not at all
    otherwise; then the scheduler is triggered, and every later update does
    nothing, even if the callback has started the scheduler again. After
    [scheduler_stop] no update does anything. *)
Theorem scheduler_fires_once sched w t0 seconds cb times :
  Forall (clock_ok t0) times ->
  let sched' := scheduler_start sched t0 seconds cb in
  updates call (sched', w) times =
    Ok (if existsb (due sched') times then
          let '(s, w) := call cb (sched', w) in (set_state Triggered s, w)
        else (sched', w)) /\
  updates call (scheduler_stop sched', w) times = Ok (scheduler_stop sched', w).
Proof.
  intros Ht sched'. split; [|by apply updates_idle].
  induction Ht as [|t times Ht _ IH]; [done|]. cbn [updates existsb].
  assert (scheduler_update call (sched', w) t =
    Ok (if due sched' t then let '(s, w) := call cb (sched', w) in (set_state Triggered s, w) else (sched', w))) as E.
  { unfold scheduler_update. change (state sched') with Started. cbv beta iota.
    rewrite elapsed_ok by done. unfold due. destruct (SFleb _ _); [|done].
    change (callback sched') with (Some cb). cbv beta iota. by destruct (call cb (sched', w)). }
  rewrite E. destruct (due sched' t); cbn [orb]; [|done].
  destruct (call cb (sched', w)) as [s w']. by apply updates_idle.
Qed.
End fires.

Definition demo_sched : scheduler unit := mkSched None (mkTimer 0) (f32_of_Z 1) Off.
Definition demo_call (_ : unit) (sw : scheduler unit * nat) : scheduler unit * nat := (sw.1, S sw.2).

Lemma scheduler_fires_once_witness :
  updates demo_call (scheduler_start demo_sched 5 (f32_of_Z 2) tt, 0%nat) [1000000005; 2000000005; 9000000000] =
    Ok (set_state Triggered (scheduler_start demo_sched 5 (f32_of_Z 2) tt), 1%nat).
Proof.
  rewrite (proj1 (scheduler_fires_once demo_call demo_sched 0%nat 5 (f32_of_Z 2) tt
    [1000000005; 2000000005; 9000000000] ltac:(repeat constructor; unfold clock_ok; lia))).
  vm_compute. reflexivity.
Defined.

(** ** The time provider as a system of steps

    The provider, the thread that ticks, and the consumers ticked in each round
    so far, the last round first. *)
Record tp_sys : Type := mkTS { tp : TimeProvider; ticker : tick_pc; rounds : list (list nat) }.

(** Any other thread calls one of the operations that do not set the beat or
    the frame. *)
Inductive tp_call : TimeProvider -> TimeProvider -> Prop :=
| call_register c p : tp_call p (RegisterConsumer c p)
| call_unregister c p : tp_call p (UnRegisterConsumer c p)
| call_reset now p : tp_call p (ResetStartTime now p)
| call_tempo t q p p' : SetTempo t q p = Ok p' -> tp_call p p'
| call_end p : tp_call p (EndThread p).

Inductive tp_step : tp_sys -> tp_sys -> Prop :=
| step_ticker now p at_ rs p' at' ticked :
    tick_step now p at_ = (p', at', ticked) ->
    tp_step (mkTS p at_ rs)
      (mkTS p' at' (match at_ with TickLoaded _ _ _ _ => ticked :: rs | _ => rs end))
| step_call p p' at_ rs : tp_call p p' -> tp_step (mkTS p at_ rs) (mkTS p' at_ rs).

Lemma tp_call_beat p p' :
  tp_call p p' -> m_beat p' = m_beat p /\ m_frame p' = m_frame p /\ m_lastBeat p' = m_lastBeat p.
Proof.
  destruct 1 as [| | |t q p p' E|]; try done. unfold SetTempo in E.
  destruct (sf_to_int _ _ _); [|done]. by injection E as <-.
Qed.

(** What [n] rounds make of beat [b] and frame [f]. *)
Definition counted (b f : Z) (s : tp_sys) : Prop :=
  let n := Z.of_nat (length (rounds s)) in
  m_beat (tp s) = d_of_Z (b + n) /\ m_frame (tp s) = u32 (f + n) /\
  (n <> 0 -> m_lastBeat (tp s) = Some (d_of_Z (b + n - 1))) /\
  Forall NoDup (rounds s) /\
  match ticker s with
  | TickLoaded _ _ beat frame => beat = d_of_Z (b + n) /\ frame = u32 (f + n)
  | _ => True
  end.

Lemma d_of_Z_succ z : 0 <= z < 2 ^ 52 -> SFadd 53 1024 (d_of_Z z) (d_of_Z 1) = d_of_Z (z + 1).
Proof. intros H. apply (sf_of_Z_add 53 1024); unfold sf_exact; lia. Qed.

Lemma tp_step_counted b f s s' :
  0 <= b -> tp_step s s' -> b + Z.of_nat (length (rounds s)) < 2 ^ 52 -> counted b f s -> counted b f s'.
Proof.
  intros Hb Hs Hn (H1 & H2 & H3 & H4 & H5). destruct Hs as [now p at_ rs p' at' ticked E|p p' at_ rs Hc]; cbn in *.
  - destruct at_ as [|st nx bt fr|nx|nx|]; cbn in E; injection E as <- <- <-; unfold counted; cbn [tp ticker rounds].
    + by split_and!.
    + destruct H5 as [-> ->]. cbn [set_beat set_frame set_last m_beat m_frame m_lastBeat length].
      rewrite d_of_Z_succ by lia. replace (b + Z.of_nat (S (length rs))) with (b + Z.of_nat (length rs) + 1) by lia.
      split_and!; try done.
      * unfold wrap. rewrite Zplus_mod_idemp_l. f_equal. lia.
      * intros _. do 2 f_equal. lia.
      * constructor; [apply NoDup_elements|done].
    + split_and!; try done. by destruct (m_quitTimer p).
    + split_and!; try done. by destruct (_ <=? _).
    + by split_and!.
  - destruct (tp_call_beat _ _ Hc) as (E1 & E2 & E3). unfold counted. cbn. by rewrite E1, E2, E3.
Qed.

Lemma tp_rounds_mono s s' : rtc tp_step s s' -> (length (rounds s) <= length (rounds s'))%nat.
Proof.
  induction 1 as [|s1 s2 s3 Hs _ IH]; [lia|]. etransitivity; [|exact IH].
  destruct Hs as [now p at_ rs p' at' ticked E|]; cbn; [|lia]. destruct at_; cbn; lia.
Qed.

(** C18. The beat counts the ticks. Whatever other threads do besides setting
    the beat or the frame, after [n] rounds of the ticking thread the beat is
    the initial beat plus [n], exactly, in [double] arithmetic (up to 2^52
    beats), the frame is the initial frame plus [n] modulo 2^32, the last beat
    is the one before, and no round ticked a consumer twice. *)
Theorem ticks_counted b f p s :
  0 <= b -> m_beat p = d_of_Z b -> m_frame p = u32 f ->
  let '(p0, at0) := StartThread p in
  rtc tp_step (mkTS p0 at0 []) s -> b + Z.of_nat (length (rounds s)) < 2 ^ 52 -> counted b f s.
Proof.
  intros Hb Hbeat Hframe. cbn. intros Hs Hn.
  assert (counted b f (mkTS (set_quit false p) TickTop [])) as H0.
  { unfold counted. cbn. rewrite !Z.add_0_r. by split_and!. }
  revert H0. induction Hs as [|s1 s2 s3 Hs Hr IH]; [done|]. intros H0. apply IH; [done|].
  eapply tp_step_counted; [done|done| |done]. pose proof (tp_rounds_mono s1 s2 (rtc_once _ _ Hs)).
  pose proof (tp_rounds_mono _ _ Hr). lia.
Qed.

(** The thread alone, at the given clock readings: the state, where the
    thread is, and the rounds it did. *)
Fixpoint run_ticker (times : list Z) (p : TimeProvider) (at_ : tick_pc) : TimeProvider * tick_pc * nat :=
  match times with
  | [] => (p, at_, 0%nat)
  | now :: times =>
      let '(p', at', _) := tick_step now p at_ in
      let '(q, at'', n) := run_ticker times p' at' in
      (q, at'', ((match at_ with TickLoaded _ _ _ _ => 1 | _ => 0 end) + n)%nat)
  end.

(** C24. [EndThread] is waited for at most one more tick: once [m_quitTimer] is
    set, the thread ends after at most four of its steps, wherever it is (the
    clock having reached the time it sleeps until), having ticked at most
    once more. *)
Theorem EndThread_ends p at_ t1 t2 t3 t4 :
  (forall next, at_ = TickSleep next -> next <= t1) ->
  let '(_, at', n) := run_ticker [t1; t2; t3; t4] (EndThread p) at_ in
  at' = TickEnded /\ (n <= 1)%nat.
Proof.
  intros Hw. destruct at_ as [|st nx bt fr|nx|nx|]; cbn; try (split; [done|lia]).
  replace (nx <=? t1) with true by (specialize (Hw nx eq_refl); lia). cbn. split; [done|lia].
Qed.

(** A beat that is set between the thread's read of the beat and its locked
    section is lost: the section stores the old beat plus one. *)
Theorem SetBeat_lost p now now' beat :
  let '(p1, at1, _) := tick_step now p TickTop in
  let '(p2, at2, _) := tick_step now' (SetBeat beat p1) at1 in
  GetBeat p2 = SFadd 53 1024 (GetBeat p) (d_of_Z 1).
Proof. reflexivity. Qed.

(** [GetBeatAtTime] interpolates between ticks: at the time of the last
    tick it is the beat of that tick, and one period later the next beat, both
    exactly, for beats and periods of up to 52 bits. *)
Theorem GetBeatAtTime_ends p b :
  m_lastBeat p = Some (d_of_Z b) -> 0 <= b < 2 ^ 52 -> 0 < m_timePerBeat p < 2 ^ 52 ->
  GetBeatAtTime p (m_lastTime p) = Ok (d_of_Z b) /\
  GetBeatAtTime p (m_lastTime p + m_timePerBeat p * 1000) = Ok (d_of_Z (b + 1)).
Proof.
  intros Hl Hb Hp. unfold GetBeatAtTime, s_check. rewrite Hl. change (64 - 1) with 63. unfold GetTimePerBeat. split.
  - rewrite Z.sub_diag. cbn -[SFadd SFdiv sf_of_Z]. f_equal.
    destruct (sf_of_Z_rep 53 1024 ltac:(lia) (m_timePerBeat p)) as (m & e & E & _); [unfold sf_exact; lia|lia|].
    rewrite E. replace (m_timePerBeat p <? 0) with false by lia.
    change (SFdiv 53 1024 (d_of_Z (0 ÷ 1000)) (S754_finite false m e)) with (d_of_Z 0).
    rewrite (sf_of_Z_add 53 1024) by (unfold sf_exact; lia). f_equal. lia.
  - replace (m_lastTime p + m_timePerBeat p * 1000 - m_lastTime p) with (m_timePerBeat p * 1000) by lia.
    replace (_ && _) with true by lia. rewrite Z.quot_mul by lia.
    rewrite (sf_of_Z_div_self 53 1024) by (unfold sf_exact; lia).
    rewrite d_of_Z_succ by lia. done.
Qed.

Definition demo_tp : TimeProvider := set_last 1000 (d_of_Z 7) (set_tempo (d_of_Z 4) (d_of_Z 120) 500000 TimeProvider_init).

Lemma GetBeatAtTime_ends_witness :
  GetBeatAtTime demo_tp 1000 = Ok (d_of_Z 7) /\ GetBeatAtTime demo_tp 500001000 = Ok (d_of_Z 8).
Proof. apply (GetBeatAtTime_ends demo_tp 7); cbn; (reflexivity || lia). Defined.

Lemma EndThread_ends_witness :
  let '(_, at', n) := run_ticker [100; 101; 102; 103] (EndThread demo_tp) (TickSleep 90) in
  at' = TickEnded /\ (n <= 1)%nat.
Proof. apply (EndThread_ends demo_tp (TickSleep 90) 100 101 102 103). intros next E. injection E as <-. lia. Defined.

(** One step of the ticking thread, as a function. *)
Definition tick_sys (now : Z) (s : tp_sys) : tp_sys :=
  let r := tick_step now (tp s) (ticker s) in
  mkTS r.1.1 r.1.2 (match ticker s with TickLoaded _ _ _ _ => r.2 :: rounds s | _ => rounds s end).

Lemma tick_sys_step now s : tp_step s (tick_sys now s).
Proof. destruct s as [p at_ rs]. unfold tick_sys. cbn. apply (step_ticker now). by destruct (tick_step now p at_) as [[]]. Qed.

Definition demo_round : tp_sys := tick_sys 51 (tick_sys 50 (mkTS (set_quit false demo_tp) TickTop [])).

Lemma ticks_counted_witness : counted 0 0 demo_round /\ m_beat (tp demo_round) = d_of_Z 1.
Proof.
  split; [|vm_compute; reflexivity].
  apply (ticks_counted 0 0 demo_tp demo_round ltac:(lia) eq_refl eq_refl); [|vm_compute; reflexivity].
  eapply rtc_l; [apply (tick_sys_step 50)|]. apply rtc_once, (tick_sys_step 51).
Defined.
