(* ===== verification/Dates.v ===== *)
(** * Dates

    src/time/timer.cpp and include/mutils/time/time_utils.h: reading and writing
    dates. The date library is the class [DateLib]: printing and parsing by a
    format, and printing the parts of a day and the time of day. A [DateTime] is
    a number of seconds, a clock reading a number of nanoseconds. *)

From S2P Require Import Prelude StdString Float32 TimeModel.
Import F32Notations.

Class DateLib : Type := {
  date_format : str -> Z -> str;          (** [date::format] of seconds *)
  date_parse : str -> str -> option Z;    (** [date::parse], to milliseconds; [None] when the stream fails *)
  put_day : Z -> str;                     (** the day, month and year of a number of days *)
  put_month : Z -> str;
  put_year : Z -> str;
  put_time : Z -> str                     (** [make_time] of the seconds of a day *)
}.

Inductive DateTimeFormat : Type := DayMonth | JsonDayMonthYear | YearMonthDay | YearMonthDayTime | Year | Month | Day | Time | Value.

Section Dates.
Context `{DateLib}.

(** The second parse throws when it fails. *)
Definition sys_time_from_iso_8601 (s : str) : result stop Z :=
  match date_parse (lit "%FT%TZ") s with
  | Some t => Ok t
  | None => match date_parse (lit "%FT%T%Ez") s with Some t => Ok t | None => Err (Throw ios_failure) end
  end.

(** [duration_cast] cuts towards zero. *)
Definition datetime_from_iso_8601 (s : str) : result stop Z := t ← sys_time_from_iso_8601 s; Ok (Z.quot t 1000).
Definition datetime_to_iso_8601 (tp : Z) : str := date_format (lit "%FT%TZ") tp.

(** [date::floor] cuts down. *)
Definition datetime_now (now : Z) : Z := now / 1000000000.
Definition datetime_from_seconds (t : Z) : Z := i64 t.
Definition datetime_from_timer_start (t : timerT) (now utcNow : Z) : Z := i64 (timer_to_epoch_utc_seconds t now utcNow).

Definition datetime_to_string (d : Z) (format : DateTimeFormat) : str :=
  let dp := d / 86400 in
  let tm := d - dp * 86400 in
  match format with
  | JsonDayMonthYear => put_day dp ++ lit "/" ++ put_month dp ++ lit "/" ++ put_year dp
  | YearMonthDay => put_day dp ++ lit " " ++ put_month dp ++ lit " " ++ put_year dp
  | YearMonthDayTime => put_day dp ++ lit " " ++ put_month dp ++ lit " " ++ put_year dp ++ lit " - " ++ put_time tm
  | DayMonth => put_day dp ++ lit " " ++ put_month dp
  | Month => put_month dp
  | Year => put_year dp
  | Day => put_day dp
  | Time => put_time tm
  | Value => to_string d
  end.

(** [time_to_float_seconds] *)
Definition time_to_float_seconds (pt : Z) : f32 := #(Z.quot pt 1000000) /. #1000.

(** ** Theorems *)

(** What is documented of the library: a time that it prints it reads. *)
Hypothesis parse_format : forall t, date_parse (lit "%FT%TZ") (date_format (lit "%FT%TZ") t) = Some (t * 1000).

(** A date that is written is read back. *)
Theorem iso_8601_roundtrip t : datetime_from_iso_8601 (datetime_to_iso_8601 t) = Ok t.
Proof. unfold datetime_from_iso_8601, sys_time_from_iso_8601, datetime_to_iso_8601. rewrite parse_format. cbn. by rewrite Z.quot_mul. Qed.

(** Text that neither format reads throws, any other is a time. *)
Theorem iso_8601_errors s :
  datetime_from_iso_8601 s = Err (Throw ios_failure) /\ date_parse (lit "%FT%TZ") s = None /\ date_parse (lit "%FT%T%Ez") s = None \/
  exists t, datetime_from_iso_8601 s = Ok t.
Proof.
  unfold datetime_from_iso_8601, sys_time_from_iso_8601. destruct (date_parse (lit "%FT%TZ") s) as [t|]; [right; by eexists|].
  destruct (date_parse (lit "%FT%T%Ez") s) as [t|]; [right; by eexists|]. by left.
Qed.

(** A time with a fraction of a second before 1970 is read as the second after
    it, where [datetime_now] gives the second before it. *)
Theorem iso_8601_before_epoch s ms : date_parse (lit "%FT%TZ") s = Some ms -> ms < 0 -> ms mod 1000 <> 0 ->
  datetime_from_iso_8601 s = Ok (datetime_now (ms * 1000000) + 1).
Proof.
  intros E Hneg Hmod. unfold datetime_from_iso_8601, sys_time_from_iso_8601, datetime_now. rewrite E. cbn [mbind result_bind]. f_equal.
  change 1000000000 with (1000 * 1000000). rewrite Z.div_mul_cancel_r by lia. rewrite <- (Z.opp_involutive ms) at 1.
  rewrite Z.quot_opp_l, Z.quot_div_nonneg by lia. rewrite Z.div_opp_l_nz by lia. lia.
Qed.

(** The time of day that is printed is inside the day, also before 1970. *)
Theorem datetime_time_of_day d : exists tm, datetime_to_string d Time = put_time tm /\ 0 <= tm < 86400 /\ tm = d mod 86400.
Proof. eexists. split; [reflexivity|]. rewrite (Z.mod_eq d 86400) by lia. pose proof (Z.mod_pos_bound d 86400). rewrite (Z.mod_eq d 86400) in * by lia. lia. Qed.
End Dates.
