(* ===== verification/Geometry.v ===== *)
(** * Indexing a mesh

    src/geometry/vertex_spacial_sort.cpp and src/geometry/indexer.cpp: a list
    of vertices sorted by their distance from a plane, and the index buffer
    that shares equal vertices. The vectors of GLM are parameters: the types
    of positions, texture coordinates and normals, the distance from the plane
    ([glm::dot] with [m_rootPlane]) and the tests
    [glm::all(glm::epsilonEqual(...))]. [std::sort] is any function with the
    library's contract; sorting elements that [operator<] does not order, and
    searching a vector that is not partitioned, are undefined behaviour. *)

From S2P Require Import Prelude Float32.
From Stdlib Require Import Sorted.

Record SortedVertex : Type := mkSV { sv_index : nat; sv_distance : f32 }.

(** [SortedVertex::operator<] *)
Definition sv_ltb (a b : SortedVertex) : bool := SFltb (sv_distance a) (sv_distance b).

Definition not_nan (x : f32) : bool := match x with S754_nan => false | _ => true end.

(** [operator<] orders the elements strictly and weakly: none is NaN, or none is
    less than another. *)
Definition sortable (l : list SortedVertex) : bool :=
  forallb (fun v => not_nan (sv_distance v)) l || forallb (fun a => forallb (fun b => negb (sv_ltb a b)) l) l.

(** What [std::sort] promises of elements it may be called with: a permutation in
    which no element is less than an earlier one. *)
Class StdSort (sort : list SortedVertex -> list SortedVertex) : Prop := {
  sort_perm l : sortable l = true -> sort l ≡ₚ l;
  sort_sorted l : sortable l = true -> StronglySorted (fun a b => sv_ltb b a = false) (sort l)
}.

(** The elements that satisfy [p] come first. *)
Fixpoint partitioned {A} (p : A -> bool) (l : list A) : bool :=
  match l with [] => true | x :: l => if p x then partitioned p l else forallb (fun y => negb (p y)) l end.

(** The first position whose element satisfies [p], or the length. *)
Fixpoint first_pos {A} (p : A -> bool) (l : list A) : nat :=
  match l with [] => 0 | x :: l => if p x then 0 else S (first_pos p l) end%nat.

Section indexer.
Context {V U N : Type} (distance : V -> f32).
Context (eqV : V -> V -> bool) (eqU : U -> U -> bool) (eqN : N -> N -> bool).
Context (sort : list SortedVertex -> list SortedVertex).

(** [VertexSpacialSort::VertexSpacialSort] *)
Definition VertexSpacialSort_make (vertices : list V) : result stop (list SortedVertex) :=
  let m_sortedVertices := imap (fun index v => mkSV index (distance v)) vertices in
  if sortable m_sortedVertices then Ok (sort m_sortedVertices) else Err UB.

(** [std::equal_range]: the range between the first element not less than [d] and
    the first greater than it; the vector has to be partitioned by both tests. *)
Definition equal_range (m_sortedVertices : list SortedVertex) (d : f32) : result stop (nat * nat) :=
  if partitioned (fun s => SFltb (sv_distance s) d) m_sortedVertices &&
     partitioned (fun s => negb (SFltb d (sv_distance s))) m_sortedVertices
  then Ok (first_pos (fun s => negb (SFltb (sv_distance s) d)) m_sortedVertices,
           first_pos (fun s => SFltb d (sv_distance s)) m_sortedVertices)
  else Err UB.

(** [VertexSpacialSort::Find]: the range, unless an end of it is the end of
    the vector. *)
Definition Find (m_sortedVertices : list SortedVertex) (position : V) : result stop (option (list SortedVertex)) :=
  ret ← equal_range m_sortedVertices (distance position);
  let '(first, second) := ret in
  if negb (first =? length m_sortedVertices)%nat && negb (second =? length m_sortedVertices)%nat
  then Ok (Some (take (second - first) (drop first m_sortedVertices)))
  else Ok None.

(** The input of [geometry_index], and what it appends to. *)
Record mesh : Type := mkMesh { vertices : list V; uvs : list U; normals : list N }.

(** Whether vertices [i] and [j] are equal within epsilon; the tests are made
    one after the other. *)
Definition same_vertex (input : mesh) (i j : nat) : result stop bool :=
  v ← of_option UB (vertices input !! i); v' ← of_option UB (vertices input !! j);
  if eqV v v' then
    n ← of_option UB (normals input !! i); n' ← of_option UB (normals input !! j);
    if eqN n n' then
      u ← of_option UB (uvs input !! i); u' ← of_option UB (uvs input !! j); Ok (eqU u u')
    else Ok false
  else Ok false.

(** The loop over the range: the vertices of it that have no index yet and
    equal vertex [i] get its index. *)
Fixpoint share_range (input : mesh) (i : nat) (idx : Z) (range : list SortedVertex) (indices : list Z) :
  result stop (list Z) :=
  match range with
  | [] => Ok indices
  | sv :: range =>
      x ← of_option UB (indices !! sv_index sv);
      if x =? -1 then
        same ← same_vertex input i (sv_index sv);
        share_range input i idx range (if same : bool then <[sv_index sv := idx]> indices else indices)
      else share_range input i idx range indices
  end.

(** The loop over the input, [todo] being the indices still to come. *)
Fixpoint index_loop (input : mesh) (sorter : list SortedVertex) (todo : list nat)
  (indices out_indices : list Z) (out : mesh) : result stop (list Z * mesh) :=
  match todo with
  | [] => Ok (out_indices, out)
  | i :: todo =>
      x ← of_option UB (indices !! i);
      if x =? -1 then
        v ← of_option UB (vertices input !! i);
        u ← of_option UB (uvs input !! i);
        n ← of_option UB (normals input !! i);
        let out := mkMesh (vertices out ++ [v]) (uvs out ++ [u]) (normals out ++ [n]) in
        let idx := i32 (u32 (Z.of_nat (length (vertices out)) - 1)) in
        let indices := <[i := idx]> indices in
        let out_indices := out_indices ++ [u32 idx] in
        searchResult ← Find sorter v;
        indices ← (match searchResult with
                   | None => Ok indices
                   | Some range => share_range input i idx range indices
                   end);
        index_loop input sorter todo indices out_indices out
      else index_loop input sorter todo indices (out_indices ++ [u32 x]) out
  end.

Definition geometry_index (input : mesh) (out_indices : list Z) (out : mesh) : result stop (list Z * mesh) :=
  sorter ← VertexSpacialSort_make (vertices input);
  let n := length (vertices input) in
  index_loop input sorter (seq 0 n) (replicate n (-1)) out_indices out.
End indexer.

Section correct.
Context {V U N : Type} (distance : V -> f32).
Context (eqV : V -> V -> bool) (eqU : U -> U -> bool) (eqN : N -> N -> bool).
Context (sort : list SortedVertex -> list SortedVertex) `{!StdSort sort}.

(** An input whose three arrays have [n] elements. *)
Definition mesh_ok (input : @mesh V U N) (n : nat) : Prop :=
  length (vertices input) = n /\ length (uvs input) = n /\ length (normals input) = n.

(** The tests say that two inputs agree in position, normal and texture
    coordinate. *)
Definition same_at {A} (eq : A -> A -> bool) (l : list A) (i j : nat) : Prop :=
  exists a b, l !! i = Some a /\ l !! j = Some b /\ eq a b = true.

Definition agree (input : @mesh V U N) (i j : nat) : Prop :=
  same_at eqV (vertices input) i j /\ same_at eqN (normals input) i j /\ same_at eqU (uvs input) i j.

(** Two inputs at the same distance from the plane, and an input than which none
    is farther. *)
Definition level (input : @mesh V U N) (i j : nat) : Prop :=
  same_at (fun v w => negb (SFltb (distance v) (distance w)) && negb (SFltb (distance w) (distance v))) (vertices input) i j.

Definition farthest (input : @mesh V U N) (i : nat) : Prop :=
  forall j v w, vertices input !! i = Some v -> vertices input !! j = Some w -> SFltb (distance v) (distance w) = false.

Lemma same_vertex_spec input n i j : mesh_ok input n -> (i < n)%nat -> (j < n)%nat ->
  exists b, same_vertex eqV eqU eqN input i j = Ok b /\ (b = true <-> agree input i j).
Proof.
  intros (Hv & Hu & Hn) Hi Hj. unfold same_vertex, agree, same_at.
  destruct (lookup_lt_is_Some_2 (vertices input) i ltac:(lia)) as [v ->].
  destruct (lookup_lt_is_Some_2 (vertices input) j ltac:(lia)) as [v' ->].
  destruct (lookup_lt_is_Some_2 (normals input) i ltac:(lia)) as [m ->].
  destruct (lookup_lt_is_Some_2 (normals input) j ltac:(lia)) as [m' ->].
  destruct (lookup_lt_is_Some_2 (uvs input) i ltac:(lia)) as [u ->].
  destruct (lookup_lt_is_Some_2 (uvs input) j ltac:(lia)) as [u' ->]. cbn.
  destruct (eqV v v') eqn:E1; [destruct (eqN m m') eqn:E2; [destruct (eqU u u') eqn:E3|]|]; cbn; eexists; (split; [done|]);
    (split; [done || (intros _; split_and!; do 2 eexists; by split_and!)|]); intros (A & B & C); try done; destruct A as (? & ? & ? & ? & ?), B as (? & ? & ? & ? & ?), C as (? & ? & ? & ? & ?); congruence.
Qed.

(** What the inner loop does: only inputs without an index that agree with input
    [i] get [idx], and those of the range do. *)
Definition shared input (i : nat) (idx : Z) (indices indices' : list Z) : Prop :=
  forall k, indices' !! k = indices !! k \/
    indices !! k = Some (-1) /\ indices' !! k = Some idx /\ agree input i k.

Lemma share_range_spec input n i idx range : forall indices,
  mesh_ok input n -> (i < n)%nat -> length indices = n -> idx <> -1 ->
  Forall (fun sv => (sv_index sv < n)%nat) range ->
  exists indices', share_range eqV eqU eqN input i idx range indices = Ok indices' /\
    length indices' = n /\ shared input i idx indices indices' /\
    forall sv, sv ∈ range -> agree input i (sv_index sv) -> indices' !! sv_index sv <> Some (-1).
Proof.
  induction range as [|sv range IH]; intros indices Hm Hi Hl Hx Hr; cbn.
  { exists indices. split_and!; [done..|intros k; by left|]. intros sv Hsv. by apply elem_of_nil in Hsv. }
  apply Forall_cons in Hr as [Hsv Hr].
  destruct (lookup_lt_is_Some_2 indices (sv_index sv) ltac:(lia)) as [x Ex]. rewrite Ex. cbn.
  destruct (same_vertex_spec input n i (sv_index sv) Hm Hi Hsv) as (b & Eb & Hb).
  assert (forall indices', shared input i idx indices indices' -> x <> -1 -> indices' !! sv_index sv <> Some (-1)) as Hold.
  { intros indices' Hs Hne. destruct (Hs (sv_index sv)) as [E|(E & _)]; rewrite Ex in E; congruence. }
  destruct (Z.eqb_spec x (-1)) as [->|Hne].
  2:{ destruct (IH indices) as (indices' & E & Hl' & Hs & Hall); [done..|]. exists indices'. split_and!; [done..|].
      intros sv' [->|Hin]%elem_of_cons Ha; [by apply Hold|by apply Hall]. }
  rewrite Eb. cbn. destruct b.
  2:{ destruct (IH indices) as (indices' & E & Hl' & Hs & Hall); [done..|]. exists indices'. split_and!; [done..|].
      intros sv' [->|Hin]%elem_of_cons Ha; [by apply Hb in Ha|by apply Hall]. }
  destruct (IH (<[sv_index sv := idx]> indices)) as (indices' & E & Hl' & Hs & Hall); [done..|by rewrite length_insert|done|done|].
  assert (indices' !! sv_index sv = Some idx) as Hnow.
  { destruct (Hs (sv_index sv)) as [->|(H1 & _)]; [apply list_lookup_insert_eq; lia|]. rewrite list_lookup_insert_eq in H1 by lia. congruence. }
  exists indices'. split_and!; [done..| |].
  - intros k. destruct (decide (k = sv_index sv)) as [->|Hne]; [right; split_and!; [done|done|by apply Hb]|].
    destruct (Hs k) as [->|(H1 & H2 & H3)]; rewrite list_lookup_insert_ne in * by done; [by left|right; done].
  - intros sv' [->|Hin]%elem_of_cons Ha; [congruence|by apply Hall].
Qed.

(** ** Searching *)

(** Compare floats that are numbers. *)
Lemma flt_key (a b : f32) : not_nan a = true -> not_nan b = true -> SFltb a b = true <-> lex_lt (sf_key a) (sf_key b).
Proof. intros Ha Hb. apply (sf_tests_key a b); intros ->; done. Qed.

Lemma flt_le_trans (a b c : f32) : not_nan a = true -> not_nan b = true -> not_nan c = true ->
  SFltb b a = false -> SFltb c a = true -> SFltb c b = true.
Proof.
  intros Ha Hb Hc H1 H2. apply flt_key; [done..|]. apply flt_key in H2; [|done..]. apply not_true_iff_false in H1. rewrite flt_key in H1 by done.
  unfold lex_lt in *. lia.
Qed.

Lemma flt_lt_le (a b c : f32) : not_nan a = true -> not_nan b = true -> not_nan c = true ->
  SFltb a b = false -> SFltb a c = true -> SFltb b c = true.
Proof.
  intros Ha Hb Hc H1 H2. apply flt_key; [done..|]. apply flt_key in H2; [|done..]. apply not_true_iff_false in H1. rewrite flt_key in H1 by done.
  unfold lex_lt in *. lia.
Qed.

Lemma partitioned_mono {A} (R : A -> A -> Prop) (p : A -> bool) l : StronglySorted R l ->
  (forall x y, x ∈ l -> y ∈ l -> R x y -> p y = true -> p x = true) -> partitioned p l = true.
Proof.
  induction 1 as [|x l Hs IH Hx]; intros Hp; [done|]. cbn. destruct (p x) eqn:E; [apply IH; set_solver|].
  apply forallb_forall. intros y Hy%list_elem_of_In. rewrite Forall_forall in Hx. destruct (p y) eqn:Ey; [|done].
  rewrite (Hp x y) in E; [done|set_solver|set_solver|by apply Hx|done].
Qed.

Lemma first_pos_le {A} (p : A -> bool) l : (first_pos p l <= length l)%nat.
Proof. induction l as [|x l IH]; cbn; [lia|]. destruct (p x); lia. Qed.

Lemma first_pos_before {A} (p : A -> bool) l q x : l !! q = Some x -> p x = true -> (first_pos p l <= q)%nat.
Proof.
  revert q. induction l as [|y l IH]; intros q; [done|]. cbn. destruct (p y) eqn:E; [lia|]. destruct q as [|q]; cbn.
  - intros [= ->]. congruence.
  - intros E' Hp. specialize (IH q E' Hp). lia.
Qed.

Lemma first_pos_at {A} (p : A -> bool) l : (first_pos p l < length l)%nat -> exists x, l !! first_pos p l = Some x /\ p x = true.
Proof. induction l as [|y l IH]; cbn; [lia|]. destruct (p y) eqn:E; [by exists y|]. intros H. apply IH. lia. Qed.

Lemma StronglySorted_lookup {A} (R : A -> A -> Prop) l i j x y : StronglySorted R l -> (i < j)%nat -> l !! i = Some x -> l !! j = Some y -> R x y.
Proof.
  intros H. revert i j. induction H as [|z l Hs IH Hz]; intros i j Hij; [done|]. destruct j as [|j]; [lia|]. destruct i as [|i]; cbn.
  - intros [= ->] Ey. rewrite Forall_forall in Hz. apply Hz. by eapply list_elem_of_lookup_2.
  - intros Ex Ey. by apply (IH i j); [lia|..].
Qed.

(** The vector that is searched: the inputs with their distances, in order. *)
Record sorter_ok (input : @mesh V U N) (sorter : list SortedVertex) : Prop := {
  so_sorted : StronglySorted (fun a b => sv_ltb b a = false) sorter;
  so_elem sv : sv ∈ sorter <-> exists v, vertices input !! sv_index sv = Some v /\ sv_distance sv = distance v;
  so_number i v : vertices input !! i = Some v -> not_nan (distance v) = true }.

Lemma sorter_not_nan input sorter sv : sorter_ok input sorter -> sv ∈ sorter -> not_nan (sv_distance sv) = true.
Proof. intros [_ H2 H3] (v & Ev & ->)%H2. by eapply H3. Qed.

Lemma VertexSpacialSort_make_ok input : Forall (fun v => not_nan (distance v) = true) (vertices input) ->
  exists sorter, VertexSpacialSort_make distance sort (vertices input) = Ok sorter /\ sorter_ok input sorter.
Proof.
  intros Hn. unfold VertexSpacialSort_make. set (l := imap _ _).
  assert (forall sv, sv ∈ l <-> exists v, vertices input !! sv_index sv = Some v /\ sv_distance sv = distance v) as Hl.
  { intros sv. split.
    - intros (i & v & -> & Ev)%elem_of_lookup_imap. by exists v.
    - intros (v & Ev & Ed). apply elem_of_lookup_imap. exists (sv_index sv), v. split; [|done]. rewrite <- Ed. by destruct sv. }
  assert (forall i v, vertices input !! i = Some v -> not_nan (distance v) = true) as Hnum by (intros i v Ev; by eapply (Forall_lookup_1 _ _ _ _ Hn)).
  assert (sortable l = true) as Hs.
  { apply orb_true_iff. left. apply forallb_forall. intros sv (v & Ev & ->)%list_elem_of_In%Hl. by eapply Hnum. }
  rewrite Hs. eexists. split; [done|]. split; [by apply sort_sorted| |done]. intros sv. rewrite (sort_perm l Hs). apply Hl.
Qed.

(** The inputs at the distance of an input are found, unless it is the farthest. *)
Lemma Find_spec input sorter i v : sorter_ok input sorter -> vertices input !! i = Some v ->
  exists r, Find distance sorter v = Ok r /\
    match r with
    | None => farthest input i
    | Some range => range ⊆ sorter /\ forall sv, sv ∈ sorter -> level input i (sv_index sv) -> sv ∈ range
    end.
Proof.
  intros Hso Ev. pose proof Hso as [Hs Hel Hnum]. pose proof (Hnum _ _ Ev) as Hd. set (d := distance v) in *.
  assert (forall sv, sv ∈ sorter -> not_nan (sv_distance sv) = true) as Hnn by (intros; by eapply sorter_not_nan).
  unfold Find, equal_range. fold d.
  rewrite (partitioned_mono _ (fun s => SFltb (sv_distance s) d) _ Hs).
  2:{ intros x y Hx Hy Hxy Hyd. apply (flt_lt_le (sv_distance y)); auto. }
  rewrite (partitioned_mono _ (fun s => negb (SFltb d (sv_distance s))) _ Hs).
  2:{ intros x y Hx Hy Hxy Hyd. apply negb_true_iff, not_true_iff_false. intros H. apply negb_true_iff in Hyd.
      rewrite (flt_le_trans (sv_distance x) (sv_distance y) d) in Hyd; [done|auto..]. }
  cbn [andb mbind result_bind]. set (a := first_pos _ sorter). set (b := first_pos (fun s => SFltb d _) sorter).
  assert (mkSV i d ∈ sorter) as Hself by (apply Hel; by exists v).
  assert (a <> length sorter) as Ha.
  { apply list_elem_of_lookup in Hself as [q Eq]. pose proof (lookup_lt_Some _ _ _ Eq).
    assert (a <= q)%nat by (eapply first_pos_before; [exact Eq|]; cbn; apply negb_true_iff, not_true_iff_false; rewrite flt_key by done; apply lex_lt_irrefl). lia. }
  rewrite (proj2 (Nat.eqb_neq _ _) Ha). cbn [negb andb]. destruct (Nat.eqb_spec b (length sorter)) as [Eb|Hb]; cbn [negb]; eexists; (split; [reflexivity|]).
  - intros j v' w Ev' Ew. rewrite Ev in Ev'. injection Ev' as <-. destruct (SFltb (distance v) (distance w)) eqn:E; [|done].
    assert (mkSV j (distance w) ∈ sorter) as (q & Eq)%list_elem_of_lookup by (apply Hel; by exists w).
    pose proof (first_pos_before (fun s => SFltb d (sv_distance s)) sorter q _ Eq E). apply lookup_lt_Some in Eq. fold b in H. lia.
  - split; [intros sv Hsv; eapply subseteq_drop, subseteq_take; exact Hsv|]. intros sv Hsv (v' & w & Ev' & Ew & Hdd).
    rewrite Ev in Ev'. injection Ev' as <-. apply andb_true_iff in Hdd as [H1%negb_true_iff H2%negb_true_iff].
    pose proof Hsv as (w' & Ew' & Edw)%Hel. rewrite Ew in Ew'. injection Ew' as <-. rewrite <- Edw in H1, H2. fold d in H1, H2.
    pose proof (Hnn _ Hsv). apply list_elem_of_lookup in Hsv as [q Eq].
    assert (a <= q)%nat by (eapply first_pos_before; [exact Eq|]; cbn; by rewrite H2).
    assert (q < b)%nat.
    { destruct (decide (q < b)%nat) as [|Hge]; [done|]. exfalso. pose proof (first_pos_le (fun s => SFltb d (sv_distance s)) sorter) as Hle. fold b in Hle.
      destruct (first_pos_at (fun s => SFltb d (sv_distance s)) sorter) as (z & Ez & Hz); [fold b; lia|]. fold b in Ez.
      assert (z ∈ sorter) as Hz' by (by eapply list_elem_of_lookup_2).
      destruct (decide (q = b)) as [->|]; [rewrite Eq in Ez; injection Ez as ->; congruence|].
      pose proof (StronglySorted_lookup _ _ b q z sv Hs ltac:(lia) Ez Eq) as Hzs. cbn in Hzs. unfold sv_ltb in Hzs.
      rewrite (flt_le_trans (sv_distance z) (sv_distance sv) d) in H1; [done|auto..]. }
    apply elem_of_take. exists (q - a)%nat. split; [|lia]. rewrite lookup_drop. by replace (a + (q - a))%nat with q by lia.
Qed.
(** The vertices of [out'] are those of [out] and then the picked ones. *)
Definition picks {A} (input : list A) (picked : list nat) (l : list A) : Prop := Forall2 (fun p a => input !! p = Some a) picked l.

Definition extends (input out out' : @mesh V U N) (picked : list nat) : Prop :=
  exists vs us ns, out' = mkMesh (vertices out ++ vs) (uvs out ++ us) (normals out ++ ns) /\
    picks (vertices input) picked vs /\ picks (uvs input) picked us /\ picks (normals input) picked ns.

(** Index [x] stands for input [k]: it is where a picked input [p], no later
    than [k], was put, and [p] is [k] or equals it. *)
Definition stands_for (input : @mesh V U N) (base : nat) (picked : list nat) (k : nat) (x : Z) : Prop :=
  exists j p, x = Z.of_nat (base + j) /\ picked !! j = Some p /\ (p <= k)%nat /\
    (p = k \/ agree input p k).

(** Appended inputs that agree at one distance are the farthest. *)
Definition unshared (input : @mesh V U N) (picked : list nat) : Prop :=
  forall p k, p ∈ picked -> k ∈ picked -> (p < k)%nat -> agree input p k -> level input p k -> farthest input p.

(** The state of the outer loop before input [i]. *)
Definition loop_inv (input : @mesh V U N) n base i indices picked : Prop :=
  length indices = n /\ Forall (fun p => (p < i)%nat) picked /\ StronglySorted lt picked /\
  (length picked <= i)%nat /\
  (forall k x, indices !! k = Some x -> (x = -1 /\ (i <= k)%nat) \/ stands_for input base picked k x) /\
  (forall p k, p ∈ picked -> agree input p k -> level input p k -> farthest input p \/ indices !! k <> Some (-1)) /\
  unshared input picked.

Lemma stands_for_grow input base picked k x p :
  stands_for input base picked k x -> stands_for input base (picked ++ [p]) k x.
Proof.
  intros (j & q & -> & Hq & Hle & Hs). exists j, q. split_and!; [done| |done..].
  apply lookup_app_l_Some. done.
Qed.

Lemma index_cast z : 0 <= z < 2 ^ 31 -> i32 (u32 z) = z /\ u32 z = z.
Proof.
  intros H. unfold swrap, wrap. rewrite (Z.mod_small z) by lia. change (32 - 1) with 31.
  rewrite Z.mod_small by lia. lia.
Qed.

Lemma shared_inv input n base i idx indices indices' picked :
  idx <> -1 -> idx = Z.of_nat (base + length picked) ->
  loop_inv input n base i indices picked -> (i < n)%nat -> indices !! i = Some (-1) ->
  shared input i idx (<[i := idx]> indices) indices' -> length indices' = n ->
  (forall k, agree input i k -> level input i k -> farthest input i \/ indices' !! k <> Some (-1)) ->
  loop_inv input n base (S i) indices' (picked ++ [i]).
Proof.
  intros Hx Hidx (Hl & Hp & Hso & Hlen & Hinv & Hfull & Hun) Hi Hii Hs Hl' Hnewi. split_and!; [done| | | | | |].
  - apply Forall_app. split; [eapply Forall_impl; [exact Hp|]; cbn; lia|]. repeat constructor.
  - clear -Hp Hso. induction Hso as [|p picked Hso IH Hlt]; cbn; [repeat constructor|].
    apply Forall_cons in Hp as [Hp1 Hp]. constructor; [by apply IH|]. apply Forall_app. split; [done|]. by constructor.
  - rewrite length_app. cbn. lia.
  - assert (forall k, (k = i \/ agree input i k) -> (i <= k)%nat ->
      stands_for input base (picked ++ [i]) k idx) as Hnew.
    { intros k Hk Hle. exists (length picked), i. split_and!; [done| |done|].
      - by rewrite lookup_app_r, Nat.sub_diag by lia.
      - destruct Hk; [left; done|right; done]. }
    intros k x Ek. destruct (decide (k = i)) as [->|Hne].
    + right. assert (x = idx) as ->; [|by apply Hnew; [left|]].
      destruct (Hs i) as [E|(E & _)]; rewrite list_lookup_insert_eq in E by lia; congruence.
    + destruct (Hs k) as [E|(E & E' & Hsame)]; rewrite list_lookup_insert_ne in E by done.
      * rewrite Ek in E. symmetry in E. destruct (Hinv k x E) as [[-> Hle]|Hst]; [left; split; [done|lia]|right].
        by apply stands_for_grow.
      * right. rewrite Ek in E'. injection E' as ->. destruct (Hinv k (-1) E) as [[_ Hle]|(j & p & Hbad & _)]; [|lia].
        apply Hnew; [by right|done].
  - intros p k [Hpp|[-> |[]%elem_of_nil]%elem_of_cons]%elem_of_app Ha Hlv; [|by apply Hnewi].
    destruct (Hfull p k Hpp Ha Hlv) as [|Hne]; [by left|right]. destruct (Hs k) as [->|(_ & -> & _)]; [|congruence].
    destruct (decide (k = i)) as [-> |]; [done|by rewrite list_lookup_insert_ne].
  - intros p k [Hpp|[-> |[]%elem_of_nil]%elem_of_cons]%elem_of_app [Hkk|[-> |[]%elem_of_nil]%elem_of_cons]%elem_of_app Hlt Ha Hlv.
    + by apply (Hun p k).
    + by destruct (Hfull p i Hpp Ha Hlv).
    + rewrite Forall_forall in Hp. specialize (Hp k Hkk). cbn in Hp. lia.
    + lia.
Qed.

Lemma index_loop_spec input n sorter base (out0 : mesh) oi0 :
  mesh_ok input n -> length (vertices out0) = base -> Z.of_nat (base + n) < 2 ^ 31 ->
  sorter_ok input sorter ->
  forall m i indices picked oi out,
  (i + m = n)%nat -> loop_inv input n base i indices picked -> extends input out0 out picked ->
  length oi = i -> (forall k x, oi !! k = Some x -> stands_for input base picked k x) ->
  exists picked' oi' out', index_loop distance eqV eqU eqN input sorter (seq i m) indices (oi0 ++ oi) out = Ok (oi0 ++ oi', out') /\
    length oi' = n /\ StronglySorted lt picked' /\ unshared input picked' /\ extends input out0 out' picked' /\
    forall k x, oi' !! k = Some x -> stands_for input base picked' k x.
Proof.
  intros Hm Hbase Hn Hsort. induction m as [|m IH]; intros i indices picked oi out Him Hinv Hext Hoi Hst.
  { exists picked, oi, out. cbn. split_and!; try done; [lia|apply Hinv..]. }
  cbn [seq index_loop]. pose proof Hinv as (Hl & _ & _ & Hlen & Hi & _).
  destruct (lookup_lt_is_Some_2 indices i ltac:(lia)) as [x Ex]. rewrite Ex. cbn [of_option mbind result_bind].
  destruct (Z.eqb_spec x (-1)) as [->|Hx].
  - destruct Hm as (Hv & Hu & Hno).
    destruct (lookup_lt_is_Some_2 (vertices input) i ltac:(lia)) as [v Ev].
    destruct (lookup_lt_is_Some_2 (uvs input) i ltac:(lia)) as [u Eu].
    destruct (lookup_lt_is_Some_2 (normals input) i ltac:(lia)) as [no En].
    rewrite Ev, Eu, En. cbn [of_option mbind result_bind].
    destruct Hext as (vs & us & ns & -> & Pv & Pu & Pn). cbn [vertices uvs normals].
    pose proof (Forall2_length _ _ _ Pv) as Lv.
    rewrite !length_app. cbn [length].
    replace (Z.of_nat (length (vertices out0) + length vs + 1) - 1) with (Z.of_nat (base + length picked)) by lia.
    destruct (index_cast (Z.of_nat (base + length picked)) ltac:(lia)) as [Ec Ec']. rewrite Ec, Ec'.
    set (idx := Z.of_nat (base + length picked)) in *.
    assert (extends input out0 (mkMesh ((vertices out0 ++ vs) ++ [v]) ((uvs out0 ++ us) ++ [u]) ((normals out0 ++ ns) ++ [no])) (picked ++ [i])) as Hext'.
    { exists (vs ++ [v]), (us ++ [u]), (ns ++ [no]). rewrite !app_assoc. split_and!; [done| | |];
        (apply Forall2_app; [done|by repeat constructor]). }
    destruct (Find_spec input sorter i v Hsort Ev) as (found & -> & Hfound). cbn [mbind result_bind].
    assert (exists indices', match found with
        | None => Ok (<[i := idx]> indices)
        | Some range => share_range eqV eqU eqN input i idx range (<[i := idx]> indices)
        end = Ok indices' /\ length indices' = n /\ shared input i idx (<[i := idx]> indices) indices' /\
      forall k, agree input i k -> level input i k -> farthest input i \/ indices' !! k <> Some (-1)) as (indices' & E & Hl' & Hs & Hfull).
    { destruct found as [range|].
      - destruct Hfound as [Hsub Hall]. destruct (share_range_spec input n i idx range (<[i := idx]> indices)) as (indices' & E & Hl' & Hs & Hin);
          [done|lia|by rewrite length_insert|lia| |].
        { apply Forall_forall. intros sv (w & Ew & _)%Hsub%(so_elem _ _ Hsort). apply lookup_lt_Some in Ew. lia. }
        exists indices'. split_and!; [done..|]. intros k Ha Hlv. right. destruct (Hlv) as (v' & w & _ & Ew & _).
        apply (Hin (mkSV k (distance w))); [|done]. apply Hall; [|done]. apply (so_elem _ _ Hsort). by exists w.
      - eexists. split_and!; [done|by rewrite length_insert|intros k; by left|by left]. }
    rewrite E. cbn [mbind result_bind].
    assert (loop_inv input n base (S i) indices' (picked ++ [i])) as Hinv'
      by (eapply (shared_inv _ _ _ _ idx); [lia|done|done|lia|done..]).
    destruct (IH (S i) indices' (picked ++ [i]) (oi ++ [idx])
      (mkMesh ((vertices out0 ++ vs) ++ [v]) ((uvs out0 ++ us) ++ [u]) ((normals out0 ++ ns) ++ [no])))
      as (p' & oi' & out' & E' & R); [lia|done|done|rewrite length_app; cbn; lia| |].
    { intros k y Ey. apply lookup_snoc_Some in Ey as [[Hk Ey]|[-> <-]]; [by apply stands_for_grow, Hst|].
      exists (length picked), i. split_and!; [done|by rewrite lookup_app_r, Nat.sub_diag by lia|lia|left; lia]. }
    exists p', oi', out'. split; [|done]. by rewrite <- E', app_assoc.
  - destruct (Hi i x Ex) as [[-> _]|Hsx]; [done|].
    destruct (IH (S i) indices picked (oi ++ [x]) out) as (p' & oi' & out' & E' & R);
      [lia| |done|rewrite length_app; cbn; lia| |].
    + destruct Hinv as (_ & Hp & Hso & _ & _ & Hfull & Hun). split_and!; [done| |done|lia| |done|done].
      * eapply Forall_impl; [exact Hp|]. cbn. lia.
      * intros k y Ey. destruct (Hi k y Ey) as [[-> Hle]|]; [|by right]. left. split; [done|].
        destruct (decide (k = i)) as [->|]; [congruence|lia].
    + intros k y Ey. apply lookup_snoc_Some in Ey as [[_ Ey]|[-> <-]]; [by apply Hst|]. by rewrite Hoi.
    + exists p', oi', out'. split; [|done]. rewrite <- E', app_assoc. destruct Hsx as (j & q & -> & Hq & _).
      assert (j < length picked)%nat by (by eapply lookup_lt_Some). by rewrite (proj2 (index_cast (Z.of_nat (base + j)) ltac:(lia))).
Qed.

(** C13. [geometry_index] builds a valid index buffer. For an input of three
    arrays of the same length (fewer than 2^31 vertices in all) none of whose
    distances from the plane is NaN, it reads and writes in bounds, sorts and
    searches within the contracts of the library, and returns; it appends some of
    the input vertices, in their order, and one index per input vertex; every
    index is that of an appended vertex, which is the input vertex itself or an
    earlier one that agrees with it in position, normal and texture coordinate.
    And it shares what it can: two appended vertices that agree, at the same
    distance from the plane, are those farthest from it. *)
Theorem geometry_index_correct (input out : @mesh V U N) oi n :
  mesh_ok input n -> Z.of_nat (length (vertices out) + n) < 2 ^ 31 ->
  Forall (fun v => not_nan (distance v) = true) (vertices input) ->
  exists picked oi' out',
    geometry_index distance eqV eqU eqN sort input oi out = Ok (oi ++ oi', out') /\
    StronglySorted lt picked /\ extends input out out' picked /\ length oi' = n /\
    (forall k x, oi' !! k = Some x -> stands_for input (length (vertices out)) picked k x) /\
    unshared input picked.
Proof.
  intros Hm Hn Hnum. unfold geometry_index. pose proof Hm as (Hv & _). rewrite Hv.
  destruct (VertexSpacialSort_make_ok input Hnum) as (sorter & -> & Hso). cbn [mbind result_bind].
  destruct (index_loop_spec input n sorter (length (vertices out)) out oi Hm eq_refl Hn Hso) with (m := n) (i := 0%nat)
    (indices := replicate n (-1)) (picked := @nil nat) (oi := @nil Z) (out := out) as (p & oi' & out' & E & ? & ? & ? & ? & ?); try done.
  - split_and!; [by rewrite length_replicate|done|constructor|done| | |].
    + intros k x Ek. left. apply lookup_replicate in Ek as [-> _]. split; [done|lia].
    + intros q k Hq. by apply elem_of_nil in Hq.
    + intros q k Hq. by apply elem_of_nil in Hq.
  - exists [], [], []. rewrite !app_nil_r. split; [by destruct out|]. repeat split; constructor.
  - rewrite app_nil_r in E. exists p, oi', out'. by split_and!.
Qed.

(** The vertices farthest from the plane are not found: [Find] gives up when
    the range ends at the end of the vector. *)
Theorem Find_misses_farthest (sorted : list SortedVertex) (position : V) r :
  Forall (fun sv => SFltb (distance position) (sv_distance sv) = false) sorted -> Find distance sorted position = Ok r -> r = None.
Proof.
  intros H. unfold Find, equal_range. destruct (_ && _); [|done]. cbn [mbind result_bind].
  assert (first_pos (fun s => SFltb (distance position) (sv_distance s)) sorted = length sorted) as ->.
  { induction H as [|sv sorted E _ IH]; [done|]. cbn. by rewrite E, IH. }
  rewrite Nat.eqb_refl, andb_false_r. congruence.
Qed.
End correct.

(** A sort: insertion by distance. *)
Fixpoint insert_sv (x : SortedVertex) (l : list SortedVertex) : list SortedVertex :=
  match l with [] => [x] | y :: l => if sv_ltb y x then y :: insert_sv x l else x :: y :: l end.
Definition sort_sv (l : list SortedVertex) : list SortedVertex := foldr insert_sv [] l.

Lemma insert_sv_perm x l : insert_sv x l ≡ₚ x :: l.
Proof.
  induction l as [|y l IH]; cbn; [done|]. destruct (sv_ltb y x); [|done]. rewrite IH. by rewrite Permutation_swap.
Qed.

Lemma insert_sv_sorted x l :
  sv_distance x <> S754_nan -> Forall (fun v => sv_distance v <> S754_nan) l ->
  StronglySorted (fun a b => sv_ltb b a = false) l -> StronglySorted (fun a b => sv_ltb b a = false) (insert_sv x l).
Proof.
  intros Hx Hl Hs. induction Hs as [|y l Hs IH Hy]; cbn; [repeat constructor|].
  apply Forall_cons in Hl as [Hny Hl]. destruct (sv_ltb y x) eqn:E.
  - constructor; [by apply IH|]. rewrite insert_sv_perm. constructor; [|done].
    unfold sv_ltb in *. revert E. pose proof (sc_lt_key (T := f32) (sv_distance y) (sv_distance x) Hny Hx) as H1.
    pose proof (sc_lt_key (T := f32) (sv_distance x) (sv_distance y) Hx Hny) as H2. cbn in H1, H2.
    intros E. apply not_true_iff_false. rewrite H2. rewrite H1 in E. intros H. by apply (lex_lt_irrefl _ (lex_lt_trans _ _ _ E H)).
  - constructor; [by constructor|]. constructor; [done|]. rewrite Forall_forall in *. intros z Hz.
    pose proof (Hl z Hz) as Hnz. specialize (Hy z Hz). unfold sv_ltb in *.
    pose proof (sc_lt_key (T := f32) (sv_distance z) (sv_distance x) Hnz Hx) as H1.
    pose proof (sc_lt_key (T := f32) (sv_distance z) (sv_distance y) Hnz Hny) as H2.
    pose proof (sc_lt_key (T := f32) (sv_distance y) (sv_distance x) Hny Hx) as H3. cbn in H1, H2, H3.
    apply not_true_iff_false. rewrite H1. rewrite <- not_true_iff_false, H2 in Hy. rewrite <- not_true_iff_false, H3 in E.
    unfold lex_lt in *. lia.
Qed.

Lemma sort_sv_perm l : sort_sv l ≡ₚ l.
Proof. induction l as [|x l IH]; [done|]. cbn. by rewrite insert_sv_perm, IH. Qed.

Lemma StronglySorted_all {A} (R : A -> A -> Prop) l : (forall x y, x ∈ l -> y ∈ l -> R x y) -> StronglySorted R l.
Proof.
  induction l as [|x l IH]; intros H; constructor; [apply IH; set_solver|]. apply Forall_forall. intros y Hy. apply H; set_solver.
Qed.

#[global] Instance sort_sv_sorts : StdSort sort_sv.
Proof.
  split; [intros l _; apply sort_sv_perm|]. intros l [Hl|Hl]%orb_true_iff.
  - assert (Forall (fun v => sv_distance v <> S754_nan) l) as Hn.
    { apply Forall_forall. intros v Hv%list_elem_of_In E. apply (proj1 (forallb_forall _ _) Hl) in Hv. by rewrite E in Hv. }
    clear Hl. induction Hn as [|x l Hx Hn IH]; [constructor|]. cbn. apply insert_sv_sorted; [done| |done]. by rewrite sort_sv_perm.
  - apply StronglySorted_all. intros x y. rewrite !sort_sv_perm. intros Hx%list_elem_of_In Hy%list_elem_of_In.
    pose proof (proj1 (forallb_forall _ _) (proj1 (forallb_forall _ _) Hl y Hy) x Hx) as H. by apply negb_true_iff in H.
Qed.

(** Positions on a line: the first and the third vertex share an index, the fifth
    has another normal, and the farthest ones are not shared. *)
Definition demo_mesh : @mesh Z Z Z := mkMesh [1; 5; 1; 5; 1] [0; 0; 0; 0; 0] [0; 0; 0; 0; 7].

Lemma geometry_index_correct_witness :
  exists picked oi' out',
    geometry_index f32_of_Z Z.eqb Z.eqb Z.eqb sort_sv demo_mesh [] (mkMesh [] [] []) = Ok (oi', out') /\
    length oi' = 5%nat /\ oi' = [0; 1; 0; 2; 3] /\ extends demo_mesh (mkMesh [] [] []) out' picked /\
    unshared f32_of_Z Z.eqb Z.eqb Z.eqb demo_mesh picked.
Proof.
  destruct (geometry_index_correct f32_of_Z Z.eqb Z.eqb Z.eqb sort_sv demo_mesh (mkMesh [] [] []) [] 5)
    as (picked & oi' & out' & E & Hs & He & Hl & Hst & Hun); [done|cbn; lia|by repeat constructor|].
  exists picked, oi', out'. split_and!; [done|done| |done|done].
  assert (geometry_index f32_of_Z Z.eqb Z.eqb Z.eqb sort_sv demo_mesh [] (mkMesh [] [] []) =
    Ok ([0; 1; 0; 2; 3], mkMesh [1; 5; 5; 1] [0; 0; 0; 0] [0; 0; 0; 7])) as E' by (vm_compute; reflexivity).
  rewrite E' in E. by injection E as <- _.
Defined.
