(* ===== verification/Compile.v ===== *)
(** * Compiler messages and meta tags

    src/compile/compile_messages.cpp and src/compile/meta_tags.cpp: the
    parsers of shader compiler output and of tags in comments, over the string
    utilities. A file path is the string it is made from. *)

From S2P Require Import Prelude StdString StringUtils StringTheory.

(** The default of [string_trim]: [" \t\n\r\f\v"]. *)
Definition blanks : str := [" "; "009"; "010"; "013"; "012"; "011"]%char.

(** ** Meta tags *)

Record TagValue : Type := mkTag { value : str; tag_line : Z }.
Definition MetaTags_t : Type := gmap str TagValue.

(** The tag of one line, if it has one. *)
Definition parse_tag_line (line : str) : result stop (option (str * str)) :=
  let pos := sfind line (lit "//") 0 in
  if pos =? npos then Ok None
  else
    rest ← substr line (pos + 2) npos;
    tokens ← string_split rest (lit " " ++ ["009"%char] ++ lit ",");
    (* [for (int tok = 0; tok < tokens.size(); tok++)] counts up to the size *)
    _ ← s_check 32 (Z.of_nat (length tokens));
    let tokens := string_tolower <$> tokens in
    Ok (match tokens with
        | ("#"%char :: t) :: more =>
            match more with
            | [] => Some ("#"%char :: t, [])
            | [v] => Some ("#"%char :: t, v)
            | _ => None
            end
        | _ => None
        end).

(** The loop, with [lineNumber++] on an [int32_t]; the handler of
    [std::exception] keeps the tags found so far. *)
Fixpoint parse_tag_lines (lines : list str) (lineNumber : Z) (tags : MetaTags_t) : result stop MetaTags_t :=
  match lines with
  | [] => Ok tags
  | line :: lines =>
      match parse_tag_line line with
      | Ok tag =>
          next ← s_check 32 (lineNumber + 1);
          parse_tag_lines lines next
            (match tag with Some (k, v) => <[k := mkTag v lineNumber]> tags | None => tags end)
      | Err (Throw _) => Ok tags
      | Err e => Err e
      end
  end.

Definition parse_meta_tags (text : str) : result stop MetaTags_t :=
  match string_split_lines text with
  | Ok lines => parse_tag_lines lines 0 ∅
  | Err (Throw _) => Ok ∅
  | Err e => Err e
  end.

(** ** Compiler messages *)

Inductive CompileMessageType : Type := MsgWarning | MsgError | MsgInfo.

Record CompileMessage : Type := mkMsg {
  rawText : str; text : str; filePath : str; msg_line : Z; fragmentIndex : Z; range : Z * Z; msgType : CompileMessageType
}.

Definition set_text t m := mkMsg (rawText m) t (filePath m) (msg_line m) (fragmentIndex m) (range m) (msgType m).
Definition set_raw t m := mkMsg t (text m) (filePath m) (msg_line m) (fragmentIndex m) (range m) (msgType m).
Definition set_path p m := mkMsg (rawText m) (text m) p (msg_line m) (fragmentIndex m) (range m) (msgType m).
Definition set_line l m := mkMsg (rawText m) (text m) (filePath m) l (fragmentIndex m) (range m) (msgType m).
Definition set_range r m := mkMsg (rawText m) (text m) (filePath m) (msg_line m) (fragmentIndex m) r (msgType m).
Definition set_type t m := mkMsg (rawText m) (text m) (filePath m) (msg_line m) (fragmentIndex m) (range m) t.

(** A message made by default, with the text of a constructor's message. *)
Definition default_msg : CompileMessage := mkMsg [] [] [] 0 0 (-1, -1) MsgError.
(** [CompileMessage(type, path)] and the longer constructors: the type is not
    stored. *)
Definition CompileMessage_path (type : CompileMessageType) (path : str) : CompileMessage :=
  set_text (lit "Unknown issue compiling: " ++ path) (set_path path default_msg).
Definition CompileMessage_text (type : CompileMessageType) (path message : str) : CompileMessage :=
  set_text message (set_path path default_msg).
Definition CompileMessage_line (type : CompileMessageType) (path message : str) (line : Z) : CompileMessage :=
  set_line line (CompileMessage_text type path message).

Inductive CompileState : Type := Invalid | ValidState.
Record CompileResult : Type := mkResult {
  fileSource : str; messages : list CompileMessage; res_state : CompileState; res_tags : MetaTags_t
}.
Definition push_message (m : CompileMessage) (r : CompileResult) : CompileResult :=
  mkResult (fileSource r) (messages r ++ [m]) (res_state r) (res_tags r).

Definition has (s pat : str) : bool := negb (sfind s pat 0 =? npos).

(** *** The body of the [try]

    Its state, the message and [strUnknown], is kept when it throws. *)
Definition TRY (A : Type) : Type := CompileMessage * str -> (CompileMessage * str) * result stop A.
#[global] Instance TRY_ret : MRet TRY := fun A a s => (s, Ok a).
#[global] Instance TRY_bind : MBind TRY :=
  fun A B f c s => match c s with (s, Ok a) => f a s | (s, Err e) => (s, Err e) end.
Definition try_lift {A} (r : result stop A) : TRY A := fun s => (s, r).
Definition try_msg (f : CompileMessage -> CompileMessage) : TRY unit := fun '(m, u) => ((f m, u), Ok tt).
Definition try_get : TRY (CompileMessage * str) := fun s => (s, Ok s).
Definition try_unknown (u : str) : TRY unit := fun '(m, _) => ((m, u), Ok tt).

(** [std::max(0, std::stoi(s) - 1)] *)
Definition zero_based (s : str) : result stop Z :=
  n ← stoi s; n ← (if - 2 ^ 31 <=? n - 1 then Ok (n - 1) else Err UB); Ok (Z.max 0 n).

(** [(3, 5 - 3)] *)
Definition parse_range (columns : str) : TRY unit :=
  columnVec ← try_lift (string_split columns (lit "-"));
  match columnVec with
  | [] => mret tt
  | c0 :: more =>
      a ← try_lift (zero_based c0);
      _ ← try_msg (fun m => set_range (a, (range m).2) m);
      match more with
      | c1 :: _ => b ← try_lift (stoi c1); try_msg (fun m => set_range ((range m).1, b) m)
      | [] => try_msg (fun m => set_range ((range m).1, (range m).1 + 1) m)
      end
  end.

(** The line before an error that has its place: text that came before it. *)
Definition add_unknown : TRY unit :=
  mu ← try_get;
  match mu.2 with
  | [] => mret tt
  | u =>
      _ ← try_msg (fun m => set_text (u ++ text m) m);
      mu ← try_get;
      let str := string_tolower (text mu.1) in
      _ ← (if has str (lit "info") || has str (lit "warning") then try_msg (set_type MsgWarning)
           else if has str (lit "error") then try_msg (set_type MsgError)
           else mret tt);
      try_unknown []
  end.

Definition parse_located (error : str) (bracketPos : Z) : TRY unit :=
  let lastBracket := sfind error (lit ")") bracketPos in
  if lastBracket =? 0 then mret tt
  else
    p ← try_lift (substr error 0 bracketPos ≫= (fun s => string_trim s blanks));
    _ ← try_msg (set_path p);
    t ← try_lift (substr error lastBracket (u64 (ssize error - lastBracket)) ≫=
                  (fun s => string_trim s (lit " " ++ ["009"%char] ++ lit "():" ++ ["013"; "010"; "012"; "011"]%char)));
    _ ← try_msg (set_text t);
    _ ← add_unknown;
    numbers ← try_lift (substr error bracketPos (u64 (lastBracket - bracketPos)) ≫= (fun s => string_trim s (lit "( )")));
    numVec ← try_lift (string_split numbers (lit ","));
    _ ← (match numVec with
         | n0 :: _ => l ← try_lift (zero_based n0); try_msg (set_line l)
         | [] => mret tt
         end);
    match numVec with
    | _ :: n1 :: _ => parse_range n1
    | _ => mret tt
    end.

(** One line of compiler output: the message to add, if any, and
    [strUnknown]. *)
Definition parse_error (fileSource error strUnknown : str) : result stop (option CompileMessage * str) :=
  let m := set_raw error (set_path fileSource default_msg) in
  let lower := string_tolower error in
  let m := set_type (if has lower (lit "warning") then MsgWarning else MsgError) m in
  let bracketPos := find_first_of error (lit "(") 0 in
  if bracketPos =? npos then Ok (None, strUnknown ++ rawText m ++ ["010"%char])
  else
    match parse_located error bracketPos (m, strUnknown) with
    | ((m, u), Ok _) => Ok (Some m, u)
    | ((m, u), Err (Throw _)) =>
        Ok (Some (set_type MsgError (set_line 0
          (set_text (lit "Failed to parse compiler error:" ++ ["010"%char] ++ error) m))), u)
    | (_, Err e) => Err e
    end.

Fixpoint parse_errors (errors : list str) (strUnknown : str) (r : CompileResult) : result stop (CompileResult * str) :=
  match errors with
  | [] => Ok (r, strUnknown)
  | error :: errors =>
      mu ← parse_error (fileSource r) error strUnknown;
      parse_errors errors mu.2 (match mu.1 with Some m => push_message m r | None => r end)
  end.

Definition compile_parse_shader_errors (r : CompileResult) (msgs : str) : result stop CompileResult :=
  errors ← string_split msgs ["010"%char];
  ru ← parse_errors errors [] r;
  let '(r, strUnknown) := ru in
  Ok (match messages r with
      | [] =>
          let m := set_type MsgError (set_raw msgs (set_path (fileSource r) default_msg)) in
          push_message (set_text (match strUnknown with [] => msgs | u => u end) m) r
      | _ => r
      end).
