(* ===== verification/CompileTheory.v ===== *)
(** * Theorems on the parsers of meta tags and compiler messages *)

From S2P Require Import Prelude StdString StringUtils StringTheory Compile.

(** ** Meta tags *)

(** What follows the first [//] of a line. *)
Fixpoint after_comment (s : str) : option str :=
  match s with
  | "/"%char :: ("/"%char :: r) => Some r
  | _ :: s => after_comment s
  | [] => None
  end.

(** The tag of a line: after [//], the words are [#name] or [#name value]. *)
Definition tag_of_line (line : str) : option (str * str) :=
  match after_comment line with
  | None => None
  | Some rest =>
      match string_tolower <$> words (delim (lit " " ++ ["009"%char] ++ lit ",")) [] rest with
      | [("#"%char :: t)] => Some ("#"%char :: t, [])
      | [("#"%char :: t); v] => Some ("#"%char :: t, v)
      | _ => None
      end
  end.

(** The tags of lines counted from [n], a later tag of the same name
    replacing an earlier one. *)
Fixpoint tags_of_lines (lines : list str) (n : Z) (tags : MetaTags_t) : MetaTags_t :=
  match lines with
  | [] => tags
  | line :: lines =>
      tags_of_lines lines (n + 1)
        (match tag_of_line line with Some (k, v) => <[k := mkTag v n]> tags | None => tags end)
  end.

Lemma after_comment_search s :
  after_comment s = (fun i => drop (i + 2) s) <$> search_idx (lit "//") s.
Proof.
  induction s as [|c s IH]; [done|]. cbn [search_idx prefixb String.list_ascii_of_string].
  destruct (Ascii.eqb_spec "/" c) as [<-|Hc].
  - destruct s as [|d s]; [done|]. destruct (Ascii.eqb_spec "/" d) as [<-|Hd]; [done|].
    cbn [andb]. change (after_comment ("/"%char :: d :: s)) with
      (match d with "/"%char => Some s | _ => after_comment (d :: s) end).
    transitivity (after_comment (d :: s)).
    + destruct d as [[] [] [] [] [] [] [] []]; try done.
    + rewrite IH. by destruct (search_idx _ (d :: s)).
  - cbn [andb]. transitivity (after_comment s); [by destruct c as [[] [] [] [] [] [] [] []]|].
    rewrite IH. by destruct (search_idx _ s).
Qed.

Lemma fits_le s t : fits t -> (length s <= length t)%nat -> fits s.
Proof. unfold fits, ssize. lia. Qed.

Lemma words_short d text w : w ∈ words d [] text -> (length w <= length text)%nat.
Proof.
  intros Hw. destruct (words_tokens d [] text ltac:(done)) as [_ E]. cbn in E.
  transitivity (length (concat (words d [] text))); [|rewrite E; apply length_filter].
  apply list_elem_of_split in Hw as (l1 & l2 & ->). rewrite concat_app. cbn. rewrite !length_app. lia.
Qed.

Lemma words_fit d text w : fits text -> w ∈ words d [] text -> fits w.
Proof. intros Hf Hw. eapply fits_le; [exact Hf|by eapply words_short]. Qed.

Lemma words_length d text : (length (words d [] text) <= length text)%nat.
Proof.
  destruct (words_tokens d [] text ltac:(done)) as [Hw E]. cbn in E.
  transitivity (length (concat (words d [] text))); [|rewrite E; apply length_filter].
  clear E. induction Hw as [|w l [Hne _] _ IH]; [done|]. cbn. rewrite length_app. destruct w; [done|]. cbn. lia.
Qed.

(** Short enough for an [int] to count its characters. *)
Definition int_sized (s : str) : Prop := ssize s < 2 ^ 31.

Lemma int_sized_fits s : int_sized s -> fits s.
Proof. unfold int_sized, fits, npos. lia. Qed.

Lemma parse_tag_line_spec line : int_sized line -> parse_tag_line line = Ok (tag_of_line line).
Proof.
  intros Hs. pose proof (int_sized_fits _ Hs) as Hf. unfold parse_tag_line, tag_of_line, sfind. pose proof (ssize_nonneg line).
  replace (0 <=? ssize line) with true by lia. rewrite suffix_0, after_comment_search.
  destruct (search_idx (lit "//") line) as [i|] eqn:E; [|done]. apply search_idx_bound in E.
  cbn [fmap option_fmap option_map to_pos].
  change (length (lit "//")) with 2%nat in E. unfold fits, ssize in *.
  replace (0 + Z.of_nat i =? npos) with false by (unfold npos in *; lia).
  unfold substr, ssize, suffix. replace (Z.of_nat (length line) <? 0 + Z.of_nat i + 2) with false by lia.
  rewrite Z.min_r by (unfold npos in *; lia). cbn [mbind result_bind].
  replace (Z.to_nat (0 + Z.of_nat i + 2)) with (i + 2)%nat by lia.
  rewrite take_ge by (rewrite length_drop; lia).
  rewrite string_split_words by (unfold fits, ssize; rewrite length_drop; lia). cbn [mbind result_bind].
  rewrite (s_check_ok 32); [done|]. pose proof (words_length (delim (lit " " ++ ["009"%char] ++ lit ",")) (drop (i + 2) line)) as Hw.
  rewrite length_drop in Hw. unfold int_sized, ssize in Hs. unfold in_s. lia.
Qed.

Lemma parse_tag_lines_spec lines : forall n tags,
  Forall int_sized lines -> 0 <= n -> n + Z.of_nat (length lines) < 2 ^ 31 ->
  parse_tag_lines lines n tags = Ok (tags_of_lines lines n tags).
Proof.
  induction lines as [|line lines IH]; intros n tags Hall Hn Hlen; [done|].
  apply Forall_cons in Hall as [Hl Hall]. cbn [length] in Hlen. cbn [parse_tag_lines tags_of_lines].
  rewrite parse_tag_line_spec by done. rewrite (s_check_ok 32) by (unfold in_s; lia). cbn. apply IH; [done|lia..].
Qed.

Lemma tags_of_lines_snoc lines line : forall n tags,
  tags_of_lines (lines ++ [line]) n tags =
  match tag_of_line line with
  | Some (k, v) => <[k := mkTag v (n + Z.of_nat (length lines))]> (tags_of_lines lines n tags)
  | None => tags_of_lines lines n tags
  end.
Proof.
  induction lines as [|x lines IH]; intros n tags; cbn [app tags_of_lines length]; [by rewrite Z.add_0_r|].
  rewrite IH. by replace (n + 1 + Z.of_nat (length lines)) with (n + Z.of_nat (S (length lines))) by lia.
Qed.

(** The [i]-th line has the tag, and no later line has one of its name. *)
Definition last_tag (lines : list str) (k v : str) (i : nat) : Prop :=
  (exists line, lines !! i = Some line /\ tag_of_line line = Some (k, v)) /\
  forall j line v', (i < j)%nat -> lines !! j = Some line -> tag_of_line line <> Some (k, v').

Lemma last_tag_snoc lines line k v i :
  last_tag (lines ++ [line]) k v i <->
  (i = length lines /\ tag_of_line line = Some (k, v)) \/
  (last_tag lines k v i /\ forall v', tag_of_line line <> Some (k, v')).
Proof.
  split.
  - intros [(x & Hx & Ht) Hlast]. apply lookup_snoc_Some in Hx as [[Hi Hx]|[-> <-]]; [|by left]. right. split; [split|].
    + by exists x.
    + intros j y v' Hj Hy. apply (Hlast j y v' Hj). by apply lookup_app_l_Some.
    + intros v'. apply (Hlast (length lines) line v' Hi). by apply list_lookup_middle.
  - intros [[-> Ht]|[[(x & Hx & Ht) Hlast] Hno]].
    + split; [exists line; split; [by apply list_lookup_middle|done]|].
      intros j y v' Hj Hy. apply lookup_lt_Some in Hy. rewrite length_app in Hy. cbn in Hy. lia.
    + split; [exists x; split; [by apply lookup_app_l_Some|done]|].
      intros j y v' Hj [[_ Hy]|[_ <-]]%lookup_snoc_Some; [by eapply Hlast|apply Hno].
Qed.

Lemma tags_of_lines_lookup lines k v n :
  tags_of_lines lines 0 ∅ !! k = Some (mkTag v n) <-> exists i, n = Z.of_nat i /\ last_tag lines k v i.
Proof.
  revert v n. induction lines as [|line lines IH] using rev_ind; intros v n.
  { cbn [tags_of_lines]. unfold MetaTags_t. rewrite lookup_empty. split; [done|]. by intros (i & _ & (x & Hx & _) & _). }
  rewrite tags_of_lines_snoc. setoid_rewrite last_tag_snoc.
  destruct (tag_of_line line) as [[k' v']|] eqn:E.
  - destruct (decide (k' = k)) as [->|Hk].
    + unfold MetaTags_t. rewrite lookup_insert_eq. split.
      * intros [= <- <-]. exists (length lines). split; [lia|by left].
      * intros (i & -> & [[-> [= <-]]|[_ Hno]]); [by rewrite Z.add_0_l|by destruct (Hno v')].
    + unfold MetaTags_t in *. rewrite lookup_insert_ne, IH by done. split.
      * intros (i & -> & Hi). exists i. split; [done|]. right. split; [done|]. by intros ? [=].
      * intros (i & -> & [[_ [=]]|[Hi _]]); [done|by exists i].
  - rewrite IH. split.
    + intros (i & -> & Hi). exists i. split; [done|]. by right.
    + intros (i & -> & [[_ [=]]|[Hi _]]). by exists i.
Qed.

(** C25. For a text of fewer than 2^31 characters [parse_meta_tags] does not
    throw, its line counter does not overflow, and it returns exactly the tags
    of the text: a name is bound to a value and a line number if and only if
    the line of that number, counted from 0 among the non-empty lines, has the
    tag and no later line has one of the same name. A line has a tag if the
    words after its first [//], in lower case, are [#name] or [#name value]. *)
Theorem parse_meta_tags_correct text :
  int_sized text ->
  exists tags, parse_meta_tags text = Ok tags /\
    forall k v n, tags !! k = Some (mkTag v n) <->
      exists i, n = Z.of_nat i /\ in_s 32 n /\ last_tag (words (delim crlf) [] text) k v i.
Proof.
  intros Hs. pose proof (int_sized_fits _ Hs) as Hf. pose proof (words_length (delim crlf) text) as Hlen.
  exists (tags_of_lines (words (delim crlf) [] text) 0 ∅). split.
  - unfold parse_meta_tags, string_split_lines. rewrite string_split_words by done.
    apply parse_tag_lines_spec; [|lia|unfold int_sized, ssize in Hs; lia].
    apply Forall_forall. intros w Hw. pose proof (words_short _ _ _ Hw). unfold int_sized, ssize in *. lia.
  - intros k v n. rewrite tags_of_lines_lookup. split; [intros (i & -> & Hi)|intros (i & -> & _ & Hi)].
    + exists i. split_and!; [done| |done]. destruct Hi as [(x & Hx%lookup_lt_Some & _) _].
      unfold int_sized, ssize in Hs. unfold in_s. lia.
    + by exists i.
Qed.

Definition demo_tags : str := lit "a // #Scale 2" ++ crlf ++ crlf ++ lit "b //#main".

Lemma parse_meta_tags_correct_witness :
  exists tags, parse_meta_tags demo_tags = Ok tags /\
    (forall k v n, tags !! k = Some (mkTag v n) <->
       exists i, n = Z.of_nat i /\ in_s 32 n /\ last_tag (words (delim crlf) [] demo_tags) k v i) /\
    tags = {[ lit "#scale" := mkTag (lit "2") 0; lit "#main" := mkTag [] 1 ]}.
Proof.
  destruct (parse_meta_tags_correct demo_tags) as (tags & E & Ht); [by vm_compute|].
  exists tags. split_and!; [done..|]. vm_compute in E. injection E as <-. reflexivity.
Defined.

(** ** Numbers *)

Lemma digit_spec z : 0 <= z < 10 -> isdigit (digit z) = true /\ uchar (digit z) - uchar "0" = z.
Proof.
  intros H. unfold digit. assert (in_u 8 (uchar "0" + z)) by (unfold in_u; change (uchar "0") with 48; lia).
  unfold isdigit, between. rewrite uchar_of_uchar by done. change (uchar "0") with 48. change (uchar "9") with 57. lia.
Qed.

Lemma take_digits_digits fuel : forall z acc,
  0 <= z < 10 ^ Z.of_nat fuel -> (0 < fuel)%nat -> take_digits (digits fuel z acc) None = take_digits acc (Some z).
Proof.
  induction fuel as [|fuel IH]; intros z acc Hz Hf; [lia|]. cbn [digits].
  pose proof (Z.mod_pos_bound z 10 ltac:(lia)). pose proof (Z.div_mod z 10 ltac:(lia)).
  destruct (digit_spec (z mod 10) ltac:(lia)) as [Hd Hv]. destruct (Z.ltb_spec z 10).
  - cbn [take_digits]. rewrite Hd. rewrite Hv, Z.mod_small by lia. cbn. done.
  - destruct fuel as [|fuel']; [cbn in Hz; lia|].
    rewrite IH; [|rewrite Nat2Z.inj_succ, Z.pow_succ_r in Hz by lia; split; [apply Z.div_pos; lia|apply Z.div_lt_upper_bound; lia]|lia].
    cbn [take_digits]. rewrite Hd, Hv. cbn. do 2 f_equal. lia.
Qed.

Lemma digits_all fuel : forall z acc, 0 <= z -> Forall (fun c => isdigit c = true) acc -> Forall (fun c => isdigit c = true) (digits fuel z acc).
Proof.
  induction fuel as [|fuel IH]; intros z acc Hz Ha; [done|]. cbn [digits].
  pose proof (Z.mod_pos_bound z 10 ltac:(lia)). destruct (digit_spec (z mod 10) ltac:(lia)) as [Hd _].
  destruct (z <? 10); [by constructor|]. apply IH; [apply Z.div_pos; lia|by constructor].
Qed.

Lemma digits_nonempty fuel : forall z acc, (0 < fuel)%nat -> digits fuel z acc <> [].
Proof.
  induction fuel as [|fuel IH]; intros z acc Hf; [lia|]. cbn [digits]. destruct (z <? 10); [done|].
  destruct fuel; [done|]. apply IH. lia.
Qed.

Lemma to_string_digits n : 0 <= n -> to_string n <> [] /\ Forall (fun c => isdigit c = true) (to_string n).
Proof.
  intros Hn. unfold to_string. replace (n <? 0) with false by lia. split; [apply digits_nonempty; lia|].
  by apply digits_all.
Qed.

Lemma isdigit_plain c : isdigit c = true -> isspace c = false /\ Ascii.eqb c "-" = false /\ Ascii.eqb c "+" = false.
Proof. destruct c as [[] [] [] [] [] [] [] []]; vm_compute; done. Qed.

Lemma stoi_to_string n : 0 <= n < 2 ^ 31 -> stoi (to_string n) = Ok n.
Proof.
  intros Hn. destruct (to_string_digits n ltac:(lia)) as [Hne Hd].
  assert (take_digits (to_string n) None = Some n) as E.
  { unfold to_string. replace (n <? 0) with false by lia. rewrite take_digits_digits; [done| |lia].
    split; [lia|]. rewrite Nat2Z.inj_succ, Z2Nat.id by apply Z.log2_nonneg.
    destruct (decide (n = 0)) as [->|]; [done|]. pose proof (Z.log2_spec n ltac:(lia)).
    pose proof (Z.pow_le_mono_l 2 10 (Z.succ (Z.log2 n)) ltac:(lia)). lia. }
  unfold stoi. destruct (to_string n) as [|c s]; [done|]. apply Forall_cons in Hd as [Hc _].
  destruct (isdigit_plain c Hc) as (H1 & H2 & H3). cbn [skip_space]. rewrite H1, H2, H3, E.
  by replace (_ && _) with true by lia.
Qed.

(** ** Trimming around a known middle *)

Lemma trim_right_unique (P : ascii -> bool) r : forall a a' r',
  a ++ r = a' ++ r' -> Forall (fun c => P c = true) r -> Forall (fun c => P c = true) r' ->
  (forall c u, a = u ++ [c] -> P c = false) -> (forall c u, a' = u ++ [c] -> P c = false) -> a = a'.
Proof.
  induction r as [|c r IH] using rev_ind; intros a a' r' E Hr Hr' Ha Ha'.
  - rewrite app_nil_r in E. destruct r' as [|c r' _] using rev_ind; [by rewrite app_nil_r in E|].
    apply Forall_app in Hr' as [_ Hc]. apply Forall_cons in Hc as [Hc _]. cbv beta in Hc.
    rewrite (Ha c (a' ++ r')) in Hc; [done|]. by rewrite E, app_assoc.
  - destruct r' as [|c' r' _] using rev_ind.
    + rewrite app_nil_r in E. apply Forall_app in Hr as [_ Hc]. apply Forall_cons in Hc as [Hc _]. cbv beta in Hc.
      rewrite (Ha' c (a ++ r)) in Hc; [done|]. by rewrite <- E, app_assoc.
    + rewrite !app_assoc in E. apply app_inj_tail in E as [E ->].
      apply Forall_app in Hr as [Hr _]. apply Forall_app in Hr' as [Hr' _]. by eapply IH.
Qed.

Lemma trim_left_unique (P : ascii -> bool) l : forall a a' l',
  l ++ a = l' ++ a' -> Forall (fun c => P c = true) l -> Forall (fun c => P c = true) l' ->
  (forall c u, a = c :: u -> P c = false) -> (forall c u, a' = c :: u -> P c = false) -> a = a'.
Proof.
  induction l as [|c l IH]; intros a a' l' E Hl Hl' Ha Ha'; cbn in E.
  - destruct l' as [|c l']; [done|]. apply Forall_cons in Hl' as [Hc _]. cbv beta in Hc. by rewrite (Ha c (l' ++ a')) in Hc.
  - apply Forall_cons in Hl as [Hc Hl]. cbv beta in Hc. destruct l' as [|c' l']; cbn in E.
    + by rewrite (Ha' c (l ++ a)) in Hc.
    + injection E as -> E. apply Forall_cons in Hl' as [_ Hl']. by eapply IH.
Qed.

(** A string that neither begins nor ends with a character of [t]. *)
Definition trimmed (t w : str) : Prop :=
  (forall c u, w = c :: u -> in_delims c t = false) /\ (forall c u, w = u ++ [c] -> in_delims c t = false).

Lemma string_trim_exact t l w r :
  fits (l ++ w ++ r) -> w <> [] -> trimmed t w ->
  Forall (fun c => in_delims c t = true) l -> Forall (fun c => in_delims c t = true) r ->
  string_trim (l ++ w ++ r) t = Ok w.
Proof.
  intros Hf Hne [Hh Ht] Hl Hr. unfold string_trim.
  destruct (string_right_trim_spec (l ++ w ++ r) t Hf) as (s1 & r1 & E1 & -> & Hr1 & Hs1). cbn [mbind result_bind].
  assert (s1 = l ++ w) as ->.
  { symmetry. apply (trim_right_unique (fun c => in_delims c t) r _ _ r1); [by rewrite <- app_assoc| done..| |].
    - intros c u E. destruct w as [|c' w' _] using rev_ind; [done|]. rewrite app_assoc in E.
      apply app_inj_tail in E as [_ <-]. by eapply Ht.
    - intros c u. apply Hs1. }
  destruct (string_left_trim_spec (l ++ w) t) as (l1 & s2 & E2 & -> & Hl1 & Hs2).
  { eapply fits_le; [exact Hf|]. rewrite !length_app. lia. }
  f_equal. symmetry. by apply (trim_left_unique (fun c => in_delims c t) l _ _ l1).
Qed.

(** ** Printing and parsing an error *)

(** An error with its place in a file. *)
Record located : Type := mkLoc { lc_file : str; lc_line : Z; lc_first : Z; lc_last : Z; lc_msg : str }.

Definition print_numbers (e : located) : str :=
  to_string (lc_line e) ++ lit "," ++ to_string (lc_first e) ++ lit "-" ++ to_string (lc_last e).

(** [file(line,first-last): message] *)
Definition print_error (e : located) : str :=
  lc_file e ++ lit "(" ++ print_numbers e ++ lit ")" ++ lit ": " ++ lc_msg e.

(** What [string_trim] removes around a message. *)
Definition msg_blanks : str := lit " " ++ ["009"%char] ++ lit "():" ++ ["013"; "010"; "012"; "011"]%char.

Definition located_ok (e : located) : Prop :=
  (lc_file e <> [] /\ trimmed blanks (lc_file e) /\ Forall (fun c => in_delims c (lit "(" ++ ["010"%char]) = false) (lc_file e)) /\
  (lc_msg e <> [] /\ trimmed msg_blanks (lc_msg e) /\ Forall (fun c => in_delims c ["010"%char] = false) (lc_msg e)) /\
  (1 <= lc_line e < 2 ^ 31 /\ 1 <= lc_first e < 2 ^ 31 /\ 0 <= lc_last e < 2 ^ 31).

(** The message that is meant. *)
Definition message_of (e : located) : CompileMessage :=
  mkMsg (print_error e) (lc_msg e) (lc_file e) (lc_line e - 1) 0 (lc_first e - 1, lc_last e)
    (if has (string_tolower (print_error e)) (lit "warning") then MsgWarning else MsgError).

Definition num_char (c : ascii) : bool := isdigit c || Ascii.eqb c "," || Ascii.eqb c "-".

Lemma num_char_plain c : num_char c = true -> in_delims c (lit "( )" ++ ["010"%char]) = false.
Proof. destruct c as [[] [] [] [] [] [] [] []]; vm_compute; done. Qed.

Lemma digit_plain c : isdigit c = true -> in_delims c (lit ",-") = false /\ num_char c = true.
Proof. destruct c as [[] [] [] [] [] [] [] []]; vm_compute; done. Qed.

Lemma print_numbers_chars e :
  0 <= lc_line e -> 0 <= lc_first e -> 0 <= lc_last e ->
  print_numbers e <> [] /\ Forall (fun c => num_char c = true) (print_numbers e).
Proof.
  intros H1 H2 H3. unfold print_numbers. assert (forall n, 0 <= n -> Forall (fun c => num_char c = true) (to_string n)) as Hn.
  { intros n Hn. eapply Forall_impl; [apply (to_string_digits n Hn)|]. intros c Hc. apply (digit_plain c Hc). }
  split.
  - destruct (to_string_digits (lc_line e) H1) as [Hne _]. by destruct (to_string (lc_line e)).
  - rewrite !Forall_app. split_and!; try (by apply Hn); by repeat constructor.
Qed.

Lemma Forall_delims (t t' : str) (w : str) :
  Forall (fun c => in_delims c (t ++ t') = false) w ->
  Forall (fun c => in_delims c t = false) w /\ Forall (fun c => in_delims c t' = false) w.
Proof.
  intros H. split; (eapply Forall_impl; [exact H|]); intros c Hc; unfold in_delims in *; rewrite existsb_app in Hc;
    by apply orb_false_iff in Hc as [? ?].
Qed.

Lemma trimmed_all t w : Forall (fun c => in_delims c t = false) w -> trimmed t w.
Proof.
  intros H. split; intros c u ->; [by apply Forall_cons in H as [? _]|].
  apply Forall_app in H as [_ H]. by apply Forall_cons in H as [? _].
Qed.

Lemma substr_mid pre l r n : fits (pre ++ l ++ r) -> n = ssize l -> substr (pre ++ l ++ r) (ssize pre) n = Ok l.
Proof.
  intros Hf ->. rewrite <- (substr_middle pre l r Hf). f_equal. pose proof (ssize_nonneg l). pose proof (ssize_nonneg pre).
  replace (ssize pre + ssize l - ssize pre) with (ssize l) by lia. symmetry. apply wrap_small.
  unfold fits, in_u, npos in *. rewrite !ssize_app in Hf. pose proof (ssize_nonneg r). lia.
Qed.

Lemma find_idx_first p a c r : Forall (fun x => p x = false) a -> p c = true -> find_idx p (a ++ c :: r) = Some (length a).
Proof. intros Ha Hc. apply find_idx_Some. by exists a, c, r. Qed.

(** Splitting at a character that the digits are not. *)
Lemma split_two (a b : str) sep :
  fits (a ++ [sep] ++ b) -> a <> [] -> b <> [] ->
  Forall (fun c => in_delims c [sep] = false) a -> Forall (fun c => in_delims c [sep] = false) b ->
  string_split (a ++ [sep] ++ b) [sep] = Ok [a; b].
Proof.
  intros Hfit Ha Hb Fa Fb. rewrite string_split_words by done. f_equal. rewrite words_run by done. cbn [app words].
  unfold delim at 1. unfold in_delims at 1. cbn [existsb]. rewrite Ascii.eqb_refl, bool_decide_false by done. cbn [orb app].
  rewrite <- (app_nil_r b), words_run by done. cbn. by rewrite bool_decide_false, app_nil_r by done.
Qed.

Lemma to_string_no c n : 0 <= n -> c ∈ (lit ",-" : list ascii) -> Forall (fun x => in_delims x [c] = false) (to_string n).
Proof.
  intros Hn Hc. eapply Forall_impl; [apply (to_string_digits n Hn)|]. intros x Hx. apply digit_plain in Hx as [Hx _].
  apply in_delims_false. apply in_delims_false in Hx. set_solver.
Qed.

Lemma zero_based_to_string n : 1 <= n < 2 ^ 31 -> zero_based (to_string n) = Ok (n - 1).
Proof.
  intros Hn. unfold zero_based. rewrite stoi_to_string by lia. cbn -[Z.pow]. replace (- 2 ^ 31 <=? n - 1) with true by lia.
  cbn. f_equal. lia.
Qed.

(** Running the body of the [try]. *)
Lemma try_lift_bind {A B} (r : result stop A) a (f : A -> TRY B) s : r = Ok a -> (try_lift r ≫= f) s = f a s.
Proof. by intros ->. Qed.

Lemma try_msg_bind {B} g (f : unit -> TRY B) m u : (try_msg g ≫= f) (m, u) = f tt (g m, u).
Proof. done. Qed.

Lemma add_unknown_bind {B} (f : unit -> TRY B) m : (add_unknown ≫= f) (m, []) = f tt (m, []).
Proof. done. Qed.

Lemma try_bind_assoc {A B C} (c : TRY A) (f : A -> TRY B) (g : B -> TRY C) s :
  ((c ≫= f) ≫= g) s = (c ≫= (fun a => f a ≫= g)) s.
Proof. unfold mbind, TRY_bind. by destruct (c s) as [? []]. Qed.

Section located.
Context (e : located) (Hok : located_ok e) (Hf : fits (print_error e)).
Local Notation error := (print_error e).
Local Notation file := (lc_file e).
Local Notation nums := (print_numbers e).

(** Where the closing bracket is. *)
Definition close_pos : Z := ssize file + 1 + ssize nums.

Lemma error_pieces : error = file ++ (lit "(" ++ nums) ++ lit "): " ++ lc_msg e.
Proof using Type. unfold print_error. by rewrite <- !app_assoc. Qed.

Lemma numbers_plain : nums <> [] /\ Forall (fun c => in_delims c (lit "( )" ++ ["010"%char]) = false) nums.
Proof using Hok.
  destruct Hok as (_ & _ & H1 & H2 & H3). destruct (print_numbers_chars e) as [Hne Hn]; [lia..|]. split; [done|].
  eapply Forall_impl; [exact Hn|]. apply num_char_plain.
Qed.

Lemma fits_close : close_pos + 1 <= ssize error /\ ssize error < npos /\ 0 <= ssize file /\ 0 <= ssize nums.
Proof using Hf.
  pose proof (ssize_nonneg file). pose proof (ssize_nonneg nums). pose proof (ssize_nonneg (lc_msg e)).
  unfold close_pos. unfold fits in Hf. rewrite error_pieces, !ssize_app in *. change (ssize (lit "(")) with 1 in *.
  change (ssize (lit "): ")) with 3 in *. lia.
Qed.

Lemma find_open : find_first_of error (lit "(") 0 = ssize file.
Proof using Hok Hf.
  destruct Hok as ((_ & _ & H) & _). apply Forall_delims in H as [H _]. pose proof fits_close. unfold close_pos in *.
  unfold find_first_of, find_from. replace (0 <? ssize error) with true by lia. rewrite suffix_0.
  assert (find_idx (fun c => in_delims c (lit "(")) error = Some (length file)) as ->; [|done].
  unfold print_error. by apply find_idx_first.
Qed.

Lemma find_close : sfind error (lit ")") (ssize file) = close_pos.
Proof using Hok.
  destruct numbers_plain as [_ H].
  assert (Forall (fun c => Ascii.eqb ")" c = false) nums) as Hn.
  { eapply Forall_impl; [exact H|]. intros c Hc. cbn in Hc. rewrite Ascii.eqb_sym.
    by destruct (Ascii.eqb c "("), (Ascii.eqb c " "), (Ascii.eqb c ")"). }
  unfold print_error. rewrite sfind_app. change (lit ")") with [")"%char] at 1. rewrite search_idx_char.
  assert (find_idx (Ascii.eqb ")") (lit "(" ++ nums ++ lit ")" ++ lit ": " ++ lc_msg e) = Some (length (lit "(" ++ nums))) as ->.
  { rewrite app_assoc. apply find_idx_first; [|done]. apply Forall_app. split; [by repeat constructor|done]. }
  cbn [fmap option_fmap option_map to_pos]. unfold close_pos, ssize. rewrite length_app. cbn. lia.
Qed.

Lemma take_file : (substr error 0 (ssize file) ≫= (fun s => string_trim s blanks)) = Ok file.
Proof using Hok Hf.
  destruct Hok as ((Hne & Ht & _) & _).
  assert (substr error 0 (ssize file) = Ok file) as ->.
  { rewrite error_pieces. apply (substr_mid [] file); [by rewrite <- error_pieces|done]. }
  cbn [mbind result_bind]. pose proof (string_trim_exact blanks [] file []) as H. rewrite app_nil_r in H. cbn in H.
  apply H; try done. pose proof fits_close. unfold fits, close_pos in *. lia.
Qed.

Lemma take_message :
  (substr error close_pos (u64 (ssize error - close_pos)) ≫= (fun s => string_trim s msg_blanks)) = Ok (lc_msg e).
Proof using Hok Hf.
  destruct Hok as (_ & (Hne & Ht & _) & _). pose proof fits_close.
  rewrite wrap_small by (unfold in_u, npos, close_pos in *; lia).
  assert (error = (file ++ lit "(" ++ nums) ++ (lit "): " ++ lc_msg e) ++ []) as E
    by (rewrite app_nil_r, error_pieces, <- !app_assoc; done).
  assert (close_pos = ssize (file ++ lit "(" ++ nums)) as Ec by (unfold close_pos; rewrite !ssize_app; change (ssize (lit "(")) with 1; lia).
  assert (substr error close_pos (ssize error - close_pos) = Ok (lit "): " ++ lc_msg e)) as ->.
  { rewrite Ec. rewrite E at 1. apply substr_mid; [by rewrite <- E|].
    apply (f_equal ssize) in E. rewrite !ssize_app in *. rewrite ssize_nil in E. lia. }
  cbn [mbind result_bind]. pose proof (string_trim_exact msg_blanks (lit "): ") (lc_msg e) []) as Hx. rewrite app_nil_r in Hx.
  apply Hx; try done; [|by repeat constructor].
  eapply fits_le; [exact Hf|]. rewrite error_pieces, !length_app. lia.
Qed.

Lemma take_numbers :
  (substr error (ssize file) (u64 (close_pos - ssize file)) ≫= (fun s => string_trim s (lit "( )"))) = Ok nums.
Proof using Hok Hf.
  destruct numbers_plain as [Hne Hn]. apply Forall_delims in Hn as [Hn _]. pose proof fits_close.
  rewrite wrap_small by (unfold in_u, npos, close_pos in *; lia).
  assert (substr error (ssize file) (close_pos - ssize file) = Ok (lit "(" ++ nums)) as ->.
  { rewrite error_pieces. apply substr_mid; [by rewrite <- error_pieces|]. unfold close_pos. rewrite ssize_app.
    change (ssize (lit "(")) with 1. lia. }
  cbn [mbind result_bind]. pose proof (string_trim_exact (lit "( )") (lit "(") nums []) as Hx. rewrite app_nil_r in Hx.
  apply Hx; try done; [|by apply trimmed_all|by repeat constructor].
  eapply fits_le; [exact Hf|]. rewrite error_pieces, !length_app. lia.
Qed.

Lemma split_numbers :
  string_split nums (lit ",") = Ok [to_string (lc_line e); to_string (lc_first e) ++ lit "-" ++ to_string (lc_last e)] /\
  string_split (to_string (lc_first e) ++ lit "-" ++ to_string (lc_last e)) (lit "-") =
    Ok [to_string (lc_first e); to_string (lc_last e)].
Proof using Hok Hf.
  destruct Hok as (_ & _ & H1 & H2 & H3). pose proof fits_close.
  destruct (to_string_digits (lc_line e)) as [Hl _]; [lia|]. destruct (to_string_digits (lc_first e)) as [Ha _]; [lia|].
  destruct (to_string_digits (lc_last e)) as [Hb _]; [lia|]. assert (fits nums) as Hn by (unfold fits, close_pos in *; lia). split.
  - apply (split_two (to_string (lc_line e)) _ ","%char); try done; [by destruct (to_string (lc_first e))| |].
    + apply to_string_no; [lia|set_solver].
    + rewrite !Forall_app. split_and!; try (apply to_string_no; [lia|set_solver]). by repeat constructor.
  - apply (split_two _ _ "-"%char); try done; try (apply to_string_no; [lia|set_solver]).
    eapply fits_le; [exact Hn|]. unfold print_numbers. rewrite !length_app. cbn [length String.list_ascii_of_string]. lia.
Qed.

Lemma parse_error_located src : parse_error src error [] = Ok (Some (message_of e), []).
Proof using Hok Hf.
  pose proof fits_close. pose proof Hok as (_ & _ & H1 & H2 & H3). destruct split_numbers as [S1 S2].
  unfold parse_error. rewrite find_open. replace (ssize file =? npos) with false by (unfold close_pos in *; lia).
  unfold parse_located. rewrite find_close. replace (close_pos =? 0) with false by (unfold close_pos; lia).
  rewrite (try_lift_bind _ _ _ _ take_file), try_msg_bind.
  rewrite (try_lift_bind _ _ _ _ take_message), try_msg_bind, add_unknown_bind.
  rewrite (try_lift_bind _ _ _ _ take_numbers), (try_lift_bind _ _ _ _ S1). cbv beta iota.
  rewrite try_bind_assoc, (try_lift_bind _ _ _ _ (zero_based_to_string (lc_line e) ltac:(lia))), try_msg_bind.
  unfold parse_range. rewrite (try_lift_bind _ _ _ _ S2). cbv beta iota.
  rewrite (try_lift_bind _ _ _ _ (zero_based_to_string (lc_first e) ltac:(lia))), try_msg_bind.
  rewrite (try_lift_bind _ _ _ _ (stoi_to_string (lc_last e) ltac:(lia))). done.
Qed.
End located.

(** The printed line: not empty, and one line. *)
Lemma print_error_line e :
  located_ok e -> print_error e <> [] /\ Forall (fun c => in_delims c ["010"%char] = false) (print_error e).
Proof.
  intros Hok. pose proof Hok as ((Hne & _ & Hf) & (_ & _ & Hm) & _). destruct (numbers_plain e Hok) as [_ Hn].
  apply Forall_delims in Hf as [_ Hf], Hn as [_ Hn]. unfold print_error. split; [by destruct (lc_file e)|].
  rewrite !Forall_app. split_and!; try done; by repeat constructor.
Qed.

Lemma parse_errors_located es : forall r,
  Forall located_ok es -> Forall (fun e => fits (print_error e)) es ->
  parse_errors (print_error <$> es) [] r =
    Ok (mkResult (fileSource r) (messages r ++ (message_of <$> es)) (res_state r) (res_tags r), []).
Proof.
  induction es as [|e es IH]; intros r Ho Hf; cbn; [by rewrite app_nil_r; destruct r|].
  apply Forall_cons in Ho as [Ho1 Ho], Hf as [Hf1 Hf]. rewrite (parse_error_located e Ho1 Hf1). cbn.
  rewrite IH by done. cbn. by rewrite <- app_assoc.
Qed.

(** C14. Parsing undoes printing for compiler output: any sequence of lines
    [file(line,first-last): message], where the file name and the message are
    not empty and have no stray blanks or brackets at their ends, becomes one
    message per line with that file, the line and the first column counted
    from zero, the last column and the text, a warning if the line says so and
    an error otherwise. *)
Theorem compile_errors_roundtrip r es :
  es <> [] -> Forall located_ok es -> fits (join "010" (print_error <$> es)) ->
  compile_parse_shader_errors r (join "010" (print_error <$> es)) =
    Ok (mkResult (fileSource r) (messages r ++ (message_of <$> es)) (res_state r) (res_tags r)).
Proof.
  intros Hne Ho Hfit. unfold compile_parse_shader_errors. rewrite string_split_words by done. cbn [mbind result_bind].
  rewrite words_join; [|done|rewrite Forall_fmap; eapply Forall_impl; [exact Ho|]; apply print_error_line].
  rewrite parse_errors_located; [|done|].
  - cbn [mbind result_bind messages]. destruct es; [done|]. by destruct (messages r).
  - apply Forall_forall. intros e He. eapply fits_le; [exact Hfit|]. unfold join.
    apply list_elem_of_split in He as (l1 & l2 & ->). rewrite !fmap_app, concat_app. cbn. rewrite !length_app. lia.
Qed.

Definition demo_located : located := mkLoc (lit "a b.frag") 12 4 7 (lit "syntax Warning: x").

Lemma compile_errors_roundtrip_witness :
  compile_parse_shader_errors (mkResult [] [] Invalid ∅) (lit "a b.frag(12,4-7): syntax Warning: x" ++ ["010"%char]) =
    Ok (mkResult [] [mkMsg (lit "a b.frag(12,4-7): syntax Warning: x") (lit "syntax Warning: x") (lit "a b.frag") 11 0 (3, 7) MsgWarning] Invalid ∅).
Proof.
  apply (compile_errors_roundtrip (mkResult [] [] Invalid ∅) [demo_located]); [done| |vm_compute; reflexivity].
  assert (forall t w, forallb (fun c => negb (in_delims c t)) (take 1 w ++ take 1 (rev w)) = true -> trimmed t w) as Ht.
  { intros t w H. rewrite forallb_app in H. apply andb_true_iff in H as [H1 H2]. split; intros c u ->.
    - cbn in H1. by destruct (in_delims c t).
    - rewrite rev_unit in H2. cbn in H2. by destruct (in_delims c t). }
  constructor; [|constructor]. split; [|split].
  - split; [done|]. split; [apply Ht; reflexivity|]. by repeat constructor.
  - split; [done|]. split; [apply Ht; reflexivity|]. by repeat constructor.
  - cbn. lia.
Defined.

(** ** What can go wrong *)

(** A stretch of a text. *)
Definition within (w s : str) : Prop := exists a b, s = a ++ w ++ b.

Lemma within_trans a b c : within a b -> within b c -> within a c.
Proof. intros (x & y & ->) (x' & y' & ->). exists (x' ++ x), (y ++ y'). by rewrite <- !app_assoc. Qed.

Lemma within_fits w s : within w s -> fits s -> fits w.
Proof. intros (a & b & ->) Hf. eapply fits_le; [exact Hf|]. rewrite !length_app. lia. Qed.

Lemma words_within d s : forall cur w, w ∈ words d cur s -> within w (cur ++ s).
Proof.
  induction s as [|c s IH]; intros cur w; cbn [words].
  - destruct cur; [by intros ?%not_elem_of_nil|]. intros ->%list_elem_of_singleton. by exists [], [].
  - destruct (d c).
    + assert (forall w, w ∈ words d [] s -> within w (cur ++ c :: s)) as Hs.
      { intros x Hx. eapply within_trans; [by apply IH|]. exists (cur ++ [c]), []. by rewrite <- app_assoc, app_nil_r. }
      destruct cur as [|e cur]; [apply Hs|]. intros [->|Hw]%elem_of_cons; [|by apply Hs].
      by exists [], (c :: s).
    + intros Hw. specialize (IH _ _ Hw). by rewrite <- app_assoc in IH.
Qed.

Lemma split_within s delims : fits s ->
  exists ws, string_split s delims = Ok ws /\ Forall (fun w => within w s) ws.
Proof.
  intros Hf. eexists. split; [by apply string_split_words|]. apply Forall_forall. intros w Hw.
  by apply (words_within _ s []) in Hw.
Qed.

Lemma trim_within s t : fits s -> exists w, string_trim s t = Ok w /\ within w s.
Proof.
  intros Hf. unfold string_trim. destruct (string_right_trim_spec s t Hf) as (s1 & l & -> & E & _).
  destruct (string_left_trim_spec s1 t) as (l2 & s2 & -> & E2 & _).
  { eapply within_fits; [|exact Hf]. by exists [], l. }
  exists s2. split; [by rewrite E|]. exists l2, l. by rewrite <- app_assoc.
Qed.

Lemma substr_within s pos n : 0 <= pos ->
  substr s pos n = Err (Throw out_of_range) \/ exists w, substr s pos n = Ok w /\ within w s.
Proof.
  intros Hp. unfold substr. destruct (ssize s <? pos); [by left|right]. eexists. split; [done|].
  exists (take (Z.to_nat pos) s), (drop (Z.to_nat (Z.min n (ssize s - pos))) (suffix s pos)).
  unfold suffix. by rewrite take_drop, take_drop.
Qed.

Lemma stoi_cases s : (exists e, stoi s = Err (Throw e)) \/ exists n, stoi s = Ok n /\ - 2 ^ 31 <= n < 2 ^ 31.
Proof.
  unfold stoi. destruct (match skip_space s with [] => _ | _ => _ end) as [neg r].
  destruct (take_digits r None) as [v|]; [|by left; eauto].
  destruct (_ && _) eqn:E; [|by left; eauto]. right. eexists. split; [done|]. lia.
Qed.

(** A message of the parser for the text [raw]. *)
Definition message_ok (raw : str) (m : CompileMessage) : Prop :=
  rawText m = raw /\ 0 <= msg_line m < 2 ^ 31 /\ -1 <= (range m).1 < 2 ^ 31 - 1 /\ (range m).2 < 2 ^ 31 /\ msgType m <> MsgInfo.

(** The only number whose predecessor overflows. *)
Definition least_int (src : str) : Prop := exists w, within w src /\ stoi w = Ok (- 2 ^ 31).

(** Why the body of the [try] may stop: an exception, which is caught, or the
    least [int]. *)
Definition stop_ok (src : str) (e : stop) : Prop :=
  match e with Throw _ => True | UB => least_int src | _ => False end.

Definition result_ok {A} (src : str) (r : result stop A) (post : A -> Prop) : Prop :=
  match r with Ok a => post a | Err e => stop_ok src e end.

(** Code of the body keeps the message well formed, also when it throws. *)
Definition try_ok {A} (src : str) (c : TRY A) (post : A -> Prop) : Prop :=
  forall m u, message_ok src m -> message_ok src (c (m, u)).1.1 /\ result_ok src (c (m, u)).2 post.

Section try_ok.
Context (src : str) (Hf : fits src).

Lemma try_ok_ret (post : unit -> Prop) : post tt -> try_ok src (mret tt) post.
Proof. by intros ? m u. Qed.

Lemma try_ok_bind {A B} (c : TRY A) (f : A -> TRY B) P Q :
  try_ok src c P -> (forall a, P a -> try_ok src (f a) Q) -> try_ok src (c ≫= f) Q.
Proof.
  intros Hc Hfa m u Hm. specialize (Hc m u Hm). unfold mbind, TRY_bind.
  destruct (c (m, u)) as [[m1 u1] [a|e]]; destruct Hc as [Hm1 Hr]; [by apply (Hfa a Hr)|done].
Qed.

Lemma try_ok_lift {A} (r : result stop A) P : result_ok src r P -> try_ok src (try_lift r) P.
Proof. by intros Hr m u Hm. Qed.

Lemma try_ok_msg g : (forall m, message_ok src m -> message_ok src (g m)) -> try_ok src (try_msg g) (fun _ => True).
Proof. intros Hg m u Hm. split; [by apply Hg|done]. Qed.

Lemma substr_trim_ok s pos n t : within s src -> 0 <= pos ->
  result_ok src (substr s pos n ≫= (fun s => string_trim s t)) (fun w => within w s).
Proof.
  intros Hs Hp. destruct (substr_within s pos n Hp) as [->|(w & -> & Hw)]; [done|].
  destruct (trim_within w t) as (w' & E & Hw'); [eapply within_fits; [exact Hw|by eapply within_fits]|].
  cbn. rewrite E. by eapply within_trans.
Qed.

Lemma split_ok s delims : within s src -> result_ok src (string_split s delims) (Forall (fun w => within w src)).
Proof.
  intros Hs. destruct (split_within s delims) as (ws & -> & Hws); [by eapply within_fits|].
  eapply Forall_impl; [exact Hws|]. intros w Hw. exact (within_trans _ _ _ Hw Hs).
Qed.

Lemma zero_based_ok w : within w src -> result_ok src (zero_based w) (fun n => 0 <= n < 2 ^ 31 - 1).
Proof.
  intros Hw. unfold zero_based. destruct (stoi_cases w) as [[e ->]|(n & E & Hn)]; [done|]. rewrite E. cbn [mbind result_bind].
  destruct (- 2 ^ 31 <=? n - 1) eqn:Hl; cbn [mbind result_bind result_ok stop_ok]; [lia|]. exists w. split; [done|]. rewrite E. f_equal. lia.
Qed.
End try_ok.

Create HintDb try_ok.
#[export] Hint Resolve try_ok_ret try_ok_lift substr_trim_ok split_ok zero_based_ok : try_ok.
#[export] Hint Extern 1 (_ <= _) => lia : try_ok.

(** One statement of the body. *)
Ltac try_step := eapply try_ok_bind; [solve [eauto with try_ok]|]; cbn beta; intros ?w ?Hw.
Ltac solve_message := unfold message_ok in *; cbn in *; destruct_and?; split_and?; (lia || done).
Ltac try_set := apply try_ok_msg; intros ?m ?Hm; solve_message.

Lemma parse_range_ok src columns : fits src -> within columns src -> try_ok src (parse_range columns) (fun _ => True).
Proof.
  intros Hf Hc. unfold parse_range. try_step. destruct w as [|c0 more]; [by apply try_ok_ret|].
  apply Forall_cons in Hw as [H0 Hmore]. try_step.
  eapply try_ok_bind; [try_set|]. intros _ _. destruct more as [|c1 more]; [try_set|].
  eapply (try_ok_bind _ _ _ (fun n => n < 2 ^ 31)); [apply try_ok_lift|intros; try_set].
  destruct (stoi_cases c1) as [[e ->]|(n & -> & Hn)]; [done|]. cbn beta iota delta [result_ok]. lia.
Qed.

Lemma add_unknown_ok src : try_ok src add_unknown (fun _ => True).
Proof.
  intros m u Hm. unfold add_unknown, mbind, TRY_bind, try_get, try_msg. cbn.
  destruct u as [|c u]; [done|]. cbn.
  destruct (_ || _); [|destruct (has _ _)]; (split; [solve_message|done]).
Qed.

Lemma parse_located_ok error pos : fits error -> 0 <= pos -> try_ok error (parse_located error pos) (fun _ => True).
Proof.
  intros Hf Hp. unfold parse_located. assert (within error error) by by exists [], []; rewrite app_nil_r.
  set (last := sfind error (lit ")") pos). assert (0 <= last).
  { unfold last, sfind. destruct (_ <=? _); [destruct (search_idx _ _)|]; cbn; unfold npos; lia. }
  destruct (last =? 0); [by apply try_ok_ret|].
  try_step. eapply try_ok_bind; [try_set|]. intros _ _.
  try_step. eapply try_ok_bind; [try_set|]. intros _ _.
  eapply try_ok_bind; [apply add_unknown_ok|]. intros _ _.
  try_step. try_step. eapply (try_ok_bind _ _ _ (fun _ => True)).
  - destruct w2 as [|n0 rest]; [by apply try_ok_ret|]. apply Forall_cons in Hw2 as [Hn0 _]. try_step. try_set.
  - intros _ _. destruct w2 as [|n0 [|n1 rest]]; [by apply try_ok_ret..|].
    apply Forall_cons in Hw2 as [_ [H1 _]%Forall_cons]. by apply parse_range_ok.
Qed.

(** No exception leaves the loop. *)
Definition no_escape {A} (src : str) (r : result stop A) (post : A -> Prop) : Prop :=
  match r with Ok a => post a | Err e => e = UB /\ least_int src end.

Lemma parse_error_ok src error u : fits error ->
  no_escape error (parse_error src error u) (fun mu => from_option (message_ok error) True mu.1).
Proof.
  intros Hf. unfold parse_error. set (pos := find_first_of error (lit "(") 0). assert (0 <= pos).
  { unfold pos, find_first_of, find_from. destruct (_ <? _); [destruct (find_idx _ _)|]; cbn; unfold npos; lia. }
  destruct (pos =? npos); [done|].
  set (m := set_type _ _). destruct (parse_located_ok error pos Hf ltac:(done) m u) as [Hm Hr].
  { unfold m. destruct (has _ _); solve_message. }
  destruct (parse_located error pos (m, u)) as [[m' u'] [a|[e| | |]]]; cbn in *; try done. solve_message.
Qed.

Lemma parse_errors_ok src errors : fits src -> Forall (fun w => within w src) errors -> forall u r,
  no_escape src (parse_errors errors u r) (fun ru => exists new,
    messages ru.1 = messages r ++ new /\ (length new <= length errors)%nat /\
    Forall (fun m => message_ok (rawText m) m /\ rawText m ∈ errors) new /\
    fileSource ru.1 = fileSource r /\ res_state ru.1 = res_state r /\ res_tags ru.1 = res_tags r).
Proof.
  intros Hf. induction 1 as [|error errors He _ IH]; intros u r; cbn [parse_errors].
  - exists []. cbn. rewrite app_nil_r. by split_and!.
  - pose proof (parse_error_ok (fileSource r) error u (within_fits _ _ He Hf)) as Hok.
    destruct (parse_error (fileSource r) error u) as [[om u']|e]; cbn in *.
    2: { destruct Hok as (-> & w & Hw & E). split; [done|]. exists w. split; [by eapply within_trans|done]. }
    specialize (IH u' (match om with Some m => push_message m r | None => r end)).
    destruct (parse_errors errors u' _) as [ru|e]; cbn in *; [|done].
    destruct IH as (new & E & Hl & Hnew & Hrest).
    exists (match om with Some m => m :: new | None => new end). destruct om as [m|]; cbn in *.
    + rewrite E, <- app_assoc. split; [done|]. split; [lia|]. split; [|done]. constructor.
      * destruct Hok as [Hraw Hm]. rewrite Hraw. split; [by split|set_solver].
      * eapply Forall_impl; [exact Hnew|]. intros x [??]. split; [done|set_solver].
    + rewrite E. split; [done|]. split; [lia|]. split; [|done].
      eapply Forall_impl; [exact Hnew|]. intros x [??]. split; [done|set_solver].
Qed.

(** What the parser leaves, whatever a compiler prints. *)
Lemma shader_errors_parsed r msgs :
  fits msgs ->
  match compile_parse_shader_errors r msgs with
  | Ok r' => exists new,
      messages r' = messages r ++ new /\ messages r' <> [] /\
      (length new <= Nat.max 1 (length (words (delim ["010"%char]) [] msgs)))%nat /\
      Forall (fun m => message_ok (rawText m) m /\ (rawText m = msgs \/ rawText m ∈ words (delim ["010"%char]) [] msgs)) new /\
      fileSource r' = fileSource r /\ res_state r' = res_state r /\ res_tags r' = res_tags r
  | Err e => e = UB /\ least_int msgs
  end.
Proof.
  intros Hf. unfold compile_parse_shader_errors. destruct (split_within msgs ["010"%char] Hf) as (ws & E & Hws).
  pose proof E as E'. rewrite string_split_words in E' by done. injection E' as E'.
  rewrite E. rewrite E'. pose proof (parse_errors_ok msgs ws Hf Hws [] r) as Hok. cbn.
  destruct (parse_errors ws [] r) as [[r1 u]|e]; cbn in *; [|done].
  destruct Hok as (new & Em & Hl & Hnew & Hrest). destruct (messages r1) as [|m1 ms] eqn:Er.
  - symmetry in Em. apply app_eq_nil in Em as [-> ->]. eexists [_]. cbn. rewrite Er. split; [done|].
    split; [done|]. split; [lia|]. split; [|done]. constructor; [|done]. split; [|by left].
    solve_message.
  - exists new. rewrite Er. split; [done|]. split; [done|]. split; [lia|]. split; [|done].
    eapply Forall_impl; [exact Hnew|]. naive_solver.
Qed.

(** C15. Whatever a compiler prints, no exception escapes
    [compile_parse_shader_errors]: it leaves at least one message, adds at
    most one for each non-empty line (one when there is no such line), each
    with the line it was made from, a line number and a column that are not
    negative (or -1 for no column) and a type that is a warning or an error.
    The exception is a line number that is the least [int], from which one is
    subtracted. *)
Theorem compile_errors_no_escape r msgs :
  fits msgs ->
  match compile_parse_shader_errors r msgs with
  | Ok r' => exists new,
      messages r' = messages r ++ new /\ messages r' <> [] /\
      (length new <= Nat.max 1 (length (words (delim ["010"%char]) [] msgs)))%nat /\
      Forall (fun m => message_ok (rawText m) m /\ (rawText m = msgs \/ rawText m ∈ words (delim ["010"%char]) [] msgs)) new /\
      fileSource r' = fileSource r /\ res_state r' = res_state r /\ res_tags r' = res_tags r
  | Err e => e = UB /\ least_int msgs
  end.
Proof. apply shader_errors_parsed. Qed.

Lemma compile_errors_no_escape_witness :
  compile_parse_shader_errors (mkResult (lit "s") [] Invalid ∅) (lit "a.frag(x): bad") =
    Ok (mkResult (lit "s") [mkMsg (lit "a.frag(x): bad") (lit "Failed to parse compiler error:" ++ ["010"%char] ++ lit "a.frag(x): bad")
          (lit "a.frag") 0 0 (-1, -1) MsgError] Invalid ∅) /\
  exists new : list CompileMessage, (length new <= 1)%nat /\ new <> [].
Proof.
  split; [vm_compute; reflexivity|].
  pose proof (compile_errors_no_escape (mkResult (lit "s") [] Invalid ∅) (lit "a.frag(x): bad") ltac:(vm_compute; reflexivity)) as H.
  destruct (compile_parse_shader_errors _ _) as [r'|e] eqn:E; [|vm_compute in E; discriminate].
  destruct H as (new & H1 & H2 & H3 & _). exists new. split; [exact H3|]. cbn in H1. by rewrite <- H1.
Defined.
