(* ===== verification/Solids.v ===== *)
(** * Solids: the arrays of a mesh

    What the classes [Sphere], [Icosahedron] and [Icosphere]
    (include/mutils/geometry/) have in common: the arrays of coordinates,
    normals, texture coordinates and indices, the methods that add to them, the
    interleaved copy and its rescaling, and the invariant of these arrays.
    [float[3]] and [float[2]] are a triple and a pair. *)

From S2P Require Import Prelude Float32.

Abbreviation float3 := (f32 * f32 * f32)%type.
Abbreviation float2 := (f32 * f32)%type.
Import F32Notations.

(** The members that hold the mesh. *)
Record solid : Type := mkSolid {
  vertices : list f32;
  normals : list f32;
  texCoords : list f32;
  indices : list Z;
  lineIndices : list Z;
  interleavedVertices : list f32
}.

Definition set_vertices l m := mkSolid l (normals m) (texCoords m) (indices m) (lineIndices m) (interleavedVertices m).
Definition set_normals l m := mkSolid (vertices m) l (texCoords m) (indices m) (lineIndices m) (interleavedVertices m).
Definition set_texCoords l m := mkSolid (vertices m) (normals m) l (indices m) (lineIndices m) (interleavedVertices m).
Definition set_indices l m := mkSolid (vertices m) (normals m) (texCoords m) l (lineIndices m) (interleavedVertices m).
Definition set_lines l m := mkSolid (vertices m) (normals m) (texCoords m) (indices m) l (interleavedVertices m).
Definition set_interleaved l m := mkSolid (vertices m) (normals m) (texCoords m) (indices m) (lineIndices m) l.

Definition no_solid : solid := mkSolid [] [] [] [] [] [].

Definition list3 {A} (v : A * A * A) : list A := let '(x, y, z) := v in [x; y; z].
Definition list2 {A} (t : A * A) : list A := let '(s, t) := t in [s; t].

Definition addVertex (v : float3) (m : solid) : solid := set_vertices (vertices m ++ list3 v) m.
Definition addNormal (n : float3) (m : solid) : solid := set_normals (normals m ++ list3 n) m.
Definition addTexCoord (t : float2) (m : solid) : solid := set_texCoords (texCoords m ++ list2 t) m.
(** The indices are [unsigned int]. *)
Definition addIndices (i1 i2 i3 : Z) (m : solid) : solid := set_indices (indices m ++ [u32 i1; u32 i2; u32 i3]) m.
(** Two calls of [lineIndices.push_back]. *)
Definition addLine (i1 i2 : Z) (m : solid) : solid := set_lines (lineIndices m ++ [u32 i1; u32 i2]) m.

Definition addVertices (v1 v2 v3 : float3) (m : solid) : solid := set_vertices (vertices m ++ list3 v1 ++ list3 v2 ++ list3 v3) m.
Definition addNormals (n1 n2 n3 : float3) (m : solid) : solid := set_normals (normals m ++ list3 n1 ++ list3 n2 ++ list3 n3) m.
Definition addTexCoords (t1 t2 t3 : float2) (m : solid) : solid := set_texCoords (texCoords m ++ list2 t1 ++ list2 t2 ++ list2 t3) m.

(** The arrays but the interleaved one are emptied. *)
Definition clearArrays (m : solid) : solid := mkSolid [] [] [] [] [] (interleavedVertices m).

(** [v[i]] on a vector: outside is undefined behaviour. *)
Definition at_ {A} (l : list A) (i : nat) : result stop A := of_option UB (l !! i).

Definition atZ {A} (l : list A) (i : Z) : result stop A := if i <? 0 then Err UB else at_ l (Z.to_nat i).

(** A loop over the values [l] of its variable. *)
Fixpoint for_each {A S} (body : A -> S -> result stop S) (l : list A) (s : S) : result stop S :=
  match l with
  | [] => Ok s
  | a :: l => s ← body a s; for_each body l s
  end.

(** The values of [i] in [for (int i = 0; i <= n; ++i)]: the last increment
    overflows if [n] is the greatest [int]. *)
Definition int_upto (n : Z) : result stop (list Z) := if n =? 2 ^ 31 - 1 then Err UB else Ok (seqZ 0 (n + 1)).

(** A loop [for (i = 0; i < count; i += 3)] goes round this often. *)
Definition rounds (count : nat) : nat := ((count + 2) / 3)%nat.

(** [buildInterleavedVertices]: round [k] has [i = 3k] and [j = 2k]. *)
Fixpoint interleave_loop (m : solid) (todo k : nat) (out : list f32) : result stop (list f32) :=
  match todo with
  | O => Ok out
  | S todo =>
      let i := (3 * k)%nat in
      let j := (2 * k)%nat in
      x ← at_ (vertices m) i; y ← at_ (vertices m) (i + 1); z ← at_ (vertices m) (i + 2);
      nx ← at_ (normals m) i; ny ← at_ (normals m) (i + 1); nz ← at_ (normals m) (i + 2);
      s ← at_ (texCoords m) j; t ← at_ (texCoords m) (j + 1);
      interleave_loop m todo (S k) (out ++ [x; y; z; nx; ny; nz; s; t])
  end.

Definition buildInterleavedVertices (m : solid) : result stop solid :=
  out ← interleave_loop m (rounds (length (vertices m))) 0 [];
  Ok (set_interleaved out m).

(** [l[i] *= scale] *)
Definition scale_at (scale : f32) (l : list f32) (i : nat) : result stop (list f32) :=
  at_ l i ≫= (fun x : f32 => let y : f32 := x *. scale in Ok (<[i := y]> l)).

Definition scale3_at (scale : f32) (l : list f32) (i : nat) : result stop (list f32) :=
  l ← scale_at scale l i; l ← scale_at scale l (i + 1); scale_at scale l (i + 2).

(** The loop of [updateRadius]: round [k] has [i = 3k] and [j = 8k]. *)
Fixpoint rescale_loop (scale : f32) (todo k : nat) (m : solid) : result stop solid :=
  match todo with
  | O => Ok m
  | S todo =>
      vs ← scale3_at scale (vertices m) (3 * k);
      ivs ← scale3_at scale (interleavedVertices m) (8 * k);
      rescale_loop scale todo (S k) (set_interleaved ivs (set_vertices vs m))
  end.

Definition rescale (scale : f32) (m : solid) : result stop solid :=
  rescale_loop scale (rounds (length (vertices m))) 0 m.

(** [sqrtf(radius * radius / (x * x + y * y + z * z))], and at the first
    vertex. *)
Definition scale_to (radius x y z : f32) : f32 := SFsqrt 24 128 (radius *. radius /. (x *. x +. y *. y +. z *. z)).
Definition radius_scale (radius : f32) (m : solid) : result stop f32 :=
  x ← at_ (vertices m) 0; y ← at_ (vertices m) 1; z ← at_ (vertices m) 2;
  Ok (scale_to radius x y z).

(** The normal of a triangle, or zero if it has no surface. *)
Definition computeFaceNormal (v1 v2 v3 : float3) : float3 :=
  let EPSILON := f32_lit 1 1000000 in
  let '(x1, y1, z1) := v1 in
  let '(x2, y2, z2) := v2 in
  let '(x3, y3, z3) := v3 in
  let ex1 := x2 -. x1 in let ey1 := y2 -. y1 in let ez1 := z2 -. z1 in
  let ex2 := x3 -. x1 in let ey2 := y3 -. y1 in let ez2 := z3 -. z1 in
  let nx := ey1 *. ez2 -. ez1 *. ey2 in
  let ny := ez1 *. ex2 -. ex1 *. ez2 in
  let nz := ex1 *. ey2 -. ey1 *. ex2 in
  let length := SFsqrt 24 128 (nx *. nx +. ny *. ny +. nz *. nz) in
  if SFltb EPSILON length then
    let lengthInv := #1 /. length in (nx *. lengthInv, ny *. lengthInv, nz *. lengthInv)
  else (#0, #0, #0).

(** ** The invariant *)

Definition flat3 {A} (l : list (A * A * A)) : list A := l ≫= list3.
Definition flat2 {A} (l : list (A * A)) : list A := l ≫= list2.

(** One vertex of the interleaved array: position, normal, texture. *)
Fixpoint interleave (V N : list float3) (T : list float2) : list f32 :=
  match V, N, T with
  | v :: V, n :: N, t :: T => list3 v ++ list3 n ++ list2 t ++ interleave V N T
  | _, _, _ => []
  end.

(** Three of [n] vertices, different ones if [d]; and two. *)
Definition tri_ok (d : bool) (n : Z) (t : Z * Z * Z) : Prop :=
  let '(a, b, c) := t in (0 <= a < n /\ 0 <= b < n /\ 0 <= c < n) /\ (d = true -> a <> b /\ b <> c /\ a <> c).
Definition line_ok (d : bool) (n : Z) (l : Z * Z) : Prop :=
  let '(a, b) := l in (0 <= a < n /\ 0 <= b < n) /\ (d = true -> a <> b).

(** The arrays are those of [length V] vertices, [tris] triangles and [lines]
    lines between them. *)
Record arrays_ok (d : bool) (m : solid) (V N : list float3) (T : list float2) (tris : list (Z * Z * Z)) (lines : list (Z * Z)) : Prop := {
  ok_vertices : vertices m = flat3 V;
  ok_normals : normals m = flat3 N;
  ok_texCoords : texCoords m = flat2 T;
  ok_normals_len : length N = length V;
  ok_tex_len : length T = length V;
  ok_indices : indices m = flat3 tris;
  ok_lines : lineIndices m = flat2 lines;
  ok_tris : Forall (tri_ok d (Z.of_nat (length V))) tris;
  ok_edges : Forall (line_ok d (Z.of_nat (length V))) lines
}.

(** A finished mesh: the interleaved array is the other arrays interleaved. *)
Definition solid_ok (d : bool) (m : solid) (n ntris nlines : nat) : Prop :=
  exists V N T tris lines, arrays_ok d m V N T tris lines /\
    interleavedVertices m = interleave V N T /\ length V = n /\ length tris = ntris /\ length lines = nlines.
