(* ===== verification/SolidsTheory.v ===== *)
(** * Lemmas on the arrays of a mesh

    Building the interleaved array and rescaling keep the arrays together, and
    so does adding to them. *)

From S2P Require Import Prelude Float32 Solids.

(** ** Lemmas on the arrays *)

Lemma flat3_app {A} (l l' : list (A * A * A)) : flat3 (l ++ l') = flat3 l ++ flat3 l'.
Proof. apply bind_app. Qed.

Lemma flat2_app {A} (l l' : list (A * A)) : flat2 (l ++ l') = flat2 l ++ flat2 l'.
Proof. apply bind_app. Qed.

Lemma length_flat3 {A} (l : list (A * A * A)) : length (flat3 l) = (3 * length l)%nat.
Proof. induction l as [|[[x y] z] l IH]; [done|]. cbn in IH |- *. unfold flat3 in IH. cbn in IH. lia. Qed.

Lemma length_flat2 {A} (l : list (A * A)) : length (flat2 l) = (2 * length l)%nat.
Proof. induction l as [|[x y] l IH]; [done|]. cbn in IH |- *. unfold flat2 in IH. cbn in IH. lia. Qed.

Lemma rounds_3 n : rounds (3 * n) = n.
Proof. unfold rounds. rewrite Nat.mul_comm. rewrite Nat.div_add_l by lia. cbn. lia. Qed.

(** Reading element [r] of a group that follows [pre]. *)
Lemma at_app {A} (pre l : list A) i r x : i = (length pre + r)%nat -> l !! r = Some x -> at_ (pre ++ l) i = Ok x.
Proof. intros -> E. unfold at_. rewrite lookup_app_r by lia. by replace (length pre + r - length pre)%nat with r by lia; rewrite E. Qed.

Lemma interleave_length V N T : length N = length V -> length T = length V -> length (interleave V N T) = (8 * length V)%nat.
Proof.
  revert N T. induction V as [|[[??]?] V IH]; intros [|[[??]?] N] [|[??] T] HN HT; try done.
  cbn in *. rewrite IH by lia. lia.
Qed.

Lemma interleave_app V V' N N' T T' : length N = length V -> length T = length V ->
  interleave (V ++ V') (N ++ N') (T ++ T') = interleave V N T ++ interleave V' N' T'.
Proof.
  revert N T. induction V as [|v V IH]; intros [|n N] [|t T] HN HT; try done. cbn in *. rewrite IH by lia.
  by rewrite <- !app_assoc.
Qed.

Lemma at_flat3 {A} V1 (x y z : A) V2 k : k = length V1 ->
  let l := flat3 (V1 ++ (x, y, z) :: V2) in
  at_ l (3 * k) = Ok x /\ at_ l (3 * k + 1) = Ok y /\ at_ l (3 * k + 2) = Ok z.
Proof.
  intros -> l. unfold l. rewrite flat3_app. pose proof (length_flat3 V1).
  split; [|split]; [apply (at_app _ _ _ 0)|apply (at_app _ _ _ 1)|apply (at_app _ _ _ 2)]; done || lia.
Qed.

Lemma at_flat2 {A} T1 (s t : A) T2 k : k = length T1 ->
  let l := flat2 (T1 ++ (s, t) :: T2) in at_ l (2 * k) = Ok s /\ at_ l (2 * k + 1) = Ok t.
Proof.
  intros -> l. unfold l. rewrite flat2_app. pose proof (length_flat2 T1).
  split; [apply (at_app _ _ _ 0)|apply (at_app _ _ _ 1)]; done || lia.
Qed.

(** The loop from round [k] on, when the arrays are those of the vertices
    before [k] and from [k] on. *)
Lemma interleave_loop_spec m V1 N1 T1 V2 N2 T2 out :
  vertices m = flat3 (V1 ++ V2) -> normals m = flat3 (N1 ++ N2) -> texCoords m = flat2 (T1 ++ T2) ->
  length N1 = length V1 -> length T1 = length V1 -> length N2 = length V2 -> length T2 = length V2 ->
  interleave_loop m (length V2) (length V1) out = Ok (out ++ interleave V2 N2 T2).
Proof.
  revert V1 N1 T1 N2 T2 out. induction V2 as [|[[x y] z] V2 IH]; intros V1 N1 T1 N2 T2 out EV EN ET L1 L2 L3 L4.
  { cbn. by rewrite app_nil_r. }
  destruct N2 as [|[[nx ny] nz] N2]; [done|]. destruct T2 as [|[s t] T2]; [done|]. cbn [length interleave_loop].
  rewrite EV, EN, ET.
  destruct (at_flat3 V1 x y z V2 (length V1) eq_refl) as (-> & -> & ->). cbn [mbind result_bind].
  destruct (at_flat3 N1 nx ny nz N2 (length V1) ltac:(lia)) as (-> & -> & ->). cbn [mbind result_bind].
  destruct (at_flat2 T1 s t T2 (length V1) ltac:(lia)) as (-> & ->). cbn [mbind result_bind].
  replace (S (length V1)) with (length (V1 ++ [(x, y, z)])) by (rewrite length_app; cbn; lia).
  cbn [length] in *. rewrite (IH _ (N1 ++ [(nx, ny, nz)]) (T1 ++ [(s, t)]) N2 T2);
    rewrite <- ?app_assoc, ?length_app; cbn; (done || lia).
Qed.

Lemma buildInterleaved_spec m V N T :
  vertices m = flat3 V -> normals m = flat3 N -> texCoords m = flat2 T -> length N = length V -> length T = length V ->
  buildInterleavedVertices m = Ok (set_interleaved (interleave V N T) m).
Proof.
  intros EV EN ET L1 L2. unfold buildInterleavedVertices. rewrite EV, length_flat3, rounds_3.
  pose proof (interleave_loop_spec m [] [] [] V N T [] EV EN ET eq_refl eq_refl L1 L2) as E.
  cbn [length app] in E. by rewrite E.
Qed.

Lemma interleaved_ok d m V N T tris lines :
  arrays_ok d m V N T tris lines ->
  exists m', buildInterleavedVertices m = Ok m' /\ solid_ok d m' (length V) (length tris) (length lines).
Proof.
  intros H. eexists. split; [by eapply buildInterleaved_spec; destruct H|].
  exists V, N, T, tris, lines. split_and!; [|done..]. by destruct H; constructor.
Qed.

(** *** Rescaling *)

Definition mulf (scale x : f32) : f32 := SFmul 24 128 x scale.
Definition scale3 (scale : f32) (v : float3) : float3 :=
  let '(x, y, z) := v in (mulf scale x, mulf scale y, mulf scale z).

Lemma scale_at_app scale pre x l i :
  i = length pre -> scale_at scale (pre ++ x :: l) i = Ok (pre ++ mulf scale x :: l).
Proof.
  intros ->. unfold scale_at. rewrite (at_app _ _ _ 0 x) by (done || lia). cbn [mbind result_bind].
  rewrite insert_app_r_alt by lia. by rewrite Nat.sub_diag.
Qed.

Lemma scale3_at_app scale pre v l i :
  i = length pre -> scale3_at scale (pre ++ list3 v ++ l) i = Ok (pre ++ list3 (scale3 scale v) ++ l).
Proof.
  intros ->. destruct v as [[x y] z]. unfold scale3_at. cbn [list3 app scale3].
  rewrite scale_at_app by done. cbn [mbind result_bind]. rewrite (cons_middle _ pre), app_assoc.
  rewrite scale_at_app by (rewrite length_app; cbn; lia). cbn [mbind result_bind]. rewrite (cons_middle _ (pre ++ _)), app_assoc.
  rewrite scale_at_app by (rewrite !length_app; cbn; lia). by rewrite <- !app_assoc.
Qed.

Lemma rescale_loop_spec scale V1 N1 T1 V2 N2 T2 m :
  vertices m = flat3 (V1 ++ V2) -> interleavedVertices m = interleave (V1 ++ V2) (N1 ++ N2) (T1 ++ T2) ->
  length N1 = length V1 -> length T1 = length V1 -> length N2 = length V2 -> length T2 = length V2 ->
  rescale_loop scale (length V2) (length V1) m =
    Ok (set_interleaved (interleave (V1 ++ (scale3 scale <$> V2)) (N1 ++ N2) (T1 ++ T2))
         (set_vertices (flat3 (V1 ++ (scale3 scale <$> V2))) m)).
Proof.
  revert V1 N1 T1 N2 T2 m. induction V2 as [|v V2 IH]; intros V1 N1 T1 N2 T2 m EV EI L1 L2 L3 L4.
  { cbn. rewrite <- EV, <- EI. by destruct m. }
  destruct N2 as [|n N2]; [done|]. destruct T2 as [|t T2]; [done|]. cbn [length rescale_loop].
  rewrite EV, EI, flat3_app, interleave_app by done.
  change (flat3 (v :: V2)) with (list3 v ++ flat3 V2).
  rewrite scale3_at_app by by rewrite length_flat3. cbn [mbind result_bind interleave].
  rewrite scale3_at_app by by rewrite interleave_length. cbn [mbind result_bind].
  replace (S (length V1)) with (length (V1 ++ [scale3 scale v])) by (rewrite length_app; cbn; lia).
  cbn [length] in *. rewrite (IH _ (N1 ++ [n]) (T1 ++ [t]) N2 T2).
  - cbn. by rewrite <- !app_assoc.
  - cbn. rewrite <- app_assoc. by rewrite flat3_app.
  - cbn. rewrite <- !app_assoc. by rewrite interleave_app.
  - rewrite !length_app. cbn. lia.
  - rewrite !length_app. cbn. lia.
  - lia.
  - lia.
Qed.

Lemma rescale_ok d scale m n t l : solid_ok d m n t l -> exists m', rescale scale m = Ok m' /\ solid_ok d m' n t l.
Proof.
  intros (V & N & T & tris & lines & H & EI & <- & <- & <-). unfold rescale. destruct H as [EV EN ET L1 L2 EX EL HT HE].
  rewrite EV, length_flat3, rounds_3.
  pose proof (rescale_loop_spec scale [] [] [] V N T m EV EI eq_refl eq_refl L1 L2) as E.
  cbn [length app] in E. rewrite E. eexists. split; [done|].
  exists (scale3 scale <$> V), N, T, tris, lines. rewrite length_fmap. split_and!; [|done..].
  constructor; cbn; rewrite ?length_fmap; done.
Qed.

(** Rescaling and interleaving leave the texture coordinates alone. *)
Lemma rescale_texCoords scale m m' : rescale scale m = Ok m' -> texCoords m' = texCoords m.
Proof.
  unfold rescale. generalize (rounds (length (vertices m))), 0%nat. intros todo. revert m.
  induction todo as [|todo IH]; intros m k; cbn [rescale_loop]; [by intros [= ->]|].
  destruct (scale3_at scale (vertices m) _); [|done]. cbn [mbind result_bind].
  destruct (scale3_at scale (interleavedVertices m) _); [|done]. cbn [mbind result_bind]. by intros ->%IH.
Qed.

Lemma buildInterleaved_texCoords m m' : buildInterleavedVertices m = Ok m' -> texCoords m' = texCoords m.
Proof. unfold buildInterleavedVertices. destruct (interleave_loop _ _ _ _); [|done]. by intros [= <-]. Qed.

Lemma radius_scale_ok d radius m n t l : solid_ok d m n t l -> (0 < n)%nat -> exists s, radius_scale radius m = Ok s.
Proof.
  intros (V & N & T & tris & lines & H & _ & <- & _ & _) Hn. destruct V as [|[[x y] z] V]; [cbn in Hn; lia|].
  unfold radius_scale. rewrite (ok_vertices _ _ _ _ _ _ _ H). by eexists.
Qed.

(** *** A mesh under construction

    [nv] vertices, [nn] normals and [nx] texture coordinates so far, [nt]
    triangles and [nl] lines between the vertices below [n]. *)
Definition building (d : bool) (n : Z) (m : solid) (nv nn nx nt nl : nat) : Prop :=
  exists V N T tris lines,
    (vertices m = flat3 V /\ length V = nv) /\ (normals m = flat3 N /\ length N = nn) /\
    (texCoords m = flat2 T /\ length T = nx) /\
    (indices m = flat3 tris /\ length tris = nt /\ Forall (tri_ok d n) tris) /\
    (lineIndices m = flat2 lines /\ length lines = nl /\ Forall (line_ok d n) lines).

Lemma building_clear d n m : building d n (clearArrays m) 0 0 0 0 0.
Proof. exists [], [], [], [], []. by split_and!. Qed.

Lemma building_mono d n n' m nv nn nx nt nl : n <= n' -> building d n m nv nn nx nt nl -> building d n' m nv nn nx nt nl.
Proof.
  intros Hn (V & N & T & tris & lines & HV & HN & HT & (? & ? & Ht) & (? & ? & Hl)).
  exists V, N, T, tris, lines. split_and!; try (done || apply HV || apply HN || apply HT).
  - eapply Forall_impl; [exact Ht|]. intros [[??]?] [??]. split; [lia|done].
  - eapply Forall_impl; [exact Hl|]. intros [??] [??]. split; [lia|done].
Qed.

Section building.
Context (d : bool) (n : Z) (m : solid) (nv nn nx nt nl : nat).

Lemma building_addVertex v : building d n m nv nn nx nt nl -> building d n (addVertex v m) (nv + 1) nn nx nt nl.
Proof.
  intros (V & N & T & tris & lines & [E <-] & H). exists (V ++ [v]), N, T, tris, lines. split; [|done]. cbn.
  rewrite E, flat3_app, length_app. cbn. by rewrite app_nil_r.
Qed.

Lemma building_addNormal v : building d n m nv nn nx nt nl -> building d n (addNormal v m) nv (nn + 1) nx nt nl.
Proof.
  intros (V & N & T & tris & lines & HV & [E <-] & H). exists V, (N ++ [v]), T, tris, lines. split; [done|]. split; [|done].
  cbn. rewrite E, flat3_app, length_app. cbn. by rewrite app_nil_r.
Qed.

Lemma building_addTexCoord t : building d n m nv nn nx nt nl -> building d n (addTexCoord t m) nv nn (nx + 1) nt nl.
Proof.
  intros (V & N & T & tris & lines & HV & HN & [E <-] & H). exists V, N, (T ++ [t]), tris, lines. split; [done|].
  split; [done|]. split; [|done]. cbn. rewrite E, flat2_app, length_app. cbn. by rewrite app_nil_r.
Qed.

Lemma building_addIndices a b c : n <= 2 ^ 32 -> tri_ok d n (a, b, c) ->
  building d n m nv nn nx nt nl -> building d n (addIndices a b c m) nv nn nx (nt + 1) nl.
Proof.
  intros Hn Ht (V & N & T & tris & lines & HV & HN & HT & (E & <- & Hf) & Hl).
  exists V, N, T, (tris ++ [(a, b, c)]), lines. split_and!; try (done || apply HV || apply HN || apply HT || apply Hl); cbn.
  - rewrite E, flat3_app. cbn. unfold tri_ok in Ht. rewrite !wrap_small by (unfold in_u; lia). done.
  - by rewrite length_app.
  - apply Forall_app. auto.
Qed.

Lemma building_addLine a b : n <= 2 ^ 32 -> line_ok d n (a, b) ->
  building d n m nv nn nx nt nl -> building d n (addLine a b m) nv nn nx nt (nl + 1).
Proof.
  intros Hn Ht (V & N & T & tris & lines & HV & HN & HT & Htr & (E & <- & Hf)).
  exists V, N, T, tris, (lines ++ [(a, b)]). split_and!; try (done || apply HV || apply HN || apply HT || apply Htr); cbn.
  - rewrite E, flat2_app. cbn. unfold line_ok in Ht. rewrite !wrap_small by (unfold in_u; lia). done.
  - by rewrite length_app.
  - apply Forall_app. auto.
Qed.

(** The counts may be given by equations. *)
Lemma building_eq nv' nn' nx' nt' nl' :
  nv = nv' -> nn = nn' -> nx = nx' -> nt = nt' -> nl = nl' -> building d n m nv nn nx nt nl -> building d n m nv' nn' nx' nt' nl'.
Proof. by intros -> -> -> -> ->. Qed.
End building.

Lemma addVertices_eq v1 v2 v3 m : addVertices v1 v2 v3 m = addVertex v3 (addVertex v2 (addVertex v1 m)).
Proof. unfold addVertices, addVertex. cbn. by rewrite <- !app_assoc. Qed.

Lemma addNormals_eq v1 v2 v3 m : addNormals v1 v2 v3 m = addNormal v3 (addNormal v2 (addNormal v1 m)).
Proof. unfold addNormals, addNormal. cbn. by rewrite <- !app_assoc. Qed.

Lemma addTexCoords_eq v1 v2 v3 m : addTexCoords v1 v2 v3 m = addTexCoord v3 (addTexCoord v2 (addTexCoord v1 m)).
Proof. unfold addTexCoords, addTexCoord. cbn. by rewrite <- !app_assoc. Qed.

(** A mesh as it is once its last vertex has been added. *)
Lemma building_done d k m nt nl : building d (Z.of_nat k) m k k k nt nl ->
  exists m', buildInterleavedVertices m = Ok m' /\ solid_ok d m' k nt nl.
Proof.
  intros (V & N & T & tris & lines & [EV <-] & [EN HN] & [ET HT] & (EX & <- & Ht) & (EL & <- & Hl)).
  apply (interleaved_ok d m V N T tris lines). by constructor.
Qed.

(** A goal [building ...]: the mesh by the steps that made it, its counts up to
    arithmetic. *)
Ltac build := 
  eapply building_eq; [..|repeat first [eassumption | apply building_addVertex | apply building_addNormal
    | apply building_addTexCoord | apply building_addIndices | apply building_addLine | apply building_clear]]; cbn;
  try (lia || (unfold tri_ok, line_ok; split; [lia|intros _; lia])).

(** *** Loops *)

Lemma for_each_inv {A S} (I : nat -> S -> Prop) (body : A -> S -> result stop S) l s :
  (forall k a s, l !! k = Some a -> I k s -> exists s', body a s = Ok s' /\ I (1 + k)%nat s') ->
  I 0%nat s -> exists s', for_each body l s = Ok s' /\ I (length l) s'.
Proof.
  revert I s. induction l as [|a l IH]; intros I s Hb H0; [by exists s|].
  destruct (Hb 0%nat a s eq_refl H0) as (s1 & E & H1). cbn [for_each length]. rewrite E. cbn [mbind result_bind].
  apply (IH (fun k => I (1 + k)%nat)); [|done]. intros k b s2 Hk. by apply (Hb (1 + k)%nat).
Qed.
