(* ===== verification/Sphere.v ===== *)
(** * The sphere of sectors and stacks

    include/mutils/geometry/sphere.h: class [Sphere]. The functions [cosf] and
    [sinf] of the C library, whose rounding is not specified, are parameters. *)

From S2P Require Import Prelude Float32 Solids.
Import F32Notations.

Definition MIN_SECTOR_COUNT : Z := 3.
Definition MIN_STACK_COUNT : Z := 2.

(** The members; [interleavedStride] is 32 from the constructor on. *)
Record Sphere : Type := mkSphere { radius : f32; sectorCount : Z; stackCount : Z; smooth : bool; arrays : solid }.

Definition with_arrays (m : solid) (s : Sphere) : Sphere := mkSphere (radius s) (sectorCount s) (stackCount s) (smooth s) m.
Definition interleavedStride : Z := 32.

Section Sphere.
Context (cosf sinf : f32 -> f32).

Definition PI : f32 := f32_lit 31415926 10000000.
Definition sectorStep (s : Sphere) : f32 := #2 *. PI /. #(sectorCount s).
Definition stackStep (s : Sphere) : f32 := PI /. #(stackCount s).

(** Position and texture coordinates of vertex [j] of stack [i]. *)
Definition sphere_position (s : Sphere) (i j : Z) : float3 :=
  let stackAngle := PI /. #2 -. #i *. stackStep s in
  let xy := radius s *. cosf stackAngle in
  let z := radius s *. sinf stackAngle in
  let sectorAngle := #j *. sectorStep s in
  (xy *. cosf sectorAngle, xy *. sinf sectorAngle, z).
Definition sphere_texture (s : Sphere) (i j : Z) : float2 := (#j /. #(sectorCount s), #i /. #(stackCount s)).

(** ** Smooth shading *)

Definition smooth_vertex (s : Sphere) (i j : Z) (m : solid) : result stop solid :=
  let lengthInv := #1 /. radius s in
  let '(x, y, z) := sphere_position s i j in
  let m := addVertex (x, y, z) m in
  let m := addNormal (x *. lengthInv, y *. lengthInv, z *. lengthInv) m in
  Ok (addTexCoord (sphere_texture s i j) m).

(** One round of the loop over the sectors of stack [i]; [k1] and [k2] are
    [unsigned]. *)
Definition smooth_sector (s : Sphere) (i : Z) (j : Z) (st : solid * Z * Z) : result stop (solid * Z * Z) :=
  let '(m, k1, k2) := st in
  let m := if negb (i =? 0) then addIndices k1 k2 (k1 + 1) m else m in
  let m := if negb (i =? stackCount s - 1) then addIndices (k1 + 1) k2 (k2 + 1) m else m in
  let m := addLine k1 k2 m in
  let m := if negb (i =? 0) then addLine k1 (k1 + 1) m else m in
  Ok (m, u32 (k1 + 1), u32 (k2 + 1)).

Definition smooth_stack (s : Sphere) (i : Z) (m : solid) : result stop solid :=
  w ← s_check 32 (sectorCount s + 1);
  k ← s_check 32 (i * w);
  let k1 := u32 k in
  let k2 := u32 (k1 + sectorCount s + 1) in
  st ← for_each (smooth_sector s i) (seqZ 0 (sectorCount s)) (m, k1, k2);
  Ok st.1.1.

Definition buildVerticesSmooth (s : Sphere) : result stop Sphere :=
  let m := clearArrays (arrays s) in
  rows ← int_upto (stackCount s);
  m ← for_each (fun i m => cols ← int_upto (sectorCount s); for_each (smooth_vertex s i) cols m) rows m;
  m ← for_each (smooth_stack s) (seqZ 0 (stackCount s)) m;
  m ← buildInterleavedVertices m;
  Ok (with_arrays m s).

(** ** Flat shading *)

(** [Vertex]: position and texture coordinates. *)
Definition Vertex : Type := float3 * float2.

Definition tmp_vertices (s : Sphere) : result stop (list Vertex) :=
  rows ← int_upto (stackCount s);
  for_each (fun i tmp =>
    cols ← int_upto (sectorCount s);
    for_each (fun j tmp => Ok (tmp ++ [(sphere_position s i j, sphere_texture s i j)])) cols tmp) rows [].

Definition put_triangle (v1 v2 v3 : Vertex) (index : Z) (m : solid) : solid :=
  let m := addVertex v3.1 (addVertex v2.1 (addVertex v1.1 m)) in
  let m := addTexCoord v3.2 (addTexCoord v2.2 (addTexCoord v1.2 m)) in
  let n := computeFaceNormal v1.1 v2.1 v3.1 in
  let m := addNormal n (addNormal n (addNormal n m)) in
  addIndices index (index + 1) (index + 2) m.

Definition put_quad (v1 v2 v3 v4 : Vertex) (index : Z) (m : solid) : solid :=
  let m := addVertex v4.1 (addVertex v3.1 (addVertex v2.1 (addVertex v1.1 m))) in
  let m := addTexCoord v4.2 (addTexCoord v3.2 (addTexCoord v2.2 (addTexCoord v1.2 m))) in
  let n := computeFaceNormal v1.1 v2.1 v3.1 in
  let m := addNormal n (addNormal n (addNormal n (addNormal n m))) in
  let m := addIndices index (index + 1) (index + 2) m in
  addIndices (index + 2) (index + 1) (index + 3) m.

(** One round of the loop over the sectors of stack [i]. The sums with [index]
    are smaller than the value it gets at the end, which is checked. *)
Definition flat_sector (s : Sphere) (tmp : list Vertex) (i : Z) (j : Z) (st : solid * Z * Z * Z) :
  result stop (solid * Z * Z * Z) :=
  let '(m, index, vi1, vi2) := st in
  v1 ← atZ tmp vi1; v2 ← atZ tmp vi2; v3 ← atZ tmp (vi1 + 1); v4 ← atZ tmp (vi2 + 1);
  let '(m, next) :=
    if i =? 0 then
      (addLine index (index + 1) (put_triangle v1 v2 v4 index m), index + 3)
    else if i =? stackCount s - 1 then
      (addLine index (index + 2) (addLine index (index + 1) (put_triangle v1 v2 v3 index m)), index + 3)
    else
      (addLine index (index + 2) (addLine index (index + 1) (put_quad v1 v2 v3 v4 index m)), index + 4) in
  index ← s_check 32 next; vi1 ← s_check 32 (vi1 + 1); vi2 ← s_check 32 (vi2 + 1);
  Ok (m, index, vi1, vi2).

Definition flat_stack (s : Sphere) (tmp : list Vertex) (i : Z) (st : solid * Z) : result stop (solid * Z) :=
  w ← s_check 32 (sectorCount s + 1);
  vi1 ← s_check 32 (i * w);
  vi2 ← s_check 32 ((i + 1) * w);
  st ← for_each (flat_sector s tmp i) (seqZ 0 (sectorCount s)) (st.1, st.2, vi1, vi2);
  Ok (st.1.1.1, st.1.1.2).

Definition buildVerticesFlat (s : Sphere) : result stop Sphere :=
  tmp ← tmp_vertices s;
  let m := clearArrays (arrays s) in
  st ← for_each (flat_stack s tmp) (seqZ 0 (stackCount s)) (m, 0);
  m ← buildInterleavedVertices st.1;
  Ok (with_arrays m s).

(** ** The constructor and the setters *)

Definition rebuild (s : Sphere) : result stop Sphere :=
  if smooth s then buildVerticesSmooth s else buildVerticesFlat s.

Definition set_ (radius : f32) (sectors stacks : Z) (smooth : bool) (s : Sphere) : result stop Sphere :=
  let count := sectors in
  let count := if sectors <? MIN_SECTOR_COUNT then MIN_SECTOR_COUNT else count in
  let count := if sectors <? MIN_STACK_COUNT then MIN_STACK_COUNT else count in
  rebuild (mkSphere radius count stacks smooth (arrays s)).

(** The members are not initialised before [set]; their values do not matter. *)
Definition Sphere_make (radius : f32) (sectors stacks : Z) (smooth : bool) : result stop Sphere :=
  set_ radius sectors stacks smooth (mkSphere radius 0 0 smooth no_solid).

Definition updateRadius (s : Sphere) : result stop Sphere :=
  scale ← radius_scale (radius s) (arrays s);
  m ← rescale scale (arrays s);
  Ok (with_arrays m s).

Definition setRadius (radius : f32) (s : Sphere) : result stop Sphere :=
  updateRadius (mkSphere radius (sectorCount s) (stackCount s) (smooth s) (arrays s)).
Definition setSectorCount (sectors : Z) (s : Sphere) : result stop Sphere := set_ (radius s) sectors (stackCount s) (smooth s) s.
Definition setStackCount (stacks : Z) (s : Sphere) : result stop Sphere := set_ (radius s) (sectorCount s) stacks (smooth s) s.
Definition setSmooth (smooth_ : bool) (s : Sphere) : result stop Sphere :=
  if Bool.eqb (smooth s) smooth_ then Ok s
  else rebuild (mkSphere (radius s) (sectorCount s) (stackCount s) smooth_ (arrays s)).
End Sphere.

(** ** The getters *)

Definition getVertexCount (s : Sphere) : Z := u32 (Z.of_nat (length (vertices (arrays s)))) / 3.
Definition getIndexCount (s : Sphere) : Z := u32 (Z.of_nat (length (indices (arrays s)))).
Definition getTriangleCount (s : Sphere) : Z := getIndexCount s / 3.
