(* ===== verification/SphereTheory.v ===== *)
(** * Theorems on the sphere

    Whatever its setters are called with, a sphere of at least two stacks is a
    well-formed mesh of the numbers of sectors and stacks asked for. *)

From S2P Require Import Prelude Float32 Solids SolidsTheory Sphere.

(** The counts for which the indices are known to fit. *)
Definition count_ok (s : Sphere) : Prop := 2 <= sectorCount s <= 2 ^ 14 /\ 2 <= stackCount s <= 2 ^ 14.

Lemma int_upto_ok n : 0 <= n <= 2 ^ 14 -> int_upto n = Ok (seqZ 0 (n + 1)) /\ length (seqZ 0 (n + 1)) = Z.to_nat (n + 1).
Proof. intros. unfold int_upto. replace (n =? 2 ^ 31 - 1) with false by lia. by rewrite length_seqZ. Qed.

(** A loop over [0..n-1]. *)
Lemma for_seq_inv {S} (I : Z -> S -> Prop) (body : Z -> S -> result stop S) n s :
  0 <= n -> (forall k s, 0 <= k < n -> I k s -> exists s', body k s = Ok s' /\ I (k + 1) s') ->
  I 0 s -> exists s', for_each body (seqZ 0 n) s = Ok s' /\ I n s'.
Proof.
  intros Hn Hb H0. destruct (for_each_inv (fun k => I (Z.of_nat k)) body (seqZ 0 n) s) as (s' & E & HI); [|done|].
  - intros k a s1 [-> Hk]%lookup_seqZ HI. destruct (Hb (Z.of_nat k) s1 ltac:(lia) HI) as (s2 & E & H2).
    exists s2. rewrite Z.add_0_l, E. split; [done|]. by replace (Z.of_nat (1 + k)) with (Z.of_nat k + 1) by lia.
  - rewrite length_seqZ, Z2Nat.id in HI by done. eauto.
Qed.

Section theory.
Context (cosf sinf : f32 -> f32).

(** Triangles and lines of the first [k] stacks: one triangle for each sector
    of the first and of the last stack and two for the others; one line in the
    first stack and two in the others. *)
Definition tris_upto (s : Sphere) (k : Z) : Z :=
  sectorCount s * (2 * k - (if k =? 0 then 0 else 1) - (if k =? stackCount s then 1 else 0)).
Definition lines_upto (s : Sphere) (k : Z) : Z := sectorCount s * (2 * k - (if k =? 0 then 0 else 1)).

(** ** Smooth shading *)

Definition smooth_count (s : Sphere) : Z := (stackCount s + 1) * (sectorCount s + 1).

Lemma smooth_sector_ok s i j m nv nt nl :
  count_ok s -> 0 <= i < stackCount s -> 0 <= j < sectorCount s ->
  building true (smooth_count s) m nv nv nv nt nl ->
  let k1 := i * (sectorCount s + 1) + j in
  exists m', smooth_sector s i j (m, k1, k1 + sectorCount s + 1) = Ok (m', k1 + 1, k1 + sectorCount s + 1 + 1) /\
    building true (smooth_count s) m' nv nv nv
      (nt + ((if i =? 0 then 0 else 1) + (if i =? stackCount s - 1 then 0 else 1)))
      (nl + (1 + (if i =? 0 then 0 else 1))).
Proof.
  intros [Hc Hs] Hi Hj Hb k1. unfold smooth_count in *.
  assert (0 <= k1 /\ k1 + sectorCount s + 2 < (stackCount s + 1) * (sectorCount s + 1)) as [H1 H2] by (unfold k1; nia).
  assert ((stackCount s + 1) * (sectorCount s + 1) < 2 ^ 32) by nia. clearbody k1.
  cbv beta iota zeta delta [smooth_sector]. rewrite !(wrap_small 32) by (unfold in_u; lia).
  eexists. split; [done|]. destruct (i =? 0), (i =? stackCount s - 1); cbn [negb]; build.
Qed.

Lemma smooth_stack_ok s i m nv nt nl :
  count_ok s -> 0 <= i < stackCount s -> building true (smooth_count s) m nv nv nv nt nl ->
  exists m', smooth_stack s i m = Ok m' /\
    building true (smooth_count s) m' nv nv nv
      (nt + Z.to_nat (sectorCount s) * ((if i =? 0 then 0 else 1) + (if i =? stackCount s - 1 then 0 else 1)))
      (nl + Z.to_nat (sectorCount s) * (1 + (if i =? 0 then 0 else 1))).
Proof.
  intros Hok Hi Hb. destruct Hok as [Hc Hs] eqn:Eok. clear Eok. unfold smooth_stack.
  rewrite !s_check_ok by (unfold in_s; lia). cbn [mbind result_bind].
  assert (0 <= i * (sectorCount s + 1) < 2 ^ 30) by nia. rewrite s_check_ok by (unfold in_s; lia).
  cbn [mbind result_bind]. rewrite (wrap_small 32 (i * _)) by (unfold in_u; lia).
  rewrite (wrap_small 32) by (unfold in_u; lia). set (k := i * (sectorCount s + 1)) in *.
  destruct (for_seq_inv (fun j st => exists m', st = (m', k + j, k + j + sectorCount s + 1) /\
      building true (smooth_count s) m' nv nv nv
        (nt + Z.to_nat j * ((if i =? 0 then 0 else 1) + (if i =? stackCount s - 1 then 0 else 1)))
        (nl + Z.to_nat j * (1 + (if i =? 0 then 0 else 1))))
    (smooth_sector s i) (sectorCount s) (m, k, k + sectorCount s + 1)) as (st & E & m' & -> & Hm'); [lia| | |].
  - intros j st Hj (m1 & -> & Hm1).
    destruct (smooth_sector_ok s i j m1 nv _ _ ltac:(done) Hi Hj Hm1) as (m2 & E & Hm2). fold k in E.
    eexists. split; [exact E|]. exists m2. split; [f_equal; [f_equal|]; lia|]. revert Hm2. apply building_eq; nia.
  - exists m. split; [f_equal; [f_equal|]; lia|]. revert Hb. apply building_eq; lia.
  - rewrite E. eexists. split; [done|]. done.
Qed.

Lemma smooth_vertices_ok s m0 :
  count_ok s -> building true (smooth_count s) m0 0 0 0 0 0 ->
  exists m, for_each (fun i m => cols ← int_upto (sectorCount s); for_each (smooth_vertex cosf sinf s i) cols m)
      (seqZ 0 (stackCount s + 1)) m0 = Ok m /\
    building true (smooth_count s) m (Z.to_nat (smooth_count s)) (Z.to_nat (smooth_count s)) (Z.to_nat (smooth_count s)) 0 0.
Proof.
  intros [Hc Hs] Hb. destruct (int_upto_ok (sectorCount s)) as [-> _]; [lia|]. cbn [mbind result_bind].
  destruct (for_seq_inv (fun i m => let n := Z.to_nat (i * (sectorCount s + 1)) in building true (smooth_count s) m n n n 0 0)
    (fun i m => for_each (smooth_vertex cosf sinf s i) (seqZ 0 (sectorCount s + 1)) m) (stackCount s + 1) m0)
    as (m & E & Hm); [lia| |done|exists m; split; [exact E|exact Hm]].
  intros i m Hi Hm. cbn zeta in *.
  destruct (for_seq_inv (fun j m => let n := Z.to_nat (i * (sectorCount s + 1) + j) in building true (smooth_count s) m n n n 0 0)
    (smooth_vertex cosf sinf s i) (sectorCount s + 1) m) as (m' & E & Hm'); [lia| | |].
  - intros j m1 Hj Hm1. unfold smooth_vertex. destruct (sphere_position _ _ _ _ _) as [[x y] z].
    eexists. split; [done|]. cbn zeta in *. build.
  - cbn zeta. by rewrite Z.add_0_r.
  - exists m'. split; [done|]. cbn zeta in Hm'. revert Hm'. apply building_eq; lia.
Qed.

(** What a finished sphere is. *)
Definition vertex_count (s : Sphere) : Z :=
  if smooth s then (stackCount s + 1) * (sectorCount s + 1) else sectorCount s * (4 * stackCount s - 2).
Definition sphere_ok (s : Sphere) : Prop :=
  count_ok s /\ solid_ok true (arrays s) (Z.to_nat (vertex_count s))
    (Z.to_nat (2 * sectorCount s * (stackCount s - 1))) (Z.to_nat (sectorCount s * (2 * stackCount s - 1))).

Lemma buildVerticesSmooth_ok s : count_ok s -> smooth s = true ->
  exists s', buildVerticesSmooth cosf sinf s = Ok s' /\ sphere_ok s' /\ s' = with_arrays (arrays s') s.
Proof.
  intros Hok Hsm. pose proof Hok as [Hc Hs]. unfold buildVerticesSmooth.
  destruct (int_upto_ok (stackCount s)) as [-> _]; [lia|]. cbn [mbind result_bind].
  destruct (smooth_vertices_ok s (clearArrays (arrays s)) Hok (building_clear _ _ _)) as (m1 & -> & H1). cbn [mbind result_bind].
  set (nv := Z.to_nat (smooth_count s)) in *.
  destruct (for_seq_inv (fun i m => building true (smooth_count s) m nv nv nv (Z.to_nat (tris_upto s i)) (Z.to_nat (lines_upto s i)))
    (smooth_stack s) (stackCount s) m1) as (m2 & -> & H2); [lia| | |].
  - intros i m Hi Hm. destruct (smooth_stack_ok s i m nv _ _ Hok Hi Hm) as (m' & E & Hm'). exists m'. split; [done|].
    revert Hm'. unfold tris_upto, lines_upto. apply building_eq; try lia.
    + destruct (Z.eqb_spec i 0), (Z.eqb_spec i (stackCount s - 1)), (Z.eqb_spec (i + 1) 0), (Z.eqb_spec i (stackCount s)),
        (Z.eqb_spec (i + 1) (stackCount s)); try lia; nia.
    + destruct (Z.eqb_spec i 0), (Z.eqb_spec (i + 1) 0); try lia; nia.
  - revert H1. unfold tris_upto, lines_upto. replace (0 =? stackCount s) with false by lia.
    apply building_eq; cbn; lia.
  - cbn [mbind result_bind]. destruct (building_done true nv m2 (Z.to_nat (tris_upto s (stackCount s))) (Z.to_nat (lines_upto s (stackCount s)))) as (m3 & -> & H3).
    { revert H2. apply building_mono. unfold nv. rewrite Z2Nat.id; [done|unfold smooth_count; nia]. }
    cbn [mbind result_bind]. eexists. split; [done|]. split; [|done]. split; [done|]. revert H3.
    unfold vertex_count, tris_upto, lines_upto, smooth_count, nv. cbn. rewrite Hsm, Z.eqb_refl.
    replace (stackCount s =? 0) with false by lia. intros H3.
    replace (2 * sectorCount s * (stackCount s - 1)) with (sectorCount s * (2 * stackCount s - 1 - 1)) by lia. exact H3.
Qed.

(** ** Flat shading *)

Lemma tmp_vertices_ok s : count_ok s ->
  exists tmp, tmp_vertices cosf sinf s = Ok tmp /\ length tmp = Z.to_nat (smooth_count s).
Proof.
  intros [Hc Hs]. unfold tmp_vertices. destruct (int_upto_ok (stackCount s)) as [-> _]; [lia|].
  destruct (int_upto_ok (sectorCount s)) as [-> _]; [lia|]. cbn [mbind result_bind].
  apply (for_seq_inv (fun i tmp => length tmp = Z.to_nat (i * (sectorCount s + 1)))); [lia| |done].
  intros i tmp Hi Ht.
  edestruct (for_seq_inv (fun j (tmp : list Vertex) => length tmp = Z.to_nat (i * (sectorCount s + 1) + j))) as (tmp' & -> & Hm');
    [| | |exists tmp'; split; [reflexivity|]]; [lia| |cbn beta; rewrite Ht; f_equal; lia|rewrite Hm'; f_equal; lia].
  intros j tmp1 Hj Ht1. eexists. split; [done|]. unfold Vertex in Ht1. rewrite length_app, Ht1. cbn. lia.
Qed.

Lemma atZ_ok {A} (l : list A) i : 0 <= i < Z.of_nat (length l) -> exists x, atZ l i = Ok x.
Proof.
  intros Hi. unfold atZ, at_. replace (i <? 0) with false by lia.
  destruct (lookup_lt_is_Some_2 l (Z.to_nat i)) as [x ->]; [lia|]. by exists x.
Qed.

(** Vertices, triangles and lines of one sector of stack [i]. *)
Definition ends (s : Sphere) (i : Z) : bool := (i =? 0) || (i =? stackCount s - 1).
Definition sector_verts (s : Sphere) (i : Z) : nat := if ends s i then 3 else 4.
Definition sector_tris (s : Sphere) (i : Z) : nat := if ends s i then 1 else 2.
Definition sector_lines (i : Z) : nat := if i =? 0 then 1 else 2.

Lemma flat_sector_ok s tmp n i j m vi1 vi2 nv nt nl :
  building true n m nv nv nv nt nl -> Z.of_nat (nv + sector_verts s i) <= n < 2 ^ 31 ->
  0 <= vi1 < vi2 -> vi2 + 1 < Z.of_nat (length tmp) < 2 ^ 31 - 1 ->
  exists m', flat_sector s tmp i j (m, Z.of_nat nv, vi1, vi2) =
      Ok (m', Z.of_nat (nv + sector_verts s i), vi1 + 1, vi2 + 1) /\
    building true n m' (nv + sector_verts s i) (nv + sector_verts s i) (nv + sector_verts s i)
      (nt + sector_tris s i) (nl + sector_lines i).
Proof.
  intros Hb Hn H1 H2. unfold flat_sector.
  destruct (atZ_ok tmp vi1) as [v1 ->]; [lia|]. destruct (atZ_ok tmp vi2) as [v2 ->]; [lia|].
  destruct (atZ_ok tmp (vi1 + 1)) as [v3 ->]; [lia|]. destruct (atZ_ok tmp (vi2 + 1)) as [v4 ->]; [lia|].
  cbn [mbind result_bind]. unfold sector_verts, sector_tris, sector_lines, ends in *.
  destruct (i =? 0); [|destruct (i =? stackCount s - 1)]; cbn [orb] in *;
    rewrite !s_check_ok by (unfold in_s; lia); cbn [mbind result_bind];
    (eexists; split; [f_equal; f_equal; f_equal; f_equal; lia|]); unfold put_triangle, put_quad; build.
Qed.

Definition verts_upto (s : Sphere) (k : Z) : Z :=
  sectorCount s * (4 * k - (if k =? 0 then 0 else 1) - (if k =? stackCount s then 1 else 0)).

Lemma flat_stack_ok s tmp n i m nv nt nl :
  count_ok s -> 0 <= i < stackCount s -> length tmp = Z.to_nat (smooth_count s) ->
  building true n m nv nv nv nt nl -> Z.of_nat nv + sectorCount s * Z.of_nat (sector_verts s i) <= n < 2 ^ 31 ->
  let c := Z.to_nat (sectorCount s) in
  let nv' := (nv + c * sector_verts s i)%nat in
  exists m', flat_stack s tmp i (m, Z.of_nat nv) = Ok (m', Z.of_nat nv') /\
    building true n m' nv' nv' nv' (nt + c * sector_tris s i) (nl + c * sector_lines i).
Proof.
  intros [Hc Hs] Hi Ht Hb Hn c nv'. unfold flat_stack, smooth_count in *.
  assert (0 <= i * (sectorCount s + 1) /\ (i + 1) * (sectorCount s + 1) < 2 ^ 30) as [Hlo Hhi] by nia.
  rewrite !s_check_ok by (unfold in_s; lia). cbn [mbind result_bind]. rewrite !s_check_ok by (unfold in_s; lia).
  cbn [mbind result_bind fst snd]. set (w := i * (sectorCount s + 1)) in *.
  destruct (for_seq_inv (fun j st => let k := (nv + Z.to_nat j * sector_verts s i)%nat in
      exists m', st = (m', Z.of_nat k, w + j, w + sectorCount s + 1 + j) /\
        building true n m' k k k (nt + Z.to_nat j * sector_tris s i) (nl + Z.to_nat j * sector_lines i))
    (flat_sector s tmp i) (sectorCount s) (m, Z.of_nat nv, w, (i + 1) * (sectorCount s + 1))) as (st & E & m' & -> & Hm'); [lia| | |].
  - intros j st Hj (m1 & -> & Hm1). destruct (flat_sector_ok s tmp n i j m1 (w + j) (w + sectorCount s + 1 + j) _ _ _ Hm1)
      as (m2 & E & Hm2); [unfold sector_verts in *; destruct (ends s i); lia|lia| |].
    { rewrite Ht, Z2Nat.id by nia. unfold w in *. nia. }
    eexists. split; [exact E|]. exists m2.
    replace (nv + Z.to_nat (j + 1) * sector_verts s i)%nat with (nv + Z.to_nat j * sector_verts s i + sector_verts s i)%nat by lia.
    split; [f_equal; [f_equal|]; lia|]. revert Hm2. apply building_eq; lia.
  - exists m. split; [f_equal; [f_equal; [f_equal|]|]; lia|]. revert Hb. apply building_eq; lia.
  - rewrite E. exists m'. split; [done|]. exact Hm'.
Qed.

Lemma buildVerticesFlat_ok s : count_ok s -> smooth s = false ->
  exists s', buildVerticesFlat cosf sinf s = Ok s' /\ sphere_ok s' /\ s' = with_arrays (arrays s') s.
Proof.
  intros Hok Hsm. pose proof Hok as [Hc Hs]. unfold buildVerticesFlat.
  destruct (tmp_vertices_ok s Hok) as (tmp & -> & Ht). cbn [mbind result_bind].
  set (n := sectorCount s * (4 * stackCount s - 2)).
  destruct (for_seq_inv (fun i st => exists m, st = (m, verts_upto s i) /\ let nv := Z.to_nat (verts_upto s i) in
      building true n m nv nv nv (Z.to_nat (tris_upto s i)) (Z.to_nat (lines_upto s i)))
    (flat_stack s tmp) (stackCount s) (clearArrays (arrays s), 0)) as (st & -> & m & -> & Hm); [lia| | |].
  - intros i st Hi (m & -> & Hm). cbn zeta in *.
    assert (0 <= verts_upto s i /\ verts_upto s (i + 1) = verts_upto s i + sectorCount s * Z.of_nat (sector_verts s i) /\
            verts_upto s (i + 1) <= n < 2 ^ 31 /\
            Z.to_nat (tris_upto s (i + 1)) = (Z.to_nat (tris_upto s i) + Z.to_nat (sectorCount s) * sector_tris s i)%nat /\
            Z.to_nat (lines_upto s (i + 1)) = (Z.to_nat (lines_upto s i) + Z.to_nat (sectorCount s) * sector_lines i)%nat)
      as (H0 & Hv & Hn & Hti & Hli).
    { unfold verts_upto, tris_upto, lines_upto, sector_verts, sector_tris, sector_lines, ends, n.
      destruct (Z.eqb_spec i 0), (Z.eqb_spec i (stackCount s - 1)), (Z.eqb_spec (i + 1) 0), (Z.eqb_spec i (stackCount s)),
        (Z.eqb_spec (i + 1) (stackCount s)); cbn [orb]; try lia; split_and!; nia. }
    destruct (flat_stack_ok s tmp n i m _ _ _ Hok Hi Ht Hm) as (m' & E & Hm').
    { rewrite Z2Nat.id by done. lia. }
    rewrite Z2Nat.id in E by done. eexists. split; [exact E|]. exists m'. rewrite Hti, Hli, Hv. split; [f_equal; nia|].
    cbn zeta. revert Hm'. apply building_eq; try done; nia.
  - exists (clearArrays (arrays s)). unfold verts_upto, tris_upto, lines_upto. replace (0 =? stackCount s) with false by lia.
    rewrite Z.eqb_refl. cbn. rewrite !Z.mul_0_r. split; [done|]. apply building_clear.
  - cbn [mbind result_bind fst]. cbn zeta in Hm.
    assert (verts_upto s (stackCount s) = n /\ 0 <= n) as [Hv H0].
    { unfold verts_upto, n. rewrite Z.eqb_refl. replace (stackCount s =? 0) with false by lia. nia. }
    rewrite Hv in Hm. destruct (building_done true (Z.to_nat n) m (Z.to_nat (tris_upto s (stackCount s))) (Z.to_nat (lines_upto s (stackCount s)))) as (m3 & -> & H3).
    { by rewrite Z2Nat.id. }
    cbn [mbind result_bind]. eexists. split; [done|]. split; [|done]. split; [done|]. revert H3.
    unfold vertex_count, tris_upto, lines_upto. cbn. rewrite Hsm, Z.eqb_refl.
    replace (stackCount s =? 0) with false by lia. intros H3.
    replace (2 * sectorCount s * (stackCount s - 1)) with (sectorCount s * (2 * stackCount s - 1 - 1)) by lia. exact H3.
Qed.

(** ** The setters *)

Inductive sphere_call : Type :=
| CallRadius (radius : f32) | CallSectors (sectors : Z) | CallStacks (stacks : Z) | CallSmooth (smooth_ : bool).

Definition call (c : sphere_call) (s : Sphere) : result stop Sphere :=
  match c with
  | CallRadius radius => setRadius radius s
  | CallSectors sectors => setSectorCount cosf sinf sectors s
  | CallStacks stacks => setStackCount cosf sinf stacks s
  | CallSmooth smooth_ => setSmooth cosf sinf smooth_ s
  end.

(** Any number of sectors up to the limit; the minimum of two stacks is up to
    the caller. *)
Definition call_ok (c : sphere_call) : Prop :=
  match c with
  | CallSectors sectors => sectors <= 2 ^ 14
  | CallStacks stacks => 2 <= stacks <= 2 ^ 14
  | _ => True
  end.

Lemma rebuild_ok s : count_ok s ->
  exists s', rebuild cosf sinf s = Ok s' /\ sphere_ok s' /\ s' = with_arrays (arrays s') s.
Proof.
  intros Hok. unfold rebuild. destruct (smooth s) eqn:E; [by apply buildVerticesSmooth_ok|by apply buildVerticesFlat_ok].
Qed.

(** The members other than the mesh, and the ones a call asks for. A number
    of sectors below three becomes three; one below two becomes two. *)
Definition members (s : Sphere) : f32 * Z * Z * bool := (radius s, sectorCount s, stackCount s, smooth s).

Definition granted (sectors : Z) : Z := if sectors <? 2 then 2 else Z.max 3 sectors.

Definition asked (c : sphere_call) (r : f32 * Z * Z * bool) : f32 * Z * Z * bool :=
  let '(radius, sectors, stacks, smooth_) := r in
  match c with
  | CallRadius radius => (radius, sectors, stacks, smooth_)
  | CallSectors sectors => (radius, granted sectors, stacks, smooth_)
  | CallStacks stacks => (radius, granted sectors, stacks, smooth_)
  | CallSmooth smooth_ => (radius, sectors, stacks, smooth_)
  end.

Lemma set_ok radius sectors stacks smooth_ s :
  sectors <= 2 ^ 14 -> 2 <= stacks <= 2 ^ 14 ->
  exists s', set_ cosf sinf radius sectors stacks smooth_ s = Ok s' /\ sphere_ok s' /\
    members s' = (radius, granted sectors, stacks, smooth_).
Proof.
  intros H1 H2. unfold set_, MIN_SECTOR_COUNT, MIN_STACK_COUNT, granted.
  set (count := if sectors <? 2 then 2 else if sectors <? 3 then 3 else sectors).
  assert (count = if sectors <? 2 then 2 else Z.max 3 sectors) as <-.
  { subst count. destruct (sectors <? 2), (Z.ltb_spec sectors 3); lia. }
  destruct (rebuild_ok (mkSphere radius count stacks smooth_ (arrays s))) as (s' & E & Hok & Hm).
  - unfold count_ok. cbn. subst count. destruct (Z.ltb_spec sectors 2), (Z.ltb_spec sectors 3); lia.
  - exists s'. split_and!; [done..|]. by rewrite Hm.
Qed.

Lemma vertex_count_pos s : count_ok s -> (0 < Z.to_nat (vertex_count s))%nat.
Proof. intros [Hc Hs]. unfold vertex_count. destruct (smooth s); nia. Qed.

Lemma updateRadius_ok s : sphere_ok s -> exists s', updateRadius s = Ok s' /\ sphere_ok s' /\ members s' = members s.
Proof.
  intros [Hc Hs]. unfold updateRadius.
  destruct (radius_scale_ok _ (radius s) _ _ _ _ Hs (vertex_count_pos s Hc)) as [scale ->]. cbn [mbind result_bind].
  destruct (rescale_ok _ scale _ _ _ _ Hs) as (m & -> & Hm). eexists. by split_and!.
Qed.

Lemma call_keeps_ok c s : call_ok c -> sphere_ok s ->
  exists s', call c s = Ok s' /\ sphere_ok s' /\ members s' = asked c (members s).
Proof.
  intros Hc Hs. pose proof Hs as [[H1 H2] _]. destruct c as [r|n|n|b]; cbn in *.
  - apply (updateRadius_ok (mkSphere r (sectorCount s) (stackCount s) (smooth s) (arrays s))). exact Hs.
  - apply set_ok; lia.
  - apply set_ok; lia.
  - unfold setSmooth. destruct (Bool.eqb (smooth s) b) eqn:E.
    { exists s. split_and!; [done..|]. apply Bool.eqb_prop in E. by subst b. }
    destruct (rebuild_ok (mkSphere (radius s) (sectorCount s) (stackCount s) b (arrays s))) as (s' & -> & Hok & Hm); [by destruct Hs|].
    exists s'. split_and!; [done..|]. by rewrite Hm.
Qed.

(** C26. Whatever its setters are called with, in whatever order, as long as
    no call asks for fewer than two stacks or for more than 2^14 sectors or
    stacks, a [Sphere] is a well-formed mesh: no call reads or writes outside
    an array or overflows; position, normal and texture arrays agree on the
    number of vertices, and the interleaved array is the three of them
    interleaved; every triangle and every line of the index arrays joins
    different vertices that exist; their numbers are those of the sectors and
    stacks; and radius, sectors, stacks and shading are the ones asked for
    last, where two sectors become three and fewer become two. *)
Theorem sphere_always_ok radius sectors stacks smooth_ calls :
  sectors <= 2 ^ 14 -> 2 <= stacks <= 2 ^ 14 -> Forall call_ok calls ->
  exists s0 s, Sphere_make cosf sinf radius sectors stacks smooth_ = Ok s0 /\ for_each call calls s0 = Ok s /\ sphere_ok s /\
    members s = fold_left (fun r c => asked c r) calls (radius, granted sectors, stacks, smooth_).
Proof.
  intros H1 H2 Hcalls. destruct (set_ok radius sectors stacks smooth_ (mkSphere radius 0 0 smooth_ no_solid) H1 H2) as (s0 & E0 & Hs0 & Hm0).
  exists s0. rewrite <- Hm0. unfold Sphere_make. rewrite E0. clear E0 Hm0.
  revert s0 Hs0. induction Hcalls as [|c calls Hc _ IH]; intros s0 Hs0; [by exists s0|].
  destruct (call_keeps_ok c s0 Hc Hs0) as (s1 & E1 & Hs1 & Hm1). cbn [for_each fold_left]. rewrite <- Hm1.
  destruct (IH s1 Hs1) as (s & _ & E & Hs & Hm). exists s. rewrite E1. by split_and!.
Qed.

(** A call for fewer than two sectors makes a sphere of two, below
    [MIN_SECTOR_COUNT]: the test of the stacks looks at the sectors. *)
Theorem two_sectors radius sectors stacks smooth_ :
  sectors < 2 -> 2 <= stacks <= 2 ^ 14 ->
  exists s, Sphere_make cosf sinf radius sectors stacks smooth_ = Ok s /\ sectorCount s = 2 /\ sectorCount s < MIN_SECTOR_COUNT.
Proof.
  intros H1 H2. destruct (set_ok radius sectors stacks smooth_ (mkSphere radius 0 0 smooth_ no_solid)) as (s & E & _ & Hm); [lia|done|].
  exists s. split; [exact E|]. unfold members, granted in Hm. replace (sectors <? 2) with true in Hm by lia.
  injection Hm as _ Hc _ _. by rewrite Hc.
Qed.

(** The minimum of the stacks is not enforced ([set] changes the number of
    sectors instead): a flat sphere without stacks has no vertices, and
    setting its radius reads the first of them. *)
Theorem flat_without_stacks radius radius' sectors :
  3 <= sectors <= 2 ^ 14 ->
  exists s, Sphere_make cosf sinf radius sectors 0 false = Ok s /\ sectorCount s = sectors /\ stackCount s = 0 /\
    vertices (arrays s) = [] /\ setRadius radius' s = Err UB.
Proof.
  intros Hs. unfold Sphere_make, set_, MIN_SECTOR_COUNT, MIN_STACK_COUNT.
  replace (sectors <? 3) with false by lia. replace (sectors <? 2) with false by lia.
  unfold rebuild, buildVerticesFlat, tmp_vertices. cbn [smooth stackCount sectorCount].
  destruct (int_upto_ok 0) as [-> _]; [lia|]. destruct (int_upto_ok sectors) as [-> _]; [lia|].
  cbn [mbind result_bind]. change (seqZ 0 (0 + 1)) with [0]. cbn [for_each].
  edestruct (for_seq_inv (fun _ (_ : list (float3 * float2)) => True)) as (tmp & -> & _); [| | |].
  4: { cbn. eexists. split; [done|]. done. }
  - lia.
  - eauto.
  - done.
Qed.
End theory.

Lemma sphere_always_ok_witness :
  exists s, for_each (call (fun x => x) (fun x => x)) [CallRadius (f32_of_Z 2); CallSmooth false; CallSectors 2]
      (match Sphere_make (fun x => x) (fun x => x) (f32_of_Z 1) 8 6 true with Ok s => s | _ => mkSphere (f32_of_Z 0) 0 0 false no_solid end) = Ok s /\
    sphere_ok s /\ members s = (f32_of_Z 2, 3, 6, false).
Proof.
  destruct (sphere_always_ok (fun x => x) (fun x => x) (f32_of_Z 1) 8 6 true [CallRadius (f32_of_Z 2); CallSmooth false; CallSectors 2])
    as (s0 & s & E0 & E & Hs & Hm); [lia|lia|repeat constructor; cbn; lia|]. rewrite E0. exists s. split; [exact E|split; [exact Hs|exact Hm]].
Defined.
