(* ===== verification/Icosahedron.v ===== *)
(** * The icosahedron

    include/mutils/geometry/icosahedron.h: class [Icosahedron], and the parts
    of it that [Icosphere] (include/mutils/geometry/icosphere.h) repeats: the
    twelve vertices and the twenty triangles. The functions of the C library
    are parameters: [cosf], [sinf], [atanf], and [mul_sin r a] and [mul_cos r a]
    for [r * sin(a)] and [r * cos(a)] as a [float], which are computed in
    [float] or in [double] according to the overload that is visible. *)

From S2P Require Import Prelude Float32 Solids.
Import F32Notations.

Section Icosahedron.
Context (cosf sinf atanf : f32 -> f32) (mul_sin mul_cos : f32 -> f32 -> f32).

Definition ico_PI : f32 := f32_lit 31415926 10000000.
Definition H_ANGLE : f32 := ico_PI /. #180 *. #72.
Definition V_ANGLE : f32 := atanf (#1 /. #2).

(** The loop over the rows: the vertices [i..5] of the second row and of the
    third. *)
Fixpoint ico_rows (radius : f32) (todo : nat) (hAngle1 hAngle2 : f32) : list float3 * list float3 :=
  match todo with
  | O => ([], [])
  | S todo =>
      let z := mul_sin radius V_ANGLE in
      let xy := mul_cos radius V_ANGLE in
      let v1 := (xy *. cosf hAngle1, xy *. sinf hAngle1, z) in
      let v2 := (xy *. cosf hAngle2, xy *. sinf hAngle2, SFopp z) in
      let '(row2, row3) := ico_rows radius todo (hAngle1 +. H_ANGLE) (hAngle2 +. H_ANGLE) in
      (v1 :: row2, v2 :: row3)
  end.

(** [computeVertices]: vertex [i] of the twelve is at [3 * i]. *)
Definition computeVertices (radius : f32) : list float3 :=
  let hAngle1 := SFopp ico_PI /. #2 -. H_ANGLE /. #2 in
  let hAngle2 := SFopp ico_PI /. #2 in
  let '(row2, row3) := ico_rows radius 5 hAngle1 hAngle2 in
  [(#0, #0, radius)] ++ row2 ++ row3 ++ [(#0, #0, SFopp radius)].

Definition S_STEP : f32 := #186 /. #2048.
Definition T_STEP : f32 := #322 /. #1024.

(** One triangle of the flat icosahedron. *)
Definition add_triangle (v1 v2 v3 : float3) (t1 t2 t3 : float2) (index : Z) (m : solid) : solid :=
  let n := computeFaceNormal v1 v2 v3 in
  let m := addVertices v1 v2 v3 m in
  let m := addNormals n n n m in
  let m := addTexCoords t1 t2 t3 m in
  addIndices index (index + 1) (index + 2) m.

(** [addLineIndices] *)
Definition addLineIndices (index : Z) (m : solid) : solid :=
  addLine (index + 9) (index + 11) (addLine (index + 9) (index + 10) (addLine (index + 4) (index + 5)
    (addLine (index + 3) (index + 5) (addLine (index + 3) (index + 4) (addLine index (index + 1) m))))).

(** Round [i] of the loop of [buildVertices]; [index] is [unsigned]. *)
Definition ico_round (tmp : list float3) (i : Z) (st : solid * Z) : result stop (solid * Z) :=
  let '(m, index) := st in
  v0 ← atZ tmp 0;
  v11 ← atZ tmp 11;
  v1 ← atZ tmp i;
  v2 ← (if i <? 5 then atZ tmp (i + 1) else atZ tmp 1);
  v3 ← atZ tmp (i + 5);
  v4 ← (if i + 5 <? 10 then atZ tmp (i + 6) else atZ tmp 6);
  let t0 := (#(2 * i - 1) *. S_STEP, #0) in
  let t1 := (#(2 * i - 2) *. S_STEP, T_STEP) in
  let t2 := (#(2 * i - 0) *. S_STEP, T_STEP) in
  let t3 := (#(2 * i - 1) *. S_STEP, T_STEP *. #2) in
  let t4 := (#(2 * i + 1) *. S_STEP, T_STEP *. #2) in
  let t11 := (#(2 * i) *. S_STEP, T_STEP *. #3) in
  let m := add_triangle v0 v1 v2 t0 t1 t2 index m in
  let m := add_triangle v1 v3 v2 t1 t3 t2 (index + 3) m in
  let m := add_triangle v2 v3 v4 t2 t3 t4 (index + 6) m in
  let m := add_triangle v3 v11 v4 t3 t11 t4 (index + 9) m in
  Ok (addLineIndices index m, u32 (index + 12)).

(** The twenty triangles, the arrays having been cleared. *)
Definition ico_triangles (radius : f32) (m : solid) : result stop solid :=
  st ← for_each (ico_round (computeVertices radius)) (seqZ 1 5) (clearArrays m, 0);
  Ok st.1.

Record Icosahedron : Type := mkIcosahedron { ico_radius : f32; edgeLength : f32; ico_arrays : solid }.

Definition buildVertices (s : Icosahedron) : result stop Icosahedron :=
  m ← ico_triangles (ico_radius s) (ico_arrays s);
  m ← buildInterleavedVertices m;
  Ok (mkIcosahedron (ico_radius s) (edgeLength s) m).

Definition ico_updateRadius (s : Icosahedron) : result stop Icosahedron :=
  scale ← radius_scale (ico_radius s) (ico_arrays s);
  m ← rescale scale (ico_arrays s);
  Ok (mkIcosahedron (ico_radius s) (edgeLength s) m).

(** [2 * 3.141592f / 5] *)
Definition edge_angle : f32 := #2 *. f32_lit 3141592 1000000 /. #5.

Definition ico_setRadius (radius : f32) (s : Icosahedron) : result stop Icosahedron :=
  let s := mkIcosahedron radius (radius /. sinf edge_angle) (ico_arrays s) in
  match vertices (ico_arrays s) with
  | [] => buildVertices s
  | _ => ico_updateRadius s
  end.

Definition setEdgeLength (edge : f32) (s : Icosahedron) : result stop Icosahedron :=
  ico_updateRadius (mkIcosahedron (edge *. sinf edge_angle) edge (ico_arrays s)).

(** The members other than the arrays are set before they are read. *)
Definition Icosahedron_make (radius : f32) : result stop Icosahedron :=
  ico_setRadius radius (mkIcosahedron radius radius no_solid).
End Icosahedron.
