(* ===== verification/IcosahedronTheory.v ===== *)
(** * Theorems on the icosahedron *)

From S2P Require Import Prelude Float32 Solids SolidsTheory SphereTheory Icosahedron.

Section theory.
Context (cosf sinf atanf : f32 -> f32) (mul_sin mul_cos : f32 -> f32 -> f32).

Lemma ico_rows_length radius todo a1 a2 :
  let '(row2, row3) := ico_rows cosf sinf atanf mul_sin mul_cos radius todo a1 a2 in length row2 = todo /\ length row3 = todo.
Proof.
  revert a1 a2. induction todo as [|todo IH]; intros a1 a2; [done|]. cbn.
  specialize (IH (SFadd 24 128 a1 H_ANGLE) (SFadd 24 128 a2 H_ANGLE)). destruct (ico_rows _ _ _ _ _ _ _ _ _) as [row2 row3]. cbn. lia.
Qed.

Lemma computeVertices_length radius : length (computeVertices cosf sinf atanf mul_sin mul_cos radius) = 12%nat.
Proof.
  unfold computeVertices. pose proof (ico_rows_length radius 5) as H. destruct (ico_rows _ _ _ _ _ _ _ _ _) as [row2 row3] eqn:E.
  specialize (H (SFsub 24 128 (SFdiv 24 128 (SFopp ico_PI) (f32_of_Z 2)) (SFdiv 24 128 H_ANGLE (f32_of_Z 2)))
                (SFdiv 24 128 (SFopp ico_PI) (f32_of_Z 2))). rewrite E in H. destruct H as [H2 H3].
  cbn. rewrite !length_app, H2, H3. done.
Qed.

Lemma add_triangle_ok n v1 v2 v3 t1 t2 t3 index m nv nt nl :
  n <= 2 ^ 32 -> 0 <= index -> index + 2 < n -> building true n m nv nv nv nt nl ->
  building true n (add_triangle v1 v2 v3 t1 t2 t3 index m) (nv + 3) (nv + 3) (nv + 3) (nt + 1) nl.
Proof. intros. unfold add_triangle. rewrite addVertices_eq, addNormals_eq, addTexCoords_eq. build. Qed.

Lemma ico_round_ok n tmp i m nv nt nl :
  length tmp = 12%nat -> 1 <= i <= 5 -> Z.of_nat (nv + 12) <= n < 2 ^ 32 -> building true n m nv nv nv nt nl ->
  exists m', ico_round tmp i (m, Z.of_nat nv) = Ok (m', Z.of_nat (nv + 12)) /\
    building true n m' (nv + 12) (nv + 12) (nv + 12) (nt + 4) (nl + 6).
Proof.
  intros Ht Hi Hn Hb. unfold ico_round.
  destruct (Z.ltb_spec i 5), (Z.ltb_spec (i + 5) 10); try lia;
    repeat match goal with
           | |- context [atZ tmp ?k] => let x := fresh "v" in destruct (atZ_ok tmp k) as [x ->]; [lia|]
           end;
    cbn [mbind result_bind]; rewrite wrap_small by (unfold in_u; lia); (eexists; split; [f_equal; f_equal; lia|]);
    unfold addLineIndices; (eapply building_eq; [..|
      repeat first [apply building_addLine | apply add_triangle_ok]; try exact Hb]); try lia;
    unfold line_ok; (split; [lia|intros _; lia]).
Qed.

(** The flat icosahedron before it is interleaved. *)
Lemma ico_triangles_ok radius m :
  exists m', ico_triangles cosf sinf atanf mul_sin mul_cos radius m = Ok m' /\ building true 60 m' 60 60 60 20 30.
Proof.
  unfold ico_triangles.
  destruct (for_each_inv (fun k st => exists m', st = (m', Z.of_nat (12 * k)) /\
      (building true 60 m' (12 * k) (12 * k) (12 * k) (4 * k) (6 * k)))
    (ico_round (computeVertices cosf sinf atanf mul_sin mul_cos radius)) (seqZ 1 5) (clearArrays m, 0)) as (st & -> & m' & -> & Hm').
  - intros k i st [-> Hk]%lookup_seqZ (m1 & -> & Hm1).
    destruct (ico_round_ok 60 _ (1 + Z.of_nat k) m1 (12 * k) _ _ (computeVertices_length radius) ltac:(lia) ltac:(lia) Hm1) as (m2 & E & Hm2).
    eexists. split; [exact E|]. exists m2. split; [f_equal; lia|]. revert Hm2. apply building_eq; lia.
  - exists (clearArrays m). split; [done|]. apply building_clear.
  - exists m'. split; [done|]. exact Hm'.
Qed.

Definition icosahedron_ok (s : Icosahedron) : Prop := solid_ok true (ico_arrays s) 60 20 30.

Lemma buildVertices_ok s : exists s', buildVertices cosf sinf atanf mul_sin mul_cos s = Ok s' /\ icosahedron_ok s'.
Proof.
  unfold buildVertices. destruct (ico_triangles_ok (ico_radius s) (ico_arrays s)) as (m & -> & Hm). cbn [mbind result_bind].
  destruct (building_done true 60 m 20 30 Hm) as (m' & -> & Hm'). eexists. by split.
Qed.

Lemma ico_updateRadius_ok s : icosahedron_ok s -> exists s', ico_updateRadius s = Ok s' /\ icosahedron_ok s'.
Proof.
  intros Hs. unfold ico_updateRadius. destruct (radius_scale_ok _ (ico_radius s) _ _ _ _ Hs ltac:(lia)) as [scale ->].
  cbn [mbind result_bind]. destruct (rescale_ok _ scale _ _ _ _ Hs) as (m & -> & Hm). eexists. by split.
Qed.

(** A radius or an edge length to set. *)
Definition ico_call (c : f32 + f32) (s : Icosahedron) : result stop Icosahedron :=
  match c with
  | inl radius => ico_setRadius cosf sinf atanf mul_sin mul_cos radius s
  | inr edge => setEdgeLength sinf edge s
  end.

(** An [Icosahedron], whatever radii and edge lengths it is set to, has 60
    vertices, 20 triangles and 30 lines, all of different vertices that exist,
    and an interleaved array that agrees with the others. *)
Theorem icosahedron_always_ok radius calls :
  exists s0 s, Icosahedron_make cosf sinf atanf mul_sin mul_cos radius = Ok s0 /\
    for_each ico_call calls s0 = Ok s /\ icosahedron_ok s.
Proof.
  unfold Icosahedron_make, ico_setRadius. cbn [ico_arrays vertices no_solid].
  edestruct buildVertices_ok as (s0 & -> & Hs0).
  destruct (for_each_inv (fun _ => icosahedron_ok) ico_call calls s0) as (s & E & Hs); [|done|by exists s0, s].
  intros k c s _ Hs. destruct c as [r|e]; cbn.
  - unfold ico_setRadius. destruct (vertices _); [apply buildVertices_ok|by apply ico_updateRadius_ok].
  - by apply ico_updateRadius_ok.
Qed.
End theory.
