(* ===== verification/Icosphere.v ===== *)
(** * The subdivided icosahedron

    include/mutils/geometry/icosphere.h: class [Icosphere]. Its twelve vertices
    and, for flat shading, its twenty triangles are those of [Icosahedron]. *)

From S2P Require Import Prelude Float32 Solids Icosahedron.
Import F32Notations.

Definition computeScaleForLength (v : float3) (length : f32) : f32 :=
  let '(x, y, z) := v in length /. SFsqrt 24 128 (x *. x +. y *. y +. z *. z).

Definition computeVertexNormal (v : float3) : float3 :=
  let scale := computeScaleForLength v (#1) in
  let '(x, y, z) := v in (x *. scale, y *. scale, z *. scale).

Definition computeHalfVertex (v1 v2 : float3) (length : f32) : float3 :=
  let '(x1, y1, z1) := v1 in
  let '(x2, y2, z2) := v2 in
  let '(x, y, z) := (x1 +. x2, y1 +. y2, z1 +. z2) in
  let scale := computeScaleForLength (x, y, z) length in
  (x *. scale, y *. scale, z *. scale).

Definition computeHalfTexCoord (t1 t2 : float2) : float2 :=
  let '(s1, t1) := t1 in
  let '(s2, t2) := t2 in
  ((s1 +. s2) *. f32_lit 1 2, (t1 +. t2) *. f32_lit 1 2).

(** ** Shared texture coordinates *)

Definition isOnLineSegment (a b c : float2) : bool :=
  let EPSILON := f32_lit 1 10000 in
  let '(a0, a1) := a in
  let '(b0, b1) := b in
  let '(c0, c1) := c in
  let cross := (b0 -. a0) *. (c1 -. a1) -. (b1 -. a1) *. (c0 -. a0) in
  if SFltb EPSILON cross || SFltb cross (SFopp EPSILON) then false
  else if (SFltb a0 c0 && SFltb b0 c0) || (SFltb c0 a0 && SFltb c0 b0) then false
  else if (SFltb a1 c1 && SFltb b1 c1) || (SFltb c1 a1 && SFltb c1 b1) then false
  else true.

(** The twenty segments whose points are not shared. *)
Definition segments : list (float2 * float2) :=
  let S := #1 /. #11 in
  let T := #1 /. #3 in
  [ ((S, #0), (#0, T)); ((S, #0), (S *. #2, T)); ((S *. #3, #0), (S *. #2, T)); ((S *. #3, #0), (S *. #4, T));
    ((S *. #5, #0), (S *. #4, T)); ((S *. #5, #0), (S *. #6, T)); ((S *. #7, #0), (S *. #6, T)); ((S *. #7, #0), (S *. #8, T));
    ((S *. #9, #0), (S *. #8, T)); ((S *. #9, #0), (#1, T *. #2)); ((#0, T), (S *. #2, #1)); ((S *. #3, T *. #2), (S *. #2, #1));
    ((S *. #3, T *. #2), (S *. #4, #1)); ((S *. #5, T *. #2), (S *. #4, #1)); ((S *. #5, T *. #2), (S *. #6, #1));
    ((S *. #7, T *. #2), (S *. #6, #1)); ((S *. #7, T *. #2), (S *. #8, #1)); ((S *. #9, T *. #2), (S *. #8, #1));
    ((S *. #9, T *. #2), (S *. #10, #1)); ((#1, T *. #2), (S *. #10, #1)) ].

Definition isSharedTexCoord (t : float2) : bool := negb (existsb (fun '(a, b) => isOnLineSegment a b t) segments).

(** [operator<] of [std::pair<float, float>], and the equivalence by which a
    [std::map] finds its keys. *)
Definition pair_ltb (p q : float2) : bool := SFltb p.1 q.1 || (negb (SFltb q.1 p.1) && SFltb p.2 q.2).
Definition key_eqb (p q : float2) : bool := negb (pair_ltb p q) && negb (pair_ltb q p).

(** [sharedIndices], a map from texture coordinates (never NaN) to indices. *)
Definition shared_map : Type := list (float2 * Z).

Fixpoint shared_find (key : float2) (sharedIndices : shared_map) : option Z :=
  match sharedIndices with
  | [] => None
  | (k, i) :: rest => if key_eqb k key then Some i else shared_find key rest
  end.

(** [sharedIndices[key] = index] *)
Fixpoint shared_set (key : float2) (index : Z) (sharedIndices : shared_map) : shared_map :=
  match sharedIndices with
  | [] => [(key, index)]
  | (k, i) :: rest => if key_eqb k key then (k, index) :: rest else (k, i) :: shared_set key index rest
  end.

(** A vertex with its normal and texture coordinates, at the end of the
    arrays, and its index [texCoords.size() / 2 - 1]. *)
Definition add_attribs (v n : float3) (t : float2) (m : solid) : solid := addTexCoord t (addNormal n (addVertex v m)).
Definition last_index (m : solid) : Z := u32 (Z.of_nat (length (texCoords m)) / 2 - 1).

Definition addSubVertexAttribs (v n : float3) (t : float2) (st : solid * shared_map) : Z * (solid * shared_map) :=
  let '(m, shared) := st in
  if isSharedTexCoord t then
    match shared_find t shared with
    | None => let m := add_attribs v n t m in (last_index m, (m, shared_set t (last_index m) shared))
    | Some index => (index, (m, shared))
    end
  else let m := add_attribs v n t m in (last_index m, (m, shared)).

Definition addSubLineIndices (i1 i2 i3 i4 i5 i6 : Z) (m : solid) : solid :=
  addLine i4 i5 (addLine i3 i4 (addLine i6 i4 (addLine i2 i4 (addLine i2 i3 (addLine i2 i6 (addLine i1 i2 m)))))).

(** ** Subdivision *)

(** Three or two floats at [&l[i * 3]] or [&l[i * 2]]; the product is
    [unsigned]. *)
Definition read3 (l : list f32) (i : Z) : result stop float3 :=
  let p := u32 (i * 3) in
  x ← atZ l p; y ← atZ l (p + 1); z ← atZ l (p + 2); Ok (x, y, z).
Definition read2 (l : list f32) (i : Z) : result stop float2 :=
  let p := u32 (i * 2) in
  s ← atZ l p; t ← atZ l (p + 1); Ok (s, t).

(** The rounds of [for (j = 0; j < indexCount; j += 3)]. *)
Definition triangle_rounds (tmpIndices : list Z) : list nat :=
  seq 0 (rounds (Z.to_nat (i32 (Z.of_nat (length tmpIndices))))).

(** Round [j = 3k] of [subdivideVerticesFlat]: [tmp] are the arrays before. *)
Definition flat_subdivide (radius : f32) (tmp : solid) (k : nat) (st : solid * Z) : result stop (solid * Z) :=
  let '(m, index) := st in
  i1 ← at_ (indices tmp) (3 * k); i2 ← at_ (indices tmp) (3 * k + 1); i3 ← at_ (indices tmp) (3 * k + 2);
  v1 ← read3 (vertices tmp) i1; v2 ← read3 (vertices tmp) i2; v3 ← read3 (vertices tmp) i3;
  t1 ← read2 (texCoords tmp) i1; t2 ← read2 (texCoords tmp) i2; t3 ← read2 (texCoords tmp) i3;
  let newV1 := computeHalfVertex v1 v2 radius in
  let newV2 := computeHalfVertex v2 v3 radius in
  let newV3 := computeHalfVertex v1 v3 radius in
  let newT1 := computeHalfTexCoord t1 t2 in
  let newT2 := computeHalfTexCoord t2 t3 in
  let newT3 := computeHalfTexCoord t1 t3 in
  let m := add_triangle v1 newV1 newV3 t1 newT1 newT3 index m in
  let m := add_triangle newV1 v2 newV2 newT1 t2 newT2 (index + 3) m in
  let m := add_triangle newV1 newV2 newV3 newT1 newT2 newT3 (index + 6) m in
  let m := add_triangle newV3 newV2 v3 newT3 newT2 t3 (index + 9) m in
  let m := addSubLineIndices index (index + 1) (index + 4) (index + 5) (index + 11) (index + 9) m in
  Ok (m, u32 (index + 12)).

Definition flat_iteration (radius : f32) (m : solid) : result stop solid :=
  st ← for_each (flat_subdivide radius m) (triangle_rounds (indices m)) (clearArrays m, 0);
  Ok st.1.

(** Iterations [1..subdivision]. *)
Definition subdivideVerticesFlat (radius : f32) (subdivision : Z) (m : solid) : result stop solid :=
  for_each (fun _ m => flat_iteration radius m) (seqZ 1 subdivision) m.

(** Round [j = 3k] of [subdivideVerticesSmooth]. *)
Definition smooth_subdivide (radius : f32) (tmpIndices : list Z) (k : nat) (st : solid * shared_map) :
  result stop (solid * shared_map) :=
  i1 ← at_ tmpIndices (3 * k); i2 ← at_ tmpIndices (3 * k + 1); i3 ← at_ tmpIndices (3 * k + 2);
  v1 ← read3 (vertices st.1) i1; v2 ← read3 (vertices st.1) i2; v3 ← read3 (vertices st.1) i3;
  t1 ← read2 (texCoords st.1) i1; t2 ← read2 (texCoords st.1) i2; t3 ← read2 (texCoords st.1) i3;
  let newV1 := computeHalfVertex v1 v2 radius in
  let newV2 := computeHalfVertex v2 v3 radius in
  let newV3 := computeHalfVertex v1 v3 radius in
  let newT1 := computeHalfTexCoord t1 t2 in
  let newT2 := computeHalfTexCoord t2 t3 in
  let newT3 := computeHalfTexCoord t1 t3 in
  let '(newI1, st) := addSubVertexAttribs newV1 (computeVertexNormal newV1) newT1 st in
  let '(newI2, st) := addSubVertexAttribs newV2 (computeVertexNormal newV2) newT2 st in
  let '(newI3, st) := addSubVertexAttribs newV3 (computeVertexNormal newV3) newT3 st in
  let '(m, shared) := st in
  let m := addIndices i1 newI1 newI3 m in
  let m := addIndices newI1 i2 newI2 m in
  let m := addIndices newI1 newI2 newI3 m in
  let m := addIndices newI3 newI2 i3 m in
  Ok (addSubLineIndices i1 newI1 i2 newI2 i3 newI3 m, shared).

Definition smooth_iteration (radius : f32) (st : solid * shared_map) : result stop (solid * shared_map) :=
  let '(m, shared) := st in
  for_each (smooth_subdivide radius (indices m)) (triangle_rounds (indices m)) (set_lines [] (set_indices [] m), shared).

Definition subdivideVerticesSmooth (radius : f32) (subdivision : Z) (st : solid * shared_map) : result stop (solid * shared_map) :=
  for_each (fun _ st => smooth_iteration radius st) (seqZ 1 subdivision) st.

(** ** The object *)

Record Icosphere : Type := mkIcosphere {
  sp_radius : f32; subdivision : Z; sp_smooth : bool; sp_arrays : solid; sharedIndices : shared_map
}.

Section Icosphere.
Context (cosf sinf atanf : f32 -> f32) (mul_sin mul_cos : f32 -> f32 -> f32).
Local Abbreviation computeIcosahedronVertices := (computeVertices cosf sinf atanf mul_sin mul_cos).

Definition ico_buildVerticesFlat (s : Icosphere) : result stop Icosphere :=
  m ← ico_triangles cosf sinf atanf mul_sin mul_cos (sp_radius s) (sp_arrays s);
  m ← subdivideVerticesFlat (sp_radius s) (subdivision s) m;
  m ← buildInterleavedVertices m;
  Ok (mkIcosphere (sp_radius s) (subdivision s) (sp_smooth s) m (sharedIndices s)).

(** A vertex of the middle rows: its normal is its position normalised. *)
Definition add_row (v : float3) (t : float2) (m : solid) : solid := add_attribs v (computeVertexNormal v) t m.
(** One that is shared. *)
Definition add_shared (v : float3) (t : float2) (st : solid * shared_map) : solid * shared_map :=
  let '(m, shared) := st in
  let m := add_row v t m in (m, shared_set t (last_index m) shared).

(** The 22 vertices. *)
Definition smooth_vertices (radius : f32) (m : solid) : result stop (solid * shared_map) :=
  let tmp := computeIcosahedronVertices radius in
  let S := S_STEP in
  let T := T_STEP in
  top ← atZ tmp 0; bottom ← atZ tmp 11; left2 ← atZ tmp 1; left3 ← atZ tmp 6;
  let up : float3 := (#0, #0, #1) in
  let down : float3 := (#0, #0, #(-1)) in
  let m := add_attribs top up (S, #0) m in
  let m := add_attribs top up (S *. #3, #0) m in
  let m := add_attribs top up (S *. #5, #0) m in
  let m := add_attribs top up (S *. #7, #0) m in
  let m := add_attribs top up (S *. #9, #0) m in
  let m := add_attribs bottom down (S *. #2, T *. #3) m in
  let m := add_attribs bottom down (S *. #4, T *. #3) m in
  let m := add_attribs bottom down (S *. #6, T *. #3) m in
  let m := add_attribs bottom down (S *. #8, T *. #3) m in
  let m := add_attribs bottom down (S *. #10, T *. #3) m in
  let m := add_row left2 (#0, T) m in
  let m := add_row left2 (S *. #10, T) m in
  let m := add_row left3 (S, T *. #2) m in
  let m := add_row left3 (S *. #11, T *. #2) m in
  v14 ← atZ tmp 2; v15 ← atZ tmp 3; v16 ← atZ tmp 4; v17 ← atZ tmp 5;
  v18 ← atZ tmp 7; v19 ← atZ tmp 8; v20 ← atZ tmp 9; v21 ← atZ tmp 10;
  let st := (m, []) in
  let st := add_shared v14 (S *. #2, T) st in
  let st := add_shared v15 (S *. #4, T) st in
  let st := add_shared v16 (S *. #6, T) st in
  let st := add_shared v17 (S *. #8, T) st in
  let st := add_shared v18 (S *. #3, T *. #2) st in
  let st := add_shared v19 (S *. #5, T *. #2) st in
  let st := add_shared v20 (S *. #7, T *. #2) st in
  Ok (add_shared v21 (S *. #9, T *. #2) st).

(** The triangles and the lines of the icosahedron between them. *)
Definition smooth_triangles : list (Z * Z * Z) :=
  [ (0, 10, 14); (1, 14, 15); (2, 15, 16); (3, 16, 17); (4, 17, 11);
    (10, 12, 14); (12, 18, 14); (14, 18, 15); (18, 19, 15); (15, 19, 16);
    (19, 20, 16); (16, 20, 17); (20, 21, 17); (17, 21, 11); (21, 13, 11);
    (5, 18, 12); (6, 19, 18); (7, 20, 19); (8, 21, 20); (9, 13, 21) ].
Definition smooth_lines : list (Z * Z) :=
  [ (0, 10); (1, 14); (2, 15); (3, 16); (4, 17); (10, 14); (14, 15); (15, 16); (16, 17); (17, 11);
    (10, 12); (12, 14); (14, 18); (18, 15); (15, 19); (19, 16); (16, 20); (20, 17); (17, 21); (21, 11);
    (12, 18); (18, 19); (19, 20); (20, 21); (21, 13); (5, 12); (6, 18); (7, 19); (8, 20); (9, 21) ].

Definition ico_buildVerticesSmooth (s : Icosphere) : result stop Icosphere :=
  st ← smooth_vertices (sp_radius s) (clearArrays (sp_arrays s));
  let '(m, shared) := st in
  let m := foldl (fun m '(a, b, c) => addIndices a b c m) m smooth_triangles in
  let m := foldl (fun m '(a, b) => addLine a b m) m smooth_lines in
  st ← subdivideVerticesSmooth (sp_radius s) (subdivision s) (m, shared);
  m ← buildInterleavedVertices st.1;
  Ok (mkIcosphere (sp_radius s) (subdivision s) (sp_smooth s) m st.2).

Definition sp_rebuild (s : Icosphere) : result stop Icosphere :=
  if sp_smooth s then ico_buildVerticesSmooth s else ico_buildVerticesFlat s.

Definition Icosphere_make (radius : f32) (sub : Z) (smooth : bool) : result stop Icosphere :=
  sp_rebuild (mkIcosphere radius sub smooth no_solid []).

Definition sp_updateRadius (s : Icosphere) : result stop Icosphere :=
  x ← at_ (vertices (sp_arrays s)) 0; y ← at_ (vertices (sp_arrays s)) 1; z ← at_ (vertices (sp_arrays s)) 2;
  m ← rescale (computeScaleForLength (x, y, z) (sp_radius s)) (sp_arrays s);
  Ok (mkIcosphere (sp_radius s) (subdivision s) (sp_smooth s) m (sharedIndices s)).

Definition sp_setRadius (radius : f32) (s : Icosphere) : result stop Icosphere :=
  sp_updateRadius (mkIcosphere radius (subdivision s) (sp_smooth s) (sp_arrays s) (sharedIndices s)).
Definition setSubdivision (iteration : Z) (s : Icosphere) : result stop Icosphere :=
  sp_rebuild (mkIcosphere (sp_radius s) iteration (sp_smooth s) (sp_arrays s) (sharedIndices s)).
Definition sp_setSmooth (smooth : bool) (s : Icosphere) : result stop Icosphere :=
  if Bool.eqb (sp_smooth s) smooth then Ok s
  else sp_rebuild (mkIcosphere (sp_radius s) (subdivision s) smooth (sp_arrays s) (sharedIndices s)).
End Icosphere.
