(* ===== verification/IcosphereTheory.v ===== *)
(** * Theorems on the icosphere *)

From S2P Require Import Prelude Float32 Solids SolidsTheory SphereTheory Icosahedron IcosahedronTheory Icosphere.

(** ** Reading the arrays *)

Lemma at_tri (tris : list (Z * Z * Z)) k a b c : tris !! k = Some (a, b, c) ->
  at_ (flat3 tris) (3 * k) = Ok a /\ at_ (flat3 tris) (3 * k + 1) = Ok b /\ at_ (flat3 tris) (3 * k + 2) = Ok c.
Proof.
  intros Hk. rewrite <- (take_drop_middle tris k _ Hk). apply at_flat3.
  rewrite length_take_le; [done|]. apply lookup_lt_Some in Hk. lia.
Qed.

Lemma atZ_nat {A} (l : list A) i : 0 <= i -> atZ l i = at_ l (Z.to_nat i).
Proof. intros. unfold atZ. by replace (i <? 0) with false by lia. Qed.

Lemma read3_lookup V i v : V !! i = Some v -> 3 * Z.of_nat i < 2 ^ 32 -> read3 (flat3 V) (Z.of_nat i) = Ok v.
Proof.
  intros Hi Hn. destruct v as [[x y] z]. unfold read3. rewrite wrap_small by (unfold in_u; lia).
  rewrite !atZ_nat by lia. rewrite <- (take_drop_middle V i _ Hi).
  pose proof (lookup_lt_Some _ _ _ Hi). destruct (at_flat3 (take i V) x y z (drop (S i) V) i) as (H1 & H2 & H3).
  { rewrite length_take_le; lia. }
  replace (Z.to_nat (Z.of_nat i * 3)) with (3 * i)%nat by lia. replace (Z.to_nat (Z.of_nat i * 3 + 1)) with (3 * i + 1)%nat by lia.
  replace (Z.to_nat (Z.of_nat i * 3 + 2)) with (3 * i + 2)%nat by lia. by rewrite H1, H2, H3.
Qed.

Lemma read2_lookup T i t : T !! i = Some t -> 3 * Z.of_nat i < 2 ^ 32 -> read2 (flat2 T) (Z.of_nat i) = Ok t.
Proof.
  intros Hi Hn. destruct t as [s t]. unfold read2. rewrite wrap_small by (unfold in_u; lia).
  rewrite !atZ_nat by lia. rewrite <- (take_drop_middle T i _ Hi).
  pose proof (lookup_lt_Some _ _ _ Hi). destruct (at_flat2 (take i T) s t (drop (S i) T) i) as (H1 & H2).
  { rewrite length_take_le; lia. }
  replace (Z.to_nat (Z.of_nat i * 2)) with (2 * i)%nat by lia. replace (Z.to_nat (Z.of_nat i * 2 + 1)) with (2 * i + 1)%nat by lia.
  by rewrite H1, H2.
Qed.

(** A vertex of a mesh under construction can be read. *)
Lemma building_read d n m nv nt nl i :
  building d n m nv nv nv nt nl -> 0 <= i < Z.of_nat nv -> 3 * Z.of_nat nv < 2 ^ 32 ->
  (exists v, read3 (vertices m) i = Ok v) /\ (exists t, read2 (texCoords m) i = Ok t).
Proof.
  intros (V & N & T & tris & lines & [-> HV] & _ & [-> HT] & _) Hi Hn.
  destruct (lookup_lt_is_Some_2 V (Z.to_nat i)) as [v Hv]; [lia|]. destruct (lookup_lt_is_Some_2 T (Z.to_nat i)) as [t Ht]; [lia|].
  rewrite <- (Z2Nat.id i) by lia. split; [exists v; apply read3_lookup|exists t; apply read2_lookup]; (done || lia).
Qed.

Lemma building_indices d n m nv nn nx nt nl :
  building d n m nv nn nx nt nl -> exists tris, indices m = flat3 tris /\ length tris = nt /\ Forall (tri_ok d n) tris.
Proof. intros (V & N & T & tris & lines & _ & _ & _ & H & _). by exists tris. Qed.

Lemma triangle_rounds_ok (tris : list (Z * Z * Z)) : 3 * Z.of_nat (length tris) < 2 ^ 31 -> triangle_rounds (flat3 tris) = seq 0 (length tris).
Proof.
  intros H. unfold triangle_rounds. rewrite length_flat3. unfold swrap. rewrite Z.mod_small by lia.
  replace (Z.to_nat _) with (3 * length tris)%nat by lia. by rewrite rounds_3.
Qed.

Lemma addSubLineIndices_ok d n m nv nt nl i1 i2 i3 i4 i5 i6 :
  n <= 2 ^ 32 -> Forall (fun i => 0 <= i < n) [i1; i2; i3; i4; i5; i6] ->
  (d = true -> i1 <> i2 /\ i2 <> i6 /\ i2 <> i3 /\ i2 <> i4 /\ i6 <> i4 /\ i3 <> i4 /\ i4 <> i5) ->
  building d n m nv nv nv nt nl -> building d n (addSubLineIndices i1 i2 i3 i4 i5 i6 m) nv nv nv nt (nl + 7).
Proof.
  intros Hn Hi Hd Hb. rewrite !Forall_cons in Hi. unfold addSubLineIndices.
  eapply building_eq; [..|repeat (apply building_addLine; [lia| |]); [..|exact Hb]]; try lia; unfold line_ok; (split; [lia|intros E; specialize (Hd E); lia]).
Qed.

(** ** Flat shading *)

Lemma flat_subdivide_ok radius tmp n0 k m nv nt nl nt0 nl0 n :
  building true (Z.of_nat n0) tmp n0 n0 n0 nt0 nl0 -> 3 * Z.of_nat n0 < 2 ^ 32 -> (k < nt0)%nat ->
  building true n m nv nv nv nt nl -> Z.of_nat (nv + 12) <= n < 2 ^ 32 ->
  exists m', flat_subdivide radius tmp k (m, Z.of_nat nv) = Ok (m', Z.of_nat (nv + 12)) /\
    building true n m' (nv + 12) (nv + 12) (nv + 12) (nt + 4) (nl + 7).
Proof.
  intros Htmp Hn0 Hk Hb Hn. destruct (building_indices _ _ _ _ _ _ _ _ Htmp) as (tris & Ei & <- & Ht).
  destruct (lookup_lt_is_Some_2 tris k Hk) as [[[a b] c] Hk3]. destruct (at_tri _ _ _ _ _ Hk3) as (E1 & E2 & E3).
  destruct (Forall_lookup_1 _ _ _ _ Ht Hk3) as [(Ha & Hb' & Hc) _].
  destruct (building_read _ _ _ _ _ _ a Htmp Ha Hn0) as [[va Ea] [ta Fa]].
  destruct (building_read _ _ _ _ _ _ b Htmp Hb' Hn0) as [[vb Eb] [tb Fb]].
  destruct (building_read _ _ _ _ _ _ c Htmp Hc Hn0) as [[vc Ec] [tc Fc]].
  unfold flat_subdivide. rewrite Ei, E1, E2, E3. cbn [mbind result_bind]. rewrite Ea, Eb, Ec, Fa, Fb, Fc. cbn [mbind result_bind].
  rewrite wrap_small by (unfold in_u; lia). eexists. split; [f_equal; f_equal; lia|].
  apply addSubLineIndices_ok; [lia|rewrite !Forall_cons; split_and!; [lia..|done]|lia|].
  eapply building_eq; [..|repeat apply add_triangle_ok; try exact Hb]; lia.
Qed.

Lemma flat_iteration_ok radius m nt nl :
  let n := (3 * nt)%nat in
  building true (Z.of_nat n) m n n n nt nl -> 12 * Z.of_nat nt < 2 ^ 31 ->
  exists m', flat_iteration radius m = Ok m' /\
    building true (Z.of_nat (12 * nt)) m' (12 * nt) (12 * nt) (12 * nt) (4 * nt) (7 * nt).
Proof.
  intros n Hb Hn. unfold flat_iteration. destruct (building_indices _ _ _ _ _ _ _ _ Hb) as (tris & Ei & Hl & Ht).
  rewrite Ei, triangle_rounds_ok by lia. rewrite Hl.
  destruct (for_each_inv (fun k st => exists m', st = (m', Z.of_nat (12 * k)) /\
      building true (Z.of_nat (12 * nt)) m' (12 * k) (12 * k) (12 * k) (4 * k) (7 * k))
    (flat_subdivide radius m) (seq 0 nt) (clearArrays m, 0)) as (st & -> & m' & -> & Hm').
  - intros k k' st [-> Hk]%lookup_seq (m1 & -> & Hm1). cbn [Nat.add].
    destruct (flat_subdivide_ok radius m n k m1 (12 * k) (4 * k) (7 * k) nt nl _ Hb ltac:(lia) Hk Hm1) as (m2 & E & Hm2); [lia|].
    eexists. split; [exact E|]. exists m2. split; [f_equal; lia|]. revert Hm2. apply building_eq; lia.
  - exists (clearArrays m). split; [done|]. apply building_clear.
  - cbn. rewrite length_seq in *. exists m'. split; [done|]. exact Hm'.
Qed.

(** Triangles and lines after [k] iterations. *)
Definition ico_tris (k : nat) : nat := 20 * 4 ^ k.
Definition ico_lines (k : nat) : nat := match k with O => 30 | S k => 7 * ico_tris k end.

Lemma ico_tris_S k : ico_tris (S k) = (4 * ico_tris k)%nat.
Proof. unfold ico_tris. cbn [Nat.pow]. lia. Qed.

Lemma ico_tris_bound k : Z.of_nat k <= 12 -> Z.of_nat (ico_tris k) <= 20 * 4 ^ 12.
Proof.
  intros Hk. unfold ico_tris. rewrite Nat2Z.inj_mul, Nat2Z.inj_pow. apply Z.mul_le_mono_nonneg_l; [lia|].
  apply Z.pow_le_mono_r; lia.
Qed.

Lemma subdivideVerticesFlat_ok radius sub m :
  sub <= 12 -> building true 60 m 60 60 60 20 30 ->
  exists m', subdivideVerticesFlat radius sub m = Ok m' /\
    let t := ico_tris (Z.to_nat sub) in
    building true (Z.of_nat (3 * t)) m' (3 * t) (3 * t) (3 * t) t (ico_lines (Z.to_nat sub)).
Proof.
  intros Hs Hm. unfold subdivideVerticesFlat.
  destruct (for_each_inv (fun k m' => let t := ico_tris k in building true (Z.of_nat (3 * t)) m' (3 * t) (3 * t) (3 * t) t (ico_lines k))
    (fun _ m => flat_iteration radius m) (seqZ 1 sub) m) as (m' & E & Hm'); [|exact Hm|].
  - intros k i m1 [_ Hk]%lookup_seqZ Hm1. cbn zeta in Hm1.
    destruct (flat_iteration_ok radius m1 _ _ Hm1) as (m2 & E & Hm2).
    { assert (Z.of_nat (ico_tris k) * 4 <= 20 * 4 ^ 12); [|lia].
      pose proof (ico_tris_bound (S k) ltac:(lia)). rewrite ico_tris_S in *. lia. }
    exists m2. split; [done|]. cbn zeta. change (1 + k)%nat with (S k). rewrite ico_tris_S.
    replace (3 * (4 * ico_tris k))%nat with (12 * ico_tris k)%nat by lia. exact Hm2.
  - exists m'. split; [done|]. rewrite length_seqZ in Hm'. exact Hm'.
Qed.

(** ** Smooth shading *)

Lemma atZ_app {A} (l l' : list A) i x : atZ l i = Ok x -> atZ (l ++ l') i = Ok x.
Proof.
  unfold atZ, at_. destruct (i <? 0); [done|]. destruct (l !! Z.to_nat i) as [y|] eqn:E; [|done].
  by rewrite (lookup_app_l_Some _ _ _ _ E).
Qed.

Lemma read2_app l l' i t : read2 l i = Ok t -> read2 (l ++ l') i = Ok t.
Proof.
  unfold read2. destruct (atZ l (u32 (i * 2))) as [x|] eqn:E1; [|done]. cbn [mbind result_bind].
  destruct (atZ l (u32 (i * 2) + 1)) as [y|] eqn:E2; [|done].
  by rewrite (atZ_app _ _ _ _ E1), (atZ_app _ _ _ _ E2).
Qed.

(** An index remembered for a texture coordinate is that of a vertex with this
    texture coordinate. *)
Definition shared_ok (m : solid) (nv : nat) (shared : shared_map) : Prop :=
  Forall (fun e => 0 <= e.2 < Z.of_nat nv /\ read2 (texCoords m) e.2 = Ok e.1) shared.

(** A smooth mesh of at most [B] vertices. *)
Definition smooth_ok (B : nat) (st : solid * shared_map) (nt nl : nat) : Prop :=
  exists nv, building false (Z.of_nat nv) st.1 nv nv nv nt nl /\ (nv <= B)%nat /\ shared_ok st.1 nv st.2.

Lemma shared_find_in key shared i : shared_find key shared = Some i -> exists k, (k, i) ∈ shared /\ key_eqb k key = true.
Proof.
  induction shared as [|[k j] shared IH]; [done|]. cbn. destruct (key_eqb k key) eqn:E.
  - intros [= ->]. exists k. split; [by left|done].
  - intros (k' & ? & ?)%IH. exists k'. split; [by right|done].
Qed.

Lemma shared_set_new key i shared : shared_find key shared = None -> shared_set key i shared = shared ++ [(key, i)].
Proof. induction shared as [|[k j] shared IH]; [done|]. cbn. destruct (key_eqb k key); [done|]. intros E. by rewrite IH. Qed.

(** Adding a vertex. *)
Lemma add_attribs_ok v nrm t m nv nt nl :
  building false (Z.of_nat nv) m nv nv nv nt nl -> 3 * Z.of_nat nv + 3 < 2 ^ 32 ->
  let m' := add_attribs v nrm t m in
  building false (Z.of_nat (nv + 1)) m' (nv + 1) (nv + 1) (nv + 1) nt nl /\ last_index m' = Z.of_nat nv /\
  read2 (texCoords m') (Z.of_nat nv) = Ok t /\ (forall shared, shared_ok m nv shared -> shared_ok m' (nv + 1) shared).
Proof.
  intros Hb Hn m'. split; [|split; [|split]].
  - apply (building_mono _ (Z.of_nat nv)); [lia|]. unfold m', add_attribs. build.
  - destruct Hb as (V & N & T & tris & lines & _ & _ & [ET HT] & _). unfold m', last_index. cbn. rewrite ET, length_app, length_flat2, HT.
    destruct t. cbn [list2 length]. replace (Z.of_nat (2 * nv + 2)) with (Z.of_nat (nv + 1) * 2) by lia.
    rewrite Z.div_mul by lia. rewrite wrap_small by (unfold in_u; lia). lia.
  - destruct Hb as (V & N & T & tris & lines & _ & _ & [ET HT] & _). unfold m'. cbn. rewrite ET.
    replace (flat2 T ++ list2 t) with (flat2 (T ++ [t])) by by rewrite flat2_app; cbn; rewrite app_nil_r.
    apply read2_lookup; [|lia]. rewrite <- HT. apply list_lookup_middle. done.
  - intros shared Hs. eapply Forall_impl; [exact Hs|]. intros [k i] [? E]. cbn in *. split; [lia|]. by apply read2_app.
Qed.

Lemma addSub_ok v nrm t m shared nv nt nl :
  building false (Z.of_nat nv) m nv nv nv nt nl -> shared_ok m nv shared -> 3 * Z.of_nat nv + 3 < 2 ^ 32 ->
  exists i m' shared' nv', addSubVertexAttribs v nrm t (m, shared) = (i, (m', shared')) /\ (nv <= nv' <= nv + 1)%nat /\
    0 <= i < Z.of_nat nv' /\ building false (Z.of_nat nv') m' nv' nv' nv' nt nl /\ shared_ok m' nv' shared'.
Proof.
  intros Hb Hs Hn. destruct (add_attribs_ok v nrm t m nv nt nl Hb Hn) as (Hb' & Ei & Er & Hs'). cbn zeta in *.
  unfold addSubVertexAttribs. destruct (isSharedTexCoord t); [destruct (shared_find t shared) as [i|] eqn:Ef|].
  - apply shared_find_in in Ef as (k & Hk & _). pose proof (proj1 (Forall_forall _ _) Hs _ Hk) as [Hi _]. cbn in Hi.
    exists i, m, shared, nv. split_and!; (done || lia).
  - eexists _, _, _, (nv + 1)%nat. split; [done|]. rewrite Ei. split_and!; [lia..|done|].
    rewrite shared_set_new by done. apply Forall_app. split; [by apply Hs'|]. constructor; [|done]. cbn [fst snd]. split; [lia|done].
  - eexists _, _, _, (nv + 1)%nat. split; [done|]. rewrite Ei. split_and!; [lia..|done|by apply Hs'].
Qed.

Lemma smooth_subdivide_ok radius tris n0 k B st nt nl :
  Forall (tri_ok false (Z.of_nat n0)) tris -> (k < length tris)%nat ->
  (exists nv, building false (Z.of_nat nv) st.1 nv nv nv nt nl /\ (n0 <= nv <= B)%nat /\ shared_ok st.1 nv st.2) ->
  3 * Z.of_nat B + 9 < 2 ^ 32 ->
  exists st', smooth_subdivide radius (flat3 tris) k st = Ok st' /\
    (exists nv, building false (Z.of_nat nv) st'.1 nv nv nv (nt + 4) (nl + 7) /\ (n0 <= nv <= B + 3)%nat /\ shared_ok st'.1 nv st'.2).
Proof.
  intros Ht Hk (nv & Hb & Hnv & Hs) HB. destruct st as [m shared]. cbn [fst snd] in *.
  destruct (lookup_lt_is_Some_2 tris k Hk) as [[[a b] c] Hk3]. destruct (at_tri _ _ _ _ _ Hk3) as (E1 & E2 & E3).
  destruct (Forall_lookup_1 _ _ _ _ Ht Hk3) as [(Ha & Hb' & Hc) _].
  destruct (building_read _ _ _ _ _ _ a Hb ltac:(lia) ltac:(lia)) as [[va Ea] [ta Fa]].
  destruct (building_read _ _ _ _ _ _ b Hb ltac:(lia) ltac:(lia)) as [[vb Eb] [tb Fb]].
  destruct (building_read _ _ _ _ _ _ c Hb ltac:(lia) ltac:(lia)) as [[vc Ec] [tc Fc]].
  unfold smooth_subdivide. rewrite E1, E2, E3. cbn [mbind result_bind fst]. rewrite Ea, Eb, Ec, Fa, Fb, Fc. cbn [mbind result_bind].
  destruct (addSub_ok (computeHalfVertex va vb radius) (computeVertexNormal (computeHalfVertex va vb radius))
    (computeHalfTexCoord ta tb) m shared nv nt nl Hb Hs ltac:(lia)) as (i1 & m1 & s1 & n1 & -> & Hn1 & Hi1 & Hb1 & Hs1).
  destruct (addSub_ok (computeHalfVertex vb vc radius) (computeVertexNormal (computeHalfVertex vb vc radius))
    (computeHalfTexCoord tb tc) m1 s1 n1 nt nl Hb1 Hs1 ltac:(lia)) as (i2 & m2 & s2 & n2 & -> & Hn2 & Hi2 & Hb2 & Hs2).
  destruct (addSub_ok (computeHalfVertex va vc radius) (computeVertexNormal (computeHalfVertex va vc radius))
    (computeHalfTexCoord ta tc) m2 s2 n2 nt nl Hb2 Hs2 ltac:(lia)) as (i3 & m3 & s3 & n3 & -> & Hn3 & Hi3 & Hb3 & Hs3).
  eexists. split; [done|]. exists n3. cbn [fst snd]. split; [|split; [lia|exact Hs3]].
  apply addSubLineIndices_ok; [lia|rewrite !Forall_cons; split_and!; [lia..|done]|done|].
  eapply building_eq; [..|repeat (apply building_addIndices; [lia| |]); [..|exact Hb3]]; try lia; (split; [lia|done]).
Qed.

Lemma smooth_iteration_ok radius B st nt nl :
  smooth_ok B st nt nl -> 3 * Z.of_nat (B + 3 * nt) + 9 < 2 ^ 32 -> 3 * Z.of_nat nt < 2 ^ 31 ->
  exists st', smooth_iteration radius st = Ok st' /\ smooth_ok (B + 3 * nt) st' (4 * nt) (7 * nt).
Proof.
  intros (nv & Hb & HB & Hs) Hn Hnt. destruct st as [m shared]. cbn [fst snd] in *. unfold smooth_iteration.
  destruct (building_indices _ _ _ _ _ _ _ _ Hb) as (tris & -> & <- & Ht). rewrite triangle_rounds_ok by done.
  destruct (for_each_inv (fun k st => exists nv', building false (Z.of_nat nv') st.1 nv' nv' nv' (4 * k) (7 * k) /\
      (nv <= nv' <= B + 3 * k)%nat /\ shared_ok st.1 nv' st.2)
    (smooth_subdivide radius (flat3 tris)) (seq 0 (length tris)) (set_lines [] (set_indices [] m), shared)) as (st & E & Hst).
  - intros k k' st [-> Hk]%lookup_seq Hst. cbn [Nat.add].
    destruct (smooth_subdivide_ok radius tris nv k (B + 3 * k) st _ _ Ht Hk Hst ltac:(lia)) as (st' & -> & nv' & Hb' & Hnv' & Hs').
    exists st'. split; [done|]. exists nv'. split; [|split; [lia|done]]. revert Hb'. apply building_eq; lia.
  - exists nv. cbn [fst snd]. split; [|split; [lia|exact Hs]].
    destruct Hb as (V & N & T & tris' & lines & HV & HN & HT & _). by exists V, N, T, [], [].
  - exists st. split; [done|]. rewrite length_seq in Hst. destruct Hst as (nv' & Hb' & Hnv' & Hs'). exists nv'. split_and!; (done || lia).
Qed.

Lemma subdivideVerticesSmooth_ok radius sub st :
  sub <= 12 -> smooth_ok 22 st 20 30 ->
  exists st', subdivideVerticesSmooth radius sub st = Ok st' /\
    smooth_ok (2 + ico_tris (Z.to_nat sub)) st' (ico_tris (Z.to_nat sub)) (ico_lines (Z.to_nat sub)).
Proof.
  intros Hs Hm. unfold subdivideVerticesSmooth.
  destruct (for_each_inv (fun k st => smooth_ok (2 + ico_tris k) st (ico_tris k) (ico_lines k))
    (fun _ st => smooth_iteration radius st) (seqZ 1 sub) st) as (st' & E & Hst'); [|exact Hm|].
  - intros k i st1 [_ Hk]%lookup_seqZ Hst1. pose proof (ico_tris_bound (S k) ltac:(lia)) as Hb. rewrite ico_tris_S in Hb.
    destruct (smooth_iteration_ok radius _ st1 _ _ Hst1) as (st2 & E & Hst2); [lia|lia|].
    exists st2. split; [done|]. change (1 + k)%nat with (S k). rewrite ico_tris_S.
    replace (2 + 4 * ico_tris k)%nat with (2 + ico_tris k + 3 * ico_tris k)%nat by lia. exact Hst2.
  - exists st'. split; [done|]. by rewrite length_seqZ in Hst'.
Qed.

Lemma add_shared_ok v t m shared nv :
  building false (Z.of_nat nv) m nv nv nv 0 0 -> shared_ok m nv shared -> shared_find t shared = None -> 3 * Z.of_nat nv + 3 < 2 ^ 32 ->
  exists m', add_shared v t (m, shared) = (m', shared ++ [(t, Z.of_nat nv)]) /\
    building false (Z.of_nat (nv + 1)) m' (nv + 1) (nv + 1) (nv + 1) 0 0 /\ shared_ok m' (nv + 1) (shared ++ [(t, Z.of_nat nv)]).
Proof.
  intros Hb Hs Hf Hn. unfold add_shared, add_row.
  destruct (add_attribs_ok v (computeVertexNormal v) t m nv 0 0 Hb Hn) as (Hb' & -> & Er & Hs'). cbn zeta in *.
  eexists. rewrite shared_set_new by done. split; [done|]. split; [done|]. apply Forall_app. split; [by apply Hs'|].
  constructor; [|done]. cbn [fst snd]. split; [lia|done].
Qed.

Section smooth.
Context (cosf sinf atanf : f32 -> f32) (mul_sin mul_cos : f32 -> f32 -> f32).

Ltac attribs_step :=
  match goal with
  | Hb : building false _ ?m ?nv _ _ _ _ |- context [add_attribs ?v ?n ?t ?m] =>
      let H := fresh in
      pose proof (proj1 (add_attribs_ok v n t m nv 0 0 Hb ltac:(lia))) as H; clear Hb; cbv zeta in H;
      generalize dependent (add_attribs v n t m); intros ? H; cbn [Nat.add] in H
  end.

Ltac shared_step :=
  match goal with
  | Hb : building false _ ?m ?nv _ _ _ _, Hs : shared_ok ?m ?nv ?sh |- context [add_shared ?v ?t ?st] =>
      lazymatch st with
      | (m, _) =>
          let F := fresh "F" in
          let E := fresh "E" in
          let x := fresh "x" in
          assert (shared_find t sh = None) as F by (vm_compute; reflexivity);
          destruct (add_shared_ok v t m sh nv Hb Hs F ltac:(lia)) as (x & E & ? & ?);
          change (add_shared v t st = (x, sh ++ [(t, Z.of_nat nv)])) in E;
          rewrite E; clear Hb Hs E F; cbn [app Nat.add] in *
      end
  end.

Lemma ico_smooth_vertices_ok radius m :
  exists st, smooth_vertices cosf sinf atanf mul_sin mul_cos radius (clearArrays m) = Ok st /\
    building false 22 st.1 22 22 22 0 0 /\ shared_ok st.1 22 st.2.
Proof.
  unfold smooth_vertices. pose proof (computeVertices_length cosf sinf atanf mul_sin mul_cos radius) as Hl.
  set (tmp := computeVertices _ _ _ _ _ _) in *. clearbody tmp.
  repeat match goal with
         | |- context [atZ tmp ?k] => let x := fresh "v" in destruct (atZ_ok tmp k) as [x ->]; [lia|]; cbn [mbind result_bind]
         end.
  pose proof (building_clear false 0 m) as Hb. change 0 with (Z.of_nat 0) in Hb at 1. generalize dependent (clearArrays m).
  intros m0 Hb. unfold add_row. cbv beta zeta. do 14 attribs_step.
  match goal with Hb : building false _ ?m ?nv _ _ _ _ |- _ => assert (shared_ok m nv []) as Hs0 by constructor end.
  do 8 shared_step. eexists. split; [reflexivity|]. split; eassumption.
Qed.

(** The twenty triangles and thirty lines. *)
Lemma smooth_faces_ok m :
  building false 22 m 22 22 22 0 0 ->
  building false 22 (foldl (fun m '(a, b) => addLine a b m) (foldl (fun m '(a, b, c) => addIndices a b c m) m smooth_triangles) smooth_lines)
    22 22 22 20 30.
Proof.
  intros Hb. cbn [foldl smooth_triangles smooth_lines].
  eapply building_eq; [..|repeat first [exact Hb | apply building_addLine | apply building_addIndices]]; try reflexivity;
    first [done | split; [lia|done]].
Qed.

(** ** The object *)

(** What an icosphere of [k] iterations is. *)
Definition icosphere_ok (s : Icosphere) : Prop :=
  let k := Z.to_nat (subdivision s) in
  subdivision s <= 12 /\ exists n, solid_ok (negb (sp_smooth s)) (sp_arrays s) n (ico_tris k) (ico_lines k) /\
    if sp_smooth s then (0 < n <= 2 + ico_tris k)%nat /\ shared_ok (sp_arrays s) n (sharedIndices s)
    else n = (3 * ico_tris k)%nat.

Lemma ico_tris_pos k : (0 < ico_tris k)%nat.
Proof. unfold ico_tris. pose proof (Nat.pow_nonzero 4 k ltac:(lia)). lia. Qed.

Lemma ico_buildVerticesFlat_ok s : subdivision s <= 12 -> sp_smooth s = false ->
  exists s', ico_buildVerticesFlat cosf sinf atanf mul_sin mul_cos s = Ok s' /\ icosphere_ok s'.
Proof.
  intros Hsub Hsm. unfold ico_buildVerticesFlat.
  destruct (ico_triangles_ok cosf sinf atanf mul_sin mul_cos (sp_radius s) (sp_arrays s)) as (m & -> & Hm). cbn [mbind result_bind].
  destruct (subdivideVerticesFlat_ok (sp_radius s) (subdivision s) m Hsub Hm) as (m1 & -> & Hm1). cbn [mbind result_bind].
  destruct (building_done _ _ _ _ _ Hm1) as (m2 & -> & Hm2). cbn [mbind result_bind]. eexists. split; [done|].
  split; [done|]. cbn [sp_smooth sp_arrays subdivision]. rewrite Hsm. by eexists.
Qed.

(** The smooth mesh keeps at least one vertex. *)
Lemma smooth_ok_pos B st nt nl : smooth_ok B st nt nl -> (0 < nt)%nat ->
  exists nv, (0 < nv <= B)%nat /\ building false (Z.of_nat nv) st.1 nv nv nv nt nl /\ shared_ok st.1 nv st.2.
Proof.
  intros (nv & Hb & HB & Hs) Hn. exists nv. split; [|by split]. split; [|done].
  destruct (building_indices _ _ _ _ _ _ _ _ Hb) as ([|[[a b] c] tris] & _ & <- & Ht); [cbn in Hn; lia|].
  apply Forall_cons in Ht as [[[Ha _] _] _]. lia.
Qed.

Lemma ico_buildVerticesSmooth_ok s : subdivision s <= 12 -> sp_smooth s = true ->
  exists s', ico_buildVerticesSmooth cosf sinf atanf mul_sin mul_cos s = Ok s' /\ icosphere_ok s'.
Proof.
  intros Hsub Hsm. unfold ico_buildVerticesSmooth.
  destruct (ico_smooth_vertices_ok (sp_radius s) (sp_arrays s)) as ([m shared] & -> & Hm & Hs). cbn [mbind result_bind fst snd] in *.
  apply smooth_faces_ok in Hm. set (m1 := foldl _ (foldl _ _ _) _) in *.
  assert (shared_ok m1 22 shared) as Hs1 by exact Hs. clearbody m1.
  destruct (subdivideVerticesSmooth_ok (sp_radius s) (subdivision s) (m1, shared) Hsub) as (st & -> & Hst); [by exists 22%nat|].
  cbn [mbind result_bind]. destruct (smooth_ok_pos _ _ _ _ Hst (ico_tris_pos _)) as (nv & Hnv & Hb & Hsh).
  destruct (building_done _ _ _ _ _ Hb) as (m2 & E & Hm2). rewrite E. cbn [mbind result_bind]. eexists. split; [done|].
  split; [done|]. cbn [sp_smooth sp_arrays subdivision sharedIndices]. rewrite Hsm. exists nv. split; [done|]. split; [done|].
  unfold shared_ok. by rewrite (buildInterleaved_texCoords _ _ E).
Qed.

Lemma sp_rebuild_ok s : subdivision s <= 12 -> exists s', sp_rebuild cosf sinf atanf mul_sin mul_cos s = Ok s' /\ icosphere_ok s'.
Proof.
  intros Hs. unfold sp_rebuild. destruct (sp_smooth s) eqn:E; [by apply ico_buildVerticesSmooth_ok|by apply ico_buildVerticesFlat_ok].
Qed.

Lemma sp_updateRadius_ok s : icosphere_ok s -> exists s', sp_updateRadius s = Ok s' /\ icosphere_ok s'.
Proof.
  intros (Hsub & n & Hok & Hn). unfold sp_updateRadius.
  assert (0 < n)%nat as Hpos by (destruct (sp_smooth s); [lia|subst; pose proof (ico_tris_pos (Z.to_nat (subdivision s))); lia]).
  pose proof Hok as (V & N & T & tris & lines & H & _ & HV & _). destruct V as [|[[x y] z] V]; [cbn in HV; lia|].
  assert (at_ (vertices (sp_arrays s)) 0 = Ok x /\ at_ (vertices (sp_arrays s)) 1 = Ok y /\ at_ (vertices (sp_arrays s)) 2 = Ok z)
    as (-> & -> & ->) by by rewrite (ok_vertices _ _ _ _ _ _ _ H).
  cbn [mbind result_bind].
  destruct (rescale_ok _ (computeScaleForLength (x, y, z) (sp_radius s)) _ _ _ _ Hok) as (m & E & Hm).
  rewrite E. eexists. split; [done|]. split; [done|]. exists n. split; [done|]. cbn.
  destruct (sp_smooth s); [|done]. destruct Hn as [? Hsh]. split; [done|]. unfold shared_ok.
  by rewrite (rescale_texCoords _ _ _ E).
Qed.

Inductive sp_call : Type := SpRadius (radius : f32) | SpSubdivision (iteration : Z) | SpSmooth (smooth : bool).

Definition sp_do (c : sp_call) (s : Icosphere) : result stop Icosphere :=
  match c with
  | SpRadius radius => sp_setRadius radius s
  | SpSubdivision iteration => setSubdivision cosf sinf atanf mul_sin mul_cos iteration s
  | SpSmooth smooth => sp_setSmooth cosf sinf atanf mul_sin mul_cos smooth s
  end.
Definition sp_call_ok (c : sp_call) : Prop := match c with SpSubdivision iteration => iteration <= 12 | _ => True end.

(** C27. An [Icosphere] of up to twelve subdivisions, whatever its setters are
    called with, has [20 * 4^k] triangles after [k] subdivisions, each of
    vertices that exist, and arrays that agree with each other. With flat
    shading there are three vertices to a triangle and the corners of each are
    different; with smooth shading there are at most [2 + 20 * 4^k] vertices,
    and a vertex remembered as shared for a texture coordinate is one that has
    it. *)
Theorem icosphere_always_ok radius sub smooth calls :
  sub <= 12 -> Forall sp_call_ok calls ->
  exists s0 s, Icosphere_make cosf sinf atanf mul_sin mul_cos radius sub smooth = Ok s0 /\
    for_each sp_do calls s0 = Ok s /\ icosphere_ok s.
Proof.
  intros Hsub Hcalls. unfold Icosphere_make.
  destruct (sp_rebuild_ok (mkIcosphere radius sub smooth no_solid []) Hsub) as (s0 & -> & Hs0).
  destruct (for_each_inv (fun _ => icosphere_ok) sp_do calls s0) as (s & E & Hs); [|done|by exists s0, s].
  intros k c s Hk Hs. pose proof (Forall_lookup_1 _ _ _ _ Hcalls Hk) as Hc. destruct c as [r|i|b]; cbn in *.
  - by apply sp_updateRadius_ok.
  - by apply sp_rebuild_ok.
  - unfold sp_setSmooth. destruct (Bool.eqb (sp_smooth s) b); [by eauto|]. apply sp_rebuild_ok. apply Hs.
Qed.
End smooth.

Lemma icosphere_always_ok_witness :
  let id := fun x : f32 => x in
  let fst_ := fun x _ : f32 => x in
  exists s0 s, Icosphere_make id id id fst_ fst_ (f32_of_Z 1) 1 true = Ok s0 /\
    for_each (sp_do id id id fst_ fst_) [SpRadius (f32_of_Z 2); SpSubdivision 2; SpSmooth false] s0 = Ok s /\ icosphere_ok s.
Proof.
  intros id fst_. apply (icosphere_always_ok id id id fst_ fst_ (f32_of_Z 1) 1 true); [lia|]. repeat constructor. cbn. lia.
Defined.
