(* ===== verification/RoundedBox.v ===== *)
(** * The box with rounded corners

    include/mutils/geometry/rounded_box.h: class [RoundCornerBox]. A lattice of
    [2N+2] points a side; a point of its surface becomes a vertex when it is
    first met. The operations of GLM on [vec3] are parameters. *)

From S2P Require Import Prelude Float32 Solids.

Record RoundCornerBox : Type := mkBox {
  m_index_to_verts : list Z;
  m_radius : f64;
  m_N_edge : Z;
  box_vertices : list float3;
  box_normals : list float3;
  box_indices : list (Z * Z * Z)
}.

Definition no_box : RoundCornerBox := mkBox [] (sf_of_Z 53 1024 0) 0 [] [] [].
Definition set_table l s := mkBox l (m_radius s) (m_N_edge s) (box_vertices s) (box_normals s) (box_indices s).
Definition push_vertex v n s :=
  mkBox (m_index_to_verts s) (m_radius s) (m_N_edge s) (box_vertices s ++ [v]) (box_normals s ++ [n]) (box_indices s).
Definition push_face f s :=
  mkBox (m_index_to_verts s) (m_radius s) (m_N_edge s) (box_vertices s) (box_normals s) (box_indices s ++ [f]).

(** The place of a lattice point: [k * m_N_edge * m_N_edge + j * m_N_edge + i]
    in [int]. *)
Definition pidx (s : RoundCornerBox) (p : Z * Z * Z) : result stop Z :=
  let '(i, j, k) := p in
  a ← s_check 32 (k * m_N_edge s); a ← s_check 32 (a * m_N_edge s);
  b ← s_check 32 (j * m_N_edge s);
  c ← s_check 32 (a + b); s_check 32 (c + i).

Definition translateIndices (s : RoundCornerBox) (p : Z * Z * Z) : result stop Z :=
  x ← pidx s p; atZ (m_index_to_verts s) x.

(** A [Vector3i] is made of [unsigned] components. *)
Definition AddFace (i j k : Z) (inversed : bool) (s : RoundCornerBox) : RoundCornerBox :=
  if inversed then push_face (u32 i, u32 k, u32 j) s else push_face (u32 i, u32 j, u32 k) s.

(** Doubles, and a [Vector3d] (which is [glm::vec3]) made of them. *)
Definition to_f64 (x : f32) : f64 := sf_conv 53 1024 x.
Definition vec3_of (v : f64 * f64 * f64) : float3 :=
  let '(x, y, z) := v in (sf_conv 24 128 x, sf_conv 24 128 y, sf_conv 24 128 z).

Module F64Notations.
Infix "+~" := (SFadd 53 1024) (at level 50, left associativity).
Infix "-~" := (SFsub 53 1024) (at level 50, left associativity).
Infix "*~" := (SFmul 53 1024) (at level 40, left associativity).
Infix "/~" := (SFdiv 53 1024) (at level 40, left associativity).
End F64Notations.
Import F64Notations.
Abbreviation d_ := (sf_of_Z 53 1024).

(** The planes: the coordinates [a] and [b] in the plane, and [c] across it. *)
Inductive plane : Type := XY | XZ | YZ.
Definition orient {A} (p : plane) (a b c : A) : A * A * A :=
  match p with XY => (a, b, c) | XZ => (a, c, b) | YZ => (c, a, b) end.

Section RoundCornerBox.
Context (glm_add glm_sub : float3 -> float3 -> float3) (glm_scale : float3 -> f32 -> float3)
  (glm_length : float3 -> f32) (glm_normalize : float3 -> float3).

Definition AddVertex (p : Z * Z * Z) (pos base_pos : float3) (s : RoundCornerBox) : result stop RoundCornerBox :=
  x ← pidx s p;
  v ← atZ (m_index_to_verts s) x;
  if v <? 0 then
    let next_idx := i32 (Z.of_nat (length (box_vertices s))) in
    let s := set_table (<[Z.to_nat x := next_idx]> (m_index_to_verts s)) s in
    let dir := glm_sub pos base_pos in
    if SFltb (d_ 0) (to_f64 (glm_length dir)) then
      let dir := glm_normalize dir in
      Ok (push_vertex (glm_add base_pos (glm_scale dir (sf_conv 24 128 (m_radius s)))) dir s)
    else Ok (push_vertex pos (glm_normalize pos) s)
  else Ok s.

(** What the loops use: [N], the components of [b] as doubles in the order of
    the plane, the radius, [dx], and for each side its [k] and its sign. *)
Record setting : Type := mkSetting { st_N : Z; st_a : f64; st_b : f64; st_c : f64; st_r : f64; st_dx : f64; st_k : Z; st_sign : f64 }.

(** The vertex [i, j] of a corner of the plane: the far corner of an axis is
    [N + 1] further on and [2.0 * b + radius] away. *)
Definition corner_vertex (pl : plane) (e : setting) (far_a far_b : bool) (i j : Z) (s : RoundCornerBox) : result stop RoundCornerBox :=
  let origin := vec3_of (orient pl (SFopp (st_a e) -~ st_r e) (SFopp (st_b e) -~ st_r e) ((st_c e +~ st_r e) *~ st_sign e)) in
  let along (far : bool) (x : Z) (half : f64) :=
    if far then st_dx e *~ d_ x +~ d_ 2 *~ half +~ st_r e else st_dx e *~ d_ x in
  let side (far : bool) (half : f64) := if far then half else SFopp half in
  let step (far : bool) (x : Z) := if far then x + st_N e + 1 else x in
  let pos := glm_add origin (vec3_of (orient pl (along far_a i (st_a e)) (along far_b j (st_b e)) (d_ 0))) in
  let base_pos := vec3_of (orient pl (side far_a (st_a e)) (side far_b (st_b e)) (st_c e *~ st_sign e)) in
  AddVertex (orient pl (step far_a i) (step far_b j) (st_k e)) pos base_pos s.

Definition plane_vertices (pl : plane) (e : setting) (s : RoundCornerBox) : result stop RoundCornerBox :=
  js ← int_upto (st_N e);
  for_each (fun j s =>
    is_ ← int_upto (st_N e);
    for_each (fun i s =>
      s ← corner_vertex pl e false false i j s;
      s ← corner_vertex pl e true false i j s;
      s ← corner_vertex pl e true true i j s;
      corner_vertex pl e false true i j s) is_ s) js s.

(** Two faces: a square of the lattice whose first corner is [(a, b)]. *)
Definition add_square (pl : plane) (k : Z) (inversed : bool) (a b : Z) (s : RoundCornerBox) : result stop RoundCornerBox :=
  p ← translateIndices s (orient pl a b k);
  q ← translateIndices s (orient pl (a + 1) (b + 1) k);
  r ← translateIndices s (orient pl a (b + 1) k);
  let s := AddFace p q r inversed s in
  p ← translateIndices s (orient pl a b k);
  q ← translateIndices s (orient pl (a + 1) b k);
  r ← translateIndices s (orient pl (a + 1) (b + 1) k);
  Ok (AddFace p q r inversed s).

Definition plane_faces (pl : plane) (N k : Z) (inversed : bool) (s : RoundCornerBox) : result stop RoundCornerBox :=
  let square := add_square pl k inversed in
  s ← for_each (fun j s => for_each (fun i s =>
        s ← square i j s; s ← square i (j + N + 1) s; s ← square (i + N + 1) (j + N + 1) s; square (i + N + 1) j s)
        (seqZ 0 N) s) (seqZ 0 N) s;
  s ← for_each (fun i s =>
        s ← square i N s; s ← square N i s; s ← square (i + N + 1) N s; square N (i + N + 1) s) (seqZ 0 N) s;
  square N N s.

(** One round of the loop over the two sides [kidx] of a plane. *)
Definition plane_side (pl : plane) (N : Z) (b : float3) (radius dx : f64) (inverse_at : Z) (kidx : Z) (s : RoundCornerBox) :
  result stop RoundCornerBox :=
  let k := if kidx =? 0 then 0 else N * 2 + 1 in
  let sign := if kidx =? 0 then d_ (-1) else d_ 1 in
  let '(b0, b1, b2) := b in
  let '(x, y, z) := (to_f64 b0, to_f64 b1, to_f64 b2) in
  let e := match pl with
           | XY => mkSetting N x y z radius dx k sign
           | XZ => mkSetting N x z y radius dx k sign
           | YZ => mkSetting N y z x radius dx k sign
           end in
  s ← plane_vertices pl e s;
  plane_faces pl N k (kidx =? inverse_at) s.

(** [v.resize(n, x)]; a negative [int] is a size that is too large. *)
Definition resize {A} (l : list A) (n : Z) (x : A) : result stop (list A) :=
  if n <? 0 then Err (Throw length_error)
  else Ok (take (Z.to_nat n) l ++ replicate (Z.to_nat n - length l) x).

Definition Create (N : Z) (b : float3) (radius : f64) (s : RoundCornerBox) : result stop RoundCornerBox :=
  n ← s_check 32 (N + 1);
  N_edge ← s_check 32 (2 * n);
  size ← s_check 32 (N_edge * N_edge); size ← s_check 32 (size * N_edge);
  table ← resize (m_index_to_verts s) size (-1);
  let s := mkBox table radius N_edge (box_vertices s) (box_normals s) (box_indices s) in
  let dx := radius /~ d_ N in
  s ← for_each (plane_side XY N b radius dx 0) [0; 1] s;
  s ← for_each (plane_side XZ N b radius dx 1) [0; 1] s;
  for_each (plane_side YZ N b radius dx 0) [0; 1] s.
End RoundCornerBox.
