(* ===== verification/RoundedBoxTheory.v ===== *)
(** * Theorems on the box with rounded corners *)

From S2P Require Import Prelude Float32 Solids SolidsTheory SphereTheory RoundedBox.

(** ** The lattice *)

(** The place of a point of a lattice of [E] points a side. *)
Definition place (E : Z) (p : Z * Z * Z) : Z := let '(i, j, k) := p in k * E * E + j * E + i.
Definition inside (E : Z) (p : Z * Z * Z) : Prop := let '(i, j, k) := p in 0 <= i < E /\ 0 <= j < E /\ 0 <= k < E.

Lemma place_range E p : inside E p -> 0 <= place E p < E * E * E.
Proof.
  destruct p as [[i j] k]. cbn. intros (Hi & Hj & Hk).
  assert (0 <= j * E + i < E * E) by nia.
  assert (0 <= E * E) as Hsq by apply Z.square_nonneg.
  pose proof (Z.mul_nonneg_nonneg k (E * E) ltac:(lia) Hsq). pose proof (Z.mul_le_mono_nonneg_r k (E - 1) (E * E) Hsq ltac:(lia)). lia.
Qed.

Lemma place_inj E p q : inside E p -> inside E q -> place E p = place E q -> p = q.
Proof.
  destruct p as [[i j] k], q as [[i' j'] k']. cbn. intros (Hi & Hj & Hk) (Hi' & Hj' & Hk') Heq.
  assert (k * E + j = k' * E + j' /\ i = i') as [H ->].
  { apply (Z.div_mod_unique E); lia. }
  assert (k = k' /\ j = j') as [-> ->]; [|done]. apply (Z.div_mod_unique E); lia.
Qed.

(** The size of the table fits in an [int]. *)
Definition size_ok (E : Z) : Prop := 0 <= E /\ E * E * E < 2 ^ 31.

Lemma pidx_ok s p : size_ok (m_N_edge s) -> inside (m_N_edge s) p -> pidx s p = Ok (place (m_N_edge s) p).
Proof.
  intros [H0 HE] Hp. pose proof (place_range _ _ Hp). destruct p as [[i j] k]. unfold pidx. cbn in *.
  set (E := m_N_edge s) in *. destruct Hp as (Hi & Hj & Hk).
  assert (0 <= k * E) by nia. assert (k * E <= k * E * E) by nia. assert (0 <= j * E) by nia.
  rewrite (s_check_ok 32 (k * E)) by (unfold in_s; lia). cbn [mbind result_bind].
  rewrite (s_check_ok 32 (k * E * E)) by (unfold in_s; lia). cbn [mbind result_bind].
  rewrite (s_check_ok 32 (j * E)) by (unfold in_s; lia). cbn [mbind result_bind].
  rewrite (s_check_ok 32 (k * E * E + j * E)) by (unfold in_s; lia). cbn [mbind result_bind].
  rewrite s_check_ok by (unfold in_s; lia). done.
Qed.

(** ** The invariant *)

(** The point [p] has vertex [x]. *)
Definition vertex_at (s : RoundCornerBox) (p : Z * Z * Z) (x : Z) : Prop :=
  m_index_to_verts s !! Z.to_nat (place (m_N_edge s) p) = Some x /\ 0 <= x.

Record box_inv (E : Z) (s : RoundCornerBox) : Prop := {
  inv_edge : m_N_edge s = E;
  inv_table : length (m_index_to_verts s) = Z.to_nat (E * E * E);
  inv_normals : length (box_normals s) = length (box_vertices s);
  inv_range : Forall (fun x => -1 <= x < Z.of_nat (length (box_vertices s))) (m_index_to_verts s);
  inv_inj : forall a b x, m_index_to_verts s !! a = Some x -> m_index_to_verts s !! b = Some x -> 0 <= x -> a = b;
  inv_onto : forall x, 0 <= x < Z.of_nat (length (box_vertices s)) -> x ∈ m_index_to_verts s;
  inv_faces : Forall (tri_ok true (Z.of_nat (length (box_vertices s)))) (box_indices s)
}.

(** What later steps keep: vertices, and which points have them. *)
Definition grows (s s' : RoundCornerBox) : Prop :=
  (forall p x, vertex_at s p x -> vertex_at s' p x) /\ (length (box_vertices s) <= length (box_vertices s'))%nat.

#[global] Instance grows_preorder : PreOrder grows.
Proof.
  split.
  - intros s. split; [done|lia].
  - intros s1 s2 s3 [H1 L1] [H2 L2]. split; [auto|lia].
Qed.

Section box.
Context (glm_add glm_sub : float3 -> float3 -> float3) (glm_scale : float3 -> f32 -> float3)
  (glm_length : float3 -> f32) (glm_normalize : float3 -> float3) (E : Z) (HE : size_ok E).

Local Abbreviation AddVertex := (AddVertex glm_add glm_sub glm_scale glm_length glm_normalize).

Lemma table_at s p : box_inv E s -> inside E p ->
  exists x, m_index_to_verts s !! Z.to_nat (place E p) = Some x /\ -1 <= x < Z.of_nat (length (box_vertices s)).
Proof.
  intros Hs Hp. pose proof (place_range _ _ Hp).
  destruct (lookup_lt_is_Some_2 (m_index_to_verts s) (Z.to_nat (place E p))) as [x Hx].
  { rewrite (inv_table _ _ Hs). lia. }
  exists x. split; [done|]. exact (Forall_lookup_1 _ _ _ _ (inv_range _ _ Hs) Hx).
Qed.

(** A point without a vertex gets the next one. *)
Lemma push_ok s p v n : box_inv E s -> inside E p -> m_index_to_verts s !! Z.to_nat (place E p) = Some (-1) ->
  let s' := push_vertex v n (set_table (<[Z.to_nat (place E p) := Z.of_nat (length (box_vertices s))]> (m_index_to_verts s)) s) in
  box_inv E s' /\ grows s s' /\ box_indices s' = box_indices s /\ vertex_at s' p (Z.of_nat (length (box_vertices s))).
Proof.
  intros Hs Hp Hx s'. destruct Hs as [He Ht Hn Hr Hi Ho Hf]. pose proof (lookup_lt_Some _ _ _ Hx) as Hlt.
  assert (length (box_vertices s') = S (length (box_vertices s))) as Hlen by (cbn; rewrite length_app; cbn; lia).
  assert (m_index_to_verts s' = <[Z.to_nat (place E p) := Z.of_nat (length (box_vertices s))]> (m_index_to_verts s)) as Htab by done.
  assert (m_N_edge s' = E) as He' by done.
  split; [constructor|split; [split|split; [done|split]]].
  - done.
  - rewrite Htab, length_insert. done.
  - cbn. rewrite !length_app. cbn. lia.
  - rewrite Htab, Hlen. apply Forall_insert; [|lia]. eapply Forall_impl; [exact Hr|]. cbn. lia.
  - rewrite Htab. intros a b x [[<- [<- _]]|[Hne Ha]]%list_lookup_insert_Some [[<- [? _]]|[Hne' Hb]]%list_lookup_insert_Some Hx0; try done.
    + pose proof (Forall_lookup_1 _ _ _ _ Hr Hb). cbn in *. lia.
    + subst. pose proof (Forall_lookup_1 _ _ _ _ Hr Ha). cbn in *. lia.
    + by eapply Hi.
  - rewrite Htab, Hlen. intros x Hx'. destruct (decide (x = Z.of_nat (length (box_vertices s)))) as [->|Hne].
    + eapply list_elem_of_lookup_2. by apply list_lookup_insert_eq.
    + pose proof (Ho x ltac:(lia)) as Hin. apply list_elem_of_lookup in Hin as [a Ha]. apply (list_elem_of_lookup_2 _ a).
      rewrite list_lookup_insert_ne; [done|]. intros <-. rewrite Hx in Ha. injection Ha as <-. lia.
  - cbn -[box_vertices]. rewrite Hlen. eapply Forall_impl; [exact Hf|]. intros [[??]?] [? Hd]. split; [lia|done].
  - intros q x [Hq Hx0]. unfold vertex_at in *. rewrite He', He, Htab in *. split; [|done].
    rewrite list_lookup_insert_ne; [done|]. intros Heq. rewrite <- Heq, Hx in Hq. injection Hq as <-. lia.
  - lia.
  - unfold vertex_at. rewrite He', Htab. apply list_lookup_insert_eq. done.
  - lia.
Qed.

(** There are no more vertices than points. *)
Lemma vertices_bound s : box_inv E s -> Z.of_nat (length (box_vertices s)) <= E * E * E.
Proof.
  intros Hs. enough (length (seqZ 0 (Z.of_nat (length (box_vertices s)))) <= length (m_index_to_verts s))%nat as H.
  { rewrite length_seqZ, (inv_table _ _ Hs) in H. destruct HE. nia. }
  apply submseteq_length, NoDup_submseteq; [apply NoDup_seqZ|]. intros x Hx%elem_of_seqZ. apply (inv_onto _ _ Hs). lia.
Qed.

Lemma AddVertex_ok s p pos base :
  box_inv E s -> inside E p ->
  exists s', AddVertex p pos base s = Ok s' /\ box_inv E s' /\ grows s s' /\ box_indices s' = box_indices s /\ exists x, vertex_at s' p x.
Proof.
  intros Hs Hp. unfold RoundedBox.AddVertex. pose proof (inv_edge _ _ Hs) as He. pose proof (place_range _ _ Hp) as Hpl.
  rewrite pidx_ok by by rewrite He. rewrite He. cbn [mbind result_bind].
  destruct (table_at s p Hs Hp) as (x & Hx & Hxr). unfold atZ, at_. replace (place E p <? 0) with false by lia. rewrite Hx.
  cbn [of_option mbind result_bind]. destruct (Z.ltb_spec x 0) as [Hneg|Hpos].
  - assert (x = -1) as -> by lia. pose proof (vertices_bound s Hs) as Hb. destruct HE as [_ HE3].
    unfold swrap. rewrite Z.mod_small by lia. replace (_ + 2 ^ (32 - 1) - 2 ^ (32 - 1)) with (Z.of_nat (length (box_vertices s))) by lia.
    destruct (SFltb _ _); (eexists; split; [reflexivity|]);
      match goal with
      | |- box_inv E (push_vertex ?v ?n _) /\ _ =>
          destruct (push_ok s p v n Hs Hp Hx) as (? & ? & ? & ?); split_and!; [done..|by eexists]
      end.
  - exists s. split; [done|]. split; [done|]. split; [done|]. split; [done|]. exists x. by rewrite <- He in Hx.
Qed.

(** ** A plane *)

(** A loop whose steps grow the box establishes at its end what each step
    establishes. *)
Lemma for_each_grows {A} (P : A -> RoundCornerBox -> Prop) (Q : RoundCornerBox -> RoundCornerBox -> Prop) `{!PreOrder Q}
  (I : RoundCornerBox -> Prop) (body : A -> RoundCornerBox -> result stop RoundCornerBox) l s :
  (forall a s s', Q s s' -> P a s -> P a s') ->
  (forall a s, a ∈ l -> I s -> exists s', body a s = Ok s' /\ I s' /\ Q s s' /\ P a s') ->
  I s -> exists s', for_each body l s = Ok s' /\ I s' /\ Q s s' /\ (forall a, a ∈ l -> P a s').
Proof.
  intros HP. revert s. induction l as [|a l IH]; intros s Hb HI.
  { exists s. split_and!; [done|done|done|by intros ? ?%not_elem_of_nil]. }
  destruct (Hb a s ltac:(by left) HI) as (s1 & E1 & HI1 & HQ1 & HP1).
  destruct (IH s1 ltac:(intros; apply Hb; [by right|done]) HI1) as (s2 & E2 & HI2 & HQ2 & HP2).
  exists s2. cbn. rewrite E1. split_and!; [done|done|by etransitivity|].
  intros b [->|Hb']%elem_of_cons; [by eapply HP|by apply HP2].
Qed.

(** Every step keeps the faces while vertices are added. *)
Definition grows_only (s s' : RoundCornerBox) : Prop := grows s s' /\ box_indices s' = box_indices s.
#[local] Instance grows_only_preorder : PreOrder grows_only.
Proof.
  split; [intros s; split; done|]. intros s1 s2 s3 [H1 E1] [H2 E2]. split; [by etransitivity|congruence].
Qed.

Definition has_vertex (s : RoundCornerBox) (p : Z * Z * Z) : Prop := exists x, vertex_at s p x.

Lemma has_grows s s' p : grows_only s s' -> has_vertex s p -> has_vertex s' p.
Proof. intros [[Hg _] _] [x Hx]. exists x. by apply Hg. Qed.

Context (N : Z) (HN : 0 <= N) (HEN : E = 2 * (N + 1)).

Lemma orient_inside pl a b k : 0 <= a < E -> 0 <= b < E -> 0 <= k < E -> inside E (orient pl a b k).
Proof. destruct pl; cbn; lia. Qed.

Local Abbreviation corner_vertex := (corner_vertex glm_add glm_sub glm_scale glm_length glm_normalize).

Lemma corner_ok pl e fa fb i j s :
  box_inv E s -> st_N e = N -> 0 <= st_k e < E -> 0 <= i <= N -> 0 <= j <= N ->
  let a := if fa : bool then i + N + 1 else i in
  let b := if fb : bool then j + N + 1 else j in
  exists s', corner_vertex pl e fa fb i j s = Ok s' /\ box_inv E s' /\ grows_only s s' /\ has_vertex s' (orient pl a b (st_k e)).
Proof.
  intros Hs He Hk Hi Hj a b. unfold RoundedBox.corner_vertex. rewrite He. fold a b.
  edestruct (AddVertex_ok s (orient pl a b (st_k e))) as (s' & E' & Hs' & Hg & Hf & Hv); [done| |exists s'; by split_and!].
  apply orient_inside; unfold a, b; destruct fa, fb; lia.
Qed.

Lemma square_vertices_ok pl e i j s :
  box_inv E s -> st_N e = N -> 0 <= st_k e < E -> 0 <= i <= N -> 0 <= j <= N ->
  exists s', (s ← corner_vertex pl e false false i j s; s ← corner_vertex pl e true false i j s;
              s ← corner_vertex pl e true true i j s; corner_vertex pl e false true i j s) = Ok s' /\
    box_inv E s' /\ grows_only s s' /\
    (forall a b, a = i \/ a = i + N + 1 -> b = j \/ b = j + N + 1 -> has_vertex s' (orient pl a b (st_k e))).
Proof.
  intros Hs He Hk Hi Hj.
  destruct (corner_ok pl e false false i j s Hs He Hk Hi Hj) as (s1 & -> & H1 & G1 & V1). cbn [mbind result_bind].
  destruct (corner_ok pl e true false i j s1 H1 He Hk Hi Hj) as (s2 & -> & H2 & G2 & V2). cbn [mbind result_bind].
  destruct (corner_ok pl e true true i j s2 H2 He Hk Hi Hj) as (s3 & -> & H3 & G3 & V3). cbn [mbind result_bind].
  destruct (corner_ok pl e false true i j s3 H3 He Hk Hi Hj) as (s4 & -> & H4 & G4 & V4).
  assert (grows_only s2 s4) by by etransitivity. assert (grows_only s1 s4) by by etransitivity.
  exists s4. split_and!; [done|done|by etransitivity|].
  intros a b [->| ->] [->| ->]; cbn zeta in *; eauto using has_grows.
Qed.

Lemma plane_vertices_ok pl e s :
  box_inv E s -> st_N e = N -> N < 2 ^ 31 - 1 -> 0 <= st_k e < E ->
  exists s', plane_vertices glm_add glm_sub glm_scale glm_length glm_normalize pl e s = Ok s' /\ box_inv E s' /\ grows_only s s' /\
    (forall a b, 0 <= a < E -> 0 <= b < E -> has_vertex s' (orient pl a b (st_k e))).
Proof.
  intros Hs He HNb Hk. unfold plane_vertices. rewrite He. unfold int_upto. replace (N =? 2 ^ 31 - 1) with false by lia.
  cbn [mbind result_bind].
  edestruct (for_each_grows (fun j s => forall a b, 0 <= a < E -> b = j \/ b = j + N + 1 -> has_vertex s (orient pl a b (st_k e)))
    grows_only (box_inv E)) as (s' & -> & Hs' & Hg & Hv); [..|exact Hs|exists s'; split_and!; [done..|]].
  - intros j s1 s2 Hg H a b Ha Hb. eauto using has_grows.
  - intros j s1 Hj%elem_of_seqZ Hs1. cbn beta.
    edestruct (for_each_grows (fun i s => forall a b, a = i \/ a = i + N + 1 -> b = j \/ b = j + N + 1 -> has_vertex s (orient pl a b (st_k e)))
      grows_only (box_inv E)) as (s2 & -> & Hs2 & Hg2 & Hv2); [..|exact Hs1|exists s2; split_and!; [done..|]].
    + intros i s3 s4 Hg H a b Ha Hb. eauto using has_grows.
    + intros i s3 Hi%elem_of_seqZ Hs3. apply square_vertices_ok; (done || lia).
    + intros a b Ha Hb. destruct (decide (a <= N)) as [Hle|Hgt].
      * apply (Hv2 a); [apply elem_of_seqZ; lia|by left|done].
      * apply (Hv2 (a - N - 1)); [apply elem_of_seqZ; lia|right; lia|done].
  - intros a b Ha Hb. destruct (decide (b <= N)) as [Hle|Hgt].
    + apply (Hv b); [apply elem_of_seqZ; lia|done|by left].
    + apply (Hv (b - N - 1)); [apply elem_of_seqZ; lia|done|right; lia].
Qed.

(** ** The faces of a plane *)

Lemma translate_ok s p : box_inv E s -> inside E p -> has_vertex s p ->
  exists x, translateIndices s p = Ok x /\ vertex_at s p x /\ 0 <= x < Z.of_nat (length (box_vertices s)).
Proof.
  intros Hs Hp [x [Hx H0]]. pose proof (place_range _ _ Hp). rewrite (inv_edge _ _ Hs) in Hx. exists x.
  unfold translateIndices. rewrite pidx_ok by by rewrite (inv_edge _ _ Hs). cbn [mbind result_bind]. rewrite (inv_edge _ _ Hs).
  unfold atZ, at_. replace (place E p <? 0) with false by lia. rewrite Hx. split; [done|].
  pose proof (Forall_lookup_1 _ _ _ _ (inv_range _ _ Hs) Hx). cbn in *. unfold vertex_at. rewrite (inv_edge _ _ Hs). split; [done|lia].
Qed.

Lemma vertex_at_inj s p q x : box_inv E s -> inside E p -> inside E q -> vertex_at s p x -> vertex_at s q x -> p = q.
Proof.
  intros Hs Hp Hq [H1 H0] [H2 _]. rewrite (inv_edge _ _ Hs) in *. pose proof (place_range _ _ Hp). pose proof (place_range _ _ Hq).
  apply (place_inj E); [done..|]. pose proof (inv_inj _ _ Hs _ _ _ H1 H2 H0). lia.
Qed.

(** Only faces are added, [k] of them. *)
Definition faced (s s' : RoundCornerBox) (k : Z) : Prop :=
  (m_index_to_verts s' = m_index_to_verts s /\ m_N_edge s' = m_N_edge s /\ box_vertices s' = box_vertices s) /\
  Z.of_nat (length (box_indices s')) = Z.of_nat (length (box_indices s)) + k.

Lemma faced_vertex s s' k p : faced s s' k -> has_vertex s p -> has_vertex s' p.
Proof. intros [(Et & Ee & _) _] [x Hx]. exists x. unfold vertex_at in *. by rewrite Et, Ee. Qed.

Lemma faced_trans s s1 s2 k k1 : faced s s1 k -> faced s1 s2 k1 -> faced s s2 (k + k1).
Proof. intros [(? & ? & ?) ?] [(? & ? & ?) ?]. split; [split_and!; congruence|lia]. Qed.

Lemma AddFace_ok s p q r x y z inv_ :
  box_inv E s -> inside E p -> inside E q -> inside E r -> p <> q -> q <> r -> p <> r ->
  vertex_at s p x -> vertex_at s q y -> vertex_at s r z ->
  0 <= x < Z.of_nat (length (box_vertices s)) -> 0 <= y < Z.of_nat (length (box_vertices s)) -> 0 <= z < Z.of_nat (length (box_vertices s)) ->
  box_inv E (AddFace x y z inv_ s) /\ faced s (AddFace x y z inv_ s) 1.
Proof.
  intros Hs Hp Hq Hr Hpq Hqr Hpr Vx Vy Vz Hx Hy Hz. pose proof (vertices_bound s Hs). destruct HE as [_ HE3].
  assert (x <> y) by (intros ->; apply Hpq; by eapply vertex_at_inj).
  assert (y <> z) by (intros ->; apply Hqr; by eapply vertex_at_inj).
  assert (x <> z) by (intros ->; apply Hpr; by eapply vertex_at_inj).
  unfold AddFace. rewrite !wrap_small by (unfold in_u; lia).
  assert (forall f, tri_ok true (Z.of_nat (length (box_vertices s))) f -> box_inv E (push_face f s) /\ faced s (push_face f s) 1) as Hf.
  { intros f Hok. destruct Hs. split; [|split; [done|cbn; rewrite length_app; cbn; lia]]. constructor; try done. cbn. apply Forall_app. auto. }
  destruct inv_; apply Hf; (split; [lia|intros _; lia]).
Qed.

(** All points of a plane have a vertex. *)
Definition plane_has (pl : plane) (k : Z) (s : RoundCornerBox) : Prop :=
  forall a b, 0 <= a < E -> 0 <= b < E -> has_vertex s (orient pl a b k).

(** The state of the loops over a plane: [n] faces more than in [s0]. *)
Definition face_inv (pl : plane) (k : Z) (s0 : RoundCornerBox) (n : Z) (s : RoundCornerBox) : Prop :=
  box_inv E s /\ plane_has pl k s /\ faced s0 s n.

Lemma triangle_ok pl k s p q r inv_ :
  0 <= k < E -> box_inv E s -> plane_has pl k s ->
  let inside2 (t : Z * Z) := 0 <= t.1 < E /\ 0 <= t.2 < E in
  inside2 p -> inside2 q -> inside2 r -> p <> q -> q <> r -> p <> r ->
  exists x y z, translateIndices s (orient pl p.1 p.2 k) = Ok x /\ translateIndices s (orient pl q.1 q.2 k) = Ok y /\
    translateIndices s (orient pl r.1 r.2 k) = Ok z /\
    face_inv pl k s 1 (AddFace x y z inv_ s).
Proof.
  intros Hk Hs Hpl inside2 [??] [??] [??] Hpq Hqr Hpr.
  destruct (translate_ok s (orient pl p.1 p.2 k)) as (x & -> & Vx & Hx); [done|by apply orient_inside|by apply Hpl|].
  destruct (translate_ok s (orient pl q.1 q.2 k)) as (y & -> & Vy & Hy); [done|by apply orient_inside|by apply Hpl|].
  destruct (translate_ok s (orient pl r.1 r.2 k)) as (z & -> & Vz & Hz); [done|by apply orient_inside|by apply Hpl|].
  exists x, y, z. split; [done|]. split; [done|]. split; [done|].
  assert (forall p q : Z * Z, p <> q -> orient pl p.1 p.2 k <> orient pl q.1 q.2 k) as Ho.
  { intros [??] [??] Hne Heq. apply Hne. destruct pl; cbn in Heq; by injection Heq as -> ->. }
  destruct (AddFace_ok s _ _ _ x y z inv_ Hs (orient_inside pl p.1 p.2 k ltac:(done) ltac:(done) Hk)
    (orient_inside pl q.1 q.2 k ltac:(done) ltac:(done) Hk) (orient_inside pl r.1 r.2 k ltac:(done) ltac:(done) Hk)
    (Ho _ _ Hpq) (Ho _ _ Hqr) (Ho _ _ Hpr) Vx Vy Vz Hx Hy Hz) as [Hs' Hf].
  split; [done|]. split; [|done]. intros a b Ha Hb. eapply faced_vertex; [exact Hf|by apply Hpl].
Qed.

Lemma add_square_ok pl k s0 n s inv_ a b :
  0 <= k < E -> face_inv pl k s0 n s -> 0 <= a < E - 1 -> 0 <= b < E - 1 ->
  exists s', add_square pl k inv_ a b s = Ok s' /\ face_inv pl k s0 (n + 2) s'.
Proof.
  intros Hk (Hs & Hpl & Hf) Ha Hb. unfold add_square.
  destruct (triangle_ok pl k s (a, b) (a + 1, b + 1) (a, b + 1) inv_ Hk Hs Hpl) as (x & y & z & E1 & E2 & E3 & Hs1 & Hpl1 & Hf1);
    [cbn; lia..|intros [=]; lia|intros [=]; lia|intros [=]; lia|].
  cbn [fst snd] in E1, E2, E3. rewrite E1, E2, E3. cbn [mbind result_bind].
  set (s1 := AddFace x y z inv_ s) in *. clearbody s1.
  destruct (triangle_ok pl k s1 (a, b) (a + 1, b) (a + 1, b + 1) inv_ Hk Hs1 Hpl1) as (x' & y' & z' & F1 & F2 & F3 & Hs2 & Hpl2 & Hf2);
    [cbn; lia..|intros [=]; lia|intros [=]; lia|intros [=]; lia|].
  cbn [fst snd] in F1, F2, F3. rewrite F1, F2, F3. cbn [mbind result_bind]. eexists. split; [done|]. split; [done|]. split; [done|].
  replace (n + 2) with (n + 1 + 1) by lia. eapply faced_trans; [|done]. by eapply faced_trans.
Qed.

(** Four squares, one after the other. *)
Lemma four_squares_ok pl k s0 n s inv_ a1 b1 a2 b2 a3 b3 a4 b4 :
  0 <= k < E -> face_inv pl k s0 n s -> Forall (fun x => 0 <= x < E - 1) [a1; b1; a2; b2; a3; b3; a4; b4] ->
  exists s', (s ← add_square pl k inv_ a1 b1 s; s ← add_square pl k inv_ a2 b2 s; s ← add_square pl k inv_ a3 b3 s;
              add_square pl k inv_ a4 b4 s) = Ok s' /\ face_inv pl k s0 (n + 8) s'.
Proof.
  intros Hk Hs Hl. rewrite !Forall_cons in Hl. destruct Hl as (? & ? & ? & ? & ? & ? & ? & ? & _).
  destruct (add_square_ok pl k s0 n s inv_ a1 b1) as (s1 & -> & Hq1); [done..|]. cbn [mbind result_bind].
  destruct (add_square_ok pl k s0 _ s1 inv_ a2 b2 Hk Hq1) as (s2 & -> & Hq2); [done..|]. cbn [mbind result_bind].
  destruct (add_square_ok pl k s0 _ s2 inv_ a3 b3 Hk Hq2) as (s3 & -> & Hq3); [done..|]. cbn [mbind result_bind].
  destruct (add_square_ok pl k s0 _ s3 inv_ a4 b4 Hk Hq3) as (s4 & -> & Hq4); [done..|]. exists s4. split; [done|].
  by replace (n + 8) with (n + 2 + 2 + 2 + 2) by lia.
Qed.

Lemma plane_faces_ok pl k s inv_ :
  0 <= k < E -> box_inv E s -> plane_has pl k s ->
  exists s', plane_faces pl N k inv_ s = Ok s' /\ box_inv E s' /\ faced s s' (2 * (2 * N + 1) * (2 * N + 1)).
Proof.
  intros Hk Hs Hpl. unfold plane_faces. assert (face_inv pl k s 0 s) as H0 by (split_and!; [done|done|split; [done|lia]]).
  destruct (for_seq_inv (fun j => face_inv pl k s (8 * N * j)) (fun j s => for_each (fun i s =>
      s ← add_square pl k inv_ i j s; s ← add_square pl k inv_ i (j + N + 1) s;
      s ← add_square pl k inv_ (i + N + 1) (j + N + 1) s; add_square pl k inv_ (i + N + 1) j s) (seqZ 0 N) s) N s)
    as (s1 & -> & H1); [done| |by rewrite Z.mul_0_r|].
  { intros j s2 Hj H2. edestruct (for_seq_inv (fun i => face_inv pl k s (8 * N * j + 8 * i))) as (s3 & -> & H3);
      [done| |by rewrite Z.mul_0_r, Z.add_0_r|exists s3; split; [done|]; by replace (8 * N * (j + 1)) with (8 * N * j + 8 * N) by lia].
    intros i s4 Hi H4. cbn beta. replace (8 * N * j + 8 * (i + 1)) with (8 * N * j + 8 * i + 8) by lia.
    apply four_squares_ok; [done..|]. rewrite !Forall_cons. split_and!; (lia || done). }
  cbn [mbind result_bind].
  edestruct (for_seq_inv (fun i => face_inv pl k s (8 * N * N + 8 * i))) as (s5 & -> & H5); [done| |by rewrite Z.mul_0_r, Z.add_0_r|].
  { intros i s4 Hi H4. cbn beta. replace (8 * N * N + 8 * (i + 1)) with (8 * N * N + 8 * i + 8) by lia.
    apply four_squares_ok; [done..|]. rewrite !Forall_cons. split_and!; (lia || done). }
  cbn [mbind result_bind]. destruct (add_square_ok pl k s _ s5 inv_ N N Hk H5) as (s6 & -> & H6 & _ & H7); [lia..|].
  exists s6. split; [done|]. split; [done|]. replace (2 * (2 * N + 1) * (2 * N + 1)) with (8 * N * N + 8 * N + 2) by lia. done.
Qed.

Definition side_faces : Z := 2 * (2 * N + 1) * (2 * N + 1).

(** A side of a plane. *)
Lemma plane_side_ok pl b radius dx inverse_at kidx s n :
  N < 2 ^ 31 - 1 -> box_inv E s -> Z.of_nat (length (box_indices s)) = n ->
  exists s', plane_side glm_add glm_sub glm_scale glm_length glm_normalize pl N b radius dx inverse_at kidx s = Ok s' /\
    box_inv E s' /\ Z.of_nat (length (box_indices s')) = n + side_faces.
Proof.
  intros HNb Hs Hn. unfold plane_side. set (k := if kidx =? 0 then 0 else N * 2 + 1). assert (0 <= k < E) as Hk by (unfold k; destruct (kidx =? 0); lia).
  destruct b as [[b0 b1] b2]. set (e := match pl with XY => _ | XZ => _ | YZ => _ end).
  assert (st_N e = N /\ st_k e = k) as [EN EK] by by destruct pl.
  destruct (plane_vertices_ok pl e s Hs EN HNb) as (s1 & -> & Hs1 & [_ Hf1] & Hv); [by rewrite EK|]. cbn [mbind result_bind]. rewrite EK in Hv.
  destruct (plane_faces_ok pl k s1 (kidx =? inverse_at) Hk Hs1 Hv) as (s2 & -> & Hs2 & [_ Hf2]).
  exists s2. split; [done|]. split; [done|]. rewrite Hf2, Hf1. unfold side_faces. lia.
Qed.

(** Both sides. *)
Lemma both_sides_ok pl b radius dx inverse_at s n :
  N < 2 ^ 31 - 1 -> box_inv E s -> Z.of_nat (length (box_indices s)) = n ->
  exists s', for_each (plane_side glm_add glm_sub glm_scale glm_length glm_normalize pl N b radius dx inverse_at) [0; 1] s = Ok s' /\
    box_inv E s' /\ Z.of_nat (length (box_indices s')) = n + 2 * side_faces.
Proof.
  intros HNb Hs Hn. cbn [for_each].
  destruct (plane_side_ok pl b radius dx inverse_at 0 s n HNb Hs Hn) as (s1 & -> & Hs1 & Hn1). cbn [mbind result_bind].
  destruct (plane_side_ok pl b radius dx inverse_at 1 s1 _ HNb Hs1 Hn1) as (s2 & -> & Hs2 & Hn2). cbn [mbind result_bind].
  exists s2. split; [done|]. split; [done|]. lia.
Qed.
End box.

(** [RoundCornerBox::Create] on a new box makes a mesh over the surface
    of the lattice: for every [N] whose lattice of [(2N+2)^3] points
    fits in an [int] it stays inside its table, adds [12 * (2N+1)^2] faces of
    three different vertices that exist (never the -1 of a point without a
    vertex), as many normals as vertices, and exactly one vertex for each point
    of the lattice that has one. *)
Theorem Create_ok glm_add glm_sub glm_scale glm_length glm_normalize N b radius :
  0 <= N -> 8 * (N + 1) * (N + 1) * (N + 1) < 2 ^ 31 ->
  exists s, Create glm_add glm_sub glm_scale glm_length glm_normalize N b radius no_box = Ok s /\
    Z.of_nat (length (box_indices s)) = 12 * (2 * N + 1) * (2 * N + 1) /\ box_inv (2 * (N + 1)) s.
Proof.
  intros HN Hsize. set (E := 2 * (N + 1)). assert (size_ok E) as HE by (unfold size_ok, E; lia).
  assert (N < 2 ^ 11) as HNb by nia. unfold Create. assert (0 <= E * E < 2 ^ 31) by (unfold E; nia).
  rewrite !s_check_ok by (unfold in_s; lia). cbn [mbind result_bind]. rewrite !s_check_ok by (unfold in_s; lia). cbn [mbind result_bind]. fold E.
  rewrite !s_check_ok by (unfold in_s; lia). cbn [mbind result_bind]. rewrite s_check_ok by (destruct HE; unfold in_s; nia). cbn [mbind result_bind].
  unfold resize. replace (E * E * E <? 0) with false by (unfold E; nia). cbn [mbind result_bind m_index_to_verts no_box].
  rewrite take_nil, Nat.sub_0_r. cbn [app]. set (s0 := mkBox _ _ _ _ _ _).
  assert (box_inv E s0) as Hs0.
  { constructor; cbn; try done.
    - by rewrite length_replicate.
    - apply Forall_replicate. lia.
    - intros a c x [-> _]%lookup_replicate_1. lia.
    - intros x Hx. lia. }
  destruct (both_sides_ok glm_add glm_sub glm_scale glm_length glm_normalize E HE N HN eq_refl XY b radius (SFdiv 53 1024 radius (sf_of_Z 53 1024 N)) 0 s0 0)
    as (s1 & -> & Hs1 & Hn1); [lia|done|done|]. cbn [mbind result_bind].
  destruct (both_sides_ok glm_add glm_sub glm_scale glm_length glm_normalize E HE N HN eq_refl XZ b radius (SFdiv 53 1024 radius (sf_of_Z 53 1024 N)) 1 s1 (Z.of_nat (length (box_indices s1))))
    as (s2 & -> & Hs2 & Hn2); [lia|done|done|]. cbn [mbind result_bind].
  destruct (both_sides_ok glm_add glm_sub glm_scale glm_length glm_normalize E HE N HN eq_refl YZ b radius (SFdiv 53 1024 radius (sf_of_Z 53 1024 N)) 0 s2 (Z.of_nat (length (box_indices s2))))
    as (s3 & -> & Hs3 & Hn3); [lia|done|done|].
  exists s3. split; [done|]. split; [|done]. rewrite Hn3, Hn2, Hn1. unfold side_faces. lia.
Qed.
