(* ===== verification/Shapes.v ===== *)
(** * The shapes

    src/geometry/standard_shapes.cpp: the functions that make a [Shape] from the
    solids of include/mutils/geometry/ or from tables. The operations of GLM on
    [vec3] and the functions of the C library are parameters, and a colour is a
    value of any type. The transfer to a device buffer is not modelled. *)

From S2P Require Import Prelude Float32 Solids Sphere Icosahedron Icosphere RoundedBox.
Import F32Notations.

(** [MeshVertex] and [Shape] (include/mutils/geometry/geometry.h and
    standard_shapes.h). *)
Record MeshVertex (C : Type) : Type := mkMV { position : float3; texcoord : float2; normal : float3; color : option C }.
Arguments mkMV {C}. Arguments position {C}. Arguments texcoord {C}. Arguments normal {C}. Arguments color {C}.

Record Shape (C : Type) : Type := mkShape {
  sh_vertices : list (MeshVertex C); sh_indices : list Z; sh_size : float3; sh_offset : float3; bounds_min : float3; bounds_max : float3
}.
Arguments mkShape {C}. Arguments sh_vertices {C}. Arguments sh_indices {C}. Arguments sh_size {C}. Arguments sh_offset {C}.
Arguments bounds_min {C}. Arguments bounds_max {C}.

Section Shapes.
Context {C : Type}.
Context (cosf sinf atanf : f32 -> f32) (mul_sin mul_cos : f32 -> f32 -> f32).
Context (glm_add glm_sub glm_mul glm_cross : float3 -> float3 -> float3) (glm_scale : float3 -> f32 -> float3)
  (glm_length : float3 -> f32) (glm_normalize : float3 -> float3).

Definition half : f32 := f32_lit 1 2.

(** The shape before it has vertices. *)
Definition new_shape (size off : float3) : Shape C :=
  mkShape [] [] size off (glm_sub off (glm_scale size half)) (glm_add off (glm_scale size half)).

Definition set_mesh (vs : list (MeshVertex C)) (is_ : list Z) (s : Shape C) : Shape C :=
  mkShape vs is_ (sh_size s) (sh_offset s) (bounds_min s) (bounds_max s).

(** ** Shapes made of a solid *)

Definition scaled (p size : float3) : float3 :=
  let '(x, y, z) := p in
  let '(sx, sy, sz) := size in (x *. sx, y *. sy, z *. sz).

(** Vertex [i] of the loop over a solid: [stride] floats from one texture
    coordinate to the next. *)
Definition copy_vertex (stride : Z) (m : solid) (size off : float3) (color : C) (i : Z) (vs : list (MeshVertex C)) :
  result stop (list (MeshVertex C)) :=
  p ← read3 (vertices m) i;
  n ← read3 (normals m) i;
  s ← atZ (texCoords m) (u32 (i * stride));
  t ← atZ (texCoords m) (u32 (i * stride + 1));
  Ok (vs ++ [mkMV (glm_add (scaled p size) off) (s, t) n (Some color)]).

Definition copy_solid (stride : Z) (m : solid) (color : C) (s : Shape C) : result stop (Shape C) :=
  let vertexCount := u32 (Z.of_nat (length (vertices m))) / 3 in
  let indexCount := u32 (Z.of_nat (length (indices m))) in
  vs ← for_each (copy_vertex stride m (sh_size s) (sh_offset s) color) (seqZ 0 vertexCount) [];
  is_ ← for_each (fun i is_ => x ← atZ (indices m) i; Ok (is_ ++ [x])) (seqZ 0 indexCount) [];
  Ok (set_mesh vs is_ s).

Definition shape_create_icosahedron (size : float3) (color : C) (off : float3) : result stop (Shape C) :=
  sphere ← Icosahedron_make cosf sinf atanf mul_sin mul_cos half;
  copy_solid 3 (ico_arrays sphere) color (new_shape size off).

Definition shape_create_sphere (size : float3) (subdivisions : Z) (smooth : bool) (color : C) (off : float3) : result stop (Shape C) :=
  let subdivisions := Z.min subdivisions 10 in
  sphere ← Sphere_make cosf sinf half (subdivisions * 8) (subdivisions * 6) smooth;
  copy_solid 2 (arrays sphere) color (new_shape size off).

Definition shape_create_icosphere (size : float3) (subdivisions : Z) (smooth : bool) (color : C) (off : float3) : result stop (Shape C) :=
  let subdivisions := Z.min subdivisions 10 in
  sphere ← Icosphere_make cosf sinf atanf mul_sin mul_cos half subdivisions smooth;
  copy_solid 2 (sp_arrays sphere) color (new_shape size off).

Definition shape_create_rounded_box (sz : float3) (N : Z) (radius : f32) (color : C) (off : float3) : result stop (Shape C) :=
  box ← Create glm_add glm_sub glm_scale glm_length glm_normalize N (glm_scale sz half) (to_f64 radius) no_box;
  vs ← for_each (fun i vs =>
         v ← atZ (box_vertices box) i; n ← atZ (box_normals box) i;
         Ok (vs ++ [mkMV v (#0, #0) n (Some color)])) (seqZ 0 (Z.of_nat (length (box_vertices box)))) [];
  Ok (set_mesh vs (flat3 (box_indices box)) (new_shape sz off)).

(** ** Shapes made of tables *)

(** The loops over [numberVertices] vertices: three floats of the positions
    every [stride], and the other tables packed. *)
Definition table_vertex (stride : Z) (positions norms texs : list f32) (sz off : float3) (color : C) (i : Z)
  (vs : list (MeshVertex C)) : result stop (list (MeshVertex C)) :=
  x ← atZ positions (i * stride); y ← atZ positions (i * stride + 1); z ← atZ positions (i * stride + 2);
  n ← read3 norms i;
  t ← read2 texs i;
  Ok (vs ++ [mkMV (glm_add (glm_mul (x, y, z) (glm_scale sz half)) off) t n (Some color)]).

Definition table_shape (stride : Z) (positions norms texs : list f32) (is_ : list Z) (sz : float3) (color : C) (off : float3) :
  result stop (Shape C) :=
  let numberVertices := Z.of_nat (length positions) * 4 / (4 * 3) in
  vs ← for_each (table_vertex stride positions norms texs sz off color) (seqZ 0 numberVertices) [];
  Ok (set_mesh vs is_ (new_shape sz off)).

Definition quadVertices : list f32 := f32_of_Z <$> [-1; -1; 0;  1; -1; 0;  1; 1; 0;  -1; 1; 0].
Definition quadNormals : list f32 := f32_of_Z <$> [0; 1; 0;  0; 1; 0;  0; 1; 0;  0; 1; 0].
Definition quadTexCoords : list f32 := f32_of_Z <$> [0; 0;  1; 0;  1; 1;  0; 1].
Definition quadIndices : list Z := [0; 3; 2;  0; 2; 1].

Definition shape_create_quad (sz : float3) (color : C) (off : float3) : result stop (Shape C) :=
  table_shape 3 quadVertices quadNormals quadTexCoords quadIndices sz color off.

Definition cubeVertices : list f32 := f32_of_Z <$>
  [ -1; -1; -1; 1; -1; -1; 1; 1; 1; -1; 1; 1; 1; -1; -1; 1;
    -1; 1; -1; 1; -1; 1; 1; 1; 1; 1; 1; 1; 1; 1; -1; 1;
    -1; -1; -1; 1; -1; 1; -1; 1; 1; 1; -1; 1; 1; -1; -1; 1;
    -1; -1; 1; 1; -1; 1; 1; 1; 1; 1; 1; 1; 1; -1; 1; 1;
    -1; -1; -1; 1; -1; -1; 1; 1; -1; 1; 1; 1; -1; 1; -1; 1;
    1; -1; -1; 1; 1; -1; 1; 1; 1; 1; 1; 1; 1; 1; -1; 1 ].
Definition cubeNormals : list f32 := f32_of_Z <$>
  [ 0; -1; 0; 0; -1; 0; 0; -1; 0; 0; -1; 0;  0; 1; 0; 0; 1; 0; 0; 1; 0; 0; 1; 0;
    0; 0; -1; 0; 0; -1; 0; 0; -1; 0; 0; -1;  0; 0; 1; 0; 0; 1; 0; 0; 1; 0; 0; 1;
    -1; 0; 0; -1; 0; 0; -1; 0; 0; -1; 0; 0;  1; 0; 0; 1; 0; 0; 1; 0; 0; 1; 0; 0 ].
Definition cubeTexCoords : list f32 := f32_of_Z <$>
  [ 0; 0; 0; 1; 1; 1; 1; 0;  0; 1; 0; 0; 1; 0; 1; 1;  1; 0; 1; 1; 0; 1; 0; 0;
    0; 0; 0; 1; 1; 1; 1; 0;  0; 0; 1; 0; 1; 1; 0; 1;  1; 0; 0; 0; 0; 1; 1; 1 ].
Definition cubeIndices : list Z :=
  [ 0; 2; 1; 0; 3; 2; 4; 5; 6; 4; 6; 7; 8; 9; 10; 8; 10; 11; 12; 15; 14; 12; 14; 13; 16; 17; 18; 16; 18; 19; 20; 23; 22; 20; 22; 21 ].

Definition shape_create_box (sz : float3) (color : C) (off : float3) : result stop (Shape C) :=
  table_shape 4 cubeVertices cubeNormals cubeTexCoords cubeIndices sz color off.

(** ** The torus *)

(** The values of [u] in [for (u = 0; u < 1.0f; u += step)]. *)
Fixpoint float_range (fuel : nat) (u step : f32) : option (list f32) :=
  match fuel with
  | O => None
  | S fuel => if SFltb u (#1) then cons u <$> float_range fuel (u +. step) step else Some []
  end.

Section torus.
Context (size : float3) (innerRadius outerRadius : f32).

(** The lambda [AddVertex]; the colour of the vertex is not set. *)
Definition torus_vertex (u v : f32) : MeshVertex C :=
  let '(sx, sy, sz) := size in
  let _2_PI := f32_lit 6283185307179586476925286766559 1000000000000000000000000000000 in
  let cu := cosf (u *. _2_PI) in
  let su := sinf (u *. _2_PI) in
  let cv := cosf (v *. _2_PI) in
  let sv := sinf (v *. _2_PI) in
  let ring := outerRadius +. innerRadius *. cv in
  mkMV (ring *. cu *. sx, ring *. su *. sy, innerRadius *. sv *. sz)
       (u *. #2 +. v *. #0, v *. #0 +. v *. #1)
       (cu *. cv, su *. cv, sv) None.

(** Two triangles between the last two vertices and the next two. *)
Definition ring_indices (index : Z) : list Z :=
  u32 <$> [index - 1; index - 2; index; index - 1; index; index + 1].

(** The state of the loops: the vertices, the indices and [index]. *)
Definition torus_state : Type := list (MeshVertex C) * list Z * Z.

Definition torus_step (stepU u v : f32) (st : torus_state) : result stop torus_state :=
  let '(vs, is_, index) := st in
  let vs := vs ++ [torus_vertex u v; torus_vertex (u +. stepU) v] in
  let is_ := if SFltb (#0) v then is_ ++ ring_indices index else is_ in
  Ok (vs, is_, u32 (index + 2)).

Definition torus_ring (stepU : f32) (vrange : list f32) (u : f32) (st : torus_state) : result stop torus_state :=
  st ← for_each (torus_step stepU u) vrange st;
  let '(vs, is_, index) := st in
  Ok (vs ++ [torus_vertex u (#1); torus_vertex (u +. stepU) (#1)], is_ ++ ring_indices index, u32 (index + 2)).
End torus.

(** One triangle of the flat torus: round [tri = 3k]. *)
Definition flat_triangle (vs : list (MeshVertex C)) (is_ : list Z) (k : nat) (flat : list (MeshVertex C) * list Z) :
  result stop (list (MeshVertex C) * list Z) :=
  i0 ← at_ is_ (3 * k); i1 ← at_ is_ (3 * k + 1); i2 ← at_ is_ (3 * k + 2);
  a ← atZ vs i0; b ← atZ vs i1; c ← atZ vs i2;
  let v1 := glm_sub (position b) (position a) in
  let v2 := glm_sub (position c) (position b) in
  let norm := glm_normalize (glm_cross v2 v1) in
  let face (v : MeshVertex C) := mkMV (position v) (texcoord v) norm (color v) in
  let tri := Z.of_nat (3 * k) in
  Ok (flat.1 ++ [face a; face b; face c], flat.2 ++ [u32 tri; u32 (tri + 1); u32 (tri + 2)]).

Definition shape_create_torus (fuel : nat) (size : float3) (innerRatio : f32) (sides rings : Z) (smooth : bool) (off : float3) :
  result stop (Shape C) :=
  let '(sx, sy, sz) := size in
  let shape := new_shape size off in
  let shape := mkShape [] [] (sx *. #2, sy *. #2, sz *. #2) off (bounds_min shape) (bounds_max shape) in
  let sides := Z.min sides 50 in
  let rings := Z.min rings 50 in
  let innerRatio := sc_min (f32_lit 99 100) innerRatio in
  let innerRatio := sc_max (f32_lit 1 100) innerRatio in
  let outerRadius := half -. innerRatio *. f32_lit 1 4 in
  let innerRadius := innerRatio *. f32_lit 1 4 in
  let stepU := #1 /. #sides in
  let stepV := #1 /. #rings in
  match float_range fuel (#0) stepU, float_range fuel (#0) stepV with
  | Some us, Some vrange =>
      st ← for_each (torus_ring size innerRadius outerRadius stepU vrange) us ([], [], 0);
      let '(vs, is_, _) := st in
      if smooth then Ok (set_mesh vs is_ shape)
      else
        flat ← for_each (flat_triangle vs is_) (seq 0 (rounds (length is_))) ([], []);
        Ok (set_mesh flat.1 flat.2 shape)
  | _, _ => Err OutOfFuel
  end.
End Shapes.
