(* ===== verification/ShapesTheory.v ===== *)
(** * Theorems on the shapes *)

From S2P Require Import Prelude Float32 Solids SolidsTheory Sphere SphereTheory Icosahedron IcosahedronTheory Icosphere IcosphereTheory.
From S2P Require Import RoundedBox RoundedBoxTheory Shapes.

(** A shape that can be drawn: its indices are triangles of its vertices, of
    three different ones if [d]. *)
Definition shape_ok {C} (d : bool) (s : Shape C) (n nt : nat) : Prop :=
  length (sh_vertices s) = n /\
  exists tris, sh_indices s = flat3 tris /\ length tris = nt /\ Forall (tri_ok d (Z.of_nat n)) tris.

(** A read of an array is defined or not, and nothing else. *)
Lemma atZ_cases {A} (l : list A) i : atZ l i = Err UB \/ exists x, atZ l i = Ok x.
Proof. unfold atZ, at_. destruct (i <? 0); [by left|]. destruct (l !! Z.to_nat i); cbn; eauto. Qed.

Lemma read3_cases l i : read3 l i = Err UB \/ exists v, read3 l i = Ok v.
Proof.
  unfold read3. destruct (atZ_cases l (u32 (i * 3))) as [->|[x ->]]; [by left|]. cbn [mbind result_bind].
  destruct (atZ_cases l (u32 (i * 3) + 1)) as [->|[y ->]]; [by left|]. cbn [mbind result_bind].
  destruct (atZ_cases l (u32 (i * 3) + 2)) as [->|[z ->]]; [by left|]. cbn [mbind result_bind]. eauto.
Qed.

Lemma read2_cases l i : read2 l i = Err UB \/ exists v, read2 l i = Ok v.
Proof.
  unfold read2. destruct (atZ_cases l (u32 (i * 2))) as [->|[x ->]]; [by left|]. cbn [mbind result_bind].
  destruct (atZ_cases l (u32 (i * 2) + 1)) as [->|[y ->]]; [by left|]. cbn [mbind result_bind]. eauto.
Qed.

(** A loop one of whose rounds is undefined, the others being defined. *)
Lemma for_each_UB {A S} (body : A -> S -> result stop S) l s a :
  (forall a s, body a s = Err UB \/ exists s', body a s = Ok s') -> a ∈ l -> (forall s, body a s = Err UB) ->
  for_each body l s = Err UB.
Proof.
  intros Hb Ha Hu. revert s. induction l as [|b l IH]; intros s; [by apply not_elem_of_nil in Ha|]. cbn.
  destruct (Hb b s) as [->|[s' E]]; [done|]. apply elem_of_cons in Ha as [->|Ha]; [by rewrite Hu|]. rewrite E. by apply IH.
Qed.

Section shapes.
Context {C : Type}.
Context (cosf sinf atanf : f32 -> f32) (mul_sin mul_cos : f32 -> f32 -> f32).
Context (glm_add glm_sub glm_mul glm_cross : float3 -> float3 -> float3) (glm_scale : float3 -> f32 -> float3)
  (glm_length : float3 -> f32) (glm_normalize : float3 -> float3).

(** ** Shapes made of a solid *)

Lemma seqZ_lookups {A} (l : list A) : for_each (fun i acc => x ← atZ l i; Ok (acc ++ [x])) (seqZ 0 (Z.of_nat (length l))) [] = Ok l.
Proof.
  destruct (for_seq_inv (fun k acc => acc = take (Z.to_nat k) l) (fun i acc => x ← atZ l i; Ok (acc ++ [x]))
    (Z.of_nat (length l)) []) as (s' & -> & ->); [lia| |done|].
  - intros k acc Hk ->. unfold atZ, at_. replace (k <? 0) with false by lia.
    destruct (lookup_lt_is_Some_2 l (Z.to_nat k)) as [x Hx]; [lia|]. rewrite Hx. eexists. split; [done|].
    replace (Z.to_nat (k + 1)) with (S (Z.to_nat k)) by lia. by rewrite (take_S_r _ _ _ Hx).
  - rewrite Nat2Z.id. by rewrite firstn_all.
Qed.

(** The shape is a copy of the solid: the same index list, and for each vertex
    of the solid one of the shape, scaled by the size and moved by the offset,
    with the solid's normal and texture coordinates. *)
Definition is_copy (m : solid) (size off : float3) (color : C) (s : Shape C) : Prop :=
  sh_indices s = indices m /\
  exists V N T, vertices m = flat3 V /\ normals m = flat3 N /\ texCoords m = flat2 T /\
    length V = length (sh_vertices s) /\ length N = length V /\ length T = length V /\
    forall (i : nat) (x y z : f32) n (u v : f32), V !! i = Some (x, y, z) -> N !! i = Some n -> T !! i = Some (u, v) ->
      sh_vertices s !! i =
        Some (mkMV (glm_add (mulf size.1.1 x, mulf size.1.2 y, mulf size.2 z) off) (u, v) n (Some color)).

(** What vertex [i] of the copy is. *)
Definition copied_vertex (size off : float3) (color : C) (v n : float3) (t : float2) : MeshVertex C :=
  mkMV (glm_add (scaled v size) off) t n (Some color).

Lemma copy_vertex_ok m size off color V N T i v n t vs :
  vertices m = flat3 V -> normals m = flat3 N -> texCoords m = flat2 T ->
  V !! i = Some v -> N !! i = Some n -> T !! i = Some t -> 3 * Z.of_nat i + 3 < 2 ^ 32 ->
  copy_vertex glm_add 2 m size off color (Z.of_nat i) vs = Ok (vs ++ [copied_vertex size off color v n t]).
Proof.
  intros EV EN ET HV HN HT Hi. unfold copy_vertex. rewrite EV, EN, ET.
  rewrite (read3_lookup V _ v HV), (read3_lookup N _ n HN) by lia. cbn [mbind result_bind].
  pose proof (read2_lookup T _ t HT ltac:(lia)) as E2. unfold read2 in E2.
  rewrite (wrap_small 32 (Z.of_nat i * 2 + 1)) by (unfold in_u; lia).
  replace (Z.of_nat i * 2 + 1) with (u32 (Z.of_nat i * 2) + 1) by (rewrite (wrap_small 32) by (unfold in_u; lia); done).
  destruct (atZ (flat2 T) (u32 (Z.of_nat i * 2))) as [x|]; [|done]. cbn [mbind result_bind] in *.
  destruct (atZ (flat2 T) (u32 (Z.of_nat i * 2) + 1)) as [y|]; [|done]. cbn [mbind result_bind] in *. by injection E2 as <-.
Qed.

Lemma copy_solid_ok d m n nt nl color (s : Shape C) :
  solid_ok d m n nt nl -> 3 * Z.of_nat n < 2 ^ 32 -> 3 * Z.of_nat nt < 2 ^ 32 ->
  exists s', copy_solid glm_add 2 m color s = Ok s' /\ shape_ok d s' n nt /\ is_copy m (sh_size s) (sh_offset s) color s'.
Proof.
  intros (V & N & T & tris & lines & H & _ & HV & Ht & _) Hn Hnt. destruct H as [EV EN ET LN LT EI EL HT HL].
  unfold copy_solid. rewrite EV, EI, !length_flat3, HV, Ht.
  rewrite (wrap_small 32 (Z.of_nat (3 * n))) by (unfold in_u; lia). rewrite (wrap_small 32) by (unfold in_u; lia).
  replace (Z.of_nat (3 * n)) with (Z.of_nat n * 3) by lia. rewrite Z.div_mul by lia.
  destruct (for_seq_inv (fun k vs => length vs = Z.to_nat k /\
      forall i v nm t, (i < Z.to_nat k)%nat -> V !! i = Some v -> N !! i = Some nm -> T !! i = Some t ->
        vs !! i = Some (copied_vertex (sh_size s) (sh_offset s) color v nm t))
    (copy_vertex glm_add 2 m (sh_size s) (sh_offset s) color) (Z.of_nat n) [])
    as (vs & -> & Hvs & Hat); [lia| |split; [done|lia]|].
  - intros k vs Hk [Hvs Hat].
    destruct (lookup_lt_is_Some_2 V (Z.to_nat k)) as [v Hv]; [lia|]. destruct (lookup_lt_is_Some_2 N (Z.to_nat k)) as [nm Hnm]; [lia|].
    destruct (lookup_lt_is_Some_2 T (Z.to_nat k)) as [t Ht']; [lia|].
    pose proof (copy_vertex_ok m (sh_size s) (sh_offset s) color V N T _ _ _ _ vs EV EN ET Hv Hnm Ht' ltac:(lia)) as E.
    rewrite Z2Nat.id in E by lia. rewrite E. eexists. split; [done|]. rewrite length_app, Hvs. split; [cbn; lia|].
    intros i v' nm' t' Hi Hv' Hn' Ht''. destruct (decide (i = Z.to_nat k)) as [->|Hne].
    + rewrite <- Hvs, list_lookup_middle by done. congruence.
    + apply lookup_app_l_Some. apply Hat; [lia|done..].
  - cbn [mbind result_bind]. replace (Z.of_nat (3 * nt)) with (Z.of_nat (length (flat3 tris))) by (rewrite length_flat3; lia).
    rewrite seqZ_lookups. rewrite Nat2Z.id in *. eexists. split; [done|]. split; [split; [done|by exists tris; subst]|].
    split; [done|]. exists V, N, T. cbn [sh_vertices set_mesh]. split_and!; [done..|lia|lia|lia|].
    intros i x y z nm u v Hv Hnm Ht'. pose proof (lookup_lt_Some _ _ _ Hv).
    rewrite (Hat i (x, y, z) nm (u, v)) by (done || lia).
    unfold copied_vertex, scaled. by destruct (sh_size s) as [[??]?].
Qed.

Lemma copy_solid_fields m color (s s' : Shape C) glm :
  copy_solid glm 2 m color s = Ok s' -> sh_size s' = sh_size s /\ sh_offset s' = sh_offset s.
Proof.
  unfold copy_solid. destruct (for_each (copy_vertex _ _ _ _ _ _) _ []) as [vs|]; [|done]. cbn [mbind result_bind].
  destruct (for_each _ (seqZ 0 (u32 _)) []) as [is_|]; [|done]. by intros [= <-].
Qed.

Lemma shape_ok_eq d (s : Shape C) n n' nt nt' : n = n' -> nt = nt' -> shape_ok d s n nt -> shape_ok d s n' nt'.
Proof. by intros -> ->. Qed.

Lemma sp_rebuild_members s s' : sp_rebuild cosf sinf atanf mul_sin mul_cos s = Ok s' ->
  sp_smooth s' = sp_smooth s /\ subdivision s' = subdivision s.
Proof.
  unfold sp_rebuild, ico_buildVerticesSmooth, ico_buildVerticesFlat. destruct (sp_smooth s) eqn:Es.
  - destruct (smooth_vertices _ _ _ _ _ _ _) as [[m sh]|]; [|done]. cbn [mbind result_bind].
    destruct (subdivideVerticesSmooth _ _ _) as [st|]; [|done]. cbn [mbind result_bind].
    destruct (buildInterleavedVertices st.1); [|done]. by intros [= <-].
  - destruct (ico_triangles _ _ _ _ _ _ _) as [m|]; [|done]. cbn [mbind result_bind].
    destruct (subdivideVerticesFlat _ _ m) as [m'|]; [|done]. cbn [mbind result_bind].
    destruct (buildInterleavedVertices m'); [|done]. by intros [= <-].
Qed.

(** C28. [shape_create_sphere], for at least one subdivision, and
    [shape_create_icosphere], for any number, copy a solid of radius 1/2 into a
    shape: all reads are inside the arrays of the solid; the index list of the
    shape is that of the solid, and vertex [i] of the shape is vertex [i] of
    the solid, scaled, moved and coloured; the shape has the size and offset
    asked for. With [k] subdivisions (at most 10), the sphere has [8k] sectors
    and [6k] stacks and the shape [16k(6k-1)] triangles of
    [(6k+1)(8k+1)] vertices, or [8k(24k-2)] without smoothing; the icosphere's
    has [20*4^k] triangles, of [60*4^k] vertices without smoothing and of at
    most [20*4^k+2] shared ones with it. Every index is that of a vertex. *)
Theorem sphere_shapes_ok size subdivisions smooth_ (color : C) off :
  0 <= subdivisions ->
  let k := Z.min subdivisions 10 in
  (1 <= subdivisions ->
   exists sphere s, Sphere_make cosf sinf half (k * 8) (k * 6) smooth_ = Ok sphere /\
     shape_create_sphere cosf sinf glm_add glm_sub glm_scale size subdivisions smooth_ color off = Ok s /\
     is_copy (arrays sphere) size off color s /\ sh_size s = size /\ sh_offset s = off /\
     members sphere = (half, 8 * k, 6 * k, smooth_) /\
     shape_ok true s (Z.to_nat (if smooth_ then (6 * k + 1) * (8 * k + 1) else 8 * k * (24 * k - 2)))
       (Z.to_nat (16 * k * (6 * k - 1)))) /\
  (exists sphere s n, Icosphere_make cosf sinf atanf mul_sin mul_cos half k smooth_ = Ok sphere /\
     shape_create_icosphere cosf sinf atanf mul_sin mul_cos glm_add glm_sub glm_scale size subdivisions smooth_ color off = Ok s /\
     is_copy (sp_arrays sphere) size off color s /\ sh_size s = size /\ sh_offset s = off /\
     shape_ok (negb smooth_) s n (20 * 4 ^ Z.to_nat k) /\
     if smooth_ then (0 < n <= 2 + 20 * 4 ^ Z.to_nat k)%nat else n = (60 * 4 ^ Z.to_nat k)%nat).
Proof.
  intros Hs k. assert (0 <= k <= 10) as Hk by (unfold k; lia). split.
  - intros Hs1. assert (1 <= k) as Hk1 by (unfold k; lia). unfold shape_create_sphere. fold k.
    destruct (set_ok cosf sinf half (k * 8) (k * 6) smooth_ (mkSphere half 0 0 smooth_ no_solid)) as (s & E & [[H1 H2] Hok] & Hm); [lia|lia|].
    unfold Sphere_make. rewrite E. cbn [mbind result_bind].
    assert (members s = (half, 8 * k, 6 * k, smooth_)) as Hm'.
    { rewrite Hm. unfold granted. replace (k * 8 <? 2) with false by lia. f_equal. f_equal; [f_equal|]; lia. }
    unfold members in Hm'. injection Hm' as Hr Hc Hst Hsm. unfold vertex_count in Hok. rewrite Hc, Hst, Hsm in Hok.
    edestruct (copy_solid_ok true (arrays s)) as (sh & Esh & Hsh & Hcopy); [exact Hok| | |].
    + destruct smooth_; nia.
    + nia.
    + pose proof (copy_solid_fields _ _ _ _ _ Esh) as [F1 F2]. rewrite Esh. exists s, sh. split_and!; [done..|exact Hcopy|done|done| |].
      * unfold members. by rewrite Hr, Hc, Hst, Hsm.
      * revert Hsh. apply shape_ok_eq; f_equal; [destruct smooth_|]; lia.
  - unfold shape_create_icosphere. fold k.
    destruct (sp_rebuild_ok cosf sinf atanf mul_sin mul_cos (mkIcosphere half k smooth_ no_solid []) ltac:(cbn; lia)) as (s & E & Hok).
    unfold Icosphere_make. rewrite E. cbn [mbind result_bind]. destruct (sp_rebuild_members _ _ E) as [Esm Esub]. cbn in Esm, Esub.
    destruct Hok as (_ & n & Hok & Hn). rewrite Esm, Esub in *. pose proof (ico_tris_bound (Z.to_nat k) ltac:(lia)).
    edestruct (copy_solid_ok (negb smooth_) (sp_arrays s)) as (sh & Esh & Hsh & Hcopy); [exact Hok| | |].
    + destruct smooth_; lia.
    + lia.
    + pose proof (copy_solid_fields _ _ _ _ _ Esh) as [F1 F2]. rewrite Esh. exists s, sh, n. split_and!; [done..|exact Hcopy|done|done|exact Hsh|].
      unfold ico_tris in Hn. destruct smooth_; lia.
Qed.

(** A sphere of no subdivisions has no triangles. *)
Theorem sphere_shape_empty size (color : C) off :
  exists s, shape_create_sphere cosf sinf glm_add glm_sub glm_scale size 0 false color off = Ok s /\
    sh_vertices s = [] /\ sh_indices s = [].
Proof. eexists. split; [reflexivity|done]. Qed.

(** [shape_create_icosahedron] steps three floats from one texture coordinate
    to the next, so it reads past the end of an array of two for each vertex. *)
Theorem icosahedron_shape_UB size (color : C) off :
  shape_create_icosahedron cosf sinf atanf mul_sin mul_cos glm_add glm_sub glm_scale size color off = Err UB.
Proof.
  unfold shape_create_icosahedron, Icosahedron_make, ico_setRadius. cbn [ico_arrays vertices no_solid].
  edestruct buildVertices_ok as (s & -> & V & N & T & tris & lines & H & _ & HV & _). cbn [mbind result_bind].
  unfold copy_solid. destruct H as [EV EN ET LN LT EI EL HT HL]. rewrite EV, length_flat3, HV.
  change (u32 (Z.of_nat (3 * 60)) / 3) with 60. rewrite (for_each_UB (copy_vertex _ _ _ _ _ _) _ _ 40); [reflexivity| |apply elem_of_seqZ; lia|].
  - intros i vs. unfold copy_vertex. destruct (read3_cases (vertices (ico_arrays s)) i) as [->|[p ->]]; [by left|]. cbn [mbind result_bind].
    destruct (read3_cases (normals (ico_arrays s)) i) as [->|[n ->]]; [by left|]. cbn [mbind result_bind].
    destruct (atZ_cases (texCoords (ico_arrays s)) (u32 (i * 3))) as [->|[x ->]]; [by left|]. cbn [mbind result_bind].
    destruct (atZ_cases (texCoords (ico_arrays s)) (u32 (i * 3 + 1))) as [->|[y ->]]; [by left|]. cbn [mbind result_bind]. eauto.
  - intros vs. unfold copy_vertex. rewrite EV, EN, ET.
    destruct (lookup_lt_is_Some_2 V 40) as [v Hv]; [lia|]. destruct (lookup_lt_is_Some_2 N 40) as [nm Hnm]; [lia|].
    pose proof (read3_lookup V _ v Hv ltac:(lia)) as E1. pose proof (read3_lookup N _ nm Hnm ltac:(lia)) as E2.
    change (Z.of_nat 40) with 40 in *. rewrite E1, E2. cbn [mbind result_bind].
    change (u32 (40 * 3)) with 120. unfold atZ, at_. cbn [Z.ltb Z.compare].
    rewrite (lookup_ge_None_2 (flat2 T) (Z.to_nat 120)); [reflexivity|]. rewrite length_flat2, LT, HV. vm_compute. lia.
Qed.

(** ** Shapes made of tables *)

Lemma table_vertex_cases stride ps ns ts sz off (color : C) i vs :
  table_vertex glm_add glm_mul glm_scale stride ps ns ts sz off color i vs = Err UB \/
  exists vs', table_vertex glm_add glm_mul glm_scale stride ps ns ts sz off color i vs = Ok vs'.
Proof.
  unfold table_vertex. destruct (atZ_cases ps (i * stride)) as [->|[x ->]]; [by left|]. cbn [mbind result_bind].
  destruct (atZ_cases ps (i * stride + 1)) as [->|[y ->]]; [by left|]. cbn [mbind result_bind].
  destruct (atZ_cases ps (i * stride + 2)) as [->|[z ->]]; [by left|]. cbn [mbind result_bind].
  destruct (read3_cases ns i) as [->|[n ->]]; [by left|]. cbn [mbind result_bind].
  destruct (read2_cases ts i) as [->|[t ->]]; [by left|]. cbn [mbind result_bind]. eauto.
Qed.

(** [shape_create_box] takes the number of vertices of the cube to be a third
    of the number of floats, but there are four to a vertex: it reads past the
    end of its tables. *)
Theorem box_shape_UB sz (color : C) off : shape_create_box glm_add glm_sub glm_mul glm_scale sz color off = Err UB.
Proof.
  unfold shape_create_box, table_shape.
  rewrite (for_each_UB (table_vertex _ _ _ _ _ _ _ _ _ _) _ _ 24); [reflexivity|apply table_vertex_cases| |done].
  apply elem_of_seqZ. vm_compute. done.
Qed.

(** [shape_create_quad] makes two triangles of four vertices. *)
Theorem quad_shape_ok sz (color : C) off :
  exists s, shape_create_quad glm_add glm_sub glm_mul glm_scale sz color off = Ok s /\ shape_ok true s 4 2.
Proof.
  eexists. split; [reflexivity|]. split; [done|]. exists [(0, 3, 2); (0, 2, 1)]. split; [done|]. split; [done|].
  repeat constructor; lia.
Qed.

(** ** The rounded box *)

(** C29. [shape_create_rounded_box] makes a shape that can be drawn for every
    [N] whose lattice of [(2N+2)^3] points fits in an [int]: [Create] stays
    inside its table and gives each point of the lattice at most one vertex, no
    two points the same, and the shape has [12 * (2N+1)^2] triangles, each of
    three different vertices that exist. *)
Theorem rounded_box_shape_ok sz N radius (color : C) off :
  0 <= N -> 8 * (N + 1) * (N + 1) * (N + 1) < 2 ^ 31 ->
  exists b s n, Create glm_add glm_sub glm_scale glm_length glm_normalize N (glm_scale sz half) (to_f64 radius) no_box = Ok b /\
    box_inv (2 * (N + 1)) b /\
    shape_create_rounded_box glm_add glm_sub glm_scale glm_length glm_normalize sz N radius color off = Ok s /\
    shape_ok true s n (Z.to_nat (12 * (2 * N + 1) * (2 * N + 1))).
Proof.
  intros HN Hsize. unfold shape_create_rounded_box.
  destruct (Create_ok glm_add glm_sub glm_scale glm_length glm_normalize N (glm_scale sz half) (to_f64 radius) HN Hsize) as (b & Ec & Hf & Hb).
  rewrite Ec. cbn [mbind result_bind].
  edestruct (for_seq_inv (fun k (vs : list (MeshVertex C)) => length vs = Z.to_nat k)) as (vs & -> & Hvs); [lia| |done|].
  - intros k vs Hk Hvs. cbn beta. destruct (atZ_ok (box_vertices b) k Hk) as [v ->].
    destruct (atZ_ok (box_normals b) k) as [n ->]; [rewrite (inv_normals _ _ Hb); lia|]. cbn [mbind result_bind].
    eexists. split; [done|]. rewrite length_app, Hvs. cbn. lia.
  - cbn [mbind result_bind]. rewrite Nat2Z.id in Hvs. eexists b, _, (length (box_vertices b)). split; [done|]. split; [done|].
    split; [done|]. split; [done|]. exists (box_indices b). split; [done|]. split; [lia|]. exact (inv_faces _ _ Hb).
Qed.

(** ** The torus *)

(** The values of a loop with [k] steps of [1/k]: zero, then positive ones, [k]
    of them or, where the sum of the rounded steps stays below one, [k + 1]. *)
Definition range_check (k : Z) : bool :=
  match float_range 52 (f32_of_Z 0) (SFdiv 24 128 (f32_of_Z 1) (f32_of_Z k)) with
  | Some (v :: l) => negb (SFltb (f32_of_Z 0) v) && forallb (SFltb (f32_of_Z 0)) l &&
      (k <=? Z.of_nat (S (length l))) && (Z.of_nat (S (length l)) <=? k + 1)
  | _ => false
  end.

Lemma float_range_ok k : 0 <= k <= 50 ->
  exists (v : f32) (l : list f32), float_range 52 (f32_of_Z 0) (SFdiv 24 128 (f32_of_Z 1) (f32_of_Z k)) = Some (v :: l) /\
    SFltb (f32_of_Z 0) v = false /\ Forall (fun v => SFltb (f32_of_Z 0) v = true) l /\ k <= Z.of_nat (S (length l)) <= k + 1.
Proof.
  intros Hk. assert (forallb range_check (seqZ 0 51) = true) as H by (vm_compute; reflexivity).
  assert (In k (seqZ 0 51)) as Hin by (apply list_elem_of_In, elem_of_seqZ; lia).
  apply (proj1 (forallb_forall _ _) H) in Hin. clear H. rename Hin into H. unfold range_check in H.
  destruct (float_range _ _ _) as [[|v l]|]; try done. apply andb_true_iff in H as [[[Hv Hl]%andb_true_iff H1%Z.leb_le]%andb_true_iff H2%Z.leb_le].
  exists v, l. split; [done|]. split; [by destruct (SFltb _ v)|]. split; [|lia]. apply Forall_forall. intros x Hx%list_elem_of_In.
  by apply (proj1 (forallb_forall _ _) Hl).
Qed.

Section torus.
Context (size : float3) (innerRadius outerRadius : f32).

(** The state of the loops: [nv] vertices, which [index] counts, and [nt]
    triangles of the vertices below [n]. *)
Definition torus_inv (n : Z) (st : @torus_state C) (nv nt : Z) : Prop :=
  let '(vs, is_, index) := st in
  Z.of_nat (length vs) = nv /\ index = nv /\
  exists tris, is_ = flat3 tris /\ Z.of_nat (length tris) = nt /\ Forall (tri_ok true n) tris.

Lemma ring_indices_ok index n : 2 <= index -> index + 1 < n < 2 ^ 32 ->
  ring_indices index = flat3 [(index - 1, index - 2, index); (index - 1, index, index + 1)] /\
  Forall (tri_ok true n) [(index - 1, index - 2, index); (index - 1, index, index + 1)].
Proof.
  intros H1 H2. unfold ring_indices. cbn. rewrite !wrap_small by (unfold in_u; lia). split; [done|]. repeat constructor; lia.
Qed.

Lemma torus_first_ok n stepU u v st nv nt :
  SFltb (f32_of_Z 0) v = false -> 0 <= nv -> nv + 2 < 2 ^ 32 -> torus_inv n st nv nt ->
  exists st', torus_step cosf sinf size innerRadius outerRadius stepU u v st = Ok st' /\ torus_inv n st' (nv + 2) nt.
Proof.
  intros Hv H0 Hn. destruct st as [[vs is_] index]. intros (Hl & -> & tris & -> & Ht & Hok). unfold torus_step. rewrite Hv.
  rewrite wrap_small by (unfold in_u; lia). eexists. split; [done|]. split; [rewrite length_app; cbn; lia|]. split; [done|]. by exists tris.
Qed.

Lemma torus_next_ok n stepU u v st nv nt :
  SFltb (f32_of_Z 0) v = true -> 2 <= nv -> nv + 2 <= n -> n < 2 ^ 32 -> torus_inv n st nv nt ->
  exists st', torus_step cosf sinf size innerRadius outerRadius stepU u v st = Ok st' /\ torus_inv n st' (nv + 2) (nt + 2).
Proof.
  intros Hv H0 Hn Hn32. destruct st as [[vs is_] index]. intros (Hl & -> & tris & -> & Ht & Hok). unfold torus_step. rewrite Hv.
  destruct (ring_indices_ok nv n) as [-> Hr]; [lia..|]. rewrite wrap_small by (unfold in_u; lia).
  eexists. split; [done|]. split; [rewrite length_app; cbn; lia|]. split; [done|]. eexists. split; [by rewrite <- flat3_app|].
  split; [rewrite length_app; cbn; lia|]. by apply Forall_app.
Qed.

Lemma torus_ring_ok n stepU (v : f32) (l : list f32) u st nv nt :
  SFltb (f32_of_Z 0) v = false -> Forall (fun v => SFltb (f32_of_Z 0) v = true) l ->
  let c := Z.of_nat (S (length l)) in
  0 <= nv -> nv + 2 * c + 2 <= n -> n < 2 ^ 32 -> torus_inv n st nv nt ->
  exists st', torus_ring cosf sinf size innerRadius outerRadius stepU (v :: l) u st = Ok st' /\
    torus_inv n st' (nv + 2 * c + 2) (nt + 2 * c).
Proof.
  intros Hv Hl c H0 Hn Hn32 Hst. unfold torus_ring. cbn [for_each]. assert (c = 1 + Z.of_nat (length l)) as Hc by (unfold c; lia). clearbody c.
  destruct (torus_first_ok n stepU u v st nv nt Hv H0 ltac:(lia) Hst) as (st1 & -> & H1). cbn [mbind result_bind].
  destruct (for_each_inv (fun k st => torus_inv n st (nv + 2 + 2 * Z.of_nat k) (nt + 2 * Z.of_nat k))
    (torus_step cosf sinf size innerRadius outerRadius stepU u) l st1) as (st2 & -> & H2).
  - intros k w st2 Hk H2. pose proof (lookup_lt_Some _ _ _ Hk).
    destruct (torus_next_ok n stepU u w st2 (nv + 2 + 2 * Z.of_nat k) (nt + 2 * Z.of_nat k)
      (Forall_lookup_1 _ _ _ _ Hl Hk) ltac:(lia) ltac:(lia) Hn32 H2) as (st3 & -> & H3).
    exists st3. split; [done|]. replace (nv + 2 + 2 * Z.of_nat (1 + k)) with (nv + 2 + 2 * Z.of_nat k + 2) by lia.
    by replace (nt + 2 * Z.of_nat (1 + k)) with (nt + 2 * Z.of_nat k + 2) by lia.
  - by rewrite !Z.add_0_r.
  - cbn [mbind result_bind]. destruct st2 as [[vs is_] index]. destruct H2 as (Hlen & -> & tris & -> & Ht & Hok).
    destruct (ring_indices_ok (nv + 2 + 2 * Z.of_nat (length l)) n) as [-> Hr]; [lia..|]. rewrite wrap_small by (unfold in_u; lia).
    eexists. split; [done|]. split; [rewrite length_app; cbn; lia|]. split; [lia|]. eexists. split; [by rewrite <- flat3_app|].
    split; [rewrite length_app; cbn; lia|]. by apply Forall_app.
Qed.

Lemma torus_loops_ok stepU (us : list f32) (v : f32) (l : list f32) :
  SFltb (f32_of_Z 0) v = false -> Forall (fun v => SFltb (f32_of_Z 0) v = true) l ->
  let c := Z.of_nat (S (length l)) in
  let n := Z.of_nat (length us) * (2 * c + 2) in
  n < 2 ^ 32 ->
  exists st, for_each (torus_ring cosf sinf size innerRadius outerRadius stepU (v :: l)) us ([], [], 0) = Ok st /\
    torus_inv n st n (2 * Z.of_nat (length us) * c).
Proof.
  intros Hv Hl c n Hn.
  destruct (for_each_inv (fun k st => torus_inv n st (Z.of_nat k * (2 * c + 2)) (2 * Z.of_nat k * c))
    (torus_ring cosf sinf size innerRadius outerRadius stepU (v :: l)) us ([], [], 0)) as (st & E & H); [| |by exists st].
  - intros k u st Hk H. pose proof (lookup_lt_Some _ _ _ Hk).
    assert ((Z.of_nat k + 1) * (2 * c + 2) <= n) by (unfold n; apply Z.mul_le_mono_nonneg_r; lia).
    destruct (torus_ring_ok n stepU v l u st (Z.of_nat k * (2 * c + 2)) (2 * Z.of_nat k * c) Hv Hl ltac:(lia) ltac:(fold c; lia) Hn H) as (st' & E & H').
    exists st'. split; [done|]. fold c in H'. replace (Z.of_nat (1 + k) * (2 * c + 2)) with (Z.of_nat k * (2 * c + 2) + 2 * c + 2) by lia.
    by replace (2 * Z.of_nat (1 + k) * c) with (2 * Z.of_nat k * c + 2 * c) by lia.
  - split; [done|]. split; [done|]. exists []. by split_and!.
Qed.
End torus.

(** The flat torus: each triangle has its own vertices. *)
Lemma flat_torus_ok (vs : list (MeshVertex C)) tris :
  Forall (tri_ok true (Z.of_nat (length vs))) tris -> 3 * Z.of_nat (length tris) < 2 ^ 32 ->
  exists flat, for_each (flat_triangle glm_sub glm_cross glm_normalize vs (flat3 tris)) (seq 0 (rounds (length (flat3 tris)))) ([], []) = Ok flat /\
    length flat.1 = (3 * length tris)%nat /\
    exists tris', flat.2 = flat3 tris' /\ length tris' = length tris /\ Forall (tri_ok true (Z.of_nat (3 * length tris))) tris'.
Proof.
  intros Ht Hn. rewrite length_flat3, rounds_3.
  destruct (for_each_inv (fun k (flat : list (MeshVertex C) * list Z) => length flat.1 = (3 * k)%nat /\
      exists tris', flat.2 = flat3 tris' /\ length tris' = k /\ Forall (tri_ok true (Z.of_nat (3 * length tris))) tris')
    (flat_triangle glm_sub glm_cross glm_normalize vs (flat3 tris)) (seq 0 (length tris)) ([], [])) as (flat & E & H).
  - intros k k' flat [-> Hk]%lookup_seq (Hl & tris' & Ef & Hl' & Hok). cbn [Nat.add].
    destruct (lookup_lt_is_Some_2 tris k Hk) as [[[a b] c] Hk3]. destruct (at_tri _ _ _ _ _ Hk3) as (E1 & E2 & E3).
    destruct (Forall_lookup_1 _ _ _ _ Ht Hk3) as [(Ha & Hb & Hc) _]. unfold flat_triangle. rewrite E1, E2, E3. cbn [mbind result_bind].
    destruct (atZ_ok vs a Ha) as [va ->]. destruct (atZ_ok vs b Hb) as [vb ->]. destruct (atZ_ok vs c Hc) as [vc ->]. cbn [mbind result_bind].
    eexists. split; [done|]. cbn [fst snd]. split; [rewrite length_app, Hl; cbn; lia|].
    exists (tris' ++ [(Z.of_nat (3 * k), Z.of_nat (3 * k) + 1, Z.of_nat (3 * k) + 2)]).
    rewrite !wrap_small by (unfold in_u; lia). split; [rewrite flat3_app, Ef; done|]. split; [rewrite length_app, Hl'; cbn; lia|].
    apply Forall_app. split; [done|]. repeat constructor; lia.
  - split; [done|]. exists []. by split_and!.
  - exists flat. rewrite length_seq in H. by split.
Qed.

(** C30. [shape_create_torus] ends, and makes a shape that can be drawn, for
    every number of sides and rings: its two loops over [float] values, which
    add up rounded steps, go round [k] or [k + 1] times for [k] steps of
    [1/k]; every triangle has three different vertices that exist; and flat
    shading gives each triangle its own three vertices. *)
Theorem torus_shape_ok size innerRatio sides rings smooth_ off :
  0 <= sides -> 0 <= rings ->
  exists (s : Shape C) us vs,
    shape_create_torus cosf sinf glm_add glm_sub glm_cross glm_scale glm_normalize 52 size innerRatio sides rings smooth_ off = Ok s /\
    Z.min sides 50 <= us <= Z.min sides 50 + 1 /\ Z.min rings 50 <= vs <= Z.min rings 50 + 1 /\
    shape_ok true s (Z.to_nat (if smooth_ then us * (2 * vs + 2) else 6 * us * vs)) (Z.to_nat (2 * us * vs)).
Proof.
  intros Hs Hr. unfold shape_create_torus. destruct size as [[sx sy] sz].
  destruct (float_range_ok (Z.min sides 50) ltac:(lia)) as (u & us & -> & _ & _ & Hus).
  destruct (float_range_ok (Z.min rings 50) ltac:(lia)) as (v & l & -> & Hv & Hl & Hvs).
  set (c := Z.of_nat (S (length l))) in *. set (k := Z.of_nat (S (length us))) in *.
  match goal with
  | |- context [for_each (torus_ring _ _ ?sz ?ir ?or ?st _) _ _] =>
      destruct (torus_loops_ok sz ir or st (u :: us) v l Hv Hl) as (state & -> & H)
  end.
  { cbn [length]. fold c k. nia. }
  cbn [length] in H. fold c k in H. cbn [mbind result_bind]. destruct state as [[verts is_] index]. destruct H as (Hlen & _ & tris & -> & Ht & Hok).
  destruct smooth_.
  - eexists _, k, c. split; [done|]. split; [done|]. split; [done|]. split; [cbn; lia|]. exists tris. split; [done|]. split; [lia|].
    rewrite Z2Nat.id by nia. done.
  - rewrite <- Hlen in Hok. destruct (flat_torus_ok verts tris Hok ltac:(nia)) as (flat & -> & Hf & tris' & Ef & Hl' & Hok').
    cbn [mbind result_bind]. eexists _, k, c. split; [done|]. split; [done|]. split; [done|]. split; [cbn; lia|]. exists tris'.
    split; [done|]. split; [lia|]. by replace (Z.to_nat (6 * k * c)) with (3 * length tris)%nat by lia.
Qed.
End shapes.

(** Stand-ins for the functions of the C library and of GLM, for the witnesses. *)
Definition fst_ {A} (a _ : A) : A := a.
Definition keep3 (v : float3) (_ : f32) : float3 := v.

Lemma sphere_shapes_ok_witness :
  let id := fun x : f32 => x in
  let one3 := (f32_of_Z 1, f32_of_Z 1, f32_of_Z 1) in
  (exists sphere s, Sphere_make id id half 8 6 true = Ok sphere /\
     shape_create_sphere id id fst_ fst_ keep3 one3 1 true tt one3 = Ok s /\
     is_copy fst_ (arrays sphere) one3 one3 tt s /\ shape_ok true s 63 80) /\
  (exists sphere s n, Icosphere_make id id id fst_ fst_ half 1 true = Ok sphere /\
     shape_create_icosphere id id id fst_ fst_ fst_ fst_ keep3 one3 1 true tt one3 = Ok s /\
     is_copy fst_ (sp_arrays sphere) one3 one3 tt s /\ shape_ok false s n 80 /\ (0 < n <= 82)%nat).
Proof.
  intros id one3. destruct (sphere_shapes_ok id id id fst_ fst_ fst_ fst_ keep3 one3 1 true tt one3) as [H1 H2]; [lia|]. split.
  - destruct H1 as (sphere & s & E1 & E2 & Hc & _ & _ & _ & Hok); [lia|]. exists sphere, s. split_and!; [exact E1|exact E2|exact Hc|exact Hok].
  - destruct H2 as (sphere & s & n & E1 & E2 & Hc & _ & _ & Hok & Hn). exists sphere, s, n.
    split; [exact E1|]. split; [exact E2|]. split; [exact Hc|]. split; [exact Hok|exact Hn].
Defined.

Lemma rounded_box_shape_ok_witness :
  let one3 := (f32_of_Z 1, f32_of_Z 1, f32_of_Z 1) in
  exists b s n, Create fst_ fst_ keep3 (fun _ => f32_of_Z 1) (fun v => v) 2 one3 (to_f64 (f32_of_Z 1)) no_box = Ok b /\
    box_inv 6 b /\
    shape_create_rounded_box fst_ fst_ keep3 (fun _ => f32_of_Z 1) (fun v => v) one3 2 (f32_of_Z 1) tt one3 = Ok s /\
    shape_ok true s n 300.
Proof.
  intros one3. apply (rounded_box_shape_ok fst_ fst_ keep3 (fun _ => f32_of_Z 1) (fun v => v) one3 2 (f32_of_Z 1) tt one3); lia.
Defined.

Lemma torus_shape_ok_witness :
  let id := fun x : f32 => x in
  let one3 := (f32_of_Z 1, f32_of_Z 1, f32_of_Z 1) in
  exists (s : Shape unit) us vs,
    shape_create_torus id id fst_ fst_ fst_ keep3 (fun v => v) 52 one3 (f32_of_Z 1) 12 8 false one3 = Ok s /\
    12 <= us <= 13 /\ 8 <= vs <= 9 /\ shape_ok true s (Z.to_nat (6 * us * vs)) (Z.to_nat (2 * us * vs)).
Proof.
  intros id one3. apply (torus_shape_ok id id fst_ fst_ fst_ keep3 (fun v => v) one3 (f32_of_Z 1) 12 8 false one3); lia.
Defined.
