(* ===== verification/DeviceBuffer.v ===== *)
(** * Device buffers

    include/mutils/device/IDeviceBuffer.h as a class, src/gl/gl_buffer.cpp as
    its implementation over OpenGL, and [shape_transfer] of
    src/geometry/standard_shapes.cpp as a client of the class.

    OpenGL is a library: the class [GL] states the calls, and [GLLaws] what
    their documentation promises of the data stores of the buffer objects. The
    calls can fail as documented: [glBufferData] for want of memory,
    [glMapBufferRange] with a null pointer, [glUnmapBuffer] with a store that
    was lost while it was mapped. [failures] counts those; nothing is promised
    of a call that adds to it. A byte of a store that was never written, or
    that was invalidated, is [None]. *)

From S2P Require Import Prelude Float32 Solids Shapes.

(** ** OpenGL *)

Inductive target : Type := GL_ARRAY_BUFFER | GL_ELEMENT_ARRAY_BUFFER.

(** The access of a mapping: writing, with the whole store invalidated, or
    without synchronisation. *)
Inductive access : Type := INVALIDATE_BUFFER | UNSYNCHRONIZED.

(** A store is a list of bytes; a pointer is an address. [memcpy] writes bytes
    through a pointer. *)
Class GL (G : Type) : Type := {
  glGenBuffers : G -> Z * G;
  glDeleteBuffers : Z -> G -> G;
  glBindBuffer : target -> Z -> G -> G;
  glBufferData : target -> Z -> G -> G;
  glMapBufferRange : target -> Z -> Z -> access -> G -> option Z * G;
  glUnmapBuffer : target -> G -> bool * G;
  memcpy : Z -> list Z -> G -> result stop G;
  bound : G -> target -> Z;
  store : G -> Z -> list (option Z);
  mapping : G -> Z -> option (Z * Z * Z);
  failures : G -> Z
}.

(** Bytes written into a store from [off] on. *)
Definition overwrite (l : list (option Z)) (off : nat) (bytes : list Z) : list (option Z) :=
  take off l ++ (Some <$> bytes) ++ drop (off + length bytes) l.

(** The store once a range of it is mapped. *)
Definition after_map (a : access) (l : list (option Z)) : list (option Z) :=
  match a with INVALIDATE_BUFFER => replicate (length l) None | UNSYNCHRONIZED => l end.

Definition others_kept {G} `{GL G} (b : Z) (g g' : G) : Prop :=
  (forall t, bound g' t = bound g t) /\
  (forall b', b' <> b -> store g' b' = store g b' /\ mapping g' b' = mapping g b').

Class GLLaws (G : Type) `{GL G} : Prop := {
  gl_gen g : (glGenBuffers g).1 <> 0 /\ store (glGenBuffers g).2 (glGenBuffers g).1 = [] /\
    mapping (glGenBuffers g).2 (glGenBuffers g).1 = None;
  gl_bind g t b : bound (glBindBuffer t b g) t = b /\ failures (glBindBuffer t b g) = failures g /\
    (forall b', store (glBindBuffer t b g) b' = store g b' /\ mapping (glBindBuffer t b g) b' = mapping g b');
  gl_failures g t n off len a : failures g <= failures (glBufferData t n g) /\
    failures g <= failures (glMapBufferRange t off len a g).2 /\ failures g <= failures (glUnmapBuffer t g).2;
  gl_data g t n : 0 <= n -> failures (glBufferData t n g) = failures g ->
    store (glBufferData t n g) (bound g t) = replicate (Z.to_nat n) None /\
    mapping (glBufferData t n g) (bound g t) = None /\ others_kept (bound g t) g (glBufferData t n g);
  gl_map g t off len a : bound g t <> 0 -> mapping g (bound g t) = None -> 0 <= off -> 0 < len ->
    off + len <= Z.of_nat (length (store g (bound g t))) ->
    failures (glMapBufferRange t off len a g).2 = failures g ->
    exists p g', glMapBufferRange t off len a g = (Some p, g') /\
      mapping g' (bound g t) = Some (p, off, len) /\
      store g' (bound g t) = after_map a (store g (bound g t)) /\
      others_kept (bound g t) g g';
  gl_memcpy g b p off len bytes : mapping g b = Some (p, off, len) -> Z.of_nat (length bytes) <= len ->
    exists g', memcpy p bytes g = Ok g' /\ store g' b = overwrite (store g b) (Z.to_nat off) bytes /\
      mapping g' b = mapping g b /\ others_kept b g g' /\ failures g' = failures g;
  gl_unmap g t : let g' := (glUnmapBuffer t g).2 in failures g' = failures g ->
    (glUnmapBuffer t g).1 = true /\ mapping g' (bound g t) = None /\ store g' (bound g t) = store g (bound g t) /\
    others_kept (bound g t) g g'
}.

(** An OpenGL none of whose calls fails. *)
Class GLReliable (G : Type) `{GL G} : Prop := {
  no_failures g t n off len a : failures (glBufferData t n g) = failures g /\
    failures (glMapBufferRange t off len a g).2 = failures g /\ failures (glUnmapBuffer t g).2 = failures g
}.

(** ** [GLBuffer] *)

(** [DeviceBufferFlags] *)
Definition IndexBuffer : Z := 1 .<< 0.
Definition VertexBuffer : Z := 1 .<< 1.
Definition UseUploadBuffer : Z := 1 .<< 2.

Record GLBuffer : Type := mkGLBuffer {
  m_offset : Z; m_bufferID : Z; m_lastOffset : Z; m_lastSize : Z; m_size : Z; m_flags : Z; m_mapped : bool; m_reset : bool
}.

Definition set_offset x b := mkGLBuffer x (m_bufferID b) (m_lastOffset b) (m_lastSize b) (m_size b) (m_flags b) (m_mapped b) (m_reset b).
Definition set_id x b := mkGLBuffer (m_offset b) x (m_lastOffset b) (m_lastSize b) (m_size b) (m_flags b) (m_mapped b) (m_reset b).
Definition set_size x b := mkGLBuffer (m_offset b) (m_bufferID b) (m_lastOffset b) (m_lastSize b) x (m_flags b) (m_mapped b) (m_reset b).
Definition set_mapped x b := mkGLBuffer (m_offset b) (m_bufferID b) (m_lastOffset b) (m_lastSize b) (m_size b) (m_flags b) x (m_reset b).
Definition set_reset x b := mkGLBuffer (m_offset b) (m_bufferID b) (m_lastOffset b) (m_lastSize b) (m_size b) (m_flags b) (m_mapped b) x.

Definition GetBufferType (b : GLBuffer) : target :=
  if m_flags b .& IndexBuffer =? 0 then GL_ARRAY_BUFFER else GL_ELEMENT_ARRAY_BUFFER.

Section GLBuffer.
Context {G : Type} `{GL G} (NDEBUG : bool).

Abbreviation M := (ST (GLBuffer * G)).

Definition this : M GLBuffer := fun s => Ok (s.1, s).
Definition upd (f : GLBuffer -> GLBuffer) : M unit := fun s => Ok (tt, (f s.1, s.2)).
Definition gl_call (f : G -> G) : M unit := fun s => Ok (tt, (s.1, f s.2)).

Definition Bind : M unit := b ← this; gl_call (glBindBuffer (GetBufferType b) (m_bufferID b)).
Definition UnBind : M unit := b ← this; gl_call (glBindBuffer (GetBufferType b) 0).

Definition GLBuffer_make (size flags : Z) (g : G) : result stop (unit * (GLBuffer * G)) :=
  let '(i, g) := glGenBuffers g in
  (Bind;; b ← this; gl_call (glBufferData (GetBufferType b) size)) (mkGLBuffer 0 i 0 0 size flags false true, g).

Definition GLBuffer_destroy : M unit := b ← this; gl_call (glDeleteBuffers (m_bufferID b)).

Definition EnsureSize (size : Z) : M unit :=
  b ← this;
  if m_size b <? size then
    Bind;;
    gl_call (glBufferData (GetBufferType b) size);;
    upd (fun b => set_offset 0 (set_size size b))
  else mret tt.

Definition Upload : M unit := mret tt.
Definition GetByteSize : M Z := b ← this; mret (m_size b).

Definition glMap (t : target) (off len : Z) (a : access) : M (option Z) :=
  fun s => let '(p, g) := glMapBufferRange t off len a s.2 in Ok (p, (s.1, g)).

(** The pointer, which may be null, and the new value of [offset]. *)
Definition Map (num typeSize offset : Z) : M (option Z * Z) :=
  st_assert NDEBUG (b ← this; mret (negb (m_mapped b)));;
  b ← this;
  if m_mapped b then mret (None, offset)
  else if m_bufferID b =? 0 then mret (None, offset)
  else
    upd (set_mapped true);;
    Bind;;
    let byteSize := u32 (num * typeSize) in
    EnsureSize byteSize;;
    b ← this;
    if m_reset b || (m_size b <? u32 (m_offset b + byteSize)) then
      upd (fun b => set_reset false (set_offset byteSize b));;
      p ← glMap (GetBufferType b) 0 byteSize INVALIDATE_BUFFER;
      mret (p, 0)
    else if typeSize =? 0 then st_fail UB
    else
      let offset := m_offset b / typeSize in
      upd (set_offset (u32 (m_offset b + byteSize)));;
      p ← glMap (GetBufferType b) (u32 (offset * typeSize)) byteSize UNSYNCHRONIZED;
      mret (p, offset).

Definition UnMap : M unit :=
  st_assert NDEBUG (b ← this; mret (m_mapped b));;
  b ← this;
  if m_mapped b then
    Bind;;
    (* the result of [glUnmapBuffer] is not looked at *)
    gl_call (fun g => (glUnmapBuffer (GetBufferType b) g).2);;
    upd (set_mapped false)
  else mret tt.
End GLBuffer.

(** ** The interface [IDeviceBuffer]

    [D] is the state of the device and its buffers, [B] the buffers. *)

Class IDeviceBuffer (B D : Type) : Type := {
  buf_EnsureSize : B -> Z -> ST D unit;
  buf_Map : B -> Z -> Z -> Z -> ST D (option Z * Z);
  buf_UnMap : B -> ST D unit;
  buf_Upload : B -> ST D unit;
  buf_GetByteSize : B -> ST D Z;
  buf_Bind : B -> ST D unit;
  buf_UnBind : B -> ST D unit;
  buf_memcpy : Z -> list Z -> ST D unit;
  contents : D -> B -> list (option Z)
}.

(** Map [num] elements, copy [bytes] to the pointer, and unmap: how every
    client uses a buffer. *)
Definition transfer {B D} `{IDeviceBuffer B D} (b : B) (num typeSize offset : Z) (bytes : list Z) : ST D Z :=
  pDest ← buf_Map b num typeSize offset;
  p ← st_some pDest.1;
  buf_memcpy p bytes;;
  buf_UnMap b;;
  mret pDest.2.

(** What a buffer promises: if it is [ready], and the data are not more than
    [capacity] bytes, the transfer leaves them in the contents at the offset it
    reports, the buffers ready, and other buffers as they were. *)
Class DeviceBufferLaws (B D : Type) `{IDeviceBuffer B D} : Type := {
  ready : D -> B -> Prop;
  capacity : Z;
  transfer_ok d b num typeSize offset bytes :
    ready d b -> 0 < num -> 0 < typeSize -> num * typeSize <= capacity -> Z.of_nat (length bytes) = num * typeSize ->
    exists off d', transfer b num typeSize offset bytes d = Ok (off, d') /\ 0 <= off /\
      take (length bytes) (drop (Z.to_nat (off * typeSize)) (contents d' b)) = Some <$> bytes /\
      (forall b', ready d b' -> ready d' b' /\ (b' <> b -> contents d' b' = contents d b'))
}.

(** ** [shape_transfer] *)

(** [MeshPart] *)
Record MeshPart : Type := mkMeshPart { vertexOffset : Z; indexOffset : Z; indexCount : Z; vertexCount : Z }.

(** [sizeof(MeshVertex)]: twelve floats. *)
Definition sizeof_MeshVertex : Z := 12 * 4.

(** The bytes of a [uint32_t], the least significant first. *)
Definition u32_bytes (x : Z) : list Z := [x mod 256; (x / 256) mod 256; (x / 65536) mod 256; (x / 16777216) mod 256].

Section shape_transfer.
Context {C B D : Type} `{IDeviceBuffer B D} (vertex_bytes : MeshVertex C -> list Z).

Definition shape_transfer (s : Shape C) (vbuf ibuf : B) : ST D MeshPart :=
  let indexCount := u32 (Z.of_nat (length (sh_indices s))) in
  let vertexCount := u32 (Z.of_nat (length (sh_vertices s))) in
  pDest ← buf_Map vbuf vertexCount sizeof_MeshVertex 0;
  _ ← st_some (head (sh_vertices s));
  p ← st_some pDest.1;
  buf_memcpy p (sh_vertices s ≫= vertex_bytes);;
  buf_UnMap vbuf;;
  let vertexOffset := pDest.2 in
  pDest ← buf_Map ibuf indexCount 4 0;
  _ ← st_some (head (sh_indices s));
  p ← st_some pDest.1;
  buf_memcpy p (sh_indices s ≫= u32_bytes);;
  buf_UnMap ibuf;;
  mret (mkMeshPart vertexOffset pDest.2 indexCount vertexCount).
End shape_transfer.

(** ** The buffers of a program as an [IDeviceBuffer]

    The [GLBuffer] objects by their address, and OpenGL. *)

Section gl_device.
Context {G : Type} `{GL G} (NDEBUG : bool).

Definition device : Type := gmap nat GLBuffer * G.

Definition on_buffer {A} (h : nat) (m : ST (GLBuffer * G) A) : ST device A :=
  fun d => match d.1 !! h with
           | None => Err UB
           | Some b =>
               match m (b, d.2) with
               | Ok (a, (b, g)) => Ok (a, (<[h := b]> d.1, g))
               | Err e => Err e
               end
           end.

Definition gl_write (p : Z) (bytes : list Z) : ST (GLBuffer * G) unit :=
  fun s => match memcpy p bytes s.2 with Ok g => Ok (tt, (s.1, g)) | Err e => Err e end.

#[global] Instance gl_device : IDeviceBuffer nat device := {
  buf_EnsureSize h size := on_buffer h (EnsureSize size);
  buf_Map h num typeSize offset := on_buffer h (Map NDEBUG num typeSize offset);
  buf_UnMap h := on_buffer h (UnMap NDEBUG);
  buf_Upload h := on_buffer h Upload;
  buf_GetByteSize h := on_buffer h GetByteSize;
  buf_Bind h := on_buffer h Bind;
  buf_UnBind h := on_buffer h UnBind;
  buf_memcpy p bytes d := match memcpy p bytes d.2 with Ok g => Ok (tt, (d.1, g)) | Err e => Err e end;
  contents d h := match d.1 !! h with Some b => store d.2 (m_bufferID b) | None => [] end
}.
End gl_device.
