(* ===== verification/DeviceBufferTheory.v ===== *)
(** * Theorems on the device buffers *)

From S2P Require Import Prelude Float32 Solids SolidsTheory Shapes ShapesTheory DeviceBuffer.

(** ** Stores *)

Lemma length_overwrite l off bytes : (off + length bytes <= length l)%nat -> length (overwrite l off bytes) = length l.
Proof. intros. unfold overwrite. rewrite !length_app, length_fmap, length_take, length_drop. lia. Qed.

Lemma overwrite_slice l off bytes : (off + length bytes <= length l)%nat ->
  take (length bytes) (drop off (overwrite l off bytes)) = Some <$> bytes.
Proof.
  intros. unfold overwrite. rewrite drop_app_length' by (rewrite length_take; lia).
  by rewrite take_app_length' by (by rewrite length_fmap).
Qed.

(** Bytes outside the range that is written are kept. *)
Lemma overwrite_before l off bytes i n : (i + n <= off)%nat -> (off <= length l)%nat ->
  take n (drop i (overwrite l off bytes)) = take n (drop i l).
Proof.
  intros Hi Hl. unfold overwrite. rewrite drop_app_le by (rewrite length_take; lia).
  rewrite take_app_le by (rewrite length_drop, length_take; lia).
  rewrite <- (take_drop off l) at 2. rewrite drop_app_le by (rewrite length_take; lia).
  by rewrite take_app_le by (rewrite length_drop, length_take; lia).
Qed.

Section theory.
Context {G : Type} `{GLLaws G} (NDEBUG : bool).

(** ** One buffer *)

(** Between calls: the store has [m_size] bytes, of which [m_offset] are used. *)
Definition gl_inv (b : GLBuffer) (g : G) : Prop :=
  m_bufferID b <> 0 /\ m_mapped b = false /\ mapping g (m_bufferID b) = None /\
  Z.of_nat (length (store g (m_bufferID b))) = m_size b /\ 0 <= m_offset b <= m_size b /\ m_size b < 2 ^ 31.

(** The other buffer objects are as they were. *)
Definition untouched (i : Z) (g g' : G) : Prop :=
  forall j, j <> i -> store g' j = store g j /\ mapping g' j = mapping g j.

#[global] Instance untouched_preorder i : PreOrder (untouched i).
Proof.
  split; [by intros g j|]. intros g1 g2 g3 H1 H2 j Hj. destruct (H1 j Hj), (H2 j Hj). split; congruence.
Qed.

Lemma others_untouched i g g' : others_kept i g g' -> untouched i g g'.
Proof. by intros [_ Ho]. Qed.

Lemma bind_untouched i t j g : untouched i g (glBindBuffer t j g).
Proof. intros k _. apply (gl_bind g t j). Qed.

(** What [Map] has done when it comes to map: the store is bound, mapped
    nowhere, and large enough. *)
Record prepared (b b' : GLBuffer) (g g' : G) (n : Z) : Prop := {
  pr_bound : bound g' (GetBufferType b') = m_bufferID b;
  pr_id : m_bufferID b' = m_bufferID b /\ m_flags b' = m_flags b /\ m_reset b' = m_reset b;
  pr_mapped : m_mapped b' = true /\ mapping g' (m_bufferID b) = None;
  pr_size : Z.of_nat (length (store g' (m_bufferID b))) = m_size b' /\ n <= m_size b' < 2 ^ 31;
  pr_offset : 0 <= m_offset b' <= m_size b';
  pr_store : m_offset b' = 0 \/ m_offset b' = m_offset b /\ m_size b' = m_size b /\ store g' (m_bufferID b) = store g (m_bufferID b);
  pr_others : untouched (m_bufferID b) g g'
}.

Lemma prepare_ok b g n : gl_inv b g -> 0 <= n < 2 ^ 31 ->
  exists b' g', (upd (set_mapped true);; Bind;; EnsureSize n) (b, g) = Ok (tt, (b', g')) /\ failures g <= failures g' /\
    (failures g' = failures g -> prepared b b' g g' n).
Proof.
  intros (Hid & Hm & Hn & Hlen & Ho & Hs) Hn31. cbv [mbind ST_bind upd Bind this gl_call EnsureSize mret ST_ret]. cbn.
  change (GetBufferType (set_mapped true b)) with (GetBufferType b). set (t := GetBufferType b). set (g1 := glBindBuffer t (m_bufferID b) g).
  destruct (gl_bind g t (m_bufferID b)) as (Hb1 & Hf1 & Hk1). fold g1 in Hb1, Hf1, Hk1. destruct (Hk1 (m_bufferID b)) as [Hs1 Hm1].
  destruct (m_size b <? n) eqn:E.
  - set (g2 := glBindBuffer t (m_bufferID b) g1). destruct (gl_bind g1 t (m_bufferID b)) as (Hb2 & Hf2 & Hk2). fold g2 in Hb2, Hf2, Hk2.
    exists (set_offset 0 (set_size n (set_mapped true b))), (glBufferData t n g2). split; [reflexivity|].
    destruct (gl_failures g2 t n 0 0 UNSYNCHRONIZED) as [Hmono _]. split; [lia|]. intros Hf3.
    destruct (gl_data g2 t n) as (Hs3 & Hm3 & Hk3); [lia|congruence|]. rewrite Hb2 in Hs3, Hm3, Hk3.
    destruct Hk3 as [Hb3 Hk3]. split; cbn.
    + change (GetBufferType _) with t. by rewrite Hb3.
    + done.
    + done.
    + rewrite Hs3, length_replicate. lia.
    + lia.
    + by left.
    + etrans; [apply bind_untouched|]. etrans; [apply bind_untouched|]. exact Hk3.
  - exists (set_mapped true b), g1. split; [reflexivity|]. split; [lia|]. intros _. split; cbn.
    + done.
    + done.
    + by rewrite Hm1.
    + rewrite Hs1. lia.
    + lia.
    + right. done.
    + apply bind_untouched.
Qed.

(** The three calls of a client on one buffer. *)
Definition gl_transfer (num typeSize offset : Z) (bytes : list Z) : ST (GLBuffer * G) Z :=
  pDest ← Map NDEBUG num typeSize offset;
  p ← st_some pDest.1;
  gl_write p bytes;;
  UnMap NDEBUG;;
  mret pDest.2.

(** After the calls: the bytes are in the store at the offset that is reported,
    behind what was there, unless the buffer started over. *)
Record moved (b b' : GLBuffer) (g g' : G) (typeSize off : Z) (bytes : list Z) : Prop := {
  mv_inv : gl_inv b' g';
  mv_same : m_bufferID b' = m_bufferID b /\ m_flags b' = m_flags b;
  mv_off : 0 <= off;
  mv_slice : take (length bytes) (drop (Z.to_nat (off * typeSize)) (store g' (m_bufferID b))) = Some <$> bytes;
  mv_used : off * typeSize + Z.of_nat (length bytes) <= m_offset b';
  mv_next : m_offset b' = Z.of_nat (length bytes) \/ m_offset b' = m_offset b + Z.of_nat (length bytes);
  mv_kept : off = 0 \/
    off = m_offset b / typeSize /\ store g' (m_bufferID b) = overwrite (store g (m_bufferID b)) (Z.to_nat (off * typeSize)) bytes;
  mv_others : untouched (m_bufferID b) g g'
}.

Lemma bind_assoc3 {S A} (a b c : ST S unit) (r : ST S A) s : (a;; b;; c;; r) s = ((a;; b;; c);; r) s.
Proof. unfold mbind, ST_bind. destruct (a s) as [[? s1]|]; [|done]. by destruct (b s1) as [[? s2]|]. Qed.

(** Writing and unmapping, once a range is mapped. *)
Lemma write_unmap_ok b g p off len bytes :
  m_mapped b = true -> mapping g (m_bufferID b) = Some (p, off, len) -> Z.of_nat (length bytes) <= len ->
  exists g', (gl_write p bytes;; UnMap NDEBUG) (b, g) = Ok (tt, (set_mapped false b, g')) /\ failures g <= failures g' /\
    (failures g' = failures g ->
     store g' (m_bufferID b) = overwrite (store g (m_bufferID b)) (Z.to_nat off) bytes /\
     mapping g' (m_bufferID b) = None /\ untouched (m_bufferID b) g g').
Proof.
  intros Hm Hp Hlen. destruct (gl_memcpy g _ _ _ _ bytes Hp Hlen) as (g1 & E1 & Hs1 & _ & Hk1 & Hf1).
  set (t := GetBufferType b). set (g2 := glBindBuffer t (m_bufferID b) g1).
  destruct (gl_bind g1 t (m_bufferID b)) as (Hb2 & Hf2 & Hk2). fold g2 in Hb2, Hf2, Hk2.
  destruct (gl_failures g2 t 0 0 0 UNSYNCHRONIZED) as (_ & _ & Hmono).
  exists (glUnmapBuffer t g2).2. split; [|split; [lia|intros Hf3; destruct (gl_unmap g2 t) as (_ & Hm3 & Hs3 & Hk3);
    [congruence|]; rewrite Hb2 in Hm3, Hs3, Hk3; split; [|split]]].
  - cbv [mbind ST_bind gl_write UnMap this st_assert Bind gl_call upd mret ST_ret]. cbn. rewrite E1. destruct NDEBUG; cbn; rewrite !Hm; cbn; rewrite ?Hm; done.
  - by rewrite Hs3, (proj1 (Hk2 _)), Hs1.
  - done.
  - etrans; [exact (others_untouched _ _ _ Hk1)|]. etrans; [apply bind_untouched|]. exact (others_untouched _ _ _ Hk3).
Qed.

(** Mapping: the range begins at [off] elements. *)
Record mapped_ok (b b' : GLBuffer) (g g' : G) (typeSize off len p : Z) : Prop := {
  mo_id : m_bufferID b' = m_bufferID b /\ m_flags b' = m_flags b;
  mo_mapped : m_mapped b' = true /\ mapping g' (m_bufferID b) = Some (p, off * typeSize, len);
  mo_size : Z.of_nat (length (store g' (m_bufferID b))) = m_size b' /\ m_size b' < 2 ^ 31;
  mo_off : 0 <= off /\ 0 <= off * typeSize /\ off * typeSize + len <= m_offset b' <= m_size b';
  mo_next : m_offset b' = len \/ m_offset b' = m_offset b + len;
  mo_kept : off = 0 \/ off = m_offset b / typeSize /\ store g' (m_bufferID b) = store g (m_bufferID b);
  mo_others : untouched (m_bufferID b) g g'
}.

Lemma Map_ok b g num typeSize offset :
  gl_inv b g -> 0 < num -> 0 < typeSize -> num * typeSize < 2 ^ 31 ->
  exists r b' g', Map NDEBUG num typeSize offset (b, g) = Ok (r, (b', g')) /\ failures g <= failures g' /\
    (failures g' = failures g -> exists p off, r = (Some p, off) /\ mapped_ok b b' g g' typeSize off (num * typeSize) p).
Proof.
  intros Hinv Hnum Hts Hn. assert (0 < num * typeSize) as Hpos by nia. set (n := num * typeSize) in *.
  pose proof Hinv as (Hid & Hm & _). unfold Map.
  rewrite (st_bind_ok _ _ _ tt (b, g)) by (apply st_assert_ok; intros _; cbv [mbind ST_bind this mret ST_ret]; cbn; by rewrite Hm).
  rewrite (st_bind_ok _ _ _ b (b, g)) by done. rewrite Hm. replace (m_bufferID b =? 0) with false by lia. fold n.
  rewrite (wrap_small 32 n) by (unfold in_u; lia). rewrite bind_assoc3.
  destruct (prepare_ok b g n) as (b1 & g1 & E1 & Hf1 & Hprep); [exact Hinv|lia|].
  rewrite (st_bind_ok _ _ _ _ _ E1), (st_bind_ok _ _ _ b1 (b1, g1)) by done.
  destruct (m_reset b1 || (m_size b1 <? u32 (m_offset b1 + n))) eqn:E.
  - destruct (glMapBufferRange (GetBufferType b1) 0 n INVALIDATE_BUFFER g1) as [r g2] eqn:E2.
    destruct (gl_failures g1 (GetBufferType b1) 0 0 n INVALIDATE_BUFFER) as (_ & Hf2 & _). rewrite E2 in Hf2. cbn in Hf2.
    exists (r, 0), (set_reset false (set_offset n b1)), g2. split; [|split; [lia|]].
    + cbv [mbind ST_bind upd glMap mret ST_ret]. cbn. by rewrite E2.
    + intros Hf. destruct (Hprep ltac:(lia)) as [Hb [Hi [Hfl Hr]] [Hm1 Hn1] [Hs Hsn] Ho Hst Hk].
      destruct (gl_map g1 (GetBufferType b1) 0 n INVALIDATE_BUFFER) as (p & g3 & E3 & Hm2 & Hs2 & Hk2); rewrite ?Hb, ?E2; try done; try lia.
      { cbn. lia. }
      rewrite E2 in E3. injection E3 as -> <-. rewrite Hb in Hm2, Hs2, Hk2. exists p, 0. split; [done|]. split; cbn; rewrite ?Z.mul_0_l; try done; try lia.
      * split; [|lia]. rewrite Hs2. cbn. rewrite length_replicate. lia.
      * etrans; [exact Hk|]. exact (others_untouched _ _ _ Hk2).
  - replace (typeSize =? 0) with false by lia. set (off := m_offset b1 / typeSize) in *.
    destruct (glMapBufferRange (GetBufferType b1) (u32 (off * typeSize)) n UNSYNCHRONIZED g1) as [r g2] eqn:E2.
    destruct (gl_failures g1 (GetBufferType b1) 0 (u32 (off * typeSize)) n UNSYNCHRONIZED) as (_ & Hf2 & _). rewrite E2 in Hf2. cbn in Hf2.
    exists (r, off), (set_offset (u32 (m_offset b1 + n)) b1), g2. split; [|split; [lia|]].
    + cbv [mbind ST_bind upd glMap mret ST_ret]. cbn. by rewrite E2.
    + intros Hf. destruct (Hprep ltac:(lia)) as [Hb [Hi [Hfl Hr]] [Hm1 Hn1] [Hs Hsn] Ho Hst Hk].
      rewrite (wrap_small 32 (m_offset b1 + n)) in * by (unfold in_u; lia). apply orb_false_iff in E as [_ E%Z.ltb_ge].
      pose proof (Z.mul_div_le (m_offset b1) typeSize Hts) as Hle. fold off in Hle.
      assert (0 <= off) by (apply Z.div_pos; lia). rewrite (Z.mul_comm typeSize) in Hle. rewrite (wrap_small 32 (off * typeSize)) in E2 by (unfold in_u; nia).
      destruct (gl_map g1 (GetBufferType b1) (off * typeSize) n UNSYNCHRONIZED) as (p & g3 & E3 & Hm2 & Hs2 & Hk2); rewrite ?Hb, ?E2; try done; try nia.
      { cbn. lia. }
      rewrite E2 in E3. injection E3 as -> <-. rewrite Hb in Hm2, Hs2, Hk2. exists p, off. split; [done|]. split; cbn; try done; try nia.
      * rewrite Hs2. cbn. lia.
      * destruct Hst as [E0|(E0 & _ & Es)]; [left|right].
        -- unfold off. by rewrite E0, Z.div_0_l by lia.
        -- split; [unfold off; by rewrite E0|by rewrite Hs2].
      * etrans; [exact Hk|]. exact (others_untouched _ _ _ Hk2).
Qed.

(** A documented failure of OpenGL while a chunk is transferred: in [Map], or
    in [UnMap] once the chunk is written. *)
Definition chunk_fails (num typeSize offset : Z) (bytes : list Z) (s : GLBuffer * G) : Prop :=
  exists r s1, Map NDEBUG num typeSize offset s = Ok (r, s1) /\
    (failures s.2 < failures s1.2 \/
     exists p s2, r.1 = Some p /\ (gl_write p bytes;; UnMap NDEBUG) s1 = Ok (tt, s2) /\ failures s.2 < failures s2.2).

Lemma gl_transfer_ok b g num typeSize offset bytes :
  gl_inv b g -> 0 < num -> 0 < typeSize -> num * typeSize < 2 ^ 31 -> Z.of_nat (length bytes) = num * typeSize ->
  (exists b' g' off, gl_transfer num typeSize offset bytes (b, g) = Ok (off, (b', g')) /\ failures g' = failures g /\
     moved b b' g g' typeSize off bytes) \/
  chunk_fails num typeSize offset bytes (b, g).
Proof.
  intros Hinv Hnum Hts Hn Hlen. destruct (Map_ok b g num typeSize offset Hinv Hnum Hts Hn) as (r & b1 & g1 & E1 & Hf1 & H1).
  destruct (decide (failures g1 = failures g)) as [Hf|]; [|right; exists r, (b1, g1); split; [done|left; cbn; lia]].
  destruct (H1 Hf) as (p & off & -> & [[Hi Hfl] [Hm Hp] [Hs H31] (Ho1 & Ho2 & Ho3) Hnx Hk Hot]). clear H1. rewrite <- Hlen in *. rewrite <- Hi in Hp.
  destruct (write_unmap_ok b1 g1 p _ _ bytes Hm Hp ltac:(lia)) as (g2 & E2 & Hf2 & H2).
  destruct (decide (failures g2 = failures g1)) as [Hf'|].
  2: { right. exists (Some p, off), (b1, g1). split; [done|]. right. exists p, (set_mapped false b1, g2). split_and!; [done..|cbn; lia]. }
  destruct (H2 Hf') as (Hs2 & Hm2 & Hk2). rewrite Hi in Hs2, Hm2, Hk2. left.
  exists (set_mapped false b1), g2, off. split; [|split; [congruence|]].
  - unfold gl_transfer. rewrite (st_bind_ok _ _ _ _ _ E1). cbn [fst snd st_some].
    rewrite (st_bind_ok _ _ _ p (b1, g1)) by done. rewrite <- st_bind_assoc. by rewrite (st_bind_ok _ _ _ _ _ E2).
  - assert (Z.to_nat (off * typeSize) + length bytes <= length (store g1 (m_bufferID b)))%nat by lia. split; cbn.
    + repeat split; cbn; rewrite ?Hi, ?Hs2, ?length_overwrite by lia; try done; try lia. by destruct Hinv.
    + done.
    + done.
    + rewrite Hs2. by apply overwrite_slice.
    + lia.
    + done.
    + destruct Hk as [->|[-> Es]]; [by left|right]. by rewrite Hs2, Es.
    + by etrans.
Qed.

(** With an OpenGL that does not fail, no chunk fails. *)
Lemma UnMap_reliable `{!GLReliable G} s s' u : UnMap NDEBUG s = Ok (u, s') -> failures s'.2 = failures s.2.
Proof.
  assert (forall t i g, failures (glUnmapBuffer t (glBindBuffer t i g)).2 = failures g) as Hu.
  { intros t i g. destruct (no_failures (glBindBuffer t i g) t 0 0 0 UNSYNCHRONIZED) as (_ & _ & ->). apply gl_bind. }
  destruct s as [b g]. cbv [UnMap mbind ST_bind st_assert this Bind gl_call upd mret ST_ret].
  destruct NDEBUG; cbn; destruct (m_mapped b) eqn:Em; cbn; rewrite ?Em; try done; intros [= _ <-]; cbn; done.
Qed.

Lemma prepare_reliable `{!GLReliable G} n s u s' : (upd (set_mapped true);; Bind;; EnsureSize n) s = Ok (u, s') -> failures s'.2 = failures s.2.
Proof.
  destruct s as [b g]. cbv [mbind ST_bind upd Bind this gl_call EnsureSize mret ST_ret]. cbn.
  destruct (m_size b <? n); intros [= _ <-]; cbn; [|by apply gl_bind].
  destruct (no_failures (glBindBuffer (GetBufferType b) (m_bufferID b) (glBindBuffer (GetBufferType b) (m_bufferID b) g)) (GetBufferType b) n 0 0 UNSYNCHRONIZED) as (E & _).
  etrans; [exact E|]. etrans; [apply gl_bind|apply gl_bind].
Qed.

Lemma Map_reliable `{!GLReliable G} num typeSize offset b g r s' :
  gl_inv b g -> Map NDEBUG num typeSize offset (b, g) = Ok (r, s') -> failures s'.2 = failures g.
Proof.
  intros (Hid & Hm & _) E. revert E. unfold Map.
  rewrite (st_bind_ok _ _ _ tt (b, g)) by (apply st_assert_ok; intros _; cbv [mbind ST_bind this mret ST_ret]; cbn; by rewrite Hm).
  rewrite (st_bind_ok _ _ _ b (b, g)) by done. rewrite Hm. replace (m_bufferID b =? 0) with false by lia.
  rewrite bind_assoc3. unfold mbind at 1. unfold ST_bind at 1.
  destruct ((upd (set_mapped true);; Bind;; EnsureSize (u32 (num * typeSize))) (b, g)) as [[u [b1 g1]]|] eqn:Ep; [|done].
  apply prepare_reliable in Ep. cbn in Ep. rewrite (st_bind_ok _ _ _ b1 (b1, g1)) by done. rewrite <- Ep.
  assert (forall t off len a r g2, glMapBufferRange t off len a g1 = (r, g2) -> failures g2 = failures g1) as Hmap.
  { intros t off len a r' g2 E. destruct (no_failures g1 t 0 off len a) as (_ & E' & _). by rewrite E in E'. }
  destruct (_ || _); [|destruct (typeSize =? 0); [done|]]; cbv [mbind ST_bind upd glMap mret ST_ret]; cbn;
    destruct (glMapBufferRange _ _ _ _ g1) as [r' g2] eqn:E2; intros [= _ <-]; cbn; by eapply Hmap.
Qed.

Lemma reliable_chunk `{!GLReliable G} num typeSize offset bytes b g :
  gl_inv b g -> 0 < num -> 0 < typeSize -> num * typeSize < 2 ^ 31 -> Z.of_nat (length bytes) = num * typeSize ->
  ~ chunk_fails num typeSize offset bytes (b, g).
Proof.
  intros Hinv Hnum Hts Hn Hlen (r & [b1 g1] & E & Hf). pose proof (Map_reliable _ _ _ _ _ _ _ Hinv E) as Hf1. cbn in *.
  destruct Hf as [Hf|(p & s2 & Hp & E2 & Hf)]; [lia|].
  destruct (Map_ok b g num typeSize offset Hinv Hnum Hts Hn) as (r' & b' & g' & E' & _ & H1). rewrite E in E'. injection E' as <- <- <-.
  destruct (H1 Hf1) as (q & off & -> & [[Hi _] [Hm Hmp] _ _ _ _ _]). injection Hp as <-. rewrite <- Hi in Hmp.
  destruct (gl_memcpy g1 _ _ _ _ bytes Hmp ltac:(lia)) as (g2 & Ew & _ & _ & _ & Hfw).
  unfold mbind, ST_bind, gl_write in E2. cbn in E2. rewrite Ew in E2. apply UnMap_reliable in E2. cbn in E2. lia.
Qed.

(** ** A stream of elements of one size *)

(** A chunk: its number of elements and its bytes. *)
Fixpoint stream (typeSize : Z) (chunks : list (Z * list Z)) : ST (GLBuffer * G) (list Z) :=
  match chunks with
  | [] => mret []
  | (num, bytes) :: chunks =>
      off ← gl_transfer num typeSize 0 bytes;
      offs ← stream typeSize chunks;
      mret (off :: offs)
  end.

Definition chunk_ok (typeSize : Z) (c : Z * list Z) : Prop :=
  0 < c.1 /\ c.1 * typeSize < 2 ^ 31 /\ Z.of_nat (length c.2) = c.1 * typeSize.

(** The bytes [data] are at [pos] in the store of [b], in the part in use. *)
Definition holds (b : GLBuffer) (g : G) (pos : Z) (data : list Z) : Prop :=
  0 <= pos /\ pos + Z.of_nat (length data) <= m_offset b /\
  take (length data) (drop (Z.to_nat pos) (store g (m_bufferID b))) = Some <$> data.

Lemma moved_keeps b b' g g' typeSize off num bytes pos data :
  0 < typeSize -> (typeSize | m_offset b) -> chunk_ok typeSize (num, bytes) -> gl_inv b g ->
  moved b b' g g' typeSize off bytes ->
  (typeSize | m_offset b') /\ holds b' g' (off * typeSize) bytes /\ (off <> 0 -> holds b g pos data -> holds b' g' pos data).
Proof.
  intros Hts Hd (Hnum & Hn & Hlen) Hinv [Hi [Hid _] Ho Hsl Hu Hnx Hk _]. cbn [fst snd] in Hlen, Hnum. unfold holds. rewrite Hid.
  split; [|split; [split; [nia|done]|]].
  - destruct Hnx as [->| ->]; rewrite Hlen; [apply Z.divide_factor_r|]. apply Z.divide_add_r; [done|apply Z.divide_factor_r].
  - intros Hne (Hp & Hend & Hdata). destruct Hk as [?|[Eo Es]]; [done|].
    assert (off * typeSize = m_offset b) as Em.
    { rewrite Eo. destruct Hd as [k ->]. by rewrite Z.div_mul by lia. }
    destruct Hinv as (_ & _ & _ & Hl & Hos & _). split; [done|]. split; [lia|].
    rewrite Es, Em, overwrite_before by lia. done.
Qed.

(** What the transfer of [chunks] leaves, when their offsets are [offs]. *)
Record streamed (typeSize : Z) (chunks : list (Z * list Z)) (offs : list Z) (b b' : GLBuffer) (g g' : G) : Prop := {
  st_offs : length offs = length chunks;
  st_inv : gl_inv b' g' /\ failures g' = failures g;
  st_div : (typeSize | m_offset b');
  st_same : m_bufferID b' = m_bufferID b;
  st_others : untouched (m_bufferID b) g g';
  st_kept pos data : 0 ∉ offs -> holds b g pos data -> holds b' g' pos data;
  st_holds i off c : offs !! i = Some off -> chunks !! i = Some c -> 0 ∉ drop (S i) offs -> holds b' g' (off * typeSize) c.2
}.

Lemma streamed_nil typeSize b g : (typeSize | m_offset b) -> gl_inv b g -> streamed typeSize [] [] b b g g.
Proof. intros Hd Hinv. by split. Qed.

Lemma streamed_cons typeSize num bytes chunks off offs b b1 b2 g g1 g2 :
  0 < typeSize -> (typeSize | m_offset b) -> gl_inv b g -> chunk_ok typeSize (num, bytes) ->
  moved b b1 g g1 typeSize off bytes -> failures g1 = failures g -> streamed typeSize chunks offs b1 b2 g1 g2 ->
  streamed typeSize ((num, bytes) :: chunks) (off :: offs) b b2 g g2.
Proof.
  intros Hts Hd Hinv Hc1 Hmv Hf1 [Hl [Hi2 Hf2] Hd2 Hid2 Hu2 Hk2 Hh2].
  pose proof (fun pos data => moved_keeps _ _ _ _ _ _ _ _ pos data Hts Hd Hc1 Hinv Hmv) as Hkeep.
  destruct (Hkeep 0 []) as (_ & Hh1 & _). destruct (mv_same _ _ _ _ _ _ _ Hmv) as [Hid1 _]. split; [cbn; lia|split; [done|congruence]|done|congruence|..].
  - etrans; [exact (mv_others _ _ _ _ _ _ _ Hmv)|]. by rewrite <- Hid1.
  - intros pos data [Hne Hnin]%not_elem_of_cons Hh. apply Hk2; [done|]. by apply Hkeep.
  - intros [|i] off' c Hi1 Hi3 Hz; cbn in Hi1, Hi3, Hz; [|by eapply Hh2].
    injection Hi1 as <-. injection Hi3 as <-. apply Hk2; [done|exact Hh1].
Qed.

Lemma stream_ok typeSize chunks b g : 0 < typeSize -> (typeSize | m_offset b) -> gl_inv b g -> Forall (chunk_ok typeSize) chunks ->
  exists k offs b' g', stream typeSize (take k chunks) (b, g) = Ok (offs, (b', g')) /\ streamed typeSize (take k chunks) offs b b' g g' /\
    (k = length chunks \/ exists num bytes, chunks !! k = Some (num, bytes) /\ chunk_fails num typeSize 0 bytes (b', g')).
Proof.
  intros Hts. revert b g. induction chunks as [|[num bytes] chunks IH]; intros b g Hd Hinv Hc.
  { exists 0%nat, [], b, g. split; [done|]. split; [by apply streamed_nil|by left]. }
  apply Forall_cons in Hc as [Hc1 Hc]. pose proof Hc1 as (Hnum & Hn & Hlen). cbn [fst snd] in Hnum, Hn, Hlen.
  destruct (gl_transfer_ok b g num typeSize 0 bytes Hinv Hnum Hts Hn Hlen) as [(b1 & g1 & off & E1 & Hf1 & Hmv)|Hfail].
  2: { exists 0%nat, [], b, g. split; [done|]. split; [by apply streamed_nil|]. right. by exists num, bytes. }
  destruct (moved_keeps _ _ _ _ _ _ _ _ 0 [] Hts Hd Hc1 Hinv Hmv) as (Hd1 & _ & _).
  destruct (IH b1 g1 Hd1 (mv_inv _ _ _ _ _ _ _ Hmv) Hc) as (k & offs & b2 & g2 & E2 & Hst & Hend).
  exists (S k), (off :: offs), b2, g2. split; [|split].
  - cbn. by rewrite (st_bind_ok _ _ _ _ _ E1), (st_bind_ok _ _ _ _ _ E2).
  - cbn [take]. by eapply streamed_cons.
  - destruct Hend as [->|Hend]; [by left|by right].
Qed.

(** C31. A [GLBuffer] that is given chunks, all of elements of one size, each
    with [Map], a copy to the pointer and [UnMap], transfers them one after the
    other until OpenGL fails in a documented way: [Map] or [UnMap] of the next
    chunk meets a failure (no memory, no mapping, or a store that was lost).
    No other call is undefined or asserts, with an OpenGL that does not fail
    all chunks are transferred, and no data that are still needed are lost:
    each of the chunks is in the store of the buffer at the offset [Map]
    reported, unless a later [Map] started over at offset 0; and no other
    buffer object is touched. *)
Theorem GLBuffer_stream typeSize chunks b g :
  0 < typeSize -> (typeSize | m_offset b) -> gl_inv b g -> Forall (chunk_ok typeSize) chunks ->
  exists k offs b' g', stream typeSize (take k chunks) (b, g) = Ok (offs, (b', g')) /\ length offs = length (take k chunks) /\
    gl_inv b' g' /\ m_bufferID b' = m_bufferID b /\ untouched (m_bufferID b) g g' /\ failures g' = failures g /\
    (forall i off c, offs !! i = Some off -> chunks !! i = Some c -> (forall j, (i < j)%nat -> offs !! j <> Some 0) ->
      take (length c.2) (drop (Z.to_nat (off * typeSize)) (store g' (m_bufferID b'))) = Some <$> c.2) /\
    (k = length chunks \/ exists num bytes, chunks !! k = Some (num, bytes) /\ chunk_fails num typeSize 0 bytes (b', g')) /\
    (GLReliable G -> k = length chunks).
Proof.
  intros Hts Hd Hinv Hc. destruct (stream_ok typeSize chunks b g Hts Hd Hinv Hc) as (k & offs & b' & g' & E & [Hl [Hi Hf] Hd' Hid Hu _ Hh] & Hend).
  exists k, offs, b', g'. split_and!; [done..| |done|].
  - intros i off c Ho Hci Hz. apply (Hh i off c Ho).
    + rewrite lookup_take_Some. split; [done|]. apply lookup_lt_Some in Ho. rewrite Hl, length_take in Ho. lia.
    + intros [j Hj]%list_elem_of_lookup. rewrite lookup_drop in Hj. by apply (Hz (S i + j)%nat ltac:(lia)).
  - intros Hrel. destruct Hend as [?|(num & bytes & Hk & Hfail)]; [done|]. exfalso. revert Hfail.
    rewrite Forall_forall in Hc. destruct (Hc _ (list_elem_of_lookup_2 _ _ _ Hk)) as (H1 & H2 & H3). by apply reliable_chunk.
Qed.

(** A new buffer satisfies the invariant if there is memory for it, and the
    first chunk starts at 0. *)
Lemma GLBuffer_make_ok size flags g : 0 <= size < 2 ^ 31 ->
  exists b g', GLBuffer_make size flags g = Ok (tt, (b, g')) /\ m_offset b = 0 /\ m_size b = size /\
    (failures g' = failures (glGenBuffers g).2 -> gl_inv b g').
Proof.
  intros Hs. unfold GLBuffer_make. destruct (gl_gen g) as (Hz & _ & Hm). destruct (glGenBuffers g) as [i g1]. cbn in Hz, Hm.
  set (b := mkGLBuffer 0 i 0 0 size flags false true). set (t := GetBufferType b). set (g2 := glBindBuffer t i g1).
  exists b, (glBufferData t size g2). split; [done|]. split; [done|]. split; [done|]. cbn. intros Hf.
  destruct (gl_bind g1 t i) as (Hb2 & Hf2 & _). fold g2 in Hb2, Hf2.
  destruct (gl_data g2 t size) as (Hs3 & Hm3 & _); [lia|congruence|]. rewrite Hb2 in Hs3, Hm3. repeat split; cbn; try done; try lia.
  rewrite Hs3, length_replicate. lia.
Qed.
End theory.

(** ** The buffers of a program keep the promises of [IDeviceBuffer] *)

Section device.
Context {G : Type} `{GLLaws G, !GLReliable G} (NDEBUG : bool).

Abbreviation content := (contents (IDeviceBuffer := gl_device NDEBUG)).

(** A buffer between calls, with a buffer object of its own. *)
Definition gl_ready (d : device) (h : nat) : Prop :=
  exists b, d.1 !! h = Some b /\ gl_inv b d.2 /\
    forall h' b', h' <> h -> d.1 !! h' = Some b' -> m_bufferID b' <> m_bufferID b.

(** The calls through the interface are those on the buffer. *)
Lemma transfer_on_buffer (d : device) h b num typeSize offset bytes off s :
  d.1 !! h = Some b -> gl_transfer NDEBUG num typeSize offset bytes (b, d.2) = Ok (off, s) ->
  transfer (H := gl_device NDEBUG) h num typeSize offset bytes d = Ok (off, (<[h := s.1]> d.1, s.2)).
Proof.
  intros Hb. unfold transfer, gl_transfer. cbv [mbind ST_bind]. cbn. unfold on_buffer, gl_write. rewrite Hb.
  destruct (Map _ _ _ _ _) as [[[[p|] o] [b1 g1]]|]; [|done..]. cbn.
  destruct (memcpy p bytes g1) as [g2|]; [|done]. cbn. rewrite lookup_insert_eq.
  destruct (UnMap _ _) as [[[] [b3 g3]]|]; [|done]. cbn. intros [= <- <-]. cbn. by rewrite insert_insert_eq.
Qed.

Lemma device_transfer_ok (d : device) h num typeSize offset bytes :
  gl_ready d h -> 0 < num -> 0 < typeSize -> num * typeSize <= 2 ^ 31 - 1 -> Z.of_nat (length bytes) = num * typeSize ->
  exists off d', transfer (H := gl_device NDEBUG) h num typeSize offset bytes d = Ok (off, d') /\ 0 <= off /\
    take (length bytes) (drop (Z.to_nat (off * typeSize)) (content d' h)) = Some <$> bytes /\
    (forall h', gl_ready d h' -> gl_ready d' h' /\ (h' <> h -> content d' h' = content d h')).
Proof.
  intros (b & Hb & Hinv & Hown) Hnum Hts Hcap Hlen.
  destruct (gl_transfer_ok NDEBUG b d.2 num typeSize offset bytes Hinv Hnum Hts ltac:(lia) Hlen) as [(b' & g' & off & E & _ & Hmv)|Hfail];
    [|by apply reliable_chunk in Hfail; [|done..|lia|]].
  destruct Hmv as [Hi [Hid _] Ho Hsl _ _ _ Hot]. exists off, (<[h := b']> d.1, g'). split; [|split; [done|split]].
  - exact (transfer_on_buffer _ _ _ _ _ _ _ _ _ Hb E).
  - cbn. rewrite lookup_insert_eq, Hid. exact Hsl.
  - intros h' (c & Hc & Hci & Hco). destruct (decide (h' = h)) as [->|Hne].
    + split; [|done]. exists b'. cbn. rewrite lookup_insert_eq. split; [done|]. split; [done|].
      intros h2 b2 Hne2. rewrite lookup_insert_ne by done. rewrite Hid. by apply Hown.
    + destruct (Hot (m_bufferID c) (Hown h' c Hne Hc)) as [Es Em]. split.
      * exists c. cbn. rewrite lookup_insert_ne by done. split; [done|]. split.
        -- destruct Hci as (? & ? & ? & ? & ?). unfold gl_inv. by rewrite Es, Em.
        -- intros h2 b2 Hne2. destruct (decide (h2 = h)) as [->|Hne3].
           ++ rewrite lookup_insert_eq. intros [= <-]. rewrite Hid. by apply (Hco h b).
           ++ rewrite lookup_insert_ne by done. by apply Hco.
      * intros _. cbn. rewrite lookup_insert_ne by done. by rewrite Hc.
Qed.

#[global] Instance gl_device_laws : DeviceBufferLaws nat (device (G := G)) (H := gl_device NDEBUG) := {
  ready := gl_ready; capacity := 2 ^ 31 - 1; transfer_ok := device_transfer_ok }.
End device.

(** ** [shape_transfer] *)

Section shape_transfer.
Context {C B D : Type} `{!IDeviceBuffer B D, !DeviceBufferLaws B D} (vertex_bytes : MeshVertex C -> list Z).

Lemma length_bind_const {A E} (f : A -> list E) n l : (forall a, length (f a) = n) -> length (l ≫= f) = (length l * n)%nat.
Proof. intros Hf. induction l as [|a l IH]; [done|]. rewrite bind_cons, length_app, IH, Hf. cbn. lia. Qed.

(** C32. [shape_transfer], over any device buffers that keep the promises of
    their interface: a shape that is not empty arrives, its vertices in the
    one buffer and its indices in the other, at the offsets and with the counts
    of the part that is returned. *)
Theorem shape_transfer_ok (s : Shape C) vbuf ibuf d :
  (forall v, Z.of_nat (length (vertex_bytes v)) = sizeof_MeshVertex) ->
  sh_vertices s <> [] -> sh_indices s <> [] -> vbuf <> ibuf -> ready d vbuf -> ready d ibuf ->
  Z.of_nat (length (sh_vertices s)) * sizeof_MeshVertex <= capacity -> Z.of_nat (length (sh_indices s)) * 4 <= capacity ->
  capacity < 2 ^ 32 ->
  exists part d', shape_transfer vertex_bytes s vbuf ibuf d = Ok (part, d') /\
    vertexCount part = Z.of_nat (length (sh_vertices s)) /\ indexCount part = Z.of_nat (length (sh_indices s)) /\
    (let vs := sh_vertices s ≫= vertex_bytes in
     take (length vs) (drop (Z.to_nat (vertexOffset part * sizeof_MeshVertex)) (contents d' vbuf)) = Some <$> vs) /\
    (let is_ := sh_indices s ≫= u32_bytes in
     take (length is_) (drop (Z.to_nat (indexOffset part * 4)) (contents d' ibuf)) = Some <$> is_) /\
    ready d' vbuf /\ ready d' ibuf.
Proof.
  intros Hvb Hv Hi Hne Hrv Hri Hcv Hci Hcap. set (vs := sh_vertices s ≫= vertex_bytes). set (is_ := sh_indices s ≫= u32_bytes).
  assert (Z.of_nat (length vs) = Z.of_nat (length (sh_vertices s)) * sizeof_MeshVertex) as Hlv.
  { unfold vs. rewrite (length_bind_const _ (Z.to_nat sizeof_MeshVertex)); [unfold sizeof_MeshVertex; lia|].
    intros v. specialize (Hvb v). lia. }
  assert (Z.of_nat (length is_) = Z.of_nat (length (sh_indices s)) * 4) as Hli by (unfold is_; rewrite (length_bind_const _ 4); [lia|done]).
  destruct (sh_vertices s) as [|v0 vl] eqn:Ev; [done|]. destruct (sh_indices s) as [|i0 il] eqn:Ei; [done|].
  unfold sizeof_MeshVertex in *. cbn [length] in *.
  destruct (transfer_ok d vbuf (Z.of_nat (S (length vl))) (12 * 4) 0 vs Hrv) as (vo & d1 & E1 & Ho1 & Hs1 & Hk1); [lia..|].
  destruct (Hk1 vbuf Hrv) as [Hrv1 _]. destruct (Hk1 ibuf Hri) as [Hri1 _].
  destruct (transfer_ok d1 ibuf (Z.of_nat (S (length il))) 4 0 is_ Hri1) as (io & d2 & E2 & Ho2 & Hs2 & Hk2); [lia..|].
  destruct (Hk2 vbuf Hrv1) as [Hrv2 Hc2]. destruct (Hk2 ibuf Hri1) as [Hri2 _].
  exists (mkMeshPart vo io (Z.of_nat (S (length il))) (Z.of_nat (S (length vl)))), d2. cbn [vertexCount indexCount vertexOffset indexOffset].
  split; [|rewrite (Hc2 Hne); done].
  unfold shape_transfer, sizeof_MeshVertex. rewrite Ev, Ei. cbn [length]. rewrite !wrap_small by (unfold in_u; lia).
  fold vs is_. revert E1 E2. unfold transfer. cbv [mbind ST_bind]. cbn [head st_some mret ST_ret].
  destruct (buf_Map vbuf _ _ _ d) as [[[[p|] o] d3]|]; [|done..]. cbn [fst snd st_some mret ST_ret].
  destruct (buf_memcpy p vs d3) as [[[] d4]|]; [|done]. destruct (buf_UnMap vbuf d4) as [[[] d5]|]; [|done]. intros [= <- <-].
  destruct (buf_Map ibuf _ _ _ _) as [[[[q|] o'] d6]|]; [|done..]. cbn [fst snd st_some mret ST_ret].
  destruct (buf_memcpy q is_ d6) as [[[] d7]|]; [|done]. destruct (buf_UnMap ibuf d7) as [[[] d8]|]; [|done]. by intros [= <- <-].
Qed.
End shape_transfer.

(** ** An OpenGL for the witnesses: the stores and mappings as finite maps *)

Record sim : Type := mkSim { s_array : Z; s_element : Z; s_store : gmap Z (list (option Z)); s_map : gmap Z (Z * Z); s_next : Z }.

Definition sim_bound (g : sim) (t : target) : Z := match t with GL_ARRAY_BUFFER => s_array g | GL_ELEMENT_ARRAY_BUFFER => s_element g end.
Definition sim_store (g : sim) (b : Z) : list (option Z) := default [] (s_store g !! b).
Definition sim_put (b : Z) (l : list (option Z)) (m : option (Z * Z)) (g : sim) : sim :=
  mkSim (s_array g) (s_element g) (<[b := l]> (s_store g)) (partial_alter (fun _ => m) b (s_map g)) (s_next g).

#[global] Instance sim_gl : GL sim := {
  glGenBuffers g := let b := Z.abs (s_next g) + 1 in (b, sim_put b [] None (mkSim (s_array g) (s_element g) (s_store g) (s_map g) b));
  glDeleteBuffers b g := sim_put b [] None g;
  glBindBuffer t b g := match t with
    | GL_ARRAY_BUFFER => mkSim b (s_element g) (s_store g) (s_map g) (s_next g)
    | GL_ELEMENT_ARRAY_BUFFER => mkSim (s_array g) b (s_store g) (s_map g) (s_next g) end;
  glBufferData t n g := sim_put (sim_bound g t) (replicate (Z.to_nat n) None) None g;
  glMapBufferRange t off len a g :=
    let b := sim_bound g t in
    if (0 <=? off) && (0 <? len) && (off + len <=? Z.of_nat (length (sim_store g b)))
    then (Some b, sim_put b (after_map a (sim_store g b)) (Some (off, len)) g) else (None, g);
  glUnmapBuffer t g := (true, sim_put (sim_bound g t) (sim_store g (sim_bound g t)) None g);
  memcpy p bytes g := match s_map g !! p with
    | Some (off, len) => if Z.of_nat (length bytes) <=? len then Ok (sim_put p (overwrite (sim_store g p) (Z.to_nat off) bytes) (Some (off, len)) g)
                         else Err UB
    | None => Err UB end;
  bound := sim_bound;
  store := sim_store;
  mapping g b := (fun ol : Z * Z => (b, ol.1, ol.2)) <$> s_map g !! b;
  failures _ := 0
}.

#[global] Instance sim_reliable : GLReliable sim.
Proof. done. Qed.

Lemma sim_put_other b l m g : others_kept b g (sim_put b l m g).
Proof.
  split; [by intros []|]. intros b' Hne. cbn. unfold sim_store. cbn. by rewrite lookup_insert_ne, lookup_partial_alter_ne.
Qed.

Lemma sim_put_store b l m g : sim_store (sim_put b l m g) b = l.
Proof. unfold sim_store. cbn. by rewrite lookup_insert_eq. Qed.

#[global] Instance sim_laws : GLLaws sim.
Proof.
  split; cbn.
  - intros g. rewrite sim_put_store, lookup_partial_alter_eq. split; [lia|done].
  - intros g [] b; done.
  - done.
  - intros g t n Hn _. rewrite sim_put_store, lookup_partial_alter_eq. split; [done|]. split; [done|apply sim_put_other].
  - intros g t off len a _ _ Ho Hl Hb _. replace (0 <=? off) with true by lia. replace (0 <? len) with true by lia.
    replace (off + len <=? _) with true by lia. eexists _, _. split; [done|]. cbn.
    rewrite sim_put_store, lookup_partial_alter_eq. split; [done|]. split; [done|apply sim_put_other].
  - intros g b p off len bytes Hm Hl. destruct (s_map g !! b) as [[o n]|] eqn:E; [|done]. injection Hm as <- <- <-. rewrite E. cbn in Hl.
    replace (_ <=? n) with true by lia. eexists. split; [done|]. cbn. rewrite sim_put_store, lookup_partial_alter_eq.
    split; [done|]. split; [done|]. split; [apply sim_put_other|done].
  - intros g t _. rewrite sim_put_store, lookup_partial_alter_eq. split; [done|]. split; [done|]. split; [done|apply sim_put_other].
Qed.

Definition sim_empty : sim := mkSim 0 0 ∅ ∅ 0.

(** A buffer of eight bytes. *)
Definition demo_buffer : GLBuffer * sim :=
  match GLBuffer_make 8 VertexBuffer sim_empty with Ok (_, s) => s | Err _ => (mkGLBuffer 0 0 0 0 0 0 false true, sim_empty) end.

Lemma demo_buffer_ok : gl_inv demo_buffer.1 demo_buffer.2.
Proof. unfold gl_inv. split_and!; vm_compute; done. Qed.

Lemma GLBuffer_stream_witness :
  exists offs b' g', stream true 2 [(1, [1; 2]); (2, [3; 4; 5; 6])] demo_buffer = Ok (offs, (b', g')) /\ length offs = 2%nat.
Proof.
  destruct (GLBuffer_stream true 2 [(1, [1; 2]); (2, [3; 4; 5; 6])] demo_buffer.1 demo_buffer.2)
    as (k & offs & b' & g' & E & Hl & _ & _ & _ & _ & _ & _ & Hk);
    [lia|by exists 0|exact demo_buffer_ok|repeat constructor; cbn; lia|].
  rewrite (Hk sim_reliable) in E, Hl. exists offs, b', g'. split; [exact E|exact Hl].
Defined.

(** With elements of different sizes in one buffer [Map] does not keep what is
    there: [m_offset / typeSize] rounds down, and the second chunk overwrites
    the last byte of the first. *)
Theorem GLBuffer_mixed_sizes :
  exists s, (o1 ← gl_transfer false 1 3 0 [1; 2; 3]; o2 ← gl_transfer false 1 2 0 [8; 9]; mret (o1, o2)) demo_buffer = Ok ((0, 1), s) /\
    take 4 (store s.2 (m_bufferID s.1)) = [Some 1; Some 2; Some 8; Some 9].
Proof. eexists. split; [vm_compute; reflexivity|]. vm_compute. reflexivity. Qed.

(** Two buffers, and a quad to transfer. *)
Definition demo_device : device (G := sim) :=
  match GLBuffer_make 0 VertexBuffer sim_empty with
  | Ok (_, (v, g)) => match GLBuffer_make 0 IndexBuffer g with Ok (_, (i, g)) => ({[0%nat := v; 1%nat := i]}, g) | Err _ => (∅, g) end
  | Err _ => (∅, sim_empty)
  end.

Definition demo_shape : Shape unit :=
  let zero3 := (f32_of_Z 0, f32_of_Z 0, f32_of_Z 0) in
  let v := mkMV zero3 (f32_of_Z 0, f32_of_Z 0) zero3 None in
  mkShape [v; v; v; v] [0; 3; 2; 0; 2; 1] zero3 zero3 zero3 zero3.

Lemma demo_ready h : (h < 2)%nat -> gl_ready demo_device h.
Proof.
  intros Hh. assert (forall h' b', demo_device.1 !! h' = Some b' -> (h' = 0%nat /\ m_bufferID b' = 1) \/ (h' = 1%nat /\ m_bufferID b' = 2)) as Hall.
  { intros h' b'. replace demo_device.1 with
      (<[0%nat := mkGLBuffer 0 1 0 0 0 2 false true]> {[1%nat := mkGLBuffer 0 2 0 0 0 1 false true]} : gmap nat GLBuffer) by reflexivity.
    intros [[<- <-]|[_ [<- <-]%lookup_singleton_Some]]%lookup_insert_Some; auto. }
  assert (is_Some (demo_device.1 !! h)) as [b Hb].
  { destruct h as [|[|h]]; [..|lia]; vm_compute; by eexists. }
  exists b. split; [done|]. split.
  - destruct h as [|[|h]]; [..|lia]; vm_compute in Hb; injection Hb as <-; unfold gl_inv; split_and!; vm_compute; done.
  - intros h' b' Hne Hb'. destruct (Hall _ _ Hb) as [[-> ->]|[-> ->]], (Hall _ _ Hb') as [[-> ->]|[-> ->]]; done.
Qed.

Lemma shape_transfer_ok_witness :
  exists part d', shape_transfer (H := gl_device true) (fun _ => replicate 48 7) demo_shape 0%nat 1%nat demo_device = Ok (part, d') /\
    vertexCount part = 4 /\ indexCount part = 6.
Proof.
  destruct (shape_transfer_ok (IDeviceBuffer0 := gl_device true) (fun _ => replicate 48 7) demo_shape 0%nat 1%nat demo_device) as (part & d' & E & Hv & Hi & _);
    [done|done|done|done|by apply demo_ready; lia|by apply demo_ready; lia|vm_compute; done|vm_compute; done|vm_compute; done|].
  exists part, d'. split; [exact E|]. split; [exact Hv|exact Hi].
Defined.
