(* ===== verification/Paths.v ===== *)
(** * Paths and files

    src/file/file.cpp and src/file/runtree.cpp over what they use of
    [fs::path]. On Unix [fs] is the filesystem technical specification
    ([std::experimental::filesystem]), elsewhere [std::filesystem]; the two
    differ in the element after a trailing separator and in appending an
    absolute path, and [ts] tells which one is meant. The separator is the one
    of POSIX; what a path that begins with exactly two separators means is left
    to the implementation, and it is read here as if there were one.

    The disk is an environment: the class [FileSystem] states the calls the
    code makes of the filesystem library, of streams and of tinydir. *)

From S2P Require Import Prelude StdString StringUtils StringTheory.

(** ** [fs::path] *)

Definition dots : str := lit "..".
Definition slash : ascii := "/".

Definition is_absolute (p : str) : bool := match p with c :: _ => Ascii.eqb c slash | [] => false end.
Definition ends_slash (p : str) : bool := match last p with Some c => Ascii.eqb c slash | None => false end.
Definition has_filename (p : str) : bool := negb (bool_decide (p = [])) && negb (ends_slash p).

(** The names between separators. *)
Definition filenames (p : str) : list str := filter (fun f => f <> []) (fields slash [] p).

Section Paths.
Context (ts : bool).

(** The element for a trailing separator. *)
Definition trailing : str := if ts then lit "." else [].

(** What iteration from [begin()] to [end()] gives. *)
Definition elements_of (p : str) : list str :=
  (if is_absolute p then [[slash]] else []) ++ filenames p ++
  (if ends_slash p && negb (bool_decide (filenames p = [])) then [trailing] else []).

(** [p / q] *)
Definition append (p q : str) : str :=
  if ts then p ++ (if bool_decide (p = []) || ends_slash p || bool_decide (q = []) || is_absolute q then [] else [slash]) ++ q
  else if is_absolute q then q
  else if has_filename p then p ++ slash :: q
  else p ++ q.

(** ** [file_get_relative_path] *)

(** The first loop: past the elements the two have in common. *)
Fixpoint skip_common (from to : list str) : list str * list str :=
  match from, to with
  | f :: from', t :: to' => if decide (t = f) then skip_common from' to' else (from, to)
  | _, _ => (from, to)
  end.

Definition file_get_relative_path (from to : str) : str :=
  let '(fromIter, toIter) := skip_common (elements_of from) (elements_of to) in
  let finalPath := foldl (fun finalPath _ => append finalPath dots) [] fromIter in
  foldl append finalPath toIter.
End Paths.

(** ** The disk *)

(** A directory that is open: its path, and its entries that have not been
    read; an entry that cannot be read is [None]. *)
Record tinydir_dir : Type := mkDir { td_path : str; td_entries : list (option str) }.

Class FileSystem (S : Type) : Type := {
  fs_exists : str -> S -> bool;
  fs_absolute : str -> S -> result stop str;
  fs_canonical : str -> S -> result stop str;
  fs_is_directory : str -> S -> result stop bool;
  fs_temp_directory_path : S -> result stop str;
  fs_parent_path : str -> str;
  fs_create_directories : str -> S -> result stop S;
  fs_copy : str -> str -> S -> result stop S;
  ifstream_read : str -> S -> option str;
  ofstream_write : str -> str -> S -> option S;
  tinydir_open : str -> S -> option tinydir_dir
}.

(** [catch (fs::filesystem_error&)]: what was done before stays done. *)
Definition catch_fs {A} (sofar : A) (r : result stop A) : result stop A :=
  match r with Err (Throw filesystem_error) => Ok sofar | _ => r end.

Section files.
Context {S : Type} `{FileSystem S} (NDEBUG : bool) (ts : bool).

Definition file_read (fileName : str) (disk : S) : str := default [] (ifstream_read fileName disk).

(** Text is followed by a line feed. *)
Definition file_write (fileName text : str) (disk : S) : bool * S :=
  match ofstream_write fileName (text ++ ["010"%char]) disk with Some disk => (true, disk) | None => (false, disk) end.

Definition file_write_data (fileName data : str) (disk : S) : bool * S :=
  match ofstream_write fileName data disk with Some disk => (true, disk) | None => (false, disk) end.

(** ** [file_gather_files] *)

Record gather : Type := mkGather { g_ret : list str; g_checked : list (list str); g_dirs : list tinydir_dir }.

(** The test for [.] and [..]: a backslash and a dot, or two dots, anywhere. *)
Definition ignored (p : str) : bool :=
  negb (sfind p (lit "\.") 0 =? npos) || negb (sfind p dots 0 =? npos).

(** The set of paths compares them by their elements. *)
Definition checked (c : str) (st : gather) : bool := bool_decide (elements_of ts c ∈ g_checked st).
Definition add_checked (c : str) (st : gather) : gather := mkGather (g_ret st) (elements_of ts c :: g_checked st) (g_dirs st).
Definition push_dir (d : tinydir_dir) (st : gather) : gather := mkGather (g_ret st) (g_checked st) (g_dirs st ++ [d]).
Definition push_ret (c : str) (st : gather) : gather := mkGather (g_ret st ++ [c]) (g_checked st) (g_dirs st).

Definition gather_entry (disk : S) (e : option str) (st : gather) : result stop gather :=
  match e with
  | None => Ok st
  | Some filePath =>
      if ignored filePath then Ok st
      else catch_fs st (
        c ← fs_canonical filePath disk;
        if checked c st then Ok st
        else
          let st := add_checked c st in
          catch_fs st (
            dir ← fs_is_directory c disk;
            if (dir : bool) then
              match tinydir_open c disk with
              | Some subDir => _ ← fs_canonical (td_path subDir) disk; Ok (push_dir subDir st)
              | None => Ok st
              end
            else Ok (push_ret c st)))
  end.

Fixpoint gather_dir (disk : S) (es : list (option str)) (st : gather) : result stop gather :=
  match es with
  | [] => Ok st
  | e :: es => st ← gather_entry disk e st; gather_dir disk es st
  end.

Fixpoint gather_loop (fuel : nat) (disk : S) (st : gather) : result stop gather :=
  match g_dirs st with
  | [] => Ok st
  | thisDir :: dirs =>
      match fuel with
      | O => Err OutOfFuel
      | Datatypes.S fuel =>
          st ← gather_dir disk (td_entries thisDir) (mkGather (g_ret st) (g_checked st) dirs);
          gather_loop fuel disk st
      end
  end.

Definition file_gather_files (fuel : nat) (root : str) (disk : S) : result stop (list str) :=
  match tinydir_open root disk with
  | None => Ok []
  | Some dir => st ← gather_loop fuel disk (mkGather [] [] [dir]); Ok (g_ret st)
  end.

(** ** Settings

    Where neither Windows nor macOS is the platform, the folders assert that
    they are not implemented, and are empty. *)

Definition file_appdata_path : result stop str := if NDEBUG then Ok [] else Err AssertFail.
Definition file_documents_path : result stop str := if NDEBUG then Ok [] else Err AssertFail.

(** The first folder that is not empty. *)
Definition settings_root (disk : S) : result stop str :=
  p ← file_appdata_path;
  if bool_decide (p = []) then
    p ← file_documents_path;
    if bool_decide (p = []) then fs_temp_directory_path disk else Ok p
  else Ok p.

Definition file_init_settings (appName defaultSettings : str) (forceReset : bool) (disk : S) : result stop (str * S) :=
  settingsPath ← settings_root disk;
  let settingsPath := append ts (append ts (append ts settingsPath appName) (lit "settings")) (lit "settings.toml") in
  st ← (if fs_exists settingsPath disk then Ok (forceReset, disk)
        else disk ← fs_create_directories (fs_parent_path settingsPath) disk; Ok (true, disk));
  let '(forceReset, disk) := st in
  if (forceReset : bool) then
    if fs_exists defaultSettings disk then
      disk ← fs_copy defaultSettings (fs_parent_path settingsPath) disk; Ok (settingsPath, disk)
    else Ok (settingsPath, disk)
  else Ok (settingsPath, disk).

(** ** The run tree: [runtreePath] is the state. *)

Definition runtree_init (appRoot : str) (disk : S) : result stop str :=
  p ← fs_absolute (append ts appRoot (lit "run_tree")) disk; fs_canonical p disk.

Definition runtree_destroy : str := [].

Definition runtree_find_asset (runtreePath searchPath : str) (disk : S) : result stop str :=
  let found := append ts runtreePath searchPath in
  if fs_exists found disk then p ← fs_absolute found disk; fs_canonical p disk
  else Ok [].

Definition runtree_load_asset (runtreePath p : str) (disk : S) : result stop str :=
  path ← runtree_find_asset runtreePath p disk; Ok (file_read path disk).
End files.
