(* ===== verification/PathsTheory.v ===== *)
(** * Theorems on paths and files *)

From S2P Require Import Prelude StdString StringUtils StringTheory Paths.

(** ** Elements of paths *)

Lemma fields_app d cur p s : fields d cur (p ++ d :: s) = fields d cur p ++ fields d [] s.
Proof.
  revert cur. induction p as [|c p IH]; intros cur; cbn.
  - by rewrite Ascii.eqb_refl.
  - destruct (Ascii.eqb d c); [by rewrite IH|apply IH].
Qed.

Lemma fields_plain d cur s : d ∉ s -> fields d cur s = [cur ++ s].
Proof.
  revert cur. induction s as [|c s IH]; intros cur Hd; cbn; [by rewrite app_nil_r|].
  apply not_elem_of_cons in Hd as [Hc Hs]. replace (Ascii.eqb d c) with false by (symmetry; by apply Ascii.eqb_neq).
  rewrite IH by done. by rewrite <- app_assoc.
Qed.

Lemma filenames_app p q : filenames (p ++ slash :: q) = filenames p ++ filenames q.
Proof. unfold filenames. by rewrite fields_app, filter_app. Qed.

Lemma filenames_root q : filenames (slash :: q) = filenames q.
Proof. exact (filenames_app [] q). Qed.

(** A name: what an element is, other than the root. *)
Definition name (e : str) : Prop := e <> [] /\ slash ∉ e.

Lemma filenames_name e : name e -> filenames e = [e].
Proof. intros [Hn Hs]. unfold filenames. rewrite fields_plain by done. cbn. by rewrite decide_True. Qed.

Lemma fields_names d cur s : d ∉ cur -> Forall (fun f => d ∉ f) (fields d cur s).
Proof.
  revert cur. induction s as [|c s IH]; intros cur Hc; cbn; [by constructor|].
  destruct (Ascii.eqb d c) eqn:E; [constructor; [done|apply IH; set_solver]|].
  apply IH. apply Ascii.eqb_neq in E. set_solver.
Qed.

Lemma filenames_all p : Forall name (filenames p).
Proof.
  unfold filenames. pose proof (fields_names slash [] p ltac:(set_solver)) as Hf. rewrite Forall_forall in Hf. apply Forall_forall.
  intros f [Hf1 Hf2]%list_elem_of_filter. by split; [|apply Hf].
Qed.

Lemma name_relative e : name e -> is_absolute e = false /\ ends_slash e = false.
Proof.
  intros [Hn Hs]. split.
  - destruct e as [|c e]; [done|]. cbn. apply Ascii.eqb_neq. set_solver.
  - unfold ends_slash. destruct (last e) as [c|] eqn:E; [|done]. apply Ascii.eqb_neq. intros ->. apply last_Some_elem_of in E. done.
Qed.

(** A path without a trailing separator: the root, or one that ends in a name. *)
Definition proper (p : str) : Prop := p = [slash] \/ ends_slash p = false.

Section theory.
Context (ts : bool).

Lemma ends_slash_app p q : q <> [] -> ends_slash (p ++ q) = ends_slash q.
Proof. intros Hq. unfold ends_slash. rewrite last_app. by destruct (last q) eqn:E; [|apply last_None in E]. Qed.

Lemma proper_elements p : proper p -> elements_of ts p = (if is_absolute p then [[slash]] else []) ++ filenames p.
Proof. unfold elements_of. intros [->| ->]; [done|]. cbn. by rewrite app_nil_r. Qed.

Lemma append_proper p q : proper p -> q <> [] -> is_absolute q = false -> ends_slash q = false ->
  ends_slash (append ts p q) = false /\ (p <> [] -> is_absolute (append ts p q) = is_absolute p) /\
  elements_of ts (append ts p q) = elements_of ts p ++ filenames q.
Proof.
  intros Hp Hq Ha He. rewrite (proper_elements p Hp).
  assert (append ts p q = if bool_decide (p = []) then q else if ends_slash p then p ++ q else p ++ slash :: q) as E.
  { unfold append, has_filename. rewrite Ha, (bool_decide_eq_false_2 (q = [])) by done.
    destruct (bool_decide_reflect (p = [])) as [->|]; [by destruct ts|]. cbn. by destruct ts, (ends_slash p). }
  rewrite E. destruct (bool_decide_reflect (p = [])) as [->|Hne].
  { split; [done|]. split; [done|]. rewrite proper_elements by by right. by rewrite Ha. }
  assert (forall r, is_absolute (p ++ r) = is_absolute p) as Hroot by by destruct p.
  destruct Hp as [->|Hs].
  - assert (ends_slash (slash :: q) = false) as He2 by exact (eq_trans (ends_slash_app [slash] q Hq) He).
    change (ends_slash [slash]) with true. cbn iota. change ([slash] ++ q) with (slash :: q). split; [done|]. split; [done|].
    rewrite proper_elements by by right. by rewrite filenames_root.
  - rewrite Hs. assert (ends_slash (p ++ slash :: q) = false) as He2.
    { rewrite ends_slash_app by done. change (slash :: q) with ([slash] ++ q). by rewrite ends_slash_app. }
    split; [done|]. split; [by intros _|]. rewrite proper_elements by by right. rewrite Hroot, filenames_app. by rewrite app_assoc.
Qed.

(** Appending names one by one. *)
Lemma foldl_append_names es p : Forall name es -> proper p ->
  proper (foldl (append ts) p es) /\ elements_of ts (foldl (append ts) p es) = elements_of ts p ++ es /\
  ((p <> [] \/ is_absolute p = false) -> is_absolute (foldl (append ts) p es) = is_absolute p) /\
  (es <> [] -> ends_slash (foldl (append ts) p es) = false).
Proof.
  intros Hes. revert p. induction Hes as [|e es He _ IH]; intros p Hp; cbn [foldl].
  { split; [done|]. by rewrite app_nil_r. }
  destruct (name_relative e He) as [Ha Hs]. destruct He as [Hn Hsl].
  destruct (append_proper p e Hp Hn Ha Hs) as (He2 & Hroot & Hel). rewrite (filenames_name e) in Hel by done.
  destruct (IH (append ts p e)) as (H1 & H2 & H3 & H4); [by right|]. split; [done|]. split; [|split].
  - rewrite H2, Hel. by rewrite <- app_assoc.
  - assert (is_absolute (append ts p e) = is_absolute p) as Hr.
    { destruct (decide (p = [])) as [->|Hne]; [|by apply Hroot]. unfold append. rewrite Ha. by destruct ts. }
    intros Hor. rewrite H3; [done|]. destruct Hor as [Hne|Hrel]; [|right; by rewrite Hr].
    left. intros E0. assert (length (elements_of ts (append ts p e)) = 0%nat) as Hl by by rewrite E0. rewrite Hel, length_app in Hl. cbn in Hl. lia.
  - intros _. destruct es; [done|]. by apply H4.
Qed.

(** The elements after the common ones. *)
Lemma skip_common_spec from to from' to' : skip_common from to = (from', to') ->
  exists common, from = common ++ from' /\ to = common ++ to' /\
    (forall f t fs ts', from' = f :: fs -> to' = t :: ts' -> f <> t).
Proof.
  revert to from' to'. induction from as [|f from IH]; intros to from' to'; cbn.
  { intros [= <- <-]. exists []. by split_and!. }
  destruct to as [|t to]. { intros [= <- <-]. exists []. by split_and!. }
  case_decide as E.
  - intros (common & -> & -> & Hd)%IH. exists (f :: common). subst t. by split_and!.
  - intros [= <- <-]. exists []. split_and!; [done|done|]. congruence.
Qed.

Lemma foldl_dots (l : list str) p : foldl (fun p (_ : str) => append ts p dots) p l = foldl (append ts) p (replicate (length l) dots).
Proof. revert p. induction l as [|x l IH]; intros p; [done|]. cbn. apply IH. Qed.

(** The elements of a relative path: as many [..] as [from] has elements of its
    own, then the elements [to] has of its own. *)
Lemma relative_path_elements from to : proper from -> proper to -> is_absolute from = is_absolute to ->
  exists common from' to', elements_of ts from = common ++ from' /\ elements_of ts to = common ++ to' /\
    Forall name from' /\ Forall name to' /\ (from' = [] \/ to' = [] \/ head from' <> head to') /\
    let rel := file_get_relative_path ts from to in
    elements_of ts rel = replicate (length from') dots ++ to' /\ is_absolute rel = false /\ ends_slash rel = false.
Proof.
  intros Hf Ht Hroot. unfold file_get_relative_path.
  destruct (skip_common (elements_of ts from) (elements_of ts to)) as [from' to'] eqn:E.
  destruct (skip_common_spec _ _ _ _ E) as (common & Ef & Et & Hd). exists common, from', to'.
  assert (Forall name from' /\ Forall name to') as [Hnf Hnt].
  { rewrite proper_elements in Ef, Et by done. pose proof (filenames_all from) as H1. pose proof (filenames_all to) as H2.
    rewrite <- Hroot in Et. destruct (is_absolute from); cbn in Ef, Et.
    - destruct common as [|c common]; cbn in Ef, Et; [exfalso; by eapply Hd|].
      injection Ef as _ Ef. injection Et as _ Et. rewrite Ef in H1. rewrite Et in H2. by apply Forall_app in H1 as [_ ?], H2 as [_ ?].
    - rewrite Ef in H1. rewrite Et in H2. by apply Forall_app in H1 as [_ ?], H2 as [_ ?]. }
  assert (name dots) as Hdots by (split; [done|]; unfold dots, slash; set_solver).
  rewrite foldl_dots, <- foldl_app. split; [done|]. split; [done|]. split; [done|]. split; [done|]. split.
  { destruct from' as [|f fs]; [by left|]. destruct to' as [|t tos]; [by right; left|]. right; right. cbn. intros [= ->]. by eapply Hd. }
  destruct (foldl_append_names (replicate (length from') dots ++ to') []) as (H1 & H2 & H3 & H4).
  { apply Forall_app. split; [|done]. by apply Forall_replicate. }
  { by right. }
  cbn zeta. split; [exact H2|]. split; [by apply H3; right|].
  destruct (replicate (length from') dots ++ to') eqn:El; [done|]. by apply H4.
Qed.

(** ** Walking *)

(** One step from a place: to the parent, nowhere, or to a name in it. *)
Definition walk (place : list str) (e : str) : list str :=
  if decide (e = dots) then take (length place - 1) place
  else if decide (e = lit "." \/ e = []) then place
  else place ++ [e].

Definition no_dots (e : str) : Prop := e <> dots /\ e <> lit ".".

Lemma walk_names es place : Forall (fun e => e <> [] /\ no_dots e) es -> foldl walk place es = place ++ es.
Proof.
  intros Hes. revert place. induction Hes as [|e es (Hn & Hd1 & Hd2) _ IH]; intros place; cbn; [by rewrite app_nil_r|].
  unfold walk at 2. rewrite decide_False by done. rewrite decide_False by naive_solver. rewrite IH. by rewrite <- app_assoc.
Qed.

Lemma walk_up n place : foldl walk place (replicate n dots) = take (length place - n) place.
Proof.
  revert place. induction n as [|n IH]; intros place; cbn [replicate foldl]; [by rewrite Nat.sub_0_r, firstn_all|].
  unfold walk at 2. rewrite decide_True by done. rewrite IH, length_take, take_take. f_equal. lia.
Qed.

(** C36. [file_get_relative_path] does what it is for: for two paths of the same
    kind (both absolute or both relative), without [.] and [..] and without a
    separator at their end, the path it returns is relative, and following it
    from [from] leads to [to]: the elements of [from / result], each [..] taking
    back the element before it, are those of [to]. This holds with the
    filesystem library and with the technical specification. *)
Theorem relative_path_roundtrip from to :
  proper from -> proper to -> is_absolute from = is_absolute to ->
  Forall no_dots (elements_of ts from) -> Forall no_dots (elements_of ts to) ->
  let rel := file_get_relative_path ts from to in
  is_absolute rel = false /\ foldl walk [] (elements_of ts (append ts from rel)) = elements_of ts to.
Proof.
  intros Hf Ht Hroot Hnf Hnt rel.
  destruct (relative_path_elements from to Hf Ht Hroot) as (common & from' & to' & Ef & Et & Hf' & Ht' & _ & Er & Ha & He). fold rel in Er, Ha, He.
  split; [done|].
  assert (foldl walk [] (elements_of ts from ++ elements_of ts rel) = elements_of ts to) as Hgo.
  { rewrite foldl_app, (walk_names (elements_of ts from) []), Er, foldl_app, walk_up, Ef, Et.
    - cbn [app]. rewrite length_app, take_app_length' by lia. apply walk_names.
      rewrite Et in Hnt. apply Forall_app in Hnt as [_ Hnt]. rewrite Forall_forall in *. intros e He'. split; [by apply Ht'|by apply Hnt].
    - rewrite proper_elements in Hnf |- * by done. pose proof (filenames_all from) as Hn. rewrite Forall_forall in *.
      intros e He'. split; [|by apply Hnf]. intros ->. apply elem_of_app in He' as [He'|He']; [|by apply Hn in He' as [? _]].
      destruct (is_absolute from); set_solver. }
  destruct (decide (rel = [])) as [E0|Hne].
  - rewrite E0 in *. assert (elements_of ts [] = []) as E1 by done. rewrite E1, app_nil_r in Hgo. rewrite <- Hgo.
    unfold append. cbn. rewrite orb_true_r. cbn. destruct ts; [by rewrite app_nil_r|].
    unfold has_filename. destruct (bool_decide_reflect (from = [])) as [->|Hn0]; [done|]. destruct (ends_slash from) eqn:Es; cbn; [by rewrite app_nil_r|].
    unfold elements_of. rewrite filenames_app, app_nil_r. replace (is_absolute (from ++ [slash])) with (is_absolute from) by by destruct from.
    rewrite Es. cbn [andb]. rewrite app_nil_r. destruct (_ && _); [|by rewrite app_nil_r]. by rewrite app_assoc, foldl_app.
  - destruct (append_proper from rel Hf Hne Ha He) as (_ & _ & ->). rewrite <- Hgo. f_equal. f_equal.
    rewrite proper_elements by by right. by rewrite Ha.
Qed.
End theory.

Lemma relative_path_roundtrip_witness :
  foldl walk [] (elements_of true (append true (lit "/a/b/c") (file_get_relative_path true (lit "/a/b/c") (lit "/a/d"))))
  = elements_of true (lit "/a/d").
Proof.
  apply (relative_path_roundtrip true (lit "/a/b/c") (lit "/a/d")); [by right|by right|done|..];
    unfold no_dots; repeat constructor; done.
Defined.

(** A separator at the end of [from] counts as one more element to leave. *)
Theorem relative_path_trailing_separator ts :
  file_get_relative_path ts (lit "/a/b/") (lit "/a/b/c") = lit "../c".
Proof. by destruct ts. Qed.

(** ** Gathering files *)

(** A path with a backslash before a dot, or with two dots, somewhere. *)
Definition dotted (p : str) : Prop := has_text (lit "\.") p \/ has_text (lit "..") p.

Lemma ignored_dotted p : fits p -> ignored p = true <-> dotted p.
Proof.
  intros Hf. unfold ignored, dotted. rewrite orb_true_iff, !negb_true_iff, !Z.eqb_neq.
  by rewrite !(sfind_has_text _ p Hf).
Qed.

Section gather.
Context {S : Type} `{FileSystem S} (ts : bool) (disk : S).

(** The calls fail in no other way than with a [filesystem_error]. *)
Context (canonical_fails : forall p, fs_canonical p disk = Err (Throw filesystem_error) \/ exists c, fs_canonical p disk = Ok c)
  (is_directory_fails : forall p, fs_is_directory p disk = Err (Throw filesystem_error) \/ exists b, fs_is_directory p disk = Ok b).

(** A canonical path is the only one with its elements. *)
Context (canonical_unique : forall p q c d, fs_canonical p disk = Ok c -> fs_canonical q disk = Ok d ->
  elements_of ts c = elements_of ts d -> c = d).

(** The disk has finitely many directories. *)
Context (all_dirs : list (list str))
  (finite_dirs : forall p c, fs_canonical p disk = Ok c -> fs_is_directory c disk = Ok true -> elements_of ts c ∈ all_dirs).

(** A path that can be resolved is shorter than [std::string::npos]. *)
Context (paths_fit : forall p c, fs_canonical p disk = Ok c -> fits p).

(** An entry that is followed, to the canonical path [c]. *)
Definition entry_to (d : tinydir_dir) (c : str) : Prop :=
  exists p, Some p ∈ td_entries d /\ ~ dotted p /\ fs_canonical p disk = Ok c.

(** A directory that can be walked from the path [c]. *)
Definition walkable (c : str) (d : tinydir_dir) : Prop :=
  fs_is_directory c disk = Ok true /\ tinydir_open c disk = Some d /\ exists c', fs_canonical (td_path d) disk = Ok c'.

Inductive visited (root : tinydir_dir) : tinydir_dir -> Prop :=
| visited_root : visited root root
| visited_sub d c d' : visited root d -> entry_to d c -> walkable c d' -> visited root d'.

(** The files below a directory: entries of directories that are visited. *)
Definition file_below (root : tinydir_dir) (c : str) : Prop :=
  exists d, visited root d /\ entry_to d c /\ fs_is_directory c disk = Ok false.

(** The walk, when [seen] directories have been taken from the queue and those
    in [done] have been read to the end. *)
Record gather_inv (root : tinydir_dir) (seen done : list tinydir_dir) (st : gather) : Prop := {
  gi_root : root ∈ seen ++ g_dirs st;
  gi_visited : Forall (visited root) (seen ++ g_dirs st);
  gi_sound : Forall (file_below root) (g_ret st);
  gi_ret : NoDup (elements_of ts <$> g_ret st) /\ Forall (fun c => elements_of ts c ∈ g_checked st) (g_ret st);
  gi_file p c : fs_canonical p disk = Ok c -> elements_of ts c ∈ g_checked st -> fs_is_directory c disk = Ok false -> c ∈ g_ret st;
  gi_dir p c d : fs_canonical p disk = Ok c -> elements_of ts c ∈ g_checked st -> walkable c d -> d ∈ seen ++ g_dirs st;
  gi_done d c : d ∈ done -> entry_to d c -> elements_of ts c ∈ g_checked st
}.

(** What is left to do: directories in the queue, or not met yet. *)
Definition todo (st : gather) : nat :=
  (length (g_dirs st) + length (filter (fun k => k ∉ g_checked st) all_dirs))%nat.

(** A path [c] that had not been checked, and how the state has changed. *)
Lemma todo_check c st : (length (filter (fun k => k ∉ elements_of ts c :: g_checked st) all_dirs)
    <= length (filter (fun k => k ∉ g_checked st) all_dirs))%nat /\
  (elements_of ts c ∈ all_dirs -> elements_of ts c ∉ g_checked st ->
   length (filter (fun k => k ∉ elements_of ts c :: g_checked st) all_dirs)
    < length (filter (fun k => k ∉ g_checked st) all_dirs))%nat.
Proof.
  generalize (elements_of ts c) as x, (g_checked st) as ck. intros x ck. generalize all_dirs as l. clear.
  induction l as [|k l [IH1 IH2]]; [split; [done|by intros ?%not_elem_of_nil]|]. rewrite !filter_cons.
  destruct (decide (k ∉ x :: ck)) as [H1|H1], (decide (k ∉ ck)) as [H2|H2]; cbn [length].
  - split; [lia|]. intros [->|Hin]%elem_of_cons Hn; [by destruct H1; left|]. specialize (IH2 Hin Hn). lia.
  - destruct H2. intros ?. apply H1. by right.
  - split; [lia|]. intros _ _. lia.
  - split; [lia|]. intros [->|Hin]%elem_of_cons Hn; [done|]. by apply IH2.
Qed.

(** What is new when the path [c] has been checked: the file, or the directory. *)
Record news (c : str) (rets : list str) (ds : list tinydir_dir) : Prop := {
  nw_file : (fs_is_directory c disk = Ok false /\ rets = [c]) \/ (fs_is_directory c disk <> Ok false /\ rets = []);
  nw_dirs d : walkable c d <-> d ∈ ds;
  nw_one : (length ds <= 1)%nat;
  nw_is_dir : ds <> [] -> fs_is_directory c disk = Ok true
}.

Lemma inv_checked root seen done st p c rets ds :
  gather_inv root seen done st -> (exists d, visited root d /\ entry_to d c) -> fs_canonical p disk = Ok c ->
  elements_of ts c ∉ g_checked st -> news c rets ds ->
  let st' := mkGather (g_ret st ++ rets) (elements_of ts c :: g_checked st) (g_dirs st ++ ds) in
  gather_inv root seen done st' /\ (todo st' <= todo st)%nat.
Proof.
  intros [Hrt Hv Hs [Hnd Hrc] Hfile Hdir Hdone] (d0 & Hv0 & He0) Hp Hnew [Hrets Hds Hone Hisd] st'.
  assert (forall q c', fs_canonical q disk = Ok c' -> elements_of ts c' ∈ elements_of ts c :: g_checked st ->
    c' = c \/ elements_of ts c' ∈ g_checked st) as Hcase.
  { intros q c' Hq [E|?]%elem_of_cons; [left|by right]. by eapply canonical_unique. }
  split; [split|]; cbn.
  - rewrite app_assoc. by apply elem_of_app; left.
  - rewrite app_assoc, Forall_app. split; [done|]. apply Forall_forall. intros d Hd. eapply visited_sub; [done..|]. by apply Hds.
  - apply Forall_app. split; [done|]. destruct Hrets as [[Hf ->]|[_ ->]]; [|done]. constructor; [by exists d0|done].
  - rewrite fmap_app, Forall_app, NoDup_app. split; split.
    + done.
    + destruct Hrets as [[_ ->]|[_ ->]]; (split; [|try apply NoDup_singleton; try apply NoDup_nil_2]); [|set_solver].
      intros k (x & -> & Hx)%list_elem_of_fmap Hk%list_elem_of_singleton. rewrite Forall_forall in Hrc. apply Hnew. rewrite <- Hk. by apply Hrc.
    + eapply Forall_impl; [exact Hrc|]. intros x Hx. by apply elem_of_cons; right.
    + destruct Hrets as [[_ ->]|[_ ->]]; [|done]. constructor; [by apply elem_of_cons; left|done].
  - intros q x Hq Hx Hxf. apply elem_of_app. destruct (Hcase q x Hq Hx) as [->|Hx']; [right|left; by eapply Hfile].
    destruct Hrets as [[_ ->]|[? _]]; [by apply list_elem_of_singleton|done].
  - intros q x d Hq Hx Hw. rewrite app_assoc. apply elem_of_app.
    destruct (Hcase q x Hq Hx) as [->|Hx']; [right; by apply Hds|left; by eapply Hdir].
  - intros d x Hd He. apply elem_of_cons; right. by eapply Hdone.
  - unfold todo. cbn. rewrite length_app. destruct (todo_check c st) as [Ht1 Ht2]. destruct ds as [|d ds]; [cbn; lia|].
    specialize (Ht2 (finite_dirs _ _ Hp (Hisd ltac:(done))) Hnew). cbn in Hone |- *. lia.
Qed.

(** One entry. *)
Lemma gather_entry_ok root seen done st cur e :
  gather_inv root seen done st -> visited root cur -> e ∈ td_entries cur ->
  exists st', gather_entry ts disk e st = Ok st' /\ gather_inv root seen done st' /\ (todo st' <= todo st)%nat /\
    (forall k, k ∈ g_checked st -> k ∈ g_checked st') /\
    (forall p c, e = Some p -> ignored p = false -> fs_canonical p disk = Ok c -> elements_of ts c ∈ g_checked st').
Proof.
  intros Hinv Hcur He. destruct e as [p|]; [|exists st; by split_and!]. cbn.
  destruct (ignored p) eqn:Ei; [exists st; split_and!; try done; by intros ? ? [= ->]; rewrite Ei|].
  destruct (canonical_fails p) as [Hc|[c Hc]]. { rewrite Hc. exists st. split_and!; [done|done|done|done|]. intros p0 c0 [= <-]. congruence. }
  rewrite Hc. cbn. unfold checked. case_bool_decide as Hk.
  { exists st. split_and!; try done. intros ? c' [= <-] _. rewrite Hc. by intros [= <-]. }
  assert (forall rets ds, news c rets ds -> let st' := mkGather (g_ret st ++ rets) (elements_of ts c :: g_checked st) (g_dirs st ++ ds) in
    gather_inv root seen done st' /\ (todo st' <= todo st)%nat /\ (forall k, k ∈ g_checked st -> k ∈ g_checked st') /\
    (forall p0 c0, Some p = Some p0 -> ignored p0 = false -> fs_canonical p0 disk = Ok c0 -> elements_of ts c0 ∈ g_checked st')) as Hgo.
  { intros rets ds Hn. destruct (inv_checked root seen done st p c rets ds Hinv) as [H1 H2]; [|done..|].
    - exists cur. split; [done|]. exists p. split_and!; [done| |done]. rewrite <- ignored_dotted by by eapply paths_fit. by rewrite Ei.
    - split_and!; [done|done|cbn; set_solver|]. intros ? c0 [= <-] _. rewrite Hc. intros [= <-]. by apply elem_of_cons; left. }
  destruct (is_directory_fails c) as [Hd|[[] Hd]]; rewrite Hd; cbn.
  - exists (add_checked ts c st). split; [done|]. specialize (Hgo [] []). rewrite !app_nil_r in Hgo. apply Hgo.
    split; [right; by rewrite Hd|split; [intros (Hd' & _); congruence|set_solver]|cbn; lia|done].
  - destruct (tinydir_open c disk) as [d|] eqn:Eo.
    + destruct (canonical_fails (td_path d)) as [Hcp|[c' Hcp]]; rewrite Hcp; cbn.
      * exists (add_checked ts c st). split; [done|]. specialize (Hgo [] []). rewrite !app_nil_r in Hgo. apply Hgo.
        split; [right; by rewrite Hd|split; [|set_solver]|cbn; lia|done]. intros (_ & E & c' & Hc'). rewrite Eo in E. injection E as <-. congruence.
      * exists (push_dir d (add_checked ts c st)). split; [done|]. specialize (Hgo [] [d]). rewrite app_nil_r in Hgo. apply Hgo.
        split; [right; by rewrite Hd| |cbn; lia|done]. intros d'. rewrite list_elem_of_singleton. split.
        -- intros (_ & E & _). congruence.
        -- intros ->. split; [done|]. split; [done|]. by exists c'.
    + exists (add_checked ts c st). split; [done|]. specialize (Hgo [] []). rewrite !app_nil_r in Hgo. apply Hgo.
      split; [right; by rewrite Hd|split; [|set_solver]|cbn; lia|done]. intros (_ & E & _). congruence.
  - exists (push_ret c (add_checked ts c st)). split; [done|]. specialize (Hgo [c] []). rewrite app_nil_r in Hgo. apply Hgo.
    split; [by left|split; [intros (Hd' & _); congruence|set_solver]|cbn; lia|done].
Qed.

(** One directory: its entries [es] from some place on. *)
Lemma gather_dir_ok root seen done st cur es :
  gather_inv root seen done st -> visited root cur -> (forall e, e ∈ es -> e ∈ td_entries cur) ->
  exists st', gather_dir ts disk es st = Ok st' /\ gather_inv root seen done st' /\ (todo st' <= todo st)%nat /\
    (forall k, k ∈ g_checked st -> k ∈ g_checked st') /\
    (forall p c, Some p ∈ es -> ignored p = false -> fs_canonical p disk = Ok c -> elements_of ts c ∈ g_checked st').
Proof.
  revert st. induction es as [|e es IH]; intros st Hinv Hcur Hes; cbn; [exists st; split_and!; try done; set_solver|].
  destruct (gather_entry_ok root seen done st cur e Hinv Hcur (Hes e ltac:(by left))) as (st1 & -> & Hi1 & Ht1 & Hm1 & He1). cbn.
  destruct (IH st1 Hi1 Hcur) as (st2 & -> & Hi2 & Ht2 & Hm2 & He2); [set_solver|]. exists st2. split_and!; try done; [lia|auto|].
  intros p c [<-|Hin]%elem_of_cons Hig Hc; [by eapply Hm2, He1|by eapply He2].
Qed.

Lemma gather_loop_ok root fuel : forall seen st, gather_inv root seen seen st -> (todo st <= fuel)%nat ->
  exists st' seen', gather_loop ts fuel disk st = Ok st' /\ g_dirs st' = [] /\ gather_inv root seen' seen' st'.
Proof.
  induction fuel as [|fuel IH]; intros seen st Hinv Ht; cbn; destruct (g_dirs st) as [|cur dirs] eqn:Ed.
  - exists st, seen. by split_and!.
  - unfold todo in Ht. rewrite Ed in Ht. cbn in Ht. lia.
  - exists st, seen. by split_and!.
  - set (st1 := mkGather (g_ret st) (g_checked st) dirs).
    assert (seen ++ g_dirs st = (seen ++ [cur]) ++ dirs) as Ea by (rewrite Ed, <- app_assoc; done).
    assert (gather_inv root (seen ++ [cur]) seen st1) as Hi1.
    { destruct Hinv as [Hrt Hv Hs Hr Hf Hd Hdn]. rewrite Ea in Hrt, Hv, Hd. split; done. }
    assert (visited root cur) as Hcur.
    { pose proof (gi_visited _ _ _ _ Hi1) as Hv. rewrite Forall_forall in Hv. apply Hv. apply elem_of_app; left. apply elem_of_app; right. by left. }
    destruct (gather_dir_ok root (seen ++ [cur]) seen st1 cur (td_entries cur) Hi1 Hcur ltac:(done)) as (st2 & -> & Hi2 & Ht2 & Hm2 & He2). cbn.
    destruct (IH (seen ++ [cur]) st2) as (st3 & seen' & E3 & Hd3 & Hi3).
    + destruct Hi2 as [Hrt Hv Hs Hr Hf Hd Hdn]. split; try done. intros d c [Hin|Hin%list_elem_of_singleton]%elem_of_app; [by apply Hdn|subst d].
      intros (p & Hp1 & Hp2 & Hp3). eapply He2; [done| |done]. rewrite <- (ignored_dotted p) in Hp2 by by eapply paths_fit.
      by destruct (ignored p).
    + unfold todo in Ht, Ht2 |- *. rewrite Ed in Ht. cbn in Ht, Ht2. lia.
    + by exists st3, seen'.
Qed.

(** C35. [file_gather_files] ends on every disk with finitely many directories,
    links that lead back to a parent included, and returns, in canonical form
    and each of them once, exactly the files that can be reached from its root
    through entries whose paths have neither two dots nor a backslash and a dot
    in them, wherever in the path. (That leaves out [..], and every file when
    the path of the root itself has two dots in it.) An entry that cannot be
    read or resolved leads nowhere. *)
Theorem gather_files_correct root dir fuel :
  tinydir_open root disk = Some dir -> (length all_dirs < fuel)%nat ->
  exists ret, file_gather_files ts fuel root disk = Ok ret /\ NoDup (elements_of ts <$> ret) /\
    forall c, c ∈ ret <-> file_below dir c.
Proof.
  intros Ho Hfuel. unfold file_gather_files. rewrite Ho.
  assert (gather_inv dir [] [] (mkGather [] [] [dir])) as Hinit.
  { split; cbn; try done.
    - by left.
    - constructor; [constructor|done].
    - split; constructor.
    - by intros p c _ ?%not_elem_of_nil.
    - by intros p c d _ ?%not_elem_of_nil.
    - by intros d c ?%not_elem_of_nil. }
  destruct (gather_loop_ok dir fuel [] _ Hinit) as (st & seen & E & Hd & Hi).
  { unfold todo. cbn. pose proof (length_filter (fun k => k ∉ []) all_dirs). lia. }
  rewrite E. cbn. exists (g_ret st). destruct Hi as [Hrt Hv Hsound [Hnd _] Hf Hdir Hdone]. rewrite Hd, app_nil_r in Hdir, Hrt. split; [done|]. split; [done|].
  intros c. split; [intros Hc; rewrite Forall_forall in Hsound; by apply Hsound|].
  assert (forall d, visited dir d -> d ∈ seen) as Hall.
  { intros d Hvd. induction Hvd as [|d c' d' _ IH He Hw]; [done|].
    pose proof He as (p & _ & _ & Hp). by eapply (Hdir p c' d' Hp), Hw; eapply Hdone. }
  intros (d & Hvd & He & Hc). pose proof He as (p & _ & _ & Hp). eapply (Hf p c Hp); [|done]. by eapply Hdone; [apply Hall|].
Qed.
End gather.

(** A root with [..] in its path has no files: the paths of its entries, which
    begin with that of the root, are all ignored. *)
Theorem gather_files_dots_in_root {S} `{FileSystem S} ts (disk : S) a b entries fuel :
  let root := a ++ dots ++ b in
  tinydir_open root disk = Some (mkDir root entries) ->
  Forall (fun e => forall p, e = Some p -> exists rest, p = root ++ rest /\ fits p) entries ->
  file_gather_files ts (Datatypes.S fuel) root disk = Ok [].
Proof.
  intros root Ho He. unfold file_gather_files. rewrite Ho. cbn. replace (gather_dir ts disk entries _) with (@Ok stop _ (mkGather [] [] [])).
  { cbn. by destruct fuel. }
  clear Ho. induction He as [|e es He _ IH]; [done|]. cbn. replace (gather_entry ts disk e _) with (@Ok stop _ (mkGather [] [] [])); [done|].
  destruct e as [p|]; [|done]. destruct (He p eq_refl) as (rest & -> & Hf). cbn. unfold root in *.
  rewrite <- !app_assoc in Hf |- *. replace (ignored _) with true; [done|].
  symmetry. apply ignored_dotted; [done|]. right. by exists a, (b ++ rest).
Qed.

(** ** A disk for the witness: a directory in a directory, and a link back. *)

Definition demo_canonical : list (str * str) :=
  [ (lit "/r/.", lit "/r"); (lit "/r/a.c", lit "/r/a.c"); (lit "/r/s", lit "/r/s"); (lit "/r", lit "/r");
    (lit "/r/s/.", lit "/r/s"); (lit "/r/s/b", lit "/r/s/b"); (lit "/r/s/up", lit "/r") ].
Definition demo_dirs : list tinydir_dir :=
  [ mkDir (lit "/r") [Some (lit "/r/."); Some (lit "/r/.."); Some (lit "/r/a.c"); Some (lit "/r/s")];
    mkDir (lit "/r/s") [Some (lit "/r/s/."); Some (lit "/r/s/.."); None; Some (lit "/r/s/up"); Some (lit "/r/s/b")] ].

Definition demo_fs : FileSystem unit := {|
  fs_exists _ _ := true; fs_absolute p _ := Ok p;
  fs_canonical p _ := match list_find (fun q => q.1 = p) demo_canonical with Some (_, q) => Ok q.2 | None => Err (Throw filesystem_error) end;
  fs_is_directory p _ := if decide (p ∈ [lit "/r"; lit "/r/s"]) then Ok true else if decide (p ∈ [lit "/r/a.c"; lit "/r/s/b"]) then Ok false
                         else Err (Throw filesystem_error);
  fs_temp_directory_path _ := Ok (lit "/tmp"); fs_parent_path p := p; fs_create_directories _ _ := Ok tt; fs_copy _ _ _ := Ok tt;
  ifstream_read _ _ := None; ofstream_write _ _ _ := None;
  tinydir_open p _ := snd <$> list_find (fun d => td_path d = p) demo_dirs |}.

Lemma demo_canonical_in p c : fs_canonical (FileSystem := demo_fs) p tt = Ok c -> c ∈ [lit "/r"; lit "/r/a.c"; lit "/r/s"; lit "/r/s/b"].
Proof.
  unfold fs_canonical, demo_fs. destruct (list_find _ _) as [[i q]|] eqn:E; [|done]. intros [= <-].
  apply list_find_Some in E as [Hq _]. apply list_elem_of_lookup_2 in Hq.
  assert (Forall (fun q => q.2 ∈ [lit "/r"; lit "/r/a.c"; lit "/r/s"; lit "/r/s/b"]) demo_canonical) as Hall.
  { apply (bool_decide_unpack _). vm_compute. exact I. }
  rewrite Forall_forall in Hall. by apply Hall.
Qed.

Lemma demo_canonical_fits p c : fs_canonical (FileSystem := demo_fs) p tt = Ok c -> fits p.
Proof.
  unfold fs_canonical, demo_fs. destruct (list_find _ _) as [[i q]|] eqn:E; [|done]. intros _.
  apply list_find_Some in E as (Hq & <- & _). apply list_elem_of_lookup_2 in Hq.
  assert (Forall (fun q => length q.1 <= 10)%nat demo_canonical) as Hall.
  { apply (bool_decide_unpack _). vm_compute. exact I. }
  rewrite Forall_forall in Hall. specialize (Hall q Hq). unfold fits, ssize, npos. lia.
Qed.

Lemma gather_files_correct_witness :
  exists ret, file_gather_files (H := demo_fs) true 3 (lit "/r") tt = Ok ret /\ NoDup (elements_of true <$> ret) /\
    forall c, c ∈ ret <-> file_below (H := demo_fs) tt (mkDir (lit "/r") [Some (lit "/r/."); Some (lit "/r/.."); Some (lit "/r/a.c"); Some (lit "/r/s")]) c.
Proof.
  apply (gather_files_correct (H := demo_fs) true tt) with (all_dirs := [[lit "/"; lit "r"]; [lit "/"; lit "r"; lit "s"]]).
  - intros p. unfold fs_canonical, demo_fs. destruct (list_find _ _) as [[i q]|]; eauto.
  - intros p. unfold fs_is_directory, demo_fs. repeat case_decide; eauto.
  - intros p q c d Hc%demo_canonical_in Hd%demo_canonical_in E. repeat apply elem_of_cons in Hc as [->|Hc]; try by apply not_elem_of_nil in Hc.
    all: repeat apply elem_of_cons in Hd as [->|Hd]; try by apply not_elem_of_nil in Hd.
    all: try done; vm_compute in E; discriminate.
  - intros p c _. unfold fs_is_directory, demo_fs. case_decide as Hd; [|by case_decide]. intros _.
    repeat apply elem_of_cons in Hd as [->|Hd]; try by apply not_elem_of_nil in Hd.
    all: vm_compute; repeat constructor.
  - exact demo_canonical_fits.
  - vm_compute. reflexivity.
  - cbn. lia.
Defined.
