(* ===== verification/UIManager.v ===== *)
(** * Messages of the user interface

    src/ui/ui_manager.cpp and include/mutils/ui/ui_manager.h: [UIMessage] and
    [UIManager]. The message boxes are calls of a library and are recorded. *)

From S2P Require Import Prelude StdString StringTheory Paths.

(** ** Data *)

(** [MessageType] *)
Definition Info : Z := 1 .<< 0.
Definition Warning : Z := 1 .<< 1.
Definition Error : Z := 1 .<< 2.
Definition Task : Z := 1 .<< 3.
Definition System : Z := 1 .<< 4.

Record ColumnRange : Type := mkRange { start : Z; end_ : Z }.

Definition ColumnRange_ltb (lhs rhs : ColumnRange) : bool :=
  if start lhs =? start rhs then end_ lhs <? end_ rhs else start lhs <? start rhs.

Record UIMessage : Type := mkUIMessage {
  m_type : Z; m_message : str; m_file : str; m_line : Z; m_columnRange : ColumnRange; m_id : Z
}.

(** Which set of boxes was opened, with which text. *)
Inductive box : Type := ErrorBox (s : str) | WarningBox (s : str) | InfoBox (s : str).

Section UIManager.
Context (ts : bool).

(** Paths are compared by their elements. *)
Abbreviation key := (list str).
Definition key_of (p : str) : key := elements_of ts p.

Definition UIMessage_ltb (lhs rhs : UIMessage) : bool :=
  if decide (key_of (m_file lhs) = key_of (m_file rhs)) then
    if negb (m_line lhs =? -1) && negb (m_line rhs =? -1) then
      if m_line lhs =? m_line rhs then ColumnRange_ltb (m_columnRange lhs) (m_columnRange rhs)
      else m_line lhs <? m_line rhs
    else m_id lhs <? m_id rhs
  else m_id lhs <? m_id rhs.

(** The manager, with [UIMessage::CurrentID] and the boxes opened so far. *)
Record UIManager : Type := mkUI {
  CurrentID : Z;
  m_taskMessages : gmap Z UIMessage;
  m_fileMessages : gmap key (list Z);
  boxes : list box
}.

Definition UIManager_make : UIManager := mkUI 1 ∅ ∅ [].

Definition flag (type f : Z) : bool := negb (type .& f =? 0).

(** [m_fileMessages[path]]: an entry is made if there is none. *)
Definition file_slot (path : str) (s : UIManager) : list Z * UIManager :=
  let ids := default [] (m_fileMessages s !! key_of path) in
  (ids, mkUI (CurrentID s) (m_taskMessages s) (<[key_of path := ids]> (m_fileMessages s)) (boxes s)).

Definition set_slot (path : str) (ids : list Z) (s : UIManager) : UIManager :=
  mkUI (CurrentID s) (m_taskMessages s) (<[key_of path := ids]> (m_fileMessages s)) (boxes s).

Definition open_box (type : Z) (message : str) (s : UIManager) : UIManager :=
  let add b := mkUI (CurrentID s) (m_taskMessages s) (m_fileMessages s) (boxes s ++ [b]) in
  if flag type Error then add (ErrorBox message)
  else if flag type Warning then add (WarningBox message)
  else if flag type Info then add (InfoBox message)
  else s.

Definition AddMessage (type : Z) (message file : str) (line : Z) (column : ColumnRange) (s : UIManager) : Z * UIManager :=
  let id := CurrentID s in
  let spMessage := mkUIMessage type message file line column id in
  let s := mkUI (u64 (CurrentID s + 1)) (m_taskMessages s) (m_fileMessages s) (boxes s) in
  let has_file := negb (bool_decide (file = [])) in
  let s := if flag type Task || has_file
           then mkUI (CurrentID s) (<[id := spMessage]> (m_taskMessages s)) (m_fileMessages s) (boxes s) else s in
  let s := if has_file then let '(ids, s) := file_slot file s in set_slot file (ids ++ [id]) s else s in
  let s := if flag type System then open_box type message s else s in
  (id, s).

Definition RemoveMessage (id : Z) (s : UIManager) : UIManager :=
  match m_taskMessages s !! id with
  | Some m =>
      if bool_decide (m_file m = []) then s
      else mkUI (CurrentID s) (m_taskMessages s) (delete (key_of (m_file m)) (m_fileMessages s)) (boxes s)
  | None => s
  end.

Fixpoint ClearFileMessages (fuel : nat) (path : str) (s : UIManager) : result stop UIManager :=
  match fuel with
  | O => Err OutOfFuel
  | S fuel =>
      let '(ids, s) := file_slot path s in
      match ids with
      | [] => Ok s
      | id :: _ => ClearFileMessages fuel path (RemoveMessage id s)
      end
  end.

(** ** Any sequence of calls *)

Inductive ui_call : Type :=
| CallAdd (type : Z) (message file : str) (line : Z) (column : ColumnRange)
| CallRemove (id : Z)
| CallClear (path : str).

(** A call that returns; the fuel of [ClearFileMessages] is any. *)
Definition ui_run (fuel : nat) (c : ui_call) (s : UIManager) : result stop UIManager :=
  match c with
  | CallAdd type message file line column => Ok (AddMessage type message file line column s).2
  | CallRemove id => Ok (RemoveMessage id s)
  | CallClear path => ClearFileMessages fuel path s
  end.

Fixpoint ui_runs (fuel : nat) (cs : list ui_call) (s : UIManager) : result stop UIManager :=
  match cs with
  | [] => Ok s
  | c :: cs => s ← ui_run fuel c s; ui_runs fuel cs s
  end.

(** ** The invariant *)

(** Every message of a file is a task message of that file, kept under its id;
    ids that were not given out are not in use. *)
Record ui_inv (s : UIManager) : Prop := {
  ui_files k ids i : m_fileMessages s !! k = Some ids -> i ∈ ids ->
    exists m, m_taskMessages s !! i = Some m /\ m_file m <> [] /\ key_of (m_file m) = k;
  ui_fresh i m : m_taskMessages s !! i = Some m -> m_id m = i /\ 1 <= i < CurrentID s;
  ui_id : 1 <= CurrentID s
}.

(** The ids of the messages of a file. *)
Definition messages_of (s : UIManager) (k : key) : list Z := default [] (m_fileMessages s !! k).

Lemma slot_inv path s : ui_inv s -> ui_inv (file_slot path s).2.
Proof.
  intros [Hf Hr Hi]. split; cbn; [|done|done]. intros k ids i [[<- <-]|[_ Hk]]%lookup_insert_Some Hin; [|by eapply Hf].
  destruct (m_fileMessages s !! key_of path) as [ids'|] eqn:E; [by eapply Hf|by apply not_elem_of_nil in Hin].
Qed.

Lemma slot_messages path s k : messages_of (file_slot path s).2 k = messages_of s k.
Proof.
  unfold messages_of. cbn. destruct (decide (k = key_of path)) as [->|Hne]; [by rewrite lookup_insert_eq|by rewrite lookup_insert_ne].
Qed.

Lemma add_inv type message file line column s : ui_inv s -> CurrentID s < 2 ^ 64 - 1 ->
  ui_inv (AddMessage type message file line column s).2 /\ CurrentID (AddMessage type message file line column s).2 = CurrentID s + 1.
Proof.
  intros [Hf Hr Hi] Hid. unfold AddMessage. rewrite (wrap_small 64) by (unfold in_u; lia).
  set (m := mkUIMessage type message file line column (CurrentID s)).
  set (s1 := mkUI (CurrentID s + 1) (m_taskMessages s) (m_fileMessages s) (boxes s)).
  set (s2 := mkUI (CurrentID s1) (<[CurrentID s := m]> (m_taskMessages s1)) (m_fileMessages s1) (boxes s1)).
  assert (ui_inv s1) as H1 by (split; cbn; [done| |lia]; intros i m' Hm; destruct (Hr i m' Hm); lia).
  assert (ui_inv s2) as H2.
  { split; cbn; [| |lia].
    - intros k ids i Hk Hin. destruct (Hf k ids i Hk Hin) as (m' & Hm & Hm2). exists m'. split; [|done].
      rewrite lookup_insert_ne; [done|]. destruct (Hr i m' Hm). lia.
    - intros i m' [[<- <-]|[_ Hm]]%lookup_insert_Some; [cbn; lia|]. destruct (Hr i m' Hm). lia. }
  assert (forall s', ui_inv s' -> CurrentID s' = CurrentID s + 1 -> let s'' := if flag type System then open_box type message s' else s' in
    ui_inv s'' /\ CurrentID s'' = CurrentID s + 1) as Hbox.
  { intros s' Hs' Hc. cbn zeta. destruct (flag type System); [|done]. unfold open_box.
    destruct (flag type Error), (flag type Warning), (flag type Info); try done.
    all: destruct Hs' as [Hf' Hr' Hi']; split; [split; cbn|cbn]; done. }
  destruct (bool_decide_reflect (file = [])) as [->|Hne]; cbn [negb].
  - rewrite orb_false_r. apply Hbox; destruct (flag type Task); done.
  - rewrite orb_true_r. destruct (file_slot file s2) as [ids s3] eqn:E. assert (s3 = (file_slot file s2).2) as -> by by rewrite E.
    apply Hbox; [|done]. pose proof (slot_inv file s2 H2) as [Hf3 Hr3 Hi3]. split; cbn; [|done|done].
    intros k ids' i [[<- <-]|[_ Hk]]%lookup_insert_Some Hin; [|by eapply Hf3].
    apply elem_of_app in Hin as [Hin|Hin%list_elem_of_singleton].
    + injection E as <-. eapply (Hf3 (key_of file)); [apply lookup_insert_eq|done].
    + subst i. exists m. split; [apply lookup_insert_eq|done].
Qed.

Lemma remove_inv id s : ui_inv s -> ui_inv (RemoveMessage id s) /\ CurrentID (RemoveMessage id s) = CurrentID s.
Proof.
  intros [Hf Hr Hi]. unfold RemoveMessage. destruct (m_taskMessages s !! id) as [m|]; [|done]. case_bool_decide; [done|].
  split; [|done]. split; cbn; [|done|done]. intros k ids i [_ Hk]%lookup_delete_Some. by apply Hf.
Qed.

(** [RemoveMessage] of the first message of a file leaves none. *)
Lemma remove_first path s i ids : ui_inv s -> m_fileMessages s !! key_of path = Some (i :: ids) ->
  m_fileMessages (RemoveMessage i s) = delete (key_of path) (m_fileMessages s) /\ m_taskMessages (RemoveMessage i s) = m_taskMessages s.
Proof.
  intros [Hf _ _] Hk. destruct (Hf _ _ i Hk ltac:(by left)) as (m & Hm & Hne & Hkey). unfold RemoveMessage. rewrite Hm.
  rewrite bool_decide_eq_false_2 by done. by rewrite Hkey.
Qed.

Lemma clear_ok fuel path s : ui_inv s ->
  exists s', ClearFileMessages (S (S fuel)) path s = Ok s' /\ ui_inv s' /\ CurrentID s' = CurrentID s /\
    m_taskMessages s' = m_taskMessages s /\ messages_of s' (key_of path) = [] /\
    forall k, k <> key_of path -> messages_of s' k = messages_of s k.
Proof.
  intros Hinv. cbn [ClearFileMessages]. destruct (file_slot path s) as [ids s1] eqn:E.
  assert (s1 = (file_slot path s).2) as Es by by rewrite E. assert (ids = messages_of s (key_of path)) as Ei by by injection E as <- _.
  pose proof (slot_inv path s Hinv) as H1. rewrite <- Es in H1. destruct ids as [|i ids].
  - exists s1. split; [done|]. rewrite Es. split; [by rewrite <- Es|]. split; [done|]. split; [done|]. rewrite slot_messages. split; [done|].
    intros k _. apply slot_messages.
  - destruct (remove_first path s1 i ids H1) as [Hf Ht]. { rewrite Es. cbn. fold (messages_of s (key_of path)). by rewrite <- Ei, lookup_insert_eq. }
    destruct (remove_inv i s1 H1) as [H2 Hc]. set (s2 := RemoveMessage i s1) in *.
    assert (default [] (m_fileMessages s2 !! key_of path) = []) as E0 by by rewrite Hf, lookup_delete_eq.
    exists (file_slot path s2).2. split; [by cbn; rewrite E0|]. split; [by apply slot_inv|]. split; [cbn; rewrite Hc, Es; done|].
    split; [cbn; rewrite Ht, Es; done|]. split; [rewrite slot_messages; exact E0|].
    intros k Hne. rewrite slot_messages. unfold messages_of at 1. rewrite Hf, lookup_delete_ne by done. change (messages_of s1 k = messages_of s k).
    rewrite Es. apply slot_messages.
Qed.

Lemma ui_runs_inv fuel cs s : ui_inv s -> CurrentID s + Z.of_nat (length cs) < 2 ^ 64 ->
  exists s', ui_runs (S (S fuel)) cs s = Ok s' /\ ui_inv s'.
Proof.
  revert s. induction cs as [|c cs IH]; intros s Hinv Hlen; [by exists s|]. cbn [ui_runs length] in *.
  assert (exists s1, ui_run (S (S fuel)) c s = Ok s1 /\ ui_inv s1 /\ CurrentID s1 <= CurrentID s + 1) as (s1 & -> & H1 & Hc).
  { destruct c as [type message file line column|i|path]; cbn [ui_run].
    - destruct (add_inv type message file line column s Hinv) as [H1 Hc]; [lia|]. eexists. split; [done|]. split; [done|lia].
    - destruct (remove_inv i s Hinv) as [H1 Hc]. eexists. split; [done|]. split; [done|lia].
    - destruct (clear_ok fuel path s Hinv) as (s1 & -> & H1 & Hc & _). exists s1. split; [done|]. split; [done|lia]. }
  cbn. apply IH; [done|lia].
Qed.

(** C40. [ClearFileMessages] ends, after two rounds at most, whatever messages
    were added, removed and cleared before (fewer than [2^64 - 1] of them): the
    file has no messages then, and the messages of other files and the task
    messages are as they were. *)
Theorem clear_file_messages_ends cs path :
  Z.of_nat (length cs) < 2 ^ 64 - 1 ->
  exists s s', ui_runs 2 cs UIManager_make = Ok s /\ ClearFileMessages 2 path s = Ok s' /\
    messages_of s' (key_of path) = [] /\ (forall k, k <> key_of path -> messages_of s' k = messages_of s k) /\
    m_taskMessages s' = m_taskMessages s.
Proof.
  intros Hlen. destruct (ui_runs_inv 0 cs UIManager_make) as (s & E & Hs).
  { split; cbn; [by intros k ids i ?%lookup_empty_Some|by intros i m ?%lookup_empty_Some|lia]. }
  { cbn. lia. }
  destruct (clear_ok 0 path s Hs) as (s' & E' & _ & _ & Ht & Hm & Ho). by exists s, s'.
Qed.

(** [RemoveMessage] of one message of a file takes all messages of the file out
    of the table of files, and leaves the message among the task messages. *)
Theorem remove_message_removes_file s i m : ui_inv s -> m_taskMessages s !! i = Some m -> m_file m <> [] ->
  messages_of (RemoveMessage i s) (key_of (m_file m)) = [] /\ m_taskMessages (RemoveMessage i s) !! i = Some m.
Proof.
  intros Hs Hm Hne. unfold RemoveMessage. rewrite Hm, bool_decide_eq_false_2 by done. unfold messages_of. cbn. by rewrite lookup_delete_eq.
Qed.

(** [operator<] on messages is not an order: with a message without a line
    between two that have one it goes round. *)
Theorem UIMessage_less_cyclic file : exists a b c : UIMessage,
  m_file a = file /\ m_file b = file /\ m_file c = file /\
  UIMessage_ltb a b = true /\ UIMessage_ltb b c = true /\ UIMessage_ltb c a = true.
Proof.
  set (msg line id := mkUIMessage 0 [] file line (mkRange (-1) (-1)) id). exists (msg 5 1), (msg (-1) 2), (msg 3 3).
  unfold UIMessage_ltb. cbn. by rewrite !decide_True.
Qed.
End UIManager.

Lemma clear_file_messages_ends_witness :
  exists s s', ui_runs true 2 [CallAdd Task (lit "x") (lit "/f") 3 (mkRange 0 1); CallAdd 0 (lit "y") (lit "/f") (-1) (mkRange 0 1)] UIManager_make = Ok s /\
    ClearFileMessages true 2 (lit "/f") s = Ok s' /\ messages_of s' (key_of true (lit "/f")) = [].
Proof.
  destruct (clear_file_messages_ends true [CallAdd Task (lit "x") (lit "/f") 3 (mkRange 0 1); CallAdd 0 (lit "y") (lit "/f") (-1) (mkRange 0 1)] (lit "/f"))
    as (s & s' & E & E' & Hm & _); [cbn; lia|]. exists s, s'. split; [exact E|]. split; [exact E'|exact Hm].
Defined.
