(* ===== verification/Theme.v ===== *)
(** * Themes and styles

    src/ui/theme.cpp, include/mutils/ui/theme.h and include/mutils/ui/style.h:
    [ThemeManager] and [StyleManager]. A colour is named by a [StringId], the
    Murmur hash of its name, and the maps are ordered by it. *)

From S2P Require Import Prelude Murmur StdString StringUtils Float32 MathVec.
Import F32Notations.

Abbreviation NVec4f := (NVec4 f32).

(** A colour that is declared by its name. *)
Definition color_ (name : str) : StringId := mkStringId (default 0 (murmur_hash name (i32 (ssize name)) 0)).

(** The colours declared in theme.h. *)
Definition declared : list str := (fun s => String.list_ascii_of_string s) <$>
  [ "None"; "TabBorder"; "HiddenText"; "Text"; "TextDim"; "Background"; "TabInactive"; "TabActive"; "LineNumberBackground"; "LineNumber";
    "LineNumberActive"; "CursorNormal"; "CursorInsert"; "Light"; "Dark"; "VisualSelectBackground"; "CursorLineBackground";
    "AirlineBackground"; "Mode"; "Normal"; "Keyword"; "Identifier"; "Number"; "String"; "Comment"; "Whitespace"; "HiddenChar";
    "Parenthesis"; "Error"; "Warning"; "Info"; "WidgetBorder"; "WidgetBackground"; "WidgetActive"; "WidgetInactive"; "FlashColor";
    "AccentColor1"; "AccentColor2"; "AccentColor3"; "AccentColor4"; "OppositeAccentColor1"; "OppositeAccentColor2";
    "OppositeAccentColor3"; "OppositeAccentColor4"; "Custom"; "UniqueColor0"; "UniqueColor1"; "UniqueColor2"; "UniqueColor3";
    "UniqueColor4"; "UniqueColor5"; "UniqueColor6"; "UniqueColor7"; "UniqueColor8"; "UniqueColor9"; "UniqueColor10";
    "UniqueColor11"; "UniqueColor12"; "UniqueColor13"; "UniqueColor14"; "UniqueColor15" ]%string.

(** The last sixteen of them. *)
Definition UniqueColors : list str := drop 45 declared.

(** ** [ThemeManager] *)

Abbreviation ThemeColors := (gmap Z NVec4f).

Record ThemeManager : Type := mkTheme { m_currentTheme : str; m_themeColors : gmap str ThemeColors }.

Definition DARK_THEME : str := lit "dark".
Definition LIGHT_THEME : str := lit "light".

Definition current_colors (s : ThemeManager) : ThemeColors := default ∅ (m_themeColors s !! m_currentTheme s).
Definition with_colors (m : ThemeColors) (s : ThemeManager) : ThemeManager :=
  mkTheme (m_currentTheme s) (<[m_currentTheme s := m]> (m_themeColors s)).

Definition Set_ (i : StringId) (color : NVec4f) (s : ThemeManager) : ThemeManager :=
  with_colors (<[id i := color]> (current_colors s)) s.

(** A colour that is not there is made, by default black. *)
Definition Get (i : StringId) (s : ThemeManager) : NVec4f * ThemeManager :=
  let c := default NVec4_default (current_colors s !! id i) in
  (c, with_colors (<[id i := c]> (current_colors s)) s).

(** [fmod(x, 1.0)]: exact. *)
Definition fmod1 (x : f64) : f64 :=
  match x with
  | S754_zero _ => x
  | S754_finite s m e =>
      let r := (if e <? 0 then Z.pos m mod 2 ^ (- e) else 0) in
      if r =? 0 then S754_zero s else binary_normalize 53 1024 (if s then - r else r) e s
  | _ => S754_nan
  end.

Definition golden_ratio_conjugate : f64 := sf_lit 53 1024 618033988749895 1000000000000000.

Fixpoint default_loop (h : f64) (names : list str) (s : ThemeManager) : result stop ThemeManager :=
  match names with
  | [] => Ok s
  | n :: names =>
      let h := fmod1 (SFadd 53 1024 h golden_ratio_conjugate) in
      c ← HSVToRGB (sf_conv 24 128 h *. #360) (f32_lit 1 2) (#200);
      default_loop h names (Set_ (color_ n) c s)
  end.

Definition AddDefaultColors (s : ThemeManager) : result stop ThemeManager :=
  default_loop (sf_conv 53 1024 (f32_lit 15 100)) UniqueColors s.

(** The calls of [Set] in a theme: to a colour in hundredths, to a colour given
    by bytes, to the colour of another name, or to that and .02 more or less. *)
Inductive set_color : Type :=
| SetTo (n : String.string) (r g b a : Z)
| SetBytes (n : String.string) (r g b : Z)
| SetSame (n m : String.string)
| SetPlus (n m : String.string)
| SetMinus (n m : String.string).
Arguments SetTo n%_string. Arguments SetBytes n%_string. Arguments SetSame (n m)%_string.
Arguments SetPlus (n m)%_string. Arguments SetMinus (n m)%_string.

Definition hundredths (r g b a : Z) : NVec4f := mkVec4 (f32_lit r 100) (f32_lit g 100) (f32_lit b 100) (f32_lit a 100).
Definition of_bytes (r g b : Z) : NVec4f := mkVec4 (#r /. #255) (#g /. #255) (#b /. #255) (#1).

Definition run_set (c : set_color) (s : ThemeManager) : result stop ThemeManager :=
  let name n := color_ (String.list_ascii_of_string n) in
  match c with
  | SetTo n r g b a => Ok (Set_ (name n) (hundredths r g b a) s)
  | SetBytes n r g b => Ok (Set_ (name n) (of_bytes r g b) s)
  | SetSame n m => let '(v, s) := Get (name m) s in Ok (Set_ (name n) v s)
  | SetPlus n m => let '(v, s) := Get (name m) s in v ← NVec4_add v (hundredths 2 2 2 0); Ok (Set_ (name n) v s)
  | SetMinus n m => let '(v, s) := Get (name m) s in v ← NVec4_sub v (hundredths 2 2 2 0); Ok (Set_ (name n) v s)
  end.

Fixpoint run_sets (cs : list set_color) (s : ThemeManager) : result stop ThemeManager :=
  match cs with
  | [] => Ok s
  | c :: cs => s ← run_set c s; run_sets cs s
  end.

Definition dark_table : list set_color :=
  [ SetTo "Text" 100 100 100 100; SetTo "TextDim" 45 45 45 100; SetTo "Background" 11 11 11 100;
    SetTo "HiddenText" 90 10 10 100; SetTo "TabBorder" 55 55 55 100; SetTo "TabInactive" 40 40 40 55;
    SetTo "TabActive" 65 65 65 100; SetPlus "LineNumberBackground" "Background"; SetTo "LineNumber" 13 100 13 100;
    SetTo "LineNumberActive" 13 100 13 100; SetBytes "CursorNormal" 130 140 230; SetTo "CursorInsert" 100 100 100 90;
    SetTo "CursorLineBackground" 25 25 25 100; SetTo "AirlineBackground" 20 20 20 100; SetTo "Light" 100 100 100 100;
    SetTo "Dark" 0 0 0 100; SetTo "VisualSelectBackground" 47 30 25 100; SetTo "Mode" 20 80 20 100;
    SetSame "Normal" "Text"; SetSame "Parenthesis" "Text"; SetTo "Comment" 0 100 10 100; SetTo "Keyword" 10 100 100 100;
    SetTo "Identifier" 100 75 50 100; SetTo "Number" 100 100 10 100; SetTo "String" 100 50 100 100;
    SetTo "Whitespace" 30 30 30 100; SetTo "Error" 65 20 15 100; SetTo "Warning" 15 20 65 100;
    SetTo "Info" 15 60 15 100; SetTo "WidgetBorder" 50 50 50 100; SetSame "WidgetActive" "TabActive";
    SetSame "WidgetInactive" "TabInactive"; SetTo "WidgetBackground" 20 20 20 100; SetTo "FlashColor" 80 40 5 100;
    SetTo "AccentColor1" 90 58 3 100; SetTo "AccentColor2" 90 45 2 100; SetTo "AccentColor3" 90 30 2 100;
    SetTo "AccentColor4" 80 35 2 100; SetTo "OppositeAccentColor1" 3 58 90 100;
    SetTo "OppositeAccentColor2" 2 45 90 100; SetTo "OppositeAccentColor3" 2 30 90 100;
    SetTo "OppositeAccentColor4" 2 35 80 100 ].

Definition light_table : list set_color :=
  [ SetTo "Text" 0 0 0 100; SetTo "TextDim" 55 55 55 100; SetTo "Background" 100 100 100 100;
    SetTo "HiddenText" 90 10 10 100; SetTo "TabBorder" 55 55 55 100; SetTo "TabInactive" 40 40 40 55;
    SetTo "TabActive" 55 55 55 100; SetMinus "LineNumberBackground" "Background"; SetTo "LineNumber" 13 40 13 100;
    SetTo "LineNumberActive" 13 60 13 100; SetBytes "CursorNormal" 130 140 230; SetTo "CursorInsert" 100 100 100 90;
    SetTo "CursorLineBackground" 85 85 85 100; SetTo "AirlineBackground" 80 80 80 100; SetTo "Light" 100 100 100 100;
    SetTo "Dark" 0 0 0 100; SetTo "VisualSelectBackground" 49 60 45 100; SetTo "Mode" 20 80 20 100;
    SetSame "Normal" "Text"; SetSame "Parenthesis" "Text"; SetTo "Comment" 10 40 10 100; SetTo "Keyword" 10 20 30 100;
    SetTo "Identifier" 20 20 10 100; SetTo "Number" 10 30 20 100; SetTo "String" 10 10 40 100;
    SetTo "Whitespace" 20 20 20 100; SetTo "Error" 89 20 15 100; SetTo "Warning" 15 20 89 100;
    SetTo "Info" 15 85 15 100; SetSame "WidgetActive" "TabActive"; SetSame "WidgetInactive" "TabInactive";
    SetTo "WidgetBorder" 50 50 50 100; SetSame "WidgetActive" "TabActive"; SetSame "WidgetInactive" "TabInactive";
    SetTo "WidgetBackground" 80 80 80 100; SetTo "FlashColor" 80 40 5 100; SetTo "AccentColor1" 80 50 2 100;
    SetTo "AccentColor2" 80 45 2 100; SetTo "AccentColor3" 80 40 2 100; SetTo "AccentColor4" 80 35 2 100;
    SetTo "OppositeAccentColor1" 3 58 90 100; SetTo "OppositeAccentColor2" 2 45 90 100;
    SetTo "OppositeAccentColor3" 2 30 90 100; SetTo "OppositeAccentColor4" 2 35 80 100 ].

Definition SetDarkTheme (s : ThemeManager) : result stop ThemeManager := s ← AddDefaultColors s; run_sets dark_table s.
Definition SetLightTheme (s : ThemeManager) : result stop ThemeManager := s ← AddDefaultColors s; run_sets light_table s.

Definition SetCurrentTheme (themeName : str) (s : ThemeManager) : result stop ThemeManager :=
  let s := mkTheme themeName (m_themeColors s) in
  if decide (themeName = DARK_THEME) then SetDarkTheme s
  else if decide (themeName = LIGHT_THEME) then SetLightTheme s
  else Ok s.

Definition ThemeManager_make : result stop ThemeManager := SetCurrentTheme DARK_THEME (mkTheme [] ∅).

Definition GetUniqueColor (index : Z) : StringId :=
  color_ (default [] (UniqueColors !! Z.to_nat (index mod Z.of_nat (length UniqueColors)))).

Definition ColorFromName (pszName : str) (len : Z) (s : ThemeManager) : result stop (NVec4f * ThemeManager) :=
  col ← of_option UB (murmur_hash pszName (i32 len) 0);
  Ok (Get (GetUniqueColor col) s).

Definition GetComplement (col adjust : NVec4f) (s : ThemeManager) : result stop (NVec4f * ThemeManager) :=
  let lum := NVec4_Luminosity col in
  if SFltb (f32_lit 1 2) lum then
    let '(c, s) := Get (color_ (lit "Dark")) s in c ← NVec4_add c adjust; Ok (c, s)
  else
    let '(c, s) := Get (color_ (lit "Light")) s in c ← NVec4_sub c adjust; Ok (c, s).

(** ** [StyleManager] *)

(** The type and the member of the union that is active. *)
Inductive StyleValue : Type :=
| StyleUnknown (f4 : NVec4f)
| StyleVec4f (f4 : NVec4f)
| StyleVec3f (f3 : NVec3 f32)
| StyleVec2f (f2 : NVec2 f32)
| StyleFloat (f : f32).

Definition StyleValue_default : StyleValue := StyleUnknown (NVec4_splat (#0)).

Section style.
Context (NDEBUG : bool).

Definition Check_ (v : StyleValue) : result stop unit :=
  match v with StyleUnknown _ => if NDEBUG then Ok tt else Err AssertFail | _ => Ok tt end.

(** [NVec4(f)] reads [f], which is defined only if it is the active member. *)
Definition ToVec4f (v : StyleValue) : result stop NVec4f :=
  Check_ v ≫= fun _ =>
  match v with
  | StyleVec4f f4 => Ok f4
  | StyleFloat f => Ok (NVec4_splat f)
  | _ => Err UB
  end.

(** [f4.x] is the common first member of the three structures. *)
Definition ToFloat (v : StyleValue) : result stop f32 :=
  Check_ v ≫= fun _ =>
  match v with
  | StyleFloat f => Ok f
  | StyleUnknown f4 | StyleVec4f f4 => Ok (x4 f4)
  | StyleVec3f f3 => Ok (x3 f3)
  | StyleVec2f f2 => Ok (x2 f2)
  end.

Record StyleManager : Type := mkStyle { m_styles : gmap str (gmap Z StyleValue); m_currentStyle : str }.

Definition style_map (s : StyleManager) : gmap Z StyleValue := default ∅ (m_styles s !! m_currentStyle s).
Definition with_style (m : gmap Z StyleValue) (s : StyleManager) : StyleManager :=
  mkStyle (<[m_currentStyle s := m]> (m_styles s)) (m_currentStyle s).

Definition style_Set (i : StringId) (value : StyleValue) (s : StyleManager) : StyleManager :=
  with_style (<[id i := value]> (style_map s)) s.

Definition style_Get (i : StringId) (s : StyleManager) : StyleValue * StyleManager :=
  let v := default StyleValue_default (style_map s !! id i) in (v, with_style (<[id i := v]> (style_map s)) s).

Definition GetFloat (i : StringId) (s : StyleManager) : result stop (f32 * StyleManager) :=
  let '(v, s) := style_Get i s in f ← ToFloat v; Ok (f, s).

Definition GetVec4f (i : StringId) (s : StyleManager) : result stop (NVec4f * StyleManager) :=
  let '(v, s) := style_Get i s in f ← ToVec4f v; Ok (f, s).
End style.
