(* ===== verification/ThemeTheory.v ===== *)
(** * Theorems on themes and styles

    The colours of both themes against a table of IEEE single precision bits by
    name, written apart from the model; the hashes of the names; and the values
    of a style. *)

From S2P Require Import Prelude Murmur StdString StringUtils Float32 MathVec Theme.
Import F32Notations.

(** ** A reference: the colours of the themes

    Each name with the bits of its colour, as IEEE single precision numbers:
    [0x3F800000] is 1. *)

Definition f32_bits (b : Z) : f32 :=
  if b =? 0 then S754_zero false else S754_finite false (Z.to_pos (b mod 2 ^ 23 + 2 ^ 23)) (b / 2 ^ 23 - 150).

Definition px (n : String.string) (r g b a : Z) : str * NVec4f :=
  (String.list_ascii_of_string n, mkVec4 (f32_bits r) (f32_bits g) (f32_bits b) (f32_bits a)).
Arguments px n%_string.

(** The unique colours: hues a golden angle apart, half saturated. *)
Definition unique_reference : list (str * NVec4f) :=
  [ px "UniqueColor0" 0x3F21737B 0x3EC8C8C9 0x3F48C8C9 0x3F800000;
    px "UniqueColor1" 0x3EC8C8C9 0x3F48C8C9 0x3F042833 0x3F800000;
    px "UniqueColor2" 0x3F48C8C9 0x3ECDB9DA 0x3EC8C8C9 0x3F800000;
    px "UniqueColor3" 0x3EC8C8C9 0x3EFE6E47 0x3F48C8C9 0x3F800000;
    px "UniqueColor4" 0x3F1C8268 0x3F48C8C9 0x3EC8C8C9 0x3F800000;
    px "UniqueColor5" 0x3F48C8C9 0x3EC8C8C9 0x3F39CDAD 0x3F800000;
    px "UniqueColor6" 0x3EC8C8C9 0x3F48C8C9 0x3F3A789D 0x3F800000;
    px "UniqueColor7" 0x3F48C8C9 0x3F1D2D58 0x3EC8C8C9 0x3F800000;
    px "UniqueColor8" 0x3EFFC420 0x3EC8C8C9 0x3F48C8C9 0x3F800000;
    px "UniqueColor9" 0x3ECC63FC 0x3F48C8C9 0x3EC8C8C9 0x3F800000;
    px "UniqueColor10" 0x3F48C8C9 0x3EC8C8C9 0x3F037D43 0x3F800000;
    px "UniqueColor11" 0x3EC8C8C9 0x3F20C889 0x3F48C8C9 0x3F800000;
    px "UniqueColor12" 0x3F3E13CF 0x3F48C8C9 0x3EC8C8C9 0x3F800000;
    px "UniqueColor13" 0x3F363281 0x3EC8C8C9 0x3F48C8C9 0x3F800000;
    px "UniqueColor14" 0x3EC8C8C9 0x3F48C8C9 0x3F18E737 0x3F800000;
    px "UniqueColor15" 0x3F48C8C9 0x3EF737E1 0x3EC8C8C9 0x3F800000 ].

Definition dark_reference : list (str * NVec4f) :=
  [ px "TabBorder" 0x3F0CCCCD 0x3F0CCCCD 0x3F0CCCCD 0x3F800000;
    px "HiddenText" 0x3F666666 0x3DCCCCCD 0x3DCCCCCD 0x3F800000;
    px "Text" 0x3F800000 0x3F800000 0x3F800000 0x3F800000; px "TextDim" 0x3EE66666 0x3EE66666 0x3EE66666 0x3F800000;
    px "Background" 0x3DE147AE 0x3DE147AE 0x3DE147AE 0x3F800000;
    px "TabInactive" 0x3ECCCCCD 0x3ECCCCCD 0x3ECCCCCD 0x3F0CCCCD;
    px "TabActive" 0x3F266666 0x3F266666 0x3F266666 0x3F800000;
    px "LineNumberBackground" 0x3E051EB8 0x3E051EB8 0x3E051EB8 0x3F800000;
    px "LineNumber" 0x3E051EB8 0x3F800000 0x3E051EB8 0x3F800000;
    px "LineNumberActive" 0x3E051EB8 0x3F800000 0x3E051EB8 0x3F800000;
    px "CursorNormal" 0x3F028283 0x3F0C8C8D 0x3F66E6E7 0x3F800000;
    px "CursorInsert" 0x3F800000 0x3F800000 0x3F800000 0x3F666666;
    px "Light" 0x3F800000 0x3F800000 0x3F800000 0x3F800000; px "Dark" 0x0 0x0 0x0 0x3F800000;
    px "VisualSelectBackground" 0x3EF0A3D7 0x3E99999A 0x3E800000 0x3F800000;
    px "CursorLineBackground" 0x3E800000 0x3E800000 0x3E800000 0x3F800000;
    px "AirlineBackground" 0x3E4CCCCD 0x3E4CCCCD 0x3E4CCCCD 0x3F800000;
    px "Mode" 0x3E4CCCCD 0x3F4CCCCD 0x3E4CCCCD 0x3F800000; px "Normal" 0x3F800000 0x3F800000 0x3F800000 0x3F800000;
    px "Keyword" 0x3DCCCCCD 0x3F800000 0x3F800000 0x3F800000;
    px "Identifier" 0x3F800000 0x3F400000 0x3F000000 0x3F800000;
    px "Number" 0x3F800000 0x3F800000 0x3DCCCCCD 0x3F800000; px "String" 0x3F800000 0x3F000000 0x3F800000 0x3F800000;
    px "Comment" 0x0 0x3F800000 0x3DCCCCCD 0x3F800000; px "Whitespace" 0x3E99999A 0x3E99999A 0x3E99999A 0x3F800000;
    px "Parenthesis" 0x3F800000 0x3F800000 0x3F800000 0x3F800000;
    px "Error" 0x3F266666 0x3E4CCCCD 0x3E19999A 0x3F800000; px "Warning" 0x3E19999A 0x3E4CCCCD 0x3F266666 0x3F800000;
    px "Info" 0x3E19999A 0x3F19999A 0x3E19999A 0x3F800000;
    px "WidgetBorder" 0x3F000000 0x3F000000 0x3F000000 0x3F800000;
    px "WidgetBackground" 0x3E4CCCCD 0x3E4CCCCD 0x3E4CCCCD 0x3F800000;
    px "WidgetActive" 0x3F266666 0x3F266666 0x3F266666 0x3F800000;
    px "WidgetInactive" 0x3ECCCCCD 0x3ECCCCCD 0x3ECCCCCD 0x3F0CCCCD;
    px "FlashColor" 0x3F4CCCCD 0x3ECCCCCD 0x3D4CCCCD 0x3F800000;
    px "AccentColor1" 0x3F666666 0x3F147AE1 0x3CF5C28F 0x3F800000;
    px "AccentColor2" 0x3F666666 0x3EE66666 0x3CA3D70A 0x3F800000;
    px "AccentColor3" 0x3F666666 0x3E99999A 0x3CA3D70A 0x3F800000;
    px "AccentColor4" 0x3F4CCCCD 0x3EB33333 0x3CA3D70A 0x3F800000;
    px "OppositeAccentColor1" 0x3CF5C28F 0x3F147AE1 0x3F666666 0x3F800000;
    px "OppositeAccentColor2" 0x3CA3D70A 0x3EE66666 0x3F666666 0x3F800000;
    px "OppositeAccentColor3" 0x3CA3D70A 0x3E99999A 0x3F666666 0x3F800000;
    px "OppositeAccentColor4" 0x3CA3D70A 0x3EB33333 0x3F4CCCCD 0x3F800000 ].

Definition light_reference : list (str * NVec4f) :=
  [ px "TabBorder" 0x3F0CCCCD 0x3F0CCCCD 0x3F0CCCCD 0x3F800000;
    px "HiddenText" 0x3F666666 0x3DCCCCCD 0x3DCCCCCD 0x3F800000; px "Text" 0x0 0x0 0x0 0x3F800000;
    px "TextDim" 0x3F0CCCCD 0x3F0CCCCD 0x3F0CCCCD 0x3F800000;
    px "Background" 0x3F800000 0x3F800000 0x3F800000 0x3F800000;
    px "TabInactive" 0x3ECCCCCD 0x3ECCCCCD 0x3ECCCCCD 0x3F0CCCCD;
    px "TabActive" 0x3F0CCCCD 0x3F0CCCCD 0x3F0CCCCD 0x3F800000;
    px "LineNumberBackground" 0x3F7AE148 0x3F7AE148 0x3F7AE148 0x3F800000;
    px "LineNumber" 0x3E051EB8 0x3ECCCCCD 0x3E051EB8 0x3F800000;
    px "LineNumberActive" 0x3E051EB8 0x3F19999A 0x3E051EB8 0x3F800000;
    px "CursorNormal" 0x3F028283 0x3F0C8C8D 0x3F66E6E7 0x3F800000;
    px "CursorInsert" 0x3F800000 0x3F800000 0x3F800000 0x3F666666;
    px "Light" 0x3F800000 0x3F800000 0x3F800000 0x3F800000; px "Dark" 0x0 0x0 0x0 0x3F800000;
    px "VisualSelectBackground" 0x3EFAE148 0x3F19999A 0x3EE66666 0x3F800000;
    px "CursorLineBackground" 0x3F59999A 0x3F59999A 0x3F59999A 0x3F800000;
    px "AirlineBackground" 0x3F4CCCCD 0x3F4CCCCD 0x3F4CCCCD 0x3F800000;
    px "Mode" 0x3E4CCCCD 0x3F4CCCCD 0x3E4CCCCD 0x3F800000; px "Normal" 0x0 0x0 0x0 0x3F800000;
    px "Keyword" 0x3DCCCCCD 0x3E4CCCCD 0x3E99999A 0x3F800000;
    px "Identifier" 0x3E4CCCCD 0x3E4CCCCD 0x3DCCCCCD 0x3F800000;
    px "Number" 0x3DCCCCCD 0x3E99999A 0x3E4CCCCD 0x3F800000; px "String" 0x3DCCCCCD 0x3DCCCCCD 0x3ECCCCCD 0x3F800000;
    px "Comment" 0x3DCCCCCD 0x3ECCCCCD 0x3DCCCCCD 0x3F800000;
    px "Whitespace" 0x3E4CCCCD 0x3E4CCCCD 0x3E4CCCCD 0x3F800000; px "Parenthesis" 0x0 0x0 0x0 0x3F800000;
    px "Error" 0x3F63D70A 0x3E4CCCCD 0x3E19999A 0x3F800000; px "Warning" 0x3E19999A 0x3E4CCCCD 0x3F63D70A 0x3F800000;
    px "Info" 0x3E19999A 0x3F59999A 0x3E19999A 0x3F800000;
    px "WidgetBorder" 0x3F000000 0x3F000000 0x3F000000 0x3F800000;
    px "WidgetBackground" 0x3F4CCCCD 0x3F4CCCCD 0x3F4CCCCD 0x3F800000;
    px "WidgetActive" 0x3F0CCCCD 0x3F0CCCCD 0x3F0CCCCD 0x3F800000;
    px "WidgetInactive" 0x3ECCCCCD 0x3ECCCCCD 0x3ECCCCCD 0x3F0CCCCD;
    px "FlashColor" 0x3F4CCCCD 0x3ECCCCCD 0x3D4CCCCD 0x3F800000;
    px "AccentColor1" 0x3F4CCCCD 0x3F000000 0x3CA3D70A 0x3F800000;
    px "AccentColor2" 0x3F4CCCCD 0x3EE66666 0x3CA3D70A 0x3F800000;
    px "AccentColor3" 0x3F4CCCCD 0x3ECCCCCD 0x3CA3D70A 0x3F800000;
    px "AccentColor4" 0x3F4CCCCD 0x3EB33333 0x3CA3D70A 0x3F800000;
    px "OppositeAccentColor1" 0x3CF5C28F 0x3F147AE1 0x3F666666 0x3F800000;
    px "OppositeAccentColor2" 0x3CA3D70A 0x3EE66666 0x3F666666 0x3F800000;
    px "OppositeAccentColor3" 0x3CA3D70A 0x3E99999A 0x3F666666 0x3F800000;
    px "OppositeAccentColor4" 0x3CA3D70A 0x3EB33333 0x3F4CCCCD 0x3F800000 ].

(** What the switch to a theme of the program must give. *)
Definition reference (t : str) : list (str * NVec4f) :=
  (if decide (t = DARK_THEME) then dark_reference else light_reference) ++ unique_reference.

(** ** The maps of the manager

    A step of a theme, on the colours of that theme. *)

Definition map_set (c : set_color) (m : ThemeColors) : result stop ThemeColors :=
  let key n := id (color_ (String.list_ascii_of_string n)) in
  let get n := default NVec4_default (m !! key n) in
  match c with
  | SetTo n r g b a => Ok (<[key n := hundredths r g b a]> m)
  | SetBytes n r g b => Ok (<[key n := of_bytes r g b]> m)
  | SetSame n k => Ok (<[key n := get k]> (<[key k := get k]> m))
  | SetPlus n k => v ← NVec4_add (get k) (hundredths 2 2 2 0); Ok (<[key n := v]> (<[key k := get k]> m))
  | SetMinus n k => v ← NVec4_sub (get k) (hundredths 2 2 2 0); Ok (<[key n := v]> (<[key k := get k]> m))
  end.

Fixpoint map_sets (cs : list set_color) (m : ThemeColors) : result stop ThemeColors :=
  match cs with [] => Ok m | c :: cs => m ← map_set c m; map_sets cs m end.

Fixpoint map_defaults (h : f64) (names : list str) (m : ThemeColors) : result stop ThemeColors :=
  match names with
  | [] => Ok m
  | n :: names =>
      let h := fmod1 (SFadd 53 1024 h golden_ratio_conjugate) in
      c ← HSVToRGB (sf_conv 24 128 h *. #360) (f32_lit 1 2) (#200);
      map_defaults h names (<[id (color_ n) := c]> m)
  end.

(** The manager with other colours for the current theme. *)
Lemma current_with m s : current_colors (with_colors m s) = m.
Proof. unfold current_colors, with_colors. cbn. by rewrite lookup_insert_eq. Qed.

Lemma with_with m m' s : with_colors m (with_colors m' s) = with_colors m s.
Proof. unfold with_colors. cbn. by rewrite insert_insert_eq. Qed.

Lemma run_set_map c m s : run_set c (with_colors m s) = (m' ← map_set c m; Ok (with_colors m' s)).
Proof.
  destruct c; cbn; unfold Get, Set_; rewrite ?current_with, ?with_with; try done.
  all: by destruct (_ (default _ _) _); cbn; rewrite ?current_with, ?with_with.
Qed.

Lemma run_sets_map cs m s : run_sets cs (with_colors m s) = (m' ← map_sets cs m; Ok (with_colors m' s)).
Proof.
  revert m. induction cs as [|c cs IH]; intros m; [done|]. cbn [run_sets map_sets]. rewrite run_set_map.
  destruct (map_set c m) as [m'|]; [|done]. cbn. apply IH.
Qed.

Lemma default_loop_map h names m s : default_loop h names (with_colors m s) = (m' ← map_defaults h names m; Ok (with_colors m' s)).
Proof.
  revert h m. induction names as [|n names IH]; intros h m; [done|]. cbn [default_loop map_defaults].
  destruct (HSVToRGB _ _ _) as [c|]; [|done]. cbn [mbind result_bind]. unfold Set_. rewrite current_with, with_with. apply IH.
Qed.

(** The names a step reads are there. *)
Definition reads_ok (c : set_color) (m : ThemeColors) : bool :=
  let there n := bool_decide (is_Some (m !! id (color_ (String.list_ascii_of_string n)))) in
  match c with SetSame _ k | SetPlus _ k | SetMinus _ k => there k | _ => true end.

Fixpoint all_reads_ok (cs : list set_color) (m : ThemeColors) : bool :=
  match cs with
  | [] => true
  | c :: cs => reads_ok c m && match map_set c m with Ok m => all_reads_ok cs m | Err _ => false end
  end.

(** A theme over colours that were there: those it sets hide them. *)
Lemma map_set_over c m m0 : reads_ok c m = true -> map_set c (m ∪ m0) = (m' ← map_set c m; Ok (m' ∪ m0)).
Proof.
  destruct c as [n r g b a|n r g b|n k|n k|n k]; cbn; intros Hr; rewrite ?insert_union_l; try done.
  all: apply bool_decide_eq_true_1 in Hr as [v Hv]; rewrite (lookup_union_Some_l _ _ _ _ Hv), Hv; cbn; rewrite ?insert_union_l; done.
Qed.

Lemma map_sets_over cs m m0 : all_reads_ok cs m = true -> map_sets cs (m ∪ m0) = (m' ← map_sets cs m; Ok (m' ∪ m0)).
Proof.
  revert m. induction cs as [|c cs IH]; intros m; [done|]. cbn [all_reads_ok map_sets]. intros [H1 H2]%andb_true_iff.
  rewrite map_set_over by done. destruct (map_set c m) as [m'|]; [|done]. cbn. by apply IH.
Qed.

Lemma map_defaults_over h names m m0 : map_defaults h names (m ∪ m0) = (m' ← map_defaults h names m; Ok (m' ∪ m0)).
Proof.
  revert h m. induction names as [|n names IH]; intros h m; [done|]. cbn [map_defaults]. destruct (HSVToRGB _ _ _) as [c|]; [|done].
  cbn [mbind result_bind]. rewrite insert_union_l. apply IH.
Qed.

(** Neither the tables nor the names are unfolded by unification. *)
#[local] Opaque dark_table light_table UniqueColors declared unique_reference dark_reference light_reference.

(** ** Themes *)

Definition hue0 : f64 := sf_conv 53 1024 (f32_lit 15 100).
Definition theme_map (table : list set_color) : result stop ThemeColors := m ← map_defaults hue0 UniqueColors ∅; map_sets table m.

Lemma UniqueColors_some : UniqueColors <> [].
Proof. vm_compute. discriminate. Qed.

Lemma default_loop_start h names s : names <> [] -> default_loop h names s = default_loop h names (with_colors (current_colors s) s).
Proof.
  destruct names as [|n names]; [done|]. intros _. cbn [default_loop]. destruct (HSVToRGB _ _ _); [|done]. cbn [mbind result_bind].
  unfold Set_. by rewrite current_with, with_with.
Qed.

Lemma theme_over table m T s :
  map_defaults hue0 UniqueColors ∅ = Ok m -> all_reads_ok table m = true -> map_sets table m = Ok T ->
  (s1 ← AddDefaultColors s; run_sets table s1) = Ok (with_colors (T ∪ current_colors s) s).
Proof.
  intros Hm Hr HT. unfold AddDefaultColors. fold hue0. rewrite default_loop_start by exact UniqueColors_some.
  rewrite default_loop_map, <- (map_empty_union (current_colors s)), map_defaults_over, Hm. cbn [mbind result_bind].
  rewrite run_sets_map, map_sets_over, HT by done. cbn [mbind result_bind]. by rewrite map_empty_union.
Qed.

Definition theme_checks (table : list set_color) : bool :=
  match map_defaults hue0 UniqueColors ∅ with Ok m => all_reads_ok table m && is_ok (map_sets table m) | Err _ => false end.
Definition theme_colors (table : list set_color) : ThemeColors := match theme_map table with Ok m => m | Err _ => ∅ end.

Lemma theme_over_checked table s : theme_checks table = true ->
  (s1 ← AddDefaultColors s; run_sets table s1) = Ok (with_colors (theme_colors table ∪ current_colors s) s).
Proof.
  unfold theme_checks, theme_colors, theme_map. destruct (map_defaults hue0 UniqueColors ∅) as [m|] eqn:Em; [|done].
  intros [Hr HT]%andb_true_iff. cbn [mbind result_bind]. destruct (map_sets table m) as [T|] eqn:ET; [|done]. by apply (theme_over table m T s).
Qed.

(** The colours of the two themes. *)
Definition dark_colors : ThemeColors := theme_colors dark_table.
Definition light_colors : ThemeColors := theme_colors light_table.

Lemma map_ext_in {A B} (f g : A -> B) (l : list A) x : f <$> l = g <$> l -> x ∈ l -> f x = g x.
Proof.
  induction l as [|y l IH]; [by intros _ ?%not_elem_of_nil|]. cbn. intros [= E1 E2] [->|Hx]%elem_of_cons; [done|]. by apply IH.
Qed.

(** The names no theme sets. *)
Definition never_set : list str := [lit "None"; lit "HiddenChar"; lit "Custom"].

Definition looked_up (T : ThemeColors) (names : list str) : list (option NVec4f) := (fun n => T !! id (color_ n)) <$> names.

(** The colours of a theme are those of the reference, and no others are set. *)
Definition theme_is (T : ThemeColors) (t : str) : Prop :=
  looked_up T (fst <$> reference t) = Some <$> (snd <$> reference t) /\ looked_up T never_set = [None; None; None].

Lemma theme_is_lookup T t n c : theme_is T t -> (n, c) ∈ reference t -> T !! id (color_ n) = Some c.
Proof.
  intros [E _] Hn. unfold looked_up in E. rewrite <- !list_fmap_compose in E.
  exact (map_ext_in ((fun n => T !! id (color_ n)) ∘ fst) (Some ∘ snd) (reference t) (n, c) E Hn).
Qed.

Lemma theme_is_unset T t n : theme_is T t -> n ∈ never_set -> T !! id (color_ n) = None.
Proof.
  intros [_ E] Hn. apply (map_ext_in (fun n => T !! id (color_ n)) (fun _ => None) never_set); [exact E|done].
Qed.

Lemma dark_is : theme_is dark_colors DARK_THEME.
Proof. split; vm_compute; reflexivity. Qed.

Lemma light_is : theme_is light_colors LIGHT_THEME.
Proof. split; vm_compute; reflexivity. Qed.

Lemma SetDarkTheme_eq s : SetDarkTheme s = Ok (with_colors (dark_colors ∪ current_colors s) s).
Proof.
  assert (theme_checks dark_table = true) as H by (vm_compute; reflexivity).
  unfold SetDarkTheme, dark_colors. rewrite <- (theme_over_checked dark_table s H). reflexivity.
Qed.

Lemma SetLightTheme_eq s : SetLightTheme s = Ok (with_colors (light_colors ∪ current_colors s) s).
Proof.
  assert (theme_checks light_table = true) as H by (vm_compute; reflexivity).
  unfold SetLightTheme, light_colors. rewrite <- (theme_over_checked light_table s H). reflexivity.
Qed.

Lemma switch_ok t s : t = DARK_THEME \/ t = LIGHT_THEME ->
  exists T, SetCurrentTheme t s = Ok (mkTheme t (<[t := T ∪ default ∅ (m_themeColors s !! t)]> (m_themeColors s))) /\ theme_is T t.
Proof.
  intros [-> | ->]; unfold SetCurrentTheme.
  - rewrite !decide_True by done. rewrite SetDarkTheme_eq. eexists. split; [done|]. exact dark_is.
  - rewrite !(decide_False (P := LIGHT_THEME = DARK_THEME)), decide_True by done. rewrite SetLightTheme_eq. eexists. split; [done|]. exact light_is.
Qed.

Lemma Get_over t T m cs n c : T !! id (color_ n) = Some c ->
  (Get (color_ n) (mkTheme t (<[t := T ∪ m]> cs))).1 = c.
Proof. intros E. unfold Get, current_colors. cbn. rewrite lookup_insert_eq. cbn. by rewrite (lookup_union_Some_l _ _ _ _ E). Qed.

Lemma Get_under t T cs n : T !! id (color_ n) = None ->
  (Get (color_ n) (mkTheme t (<[t := T ∪ default ∅ (cs !! t)]> cs))).1 = (Get (color_ n) (mkTheme t cs)).1.
Proof. intros E. unfold Get, current_colors. cbn. rewrite lookup_insert_eq. cbn. by rewrite lookup_union_r. Qed.

(** Every declared name but those three is in the reference, once. *)
Lemma reference_names t : t = DARK_THEME \/ t = LIGHT_THEME -> fst <$> reference t ≡ₚ filter (fun n => n ∉ never_set) declared.
Proof. intros [-> | ->]; apply (bool_decide_unpack _); vm_compute; exact I. Qed.

(** No two declared names have the same hash. *)
Lemma declared_hashes : NoDup ((fun n => id (color_ n)) <$> declared).
Proof. apply (bool_decide_unpack _). vm_compute. exact I. Qed.

Lemma reference_unique t i : t = DARK_THEME \/ t = LIGHT_THEME -> 0 <= i < 16 ->
  exists n c, UniqueColors !! Z.to_nat i = Some n /\ (n, c) ∈ reference t /\ unique_reference !! Z.to_nat i = Some (n, c).
Proof.
  intros _ Hi. assert (UniqueColors = fst <$> unique_reference) as -> by (vm_compute; reflexivity).
  destruct (lookup_lt_is_Some_2 unique_reference (Z.to_nat i)) as [[n c] E]; [change (length unique_reference) with 16%nat; lia|].
  exists n, c. split_and!; [by rewrite list_lookup_fmap, E| |done]. unfold reference. apply elem_of_app; right. by eapply list_elem_of_lookup_2.
Qed.

(** C39. Switching to the dark or the light theme succeeds in every state of the
    manager, whatever was set before, and leaves the other themes alone. Every
    declared colour but None, HiddenChar and Custom then has the value the
    reference gives for its name, to the last bit; those three keep the value
    they had in the theme. No two declared names have the same hash. A name
    that is made a colour gets the unique colour its hash selects. *)
Theorem theme_switch_correct t s :
  t = DARK_THEME \/ t = LIGHT_THEME ->
  NoDup ((fun n => id (color_ n)) <$> declared) /\
  fst <$> reference t ≡ₚ filter (fun n => n ∉ never_set) declared /\
  exists s', SetCurrentTheme t s = Ok s' /\ m_currentTheme s' = t /\
    (forall t', t' <> t -> m_themeColors s' !! t' = m_themeColors s !! t') /\
    (forall n c, (n, c) ∈ reference t -> (Get (color_ n) s').1 = c) /\
    (forall n, n ∈ never_set -> (Get (color_ n) s').1 = (Get (color_ n) (mkTheme t (m_themeColors s))).1) /\
    (forall name len h, murmur_hash name (i32 len) 0 = Some h ->
       exists n c s'', unique_reference !! Z.to_nat (h mod 16) = Some (n, c) /\ ColorFromName name len s' = Ok (c, s'')).
Proof.
  intros Ht. split; [exact declared_hashes|]. split; [by apply reference_names|].
  destruct (switch_ok t s Ht) as (T & E & HT). eexists. split; [exact E|]. split; [done|]. split; [|split; [|split]].
  - intros t' Hne. cbn. by rewrite lookup_insert_ne.
  - intros n c Hn. apply Get_over. by eapply theme_is_lookup.
  - intros n Hn. apply Get_under. by eapply theme_is_unset.
  - intros name len h Hh. destruct (reference_unique t (h mod 16) Ht) as (n & c & Hn & Hc & Hr); [apply Z.mod_pos_bound; lia|].
    exists n, c, (Get (color_ n) (mkTheme t (<[t := T ∪ default ∅ (m_themeColors s !! t)]> (m_themeColors s)))).2.
    split; [done|]. unfold ColorFromName. rewrite Hh. cbn [of_option mbind result_bind]. unfold GetUniqueColor.
    change (Z.of_nat (length UniqueColors)) with 16. rewrite Hn. cbn [default from_option]. rewrite (surjective_pairing (Get _ _)). f_equal. f_equal.
    apply Get_over. by eapply theme_is_lookup.
Qed.

Lemma theme_switch_correct_witness :
  exists s', SetCurrentTheme LIGHT_THEME (mkTheme [] ∅) = Ok s' /\ (Get (color_ (lit "Text")) s').1 = hundredths 0 0 0 100 /\
    (Get (color_ (lit "Custom")) s').1 = NVec4_default.
Proof.
  destruct (theme_switch_correct LIGHT_THEME (mkTheme [] ∅)) as (_ & _ & s' & E & _ & _ & Hg & Hu & _); [by right|].
  exists s'. split; [exact E|]. split.
  - rewrite (Hg (lit "Text") (hundredths 0 0 0 100)); [reflexivity|]. apply (list_elem_of_lookup_2 _ 2). vm_compute. reflexivity.
  - rewrite (Hu (lit "Custom")); [vm_compute; reflexivity|]. apply (bool_decide_unpack _). vm_compute. exact I.
Defined.

(** In a theme of another name every colour is black until it is set. *)
Theorem other_theme_black t s i : t <> DARK_THEME -> t <> LIGHT_THEME -> m_themeColors s !! t = None ->
  exists s', SetCurrentTheme t s = Ok s' /\ (Get i s').1 = NVec4_default.
Proof.
  intros Hd Hl Hn. unfold SetCurrentTheme. rewrite !decide_False by done. eexists. split; [done|]. unfold Get, current_colors. cbn. by rewrite Hn.
Qed.

(** ** Styles *)

(** A value that was set is read back as what it is; a [float] can be read as a
    vector; a value that was not set asserts, or is zero in a release build;
    and reading a vector of two or three components as one of four reads a
    member of the union that is not active. *)
Theorem style_values i s :
  (forall f, fst <$> GetFloat false i (style_Set i (StyleFloat f) s) = Ok f) /\
  (forall v, fst <$> GetVec4f false i (style_Set i (StyleVec4f v) s) = Ok v) /\
  (forall f, fst <$> GetVec4f false i (style_Set i (StyleFloat f) s) = Ok (NVec4_splat f)) /\
  (forall v, fst <$> GetVec4f true i (style_Set i (StyleVec3f v) s) = Err UB) /\
  (style_map s !! id i = None -> fst <$> GetFloat false i s = Err AssertFail /\ fst <$> GetFloat true i s = Ok (f32_of_Z 0)).
Proof.
  assert (forall v, style_Get i (style_Set i v s) = (v, (style_Get i (style_Set i v s)).2)) as Hg.
  { intros v. unfold style_Get, style_Set, style_map, with_style. cbn. rewrite lookup_insert_eq. cbn. by rewrite lookup_insert_eq. }
  unfold GetFloat, GetVec4f. split_and!; try (intros v; rewrite (Hg _); done).
  intros Hn. unfold style_Get. by rewrite Hn.
Qed.
