(* ===== verification/Toml.v ===== *)
(** * TOML and JSON helpers

    src/file/toml_utils.cpp, include/mutils/file/toml_utils.h and
    include/mutils/json/jsonutils.h. The libraries for TOML and JSON are known
    by what the code calls: the classes [Toml] and [Json] give the views of a
    value. A [toml::table] is a map from strings. *)

From S2P Require Import Prelude StdString StringUtils StringTheory CompileTheory Float32 MathVec.

(** ** TOML *)

(** What a [toml::value] is: the views, at most one of which is there; the
    line it begins on; reading and writing a document. *)
Class Toml (V : Type) : Type := {
  as_table : V -> option (gmap str V);
  as_array : V -> option (list V);
  as_string : V -> option str;
  as_boolean : V -> option bool;
  as_integer : V -> option Z;
  as_floating : V -> option f64;
  line_of : V -> Z;
  of_table : gmap str V -> V;
  of_array : list V -> V;
  of_string : str -> V;
  of_boolean : bool -> V;
  empty_value : V;
  toml_parse : str -> option V;
  toml_print : V -> str
}.

Section toml.
Context {V : Type} `{Toml V}.

Abbreviation table := (gmap str V).

(** [toml::get] throws if the view is not there. *)
Definition toml_view {A} (o : option A) : result stop A := of_option (Throw type_error) o.

(** [toml::expect<T>(value, key)]: no exception, an error. *)
Definition expect_at {A} (view : V -> option A) (v : V) (k : str) : option A :=
  t ← as_table v; x ← t !! k; view x.

(** [toml::get<std::vector<float>>] and [<int>]: every element is of the type. *)
Definition get_floats (v : V) : result stop (list f32) :=
  toml_view (l ← as_array v; ds ← mapM (A := V) (B := f64) as_floating l; Some ((fun x : f64 => sf_conv 24 128 x : f32) <$> ds)).
Definition get_ints (v : V) : result stop (list Z) :=
  toml_view (l ← as_array v; zs ← mapM as_integer l; Some (i32 <$> zs)).

(** The callback for each table in the table [parentName]; the order is that of
    an unordered map, [in_order]. The map that is returned stays empty. *)
Definition toml_get_subtables {A : Type} (in_order : table -> list (str * V)) (loaded : V) (parentName : str)
  (cb : str -> table -> A -> A) (a : A) : table * A :=
  match expect_at as_table loaded parentName with
  | Some parents =>
      (∅, foldl (fun a kv => match as_table kv.2 with Some t => cb kv.1 t a | None => a end) a (in_order parents))
  | None => (∅, a)
  end.

(** [catch (...)] *)
Definition or_else {A} (r r' : result stop A) : result stop A := match r with Err (Throw _) => r' | _ => r end.

Definition toml_floats (v : V) : result stop (list f32) :=
  or_else (get_floats v) (match get_ints v with Ok ret => Ok (map (fun x : Z => f32_of_Z x : f32) ret) | Err e => Err e end).

Definition toml_ints (v : V) : result stop (list Z) := or_else (get_ints v) (get_ints v).

Definition toml_table_string (value : V) (pszTable pszEntry pszDefault : str) : str :=
  let tbl := default empty_value (expect_at Some value pszTable) in
  default pszDefault (expect_at as_string tbl pszEntry).

Definition toml_get_vec3 (t : table) (pszName : str) (def : NVec3 f32) : result stop (NVec3 f32) :=
  match t !! pszName with
  | None => Ok def
  | Some x =>
      v ← toml_floats x;
      Ok (match v with
          | [a; b; c] => mkVec3 a b c
          | [a] => mkVec3 a a a
          | _ => def
          end)
  end.

(** The numbers replace the components from the first on; one number, all. *)
Definition vec4_from {T} (v : list T) (def : NVec4 T) : NVec4 T :=
  match v with
  | [a; b; c; d] => mkVec4 a b c d
  | [a; b; c] => mkVec4 a b c (w4 def)
  | [a; b] => mkVec4 a b (z4 def) (w4 def)
  | [a] => mkVec4 a a a a
  | _ => def
  end.

Definition toml_get_vec4 (t : table) (pszName : str) (def : NVec4 f32) : result stop (NVec4 f32) :=
  match t !! pszName with None => Ok def | Some x => v ← toml_floats x; Ok (vec4_from v def) end.

Definition toml_get_vec4i (t : table) (pszName : str) (def : NVec4 Z) : result stop (NVec4 Z) :=
  match t !! pszName with None => Ok def | Some x => v ← toml_ints x; Ok (vec4_from v def) end.

Definition toml_get_table (t : table) (child : str) : table := default ∅ (t !! child ≫= as_table).

Definition toml_line (t : table) (pszName : str) : Z :=
  match t !! pszName with Some x => i32 (u32 (line_of x - 1)) | None => 0 end.

(** The text of the file, or none if there is no file. *)
Definition toml_read (text : option str) : V := default empty_value (text ≫= toml_parse).

Definition toml_set (NDEBUG : bool) (t : table) (pszName : str) (val : V) : result stop table :=
  match t !! pszName with
  | Some _ => if NDEBUG then Ok (<[pszName := val]> t) else Err AssertFail
  | None => Ok (<[pszName := val]> t)
  end.

(** [toml_get<std::string>] *)
Definition toml_get_string (t : table) (pszName val : str) : result stop str :=
  match t !! pszName with Some x => toml_view (as_string x) | None => Ok val end.
End toml.

(** The literal [0] with a backslash before it is the terminator of the string
    already: the characters to trim are none. *)
Definition toml_sanitize (text : str) : result stop str :=
  text ← string_right_trim text []; Ok (text ++ ["010"%char]).

(** The loop over the words of the message. *)
Fixpoint error_line_loop (next : bool) (errs : list str) : result stop Z :=
  match errs with
  | [] => Ok (-1)
  | w :: errs =>
      if bool_decide (w = lit "line") then error_line_loop true errs
      else if next then
        match stoi w with
        | Ok line => if - 2 ^ 31 <=? line - 1 then Ok (line - 1) else Err UB
        | Err (Throw _) => Ok (-1)
        | Err e => Err e
        end
      else error_line_loop next errs
  end.

Definition toml_extract_error_line (err : str) : result stop Z :=
  errs ← string_split err (lit " "); error_line_loop false errs.

(** ** JSON *)

(** The views of a [nlohmann::json]: the member of an object, a string, an
    integer. *)
Class Json (J : Type) : Type := {
  j_is_null : J -> bool;
  j_member : J -> str -> option J;
  j_string : J -> option str;
  j_integer : J -> option Z
}.

(** [std::stoull]: a minus sign negates modulo [2^64]. *)
Definition stoull (s : str) : result stop Z :=
  let s := skip_space s in
  let '(neg, s) := match s with
                   | c :: s' => if Ascii.eqb c "-" then (true, s') else if Ascii.eqb c "+" then (false, s') else (false, s)
                   | [] => (false, s)
                   end in
  match take_digits s None with
  | None => Err (Throw invalid_argument)
  | Some v => if v <? 2 ^ 64 then Ok (if neg then u64 (- v) else v) else Err (Throw out_of_range)
  end.

Section json.
Context {J : Type} `{Json J}.

(** [magic_enum::enum_cast] is a parameter. *)
Definition json_enum_cast {T} (enum_cast : str -> option T) (val : J) (def : T) : result stop T :=
  if j_is_null val then Ok def
  else s ← of_option (Throw type_error) (j_string val); Ok (default def (enum_cast s)).

Definition json_to_string (val : J) (name def : str) : str := default def (j_member val name ≫= j_string).

Definition json_to_int (val : J) (name : str) (def : Z) : Z :=
  match j_member val name ≫= j_integer with Some x => i32 x | None => def end.

Definition json_string_to_bool (val : J) (name : str) (def : bool) : bool :=
  bool_decide (json_to_string val name [] = lit "true").

Definition json_to_date (val : J) (name : str) (def : Z) : Z :=
  let dt := json_to_string val name [] in
  if bool_decide (dt = []) then 0
  else match stoull dt with Ok x => x | Err _ => def end.
End json.

(** ** Theorems *)

(** The accessors of vectors: an array of four, three, two numbers replaces as
    many components, one number all of them, and anything else leaves the
    default; integers are accepted where floats are meant. *)
Theorem toml_vec4_correct {V} `{Toml V} (t : gmap str V) name def x (l : list V) :
  t !! name = Some x -> as_array x = Some l ->
  (forall fs : list f64, mapM as_floating l = Some fs -> toml_get_vec4 t name def = Ok (vec4_from (sf_conv 24 128 <$> fs) def)) /\
  (forall is_ : list Z, mapM as_floating l = None -> mapM as_integer l = Some is_ ->
     toml_get_vec4 t name def = Ok (vec4_from ((fun z => f32_of_Z (i32 z)) <$> is_) def)) /\
  (mapM as_floating l = None -> mapM as_integer l = None -> toml_get_vec4 t name def = Err (Throw type_error)).
Proof.
  intros Ht Ha. unfold toml_get_vec4, toml_floats, get_floats, get_ints, toml_view. rewrite Ht, Ha. cbn. split; [|split].
  - by intros fs ->.
  - intros is_ -> ->. cbn. by rewrite map_map.
  - by intros -> ->.
Qed.

(** [toml_sanitize] trims nothing: it adds a line feed. *)
Theorem toml_sanitize_adds text : fits text -> toml_sanitize text = Ok (text ++ ["010"%char]).
Proof.
  intros Hf. unfold toml_sanitize, string_right_trim, find_last_not_of. destruct text as [|c text _] using rev_ind; [done|].
  rewrite rev_unit. cbn [find_idx in_delims existsb negb]. cbn [fmap option_fmap option_map to_pos]. unfold fits in Hf.
  pose proof (ssize_nonneg text). rewrite ssize_app in *. change (ssize [c]) with 1 in *.
  rewrite (wrap_small 64) by (unfold in_u, npos in *; lia). unfold serase, sreplace.
  rewrite ssize_app. change (ssize [c]) with 1. replace (_ <? _) with false by (symmetry; apply Z.ltb_ge; lia). cbn [mbind result_bind].
  f_equal. f_equal. unfold suffix. rewrite take_ge by (rewrite length_app; unfold ssize in *; cbn; lia).
  rewrite drop_ge; [by rewrite !app_nil_r|]. rewrite length_app. unfold ssize, npos in *. cbn. lia.
Qed.

(** A word of a message. *)
Definition word (w : str) : Prop := w <> [] /\ Forall (fun c => in_delims c (lit " ") = false) w.

Lemma digit_no_blank c : isdigit c = true -> in_delims c (lit " ") = false.
Proof. destruct c as [[] [] [] [] [] [] [] []]; vm_compute; done. Qed.

Lemma loop_skips pre errs : Forall (fun w => w <> lit "line") pre -> error_line_loop false (pre ++ errs) = error_line_loop false errs.
Proof. intros Hp. induction Hp as [|w pre Hw _ IH]; [done|]. cbn. by rewrite bool_decide_eq_false_2. Qed.

(** [toml_extract_error_line] finds the line in a message of words: the
    number after the first word "line", counted from 0; and -1 if there is no
    such word. *)
Theorem extract_error_line_correct pre n post :
  Forall (fun w => word w /\ w <> lit "line") pre -> Forall word post -> 0 <= n < 2 ^ 31 ->
  let message := join " " (pre ++ lit "line" :: to_string n :: post) in
  fits message -> fits (join " " pre) ->
  toml_extract_error_line message = Ok (n - 1) /\ toml_extract_error_line (join " " pre) = Ok (-1).
Proof.
  intros Hpre Hpost Hn message Hf Hf'. assert (Forall word pre /\ Forall (fun w => w <> lit "line") pre) as [Hw Hl] by by apply Forall_and.
  destruct (to_string_digits n ltac:(lia)) as [Hne Hd].
  assert (word (to_string n)) as Hnum.
  { split; [done|]. eapply Forall_impl; [exact Hd|]. intros x Hx. by apply digit_no_blank. }
  assert (word (lit "line")) as Hline by (split; [done|repeat constructor]).
  assert (Forall word (pre ++ lit "line" :: to_string n :: post)) as Hall by (apply Forall_app; split; [done|by constructor; [|constructor]]).
  unfold toml_extract_error_line. subst message. rewrite !string_split_words, !words_join by done.
  cbn [mbind result_bind]. pose proof (loop_skips pre [] Hl) as Hend. rewrite app_nil_r in Hend. rewrite Hend. split; [|done].
  rewrite loop_skips by done.
  cbn [error_line_loop]. rewrite bool_decide_eq_true_2 by done. rewrite bool_decide_eq_false_2.
  - rewrite stoi_to_string by lia. by replace (- 2 ^ 31 <=? n - 1) with true by lia.
  - intros E. rewrite E in Hd. by repeat apply Forall_cons in Hd as [Hc Hd].
Qed.

Lemma extract_error_line_correct_witness :
  toml_extract_error_line (lit "error: bad value line 12 col 3 ") = Ok 11 /\ toml_extract_error_line (lit "error: bad value ") = Ok (-1).
Proof.
  apply (extract_error_line_correct [lit "error:"; lit "bad"; lit "value"] 12 [lit "col"; lit "3"]); unfold word, fits;
    repeat constructor; done || lia.
Defined.

(** The defaults of [json_string_to_bool], and of [json_to_date] when the member
    is missing, are not used. *)
Theorem json_defaults_ignored {J} `{Json J} (val : J) name : j_member val name = None ->
  json_string_to_bool val name true = false /\ json_to_date val name 7 = 0 /\ json_to_int val name 7 = 7.
Proof. intros E. unfold json_string_to_bool, json_to_date, json_to_string, json_to_int. by rewrite E. Qed.
