(* ===== verification/Layout.v ===== *)
(** * The layout manager

    src/ui/layout_manager.cpp and include/mutils/ui/layout_manager.h: named
    layouts of windows, kept in a TOML file. The windows register the address
    of the flag that shows them, so the flags are a memory of their own. An
    exception keeps what was done before it, which the monad [X] models. The
    callback of the client is recorded. Base 64 is a library. *)

From stdpp Require Import sorting.
From S2P Require Import Prelude StdString StringUtils StringTheory Paths Float32 MathVec Toml.

(** ** Code that may stop, and keeps its state when it does *)

Definition X (W A : Type) : Type := W -> W * result stop A.

#[global] Instance X_ret W : MRet (X W) := fun A a w => (w, Ok a).
#[global] Instance X_bind W : MBind (X W) := fun A B f m w => match m w with (w, Ok a) => f a w | (w, Err e) => (w, Err e) end.

Definition x_lift {W A} (r : result stop A) : X W A := fun w => (w, r).
Definition x_get {W} : X W W := fun w => (w, Ok w).
Definition x_upd {W} (f : W -> W) : X W unit := fun w => (f w, Ok tt).

(** [catch (std::exception&)] *)
Definition x_catch {W} (m : X W unit) : X W unit := fun w => match m w with (w, Err (Throw _)) => (w, Ok tt) | r => r end.

Fixpoint x_each {W A} (body : A -> X W unit) (l : list A) : X W unit :=
  match l with [] => mret tt | a :: l => body a;; x_each body l end.

(** ** The order of [std::map]: keys as strings of unsigned characters *)

Fixpoint str_leb (s t : str) : bool :=
  match s, t with
  | [], _ => true
  | _ :: _, [] => false
  | c :: s, d :: t => (uchar c <? uchar d) || (Ascii.eqb c d && str_leb s t)
  end.

Definition key_le {A} (a b : str * A) : Prop := str_leb a.1 b.1 = true.
#[global] Instance key_le_dec {A} : RelDecision (@key_le A).
Proof. intros a b. unfold key_le. apply _. Defined.

Definition in_order {A} (m : gmap str A) : list (str * A) := merge_sort key_le (map_to_list m).

(** ** Data *)

Record LayoutInfo : Type := mkLayout { windowLayout : str; showFlags : gmap str bool }.
Record WindowState : Type := mkWindow { ws_name : str; pVisible : Z }.

(** [LayoutManagerData]; of [loadCB], whether it holds a function. *)
Record LayoutManagerData : Type := mkData {
  loadCB : bool; layoutSettingsPath : str; layouts : gmap str LayoutInfo; lastLayout : str; mapWindowState : gmap str WindowState
}.

Section Layout.
Context {S V : Type} `{FileSystem S} `{Toml V} (NDEBUG ts : bool).
Context (base64_encode : str -> str) (base64_decode : str -> result stop str).

(** [LayoutData], the flags, the disk, the path of the run tree, and the
    layouts the callback was called with. *)
Record world : Type := mkWorld {
  LayoutData : LayoutManagerData; flags : gmap Z bool; disk : S; runtreePath : str; loaded : list LayoutInfo
}.

Definition set_data f w := mkWorld (f (LayoutData w)) (flags w) (disk w) (runtreePath w) (loaded w).
Definition set_flags f w := mkWorld (LayoutData w) (f (flags w)) (disk w) (runtreePath w) (loaded w).
Definition set_disk d w := mkWorld (LayoutData w) (flags w) d (runtreePath w) (loaded w).
Definition set_path p d := mkData (loadCB d) p (layouts d) (lastLayout d) (mapWindowState d).
Definition set_layouts l d := mkData (loadCB d) (layoutSettingsPath d) l (lastLayout d) (mapWindowState d).
Definition set_last n d := mkData (loadCB d) (layoutSettingsPath d) (layouts d) n (mapWindowState d).

Definition x_data : X world LayoutManagerData := fun w => (w, Ok (LayoutData w)).
Definition upd_data (f : LayoutManagerData -> LayoutManagerData) : X world unit := x_upd (set_data f).

(** A call of the file system on the disk. *)
Definition x_disk (f : S -> result stop S) : X world unit :=
  fun w => match f (disk w) with Ok d => (set_disk d w, Ok tt) | Err e => (w, Err e) end.

Definition call_loadCB (info : LayoutInfo) : X world unit :=
  d ← x_data;
  if loadCB d then x_upd (fun w => mkWorld (LayoutData w) (flags w) (disk w) (runtreePath w) (loaded w ++ [info]))
  else x_lift (Err (Throw bad_function_call)).

(** ** Reading the file *)

(** One element of the array. *)
Definition load_entry (layout : V) : X world unit :=
  t ← x_lift (toml_view (as_table layout));
  base64 ← x_lift (toml_get_string t (lit "windows") []);
  vecData ← x_lift (base64_decode base64);
  name ← x_lift (toml_get_string t (lit "name") (lit "Default"));
  showFlags ← x_lift (match expect_at as_table layout (lit "enables") with
                      | Some enables => l ← map_result (fun kv => b ← toml_view (as_boolean kv.2); Ok (kv.1, b)) (map_to_list enables); Ok (list_to_map l)
                      | None => Ok ∅
                      end);
  let info := mkLayout vecData showFlags in
  if bool_decide (name = []) || bool_decide (windowLayout info = []) then mret tt
  else
    upd_data (fun d => set_layouts (<[name := info]> (layouts d)) d);;
    d ← x_data;
    if bool_decide (lastLayout d = []) && bool_decide (name = lit "Default") then
      call_loadCB info;; upd_data (set_last name)
    else mret tt.

(** The part of the function inside its [try]. *)
Definition load_layouts_try (appName : str) (forceReset : bool) : X world unit :=
  upd_data (set_path []);;
  w ← x_get;
  p ← x_lift (settings_root NDEBUG (disk w));
  let path := append ts (append ts (append ts p appName) (lit "settings")) (lit "layouts.toml") in
  upd_data (set_path path);;
  go ← (if forceReset || negb (fs_exists path (disk w)) then
          x_disk (fs_create_directories (fs_parent_path path));;
          w ← x_get;
          let sourceSettings := append ts (append ts (runtreePath w) (lit "settings")) (lit "layouts.toml") in
          if fs_exists sourceSettings (disk w) then x_disk (fs_copy sourceSettings (fs_parent_path path));; mret true
          else mret false
        else mret true);
  if (go : bool) then
    w ← x_get;
    let settingsData := toml_read (ifstream_read path (disk w)) in
    match expect_at as_array settingsData (lit "layout") with
    | Some arr => x_each load_entry arr
    | None => mret tt
    end
  else mret tt.

Definition layout_manager_load_layouts_file (appName : str) (fnLoad forceReset : bool) : X world unit :=
  upd_data (fun d => mkData fnLoad (layoutSettingsPath d) ∅ (lastLayout d) (mapWindowState d));;
  x_catch (load_layouts_try appName forceReset).

(** ** Writing the file *)

Definition layout_entry (kv : str * LayoutInfo) : V :=
  of_table (<[lit "name" := of_string kv.1]> (<[lit "windows" := of_string (base64_encode (windowLayout kv.2))]>
           {[lit "enables" := of_table (of_boolean <$> showFlags kv.2)]})).

Definition layouts_document (d : LayoutManagerData) : V :=
  of_table (<[lit "last_layout" := of_string (lastLayout d)]> {[lit "layout" := of_array (layout_entry <$> in_order (layouts d))]}).

(** A file that cannot be opened is not written. *)
Definition layout_manager_save_layouts_file : X world unit :=
  x_upd (fun w => let d := LayoutData w in
    set_disk (default (disk w) (ofstream_write (layoutSettingsPath d) (toml_print (layouts_document d)) (disk w))) w).

(** ** Layouts *)

Definition no_layout : LayoutInfo := mkLayout [] ∅.

(** [LayoutData.layouts[name]], changed. *)
Definition change_layout (name : str) (f : LayoutInfo -> LayoutInfo) (d : LayoutManagerData) : LayoutManagerData :=
  set_layouts (<[name := f (default no_layout (layouts d !! name))]> (layouts d)) d.

Definition read_flag (p : Z) : X world bool := w ← x_get; x_lift (of_option UB (flags w !! p)).
Definition write_flag (p : Z) (b : bool) : X world unit :=
  w ← x_get;
  match flags w !! p with Some _ => x_upd (set_flags (insert p b)) | None => x_lift (Err UB) end.

Definition save_flag (layoutName : str) (kv : str * WindowState) : X world unit :=
  b ← read_flag (pVisible kv.2);
  upd_data (change_layout layoutName (fun l => mkLayout (windowLayout l) (<[kv.1 := b]> (showFlags l)))).

Definition layout_manager_save_layout (layoutName layoutString : str) : X world unit :=
  if bool_decide (layoutName = []) then mret tt
  else
    d ← x_data;
    x_each (save_flag layoutName) (in_order (mapWindowState d));;
    upd_data (change_layout layoutName (fun l => mkLayout layoutString (showFlags l)));;
    layout_manager_save_layouts_file.

Definition load_flag (kv : str * bool) : X world unit :=
  d ← x_data;
  match mapWindowState d !! kv.1 with
  | Some found => write_flag (pVisible found) kv.2
  | None => mret tt
  end.

Definition layout_manager_load_layout (layoutName : str) : X world unit :=
  d ← x_data;
  match layouts d !! layoutName with
  | None => mret tt
  | Some info =>
      upd_data (set_last layoutName);;
      x_each load_flag (in_order (showFlags info));;
      call_loadCB info
  end.

Definition layout_manager_register_window (key name : str) (showState : Z) : X world unit :=
  upd_data (fun d => mkData (loadCB d) (layoutSettingsPath d) (layouts d) (lastLayout d) (<[key := mkWindow name showState]> (mapWindowState d))).
End Layout.
