(* ===== verification/LayoutTheory.v ===== *)
(** * Theorems on the layout manager *)

From stdpp Require Import sorting.
From S2P Require Import Prelude StdString StringUtils StringTheory Paths Float32 MathVec Toml Layout.

(** ** Maps in order *)

Lemma in_order_perm {A} (m : gmap str A) : in_order m ≡ₚ map_to_list m.
Proof. apply merge_sort_Permutation. Qed.

Lemma in_order_elem {A} (m : gmap str A) k a : (k, a) ∈ in_order m <-> m !! k = Some a.
Proof. rewrite in_order_perm. apply elem_of_map_to_list. Qed.

Lemma in_order_keys {A} (m : gmap str A) : NoDup (in_order m).*1.
Proof. rewrite in_order_perm. apply NoDup_fst_map_to_list. Qed.

(** Code that does not stop. *)
Lemma x_bind_ok {W A B} (m : X W A) (f : A -> X W B) w a w' : m w = (w', Ok a) -> (m ≫= f) w = f a w'.
Proof. intros E. unfold mbind, X_bind. by rewrite E. Qed.

Lemma x_lift_ok {W A B} (r : result stop A) (f : A -> X W B) (a : A) (w : W) : r = Ok a -> (x_lift r ≫= f) w = f a w.
Proof. by intros ->. Qed.

(** A loop whose rounds keep an invariant of the elements done. *)
Lemma x_each_inv {W A} (P : list A -> W -> Prop) (body : A -> X W unit) l w :
  P [] w -> (forall done a rest w, l = done ++ a :: rest -> P done w -> exists w', body a w = (w', Ok tt) /\ P (done ++ [a]) w') ->
  exists w', x_each body l w = (w', Ok tt) /\ P l w'.
Proof.
  intros H0 Hstep. assert (forall rest done w, l = done ++ rest -> P done w -> exists w', x_each body rest w = (w', Ok tt) /\ P l w') as Hgo.
  { induction rest as [|a rest IH]; intros done w1 El H1.
    - exists w1. split; [done|]. by rewrite El, app_nil_r.
    - destruct (Hstep done a rest w1 El H1) as (w2 & E2 & H2). destruct (IH (done ++ [a]) w2) as (w3 & E3 & H3); [by rewrite <- app_assoc|done|].
      exists w3. split; [|done]. cbn [x_each]. by rewrite (x_bind_ok _ _ _ _ _ E2). }
  by apply (Hgo l [] w).
Qed.

Section theory.
Context {S V : Type} `{FileSystem S} `{Toml V} (NDEBUG ts : bool).
Context (base64_encode : str -> str) (base64_decode : str -> result stop str).

Abbreviation world := (world (S := S)).
Abbreviation save_layout := (layout_manager_save_layout (V := V) base64_encode).
Abbreviation load_layout := (layout_manager_load_layout (S := S)).

(** ** Saving a layout and loading it *)

(** The windows that have registered have a flag. *)
Definition windows_ok (w : world) : Prop :=
  forall k ws, mapWindowState (LayoutData w) !! k = Some ws -> is_Some (flags w !! pVisible ws).

(** The flags of the layout while they are saved: those of the windows that are
    done have the value of the window. *)
Record saving (w0 : world) (name : str) (done : list (str * WindowState)) (w : world) : Prop := {
  sv_same : mapWindowState (LayoutData w) = mapWindowState (LayoutData w0) /\ flags w = flags w0 /\ loaded w = loaded w0 /\
    loadCB (LayoutData w) = loadCB (LayoutData w0);
  sv_flags k ws : (k, ws) ∈ done -> showFlags (default no_layout (layouts (LayoutData w) !! name)) !! k = flags w0 !! pVisible ws
}.

Lemma save_flags_ok (w0 : world) (name : str) : windows_ok w0 ->
  exists w, x_each (save_flag name) (in_order (mapWindowState (LayoutData w0))) w0 = (w, Ok tt) /\
    saving w0 name (in_order (mapWindowState (LayoutData w0))) w.
Proof.
  intros Hok. apply (x_each_inv (saving w0 name)).
  { split; [done|]. by intros k ws ?%not_elem_of_nil. }
  intros done [k ws] rest w El [(Em & Ef & El' & Ec) Hfl]. pose proof (in_order_keys (mapWindowState (LayoutData w0))) as Hnd.
  assert (mapWindowState (LayoutData w0) !! k = Some ws) as Hk by (apply in_order_elem; rewrite El; apply elem_of_app; right; by left).
  destruct (Hok k ws Hk) as [b Hb]. eexists. split.
  - cbv [save_flag read_flag x_get x_lift upd_data x_upd mbind X_bind]. cbn. rewrite Ef, Hb. cbn. reflexivity.
  - split; cbn; [done|]. intros k' ws' [Hin|Hin%list_elem_of_singleton]%elem_of_app; rewrite lookup_insert_eq; cbn.
    + rewrite lookup_insert_ne; [by apply Hfl|]. intros ->. rewrite El, fmap_app in Hnd. apply NoDup_app in Hnd as (_ & Hdis & _).
      apply (Hdis k'); [by apply (list_elem_of_fmap_2 fst done (k', ws'))|]. cbn. by left.
    + injection Hin as -> ->. by rewrite lookup_insert_eq.
Qed.

(** While a layout is loaded: flags only change to the values they had, and
    those of the windows in the part that is done have changed. *)
Record loading (w1 : world) (old : gmap Z bool) (fl : list (str * bool)) (w : world) : Prop := {
  ld_same : LayoutData w = LayoutData w1 /\ loaded w = loaded w1;
  ld_dom p : is_Some (flags w !! p) <-> is_Some (flags w1 !! p);
  ld_old k b ws : (k, b) ∈ fl -> mapWindowState (LayoutData w1) !! k = Some ws -> flags w !! pVisible ws = old !! pVisible ws
}.

Lemma load_flags_ok (w1 : world) (old : gmap Z bool) (fl : gmap str bool) :
  windows_ok w1 -> (forall k ws b, mapWindowState (LayoutData w1) !! k = Some ws -> fl !! k = Some b -> old !! pVisible ws = Some b) ->
  exists w, x_each load_flag (in_order fl) w1 = (w, Ok tt) /\ loading w1 old (in_order fl) w.
Proof.
  intros Hok Hold. apply (x_each_inv (loading w1 old)).
  { split; [done|done|]. by intros k b ws ?%not_elem_of_nil. }
  intros done [k b] rest w El [[Ed Elo] Hdom Hfl]. assert (fl !! k = Some b) as Hk by (apply in_order_elem; rewrite El; apply elem_of_app; right; by left).
  cbv [load_flag write_flag x_data x_get mbind X_bind]. cbn. rewrite Ed. destruct (mapWindowState (LayoutData w1) !! k) as [ws|] eqn:Ews.
  - destruct (proj2 (Hdom (pVisible ws)) (Hok k ws Ews)) as [b0 Hb0]. rewrite Hb0. eexists. split; [reflexivity|]. split; cbn.
    + done.
    + intros p. rewrite <- Hdom. destruct (decide (p = pVisible ws)) as [->|Hne].
      * rewrite lookup_insert_eq. split; eauto.
      * by rewrite lookup_insert_ne.
    + intros k' b' ws' Hin Hws'. destruct (decide (pVisible ws' = pVisible ws)) as [->|Hne].
      * rewrite lookup_insert_eq. symmetry. by eapply Hold.
      * rewrite lookup_insert_ne by done. apply elem_of_app in Hin as [Hin|Hin%list_elem_of_singleton]; [by eapply Hfl|].
        injection Hin as -> ->. congruence.
  - exists w. split; [done|]. split; [done|done|]. intros k' b' ws' [Hin|Hin%list_elem_of_singleton]%elem_of_app Hws'; [by eapply Hfl|].
    injection Hin as -> ->. congruence.
Qed.

(** C38. Loading a layout undoes what happened to the windows since it was
    saved: whatever the flags are then, each window that has registered (two
    may share a flag) is shown again exactly if it was shown when the layout
    was saved, and the callback is given the text that was saved with it. *)
Theorem layout_save_load (name layoutString : str) (w : world) :
  name <> [] -> loadCB (LayoutData w) = true -> windows_ok w ->
  exists w1, save_layout name layoutString w = (w1, Ok tt) /\
    forall flags', (forall p, is_Some (flags w !! p) -> is_Some (flags' !! p)) ->
    exists w2, load_layout name (set_flags (fun _ => flags') w1) = (w2, Ok tt) /\
      (forall k ws, mapWindowState (LayoutData w) !! k = Some ws -> flags w2 !! pVisible ws = flags w !! pVisible ws) /\
      lastLayout (LayoutData w2) = name /\ exists info, loaded w2 = loaded w ++ [info] /\ windowLayout info = layoutString.
Proof.
  intros Hname Hcb Hok. destruct (save_flags_ok w name Hok) as (w1 & E1 & [(Em & Ef & El & Ec) Hsv]).
  set (info := mkLayout layoutString (showFlags (default no_layout (layouts (LayoutData w1) !! name)))).
  eexists. split.
  { unfold layout_manager_save_layout. rewrite bool_decide_eq_false_2 by done. rewrite (x_bind_ok x_data _ _ (LayoutData w) w) by done.
    rewrite (x_bind_ok _ _ _ _ _ E1). reflexivity. }
  intros flags' Hdom. set (w2 := set_flags (fun _ => flags') _).
  assert (layouts (LayoutData w2) !! name = Some info) as Hl by (cbn; by rewrite lookup_insert_eq).
  assert (mapWindowState (LayoutData w2) = mapWindowState (LayoutData w)) as Em2 by done.
  set (w3 := set_data (set_last name) w2).
  destruct (load_flags_ok w3 (flags w) (showFlags info)) as (w4 & E4 & [[Ed Elo] _ Hold]).
  - intros k ws Hk. apply Hdom, (Hok k). cbn in Hk. by rewrite <- Em.
  - intros k ws b Hk Hb. change (mapWindowState (LayoutData w2) !! k = Some ws) in Hk. rewrite Em2 in Hk.
    cbn [showFlags info] in Hb. rewrite (Hsv k ws) in Hb; [done|]. by apply in_order_elem.
  - exists (mkWorld (LayoutData w4) (flags w4) (disk w4) (runtreePath w4) (loaded w4 ++ [info])). split; [|split; [|split]].
    + unfold layout_manager_load_layout. rewrite (x_bind_ok x_data _ _ (LayoutData w2) w2) by done. rewrite Hl.
      rewrite (x_bind_ok (upd_data (set_last name)) _ _ tt w3) by done. rewrite (x_bind_ok _ _ _ _ _ E4).
      cbv [call_loadCB x_data mbind X_bind]. rewrite Ed. change (loadCB (LayoutData w3)) with (loadCB (LayoutData w1)).
      rewrite Ec, Hcb. unfold x_upd. by rewrite Ed.
    + intros k ws Hk. cbn. assert (is_Some (showFlags info !! k)) as [b Hb].
      { cbn. rewrite (Hsv k ws) by by apply in_order_elem. by apply (Hok k). }
      apply (Hold k b); [by apply in_order_elem|]. cbn. by rewrite Em.
    + cbn. by rewrite Ed.
    + exists info. split; [|done]. cbn. by rewrite Elo, <- El.
Qed.

(** ** The file of the layouts *)

(** Values with the same views, to a depth: where in a file a value comes from,
    [line_of], does not matter. *)
Fixpoint same_value (n : nat) (v v' : V) : Prop :=
  match n with
  | O => True
  | Datatypes.S n =>
      as_string v = as_string v' /\ as_boolean v = as_boolean v' /\
      option_Forall2 (Forall2 (same_value n)) (as_array v) (as_array v') /\
      option_Forall2 (fun t t' : gmap str V => forall k, option_Forall2 (same_value n) (t !! k) (t' !! k)) (as_table v) (as_table v')
  end.

(** The views of the values a program makes. *)
Class TomlViews : Prop := {
  table_view t : as_table (of_table t) = Some t;
  array_view l : as_array (of_array l) = Some l;
  string_view s : as_string (of_string s) = Some s;
  boolean_view b : as_boolean (of_boolean b) = Some b
}.
Context `{TomlViews} (base64_inverse : forall s, base64_decode (base64_encode s) = Ok s).

Abbreviation entry := (layout_entry base64_encode).
Abbreviation read_entry := (load_entry (S := S) base64_decode).

Lemma table_same (n : nat) (t : gmap str V) (v : V) : same_value (Datatypes.S n) (of_table t) v ->
  exists t', as_table v = Some t' /\ forall k, option_Forall2 (same_value n) (t !! k) (t' !! k).
Proof. intros (_ & _ & _ & Ht). rewrite table_view in Ht. inversion Ht; subst. eauto. Qed.

Lemma field_same (n : nat) (t t' : gmap str V) (k : str) (x : V) : (forall k, option_Forall2 (same_value n) (t !! k) (t' !! k)) -> t !! k = Some x ->
  exists x', t' !! k = Some x' /\ same_value n x x'.
Proof. intros Ht Hx. specialize (Ht k). rewrite Hx in Ht. inversion Ht; subst. eauto. Qed.

(** A table of booleans reads as the flags it was made from. *)
Lemma enables_read (fl : gmap str bool) (t : gmap str V) : (forall k, option_Forall2 (same_value 1) ((of_boolean <$> fl) !! k) (t !! k)) ->
  map_result (fun kv => b ← toml_view (as_boolean kv.2); Ok (kv.1, b)) (map_to_list t) = Ok (map_to_list fl).
Proof.
  intros Ht. assert (as_boolean <$> t = Some <$> fl) as E.
  { apply map_eq. intros k. specialize (Ht k). rewrite (lookup_fmap of_boolean) in Ht. rewrite !lookup_fmap.
    destruct (fl !! k) as [b|]; cbn in Ht; inversion Ht as [x y Hs Ex Ey|]; subst; cbn; [|done].
    destruct Hs as (_ & Hb & _). by rewrite <- Hb, boolean_view. }
  apply (f_equal map_to_list) in E. rewrite !map_to_list_fmap in E. revert E. generalize (map_to_list fl) as l, (map_to_list t) as l'. clear.
  intros l l'. revert l. induction l' as [|[k v] l' IH]; intros [|[k' b] l] E; try done. cbn in E. injection E as -> Eb El.
  cbn. rewrite Eb. cbn. by rewrite (IH l El).
Qed.

(** What reading an entry does. *)
Definition kept (kv : str * LayoutInfo) : Prop := kv.1 <> [] /\ windowLayout kv.2 <> [].
#[global] Instance kept_dec kv : Decision (kept kv).
Proof. unfold kept. apply _. Defined.

Definition entry_effect (kv : str * LayoutInfo) (w : world) : world :=
  if decide (kept kv) then
    let w := set_data (fun d => set_layouts (<[kv.1 := kv.2]> (layouts d)) d) w in
    if decide (lastLayout (LayoutData w) = [] /\ kv.1 = lit "Default") then
      mkWorld (set_last kv.1 (LayoutData w)) (flags w) (disk w) (runtreePath w) (loaded w ++ [kv.2])
    else w
  else w.

Lemma load_entry_ok (kv : str * LayoutInfo) (v : V) (w : world) : same_value 3 (entry kv) v -> loadCB (LayoutData w) = true ->
  read_entry v w = (entry_effect kv w, Ok tt).
Proof.
  intros Hs Hcb. destruct kv as [name [layout fl]]. apply table_same in Hs as (t & Et & Ht).
  destruct (field_same 2 _ _ (lit "name") (of_string name) Ht) as (x1 & E1 & Hs1 & _); [by apply lookup_insert_eq|].
  destruct (field_same 2 _ _ (lit "windows") (of_string (base64_encode layout)) Ht) as (x2 & E2 & Hs2 & _); [done|].
  destruct (field_same 2 _ _ (lit "enables") (of_table (of_boolean <$> fl)) Ht) as (x3 & E3 & Hs3); [done|].
  apply table_same in Hs3 as (e & Ee & He). rewrite string_view in Hs1, Hs2.
  assert (read1 : toml_get_string t (lit "name") (lit "Default") = Ok name) by (unfold toml_get_string, toml_view; by rewrite E1, <- Hs1).
  assert (read2 : toml_get_string t (lit "windows") [] = Ok (base64_encode layout)) by (unfold toml_get_string, toml_view; by rewrite E2, <- Hs2).
  assert (read3 : expect_at as_table v (lit "enables") = Some e) by (unfold expect_at, mbind, option_bind; by rewrite Et, E3).
  unfold load_entry. rewrite (x_lift_ok _ _ t) by (unfold toml_view; by rewrite Et). rewrite (x_lift_ok _ _ _ _ read2), (x_lift_ok _ _ _ _ (base64_inverse _)), (x_lift_ok _ _ _ _ read1), read3.
  rewrite (x_lift_ok _ _ fl) by (rewrite (enables_read fl e He); cbn; by rewrite list_to_map_to_list).
  unfold entry_effect. destruct (decide (kept _)) as [[Hn Hl]|Hk].
  - cbn [fst snd windowLayout] in Hn, Hl |- *. rewrite (bool_decide_eq_false_2 _ Hn), (bool_decide_eq_false_2 _ Hl). cbn [orb].
    rewrite (x_bind_ok (upd_data _) _ _ _ _ eq_refl), (x_bind_ok x_data _ _ _ _ eq_refl), <- bool_decide_and.
    destruct (decide _) as [Hd|Hd]; [|by rewrite bool_decide_eq_false_2]. rewrite bool_decide_eq_true_2 by done.
    cbv [call_loadCB x_data upd_data x_upd mbind X_bind]. cbn [LayoutData set_data loadCB set_layouts]. by rewrite Hcb.
  - rewrite <- bool_decide_or, bool_decide_eq_true_2; [done|]. cbn. destruct (decide (name = [])); [by left|]. right.
    destruct (decide (layout = [])); [done|]. by destruct Hk.
Qed.

(** Reading the entries one after the other: the layouts are those of the
    entries that are kept, and the first [Default] is loaded if nothing was. *)
Record entries_read (w0 : world) (done : list (str * LayoutInfo)) (w : world) : Prop := {
  er_same : flags w = flags w0 /\ mapWindowState (LayoutData w) = mapWindowState (LayoutData w0) /\ disk w = disk w0 /\
    loadCB (LayoutData w) = loadCB (LayoutData w0);
  er_layouts k i : layouts (LayoutData w) !! k = Some i <-> (k, i) ∈ done /\ kept (k, i);
  er_last : lastLayout (LayoutData w) =
    if decide (lastLayout (LayoutData w0) = [] /\ is_Some (layouts (LayoutData w) !! lit "Default")) then lit "Default" else lastLayout (LayoutData w0);
  er_loaded : loaded w = loaded w0 ++
    (if decide (lastLayout (LayoutData w0) = []) then option_list (layouts (LayoutData w) !! lit "Default") else [])
}.

Lemma entries_read_step (w0 w : world) (done : list (str * LayoutInfo)) (kv : str * LayoutInfo) :
  kv.1 ∉ done.*1 -> entries_read w0 done w -> entries_read w0 (done ++ [kv]) (entry_effect kv w).
Proof.
  intros Hnew [Hsame Hlay Hlast Hload]. destruct kv as [k i]. cbn [fst] in Hnew.
  assert (layouts (LayoutData w) !! k = None) as Hk.
  { apply eq_None_not_Some. intros [i' [Hin _]%Hlay]. apply Hnew. by apply (list_elem_of_fmap_2 fst done (k, i')). }
  unfold entry_effect. destruct (decide (kept _)) as [Hkept|Hkept].
  2:{ split; [done| |done|done]. intros k' i'. rewrite Hlay, elem_of_app, list_elem_of_singleton. naive_solver. }
  assert (forall k' i', <[k:=i]> (layouts (LayoutData w)) !! k' = Some i' <-> (k', i') ∈ done ++ [(k, i)] /\ kept (k', i')) as Hlay'.
  { intros k' i'. rewrite elem_of_app, list_elem_of_singleton. destruct (decide (k' = k)) as [->|Hne].
    - rewrite lookup_insert_eq. split; [naive_solver|]. intros [[Hin|Hin] _]; [|naive_solver].
      destruct Hnew. by apply (list_elem_of_fmap_2 fst done (k, i')).
    - rewrite lookup_insert_ne by done. rewrite Hlay. naive_solver. }
  cbn [fst snd LayoutData set_data lastLayout set_layouts]. destruct (decide (k = lit "Default")) as [->|Hne].
  - rewrite Hk, decide_False in Hlast by naive_solver. rewrite Hk in Hload.
    destruct (decide (_ /\ _)) as [[Hl _]|Hl]; split; cbn [LayoutData set_data lastLayout set_layouts set_last layouts flags disk mapWindowState loadCB loaded];
      try done; rewrite ?lookup_insert_eq, Hlast in *.
    + by rewrite decide_True by (split; eauto).
    + rewrite Hload, !decide_True, <- app_assoc by done. done.
    + rewrite decide_False; naive_solver.
    + rewrite Hload, !decide_False by naive_solver. done.
  - rewrite (decide_False (P := _ /\ _)) by naive_solver.
    split; cbn [LayoutData set_data lastLayout set_layouts layouts flags disk mapWindowState loadCB loaded]; try done; by rewrite lookup_insert_ne.
Qed.

Lemma entries_loop (w0 : world) (kvs : list (str * LayoutInfo)) (vs : list V) : loadCB (LayoutData w0) = true ->
  Forall2 (fun kv v => same_value 3 (entry kv) v) kvs vs -> forall (done : list (str * LayoutInfo)) (w : world),
  NoDup (done ++ kvs).*1 -> entries_read w0 done w ->
  exists w', x_each read_entry vs w = (w', Ok tt) /\ entries_read w0 (done ++ kvs) w'.
Proof.
  intros Hcb. induction 1 as [|kv v kvs vs Hs _ IH]; intros done w Hnd Hr.
  { exists w. by rewrite app_nil_r. }
  destruct (IH (done ++ [kv]) (entry_effect kv w)) as (w' & E & Hr').
  - by rewrite <- app_assoc.
  - apply entries_read_step; [|done]. rewrite fmap_app in Hnd. apply NoDup_app in Hnd as (_ & Hdis & _).
    intros Hin. apply (Hdis _ Hin). by left.
  - exists w'. rewrite <- app_assoc in Hr'. split; [|done]. cbn [x_each].
    rewrite (x_bind_ok _ _ _ _ _ (load_entry_ok kv v w Hs (eq_trans (proj2 (proj2 (proj2 (er_same _ _ _ Hr)))) Hcb))). done.
Qed.

Abbreviation save_file := (layout_manager_save_layouts_file (S := S) base64_encode).
Abbreviation load_file := (layout_manager_load_layouts_file (S := S) NDEBUG ts base64_decode).
Abbreviation document := (layouts_document base64_encode).

(** The array that is read is that of the layouts. *)
Lemma document_read (d : LayoutManagerData) (v : V) : same_value 5 (document d) v ->
  exists vs, expect_at as_array v (lit "layout") = Some vs /\ Forall2 (fun kv v => same_value 3 (entry kv) v) (in_order (layouts d)) vs.
Proof.
  intros Hs. apply table_same in Hs as (t & Et & Ht).
  destruct (field_same 4 _ _ (lit "layout") (of_array (entry <$> in_order (layouts d))) Ht) as (x & Ex & _ & _ & Hx & _); [done|].
  rewrite array_view in Hx. inversion Hx as [l vs Hl E1 E2|]; subst. exists vs. split.
  - unfold expect_at, mbind, option_bind. by rewrite Et, Ex.
  - exact (proj1 (Forall2_fmap_l _ _ _ _) Hl).
Qed.

(** Reading the file when it is there. *)
Lemma load_file_ok (appName root text : str) (v : V) (d : LayoutManagerData) (w : world) :
  let path := append ts (append ts (append ts root appName) (lit "settings")) (lit "layouts.toml") in
  settings_root NDEBUG (disk w) = Ok root -> fs_exists path (disk w) = true -> ifstream_read path (disk w) = Some text ->
  toml_parse text = Some v -> same_value 5 (document d) v ->
  exists w2, load_file appName true false w = (w2, Ok tt) /\
    entries_read (set_data (fun d => mkData true path ∅ (lastLayout d) (mapWindowState d)) w) (in_order (layouts d)) w2.
Proof.
  intros path Hroot Hex Hread Hparse Hs. destruct (document_read d v Hs) as (vs & Evs & Hvs).
  set (w0 := set_data _ w). destruct (entries_loop w0 _ _ eq_refl Hvs [] w0) as (w2 & E & Hr).
  - apply in_order_keys.
  - assert (layouts (LayoutData w0) = ∅) as El by done. split; rewrite ?El; [done| | |].
    + intros k i. split; [by rewrite lookup_empty|]. by intros [?%not_elem_of_nil _].
    + rewrite lookup_empty, decide_False; [done|]. by intros [_ [? ?]].
    + rewrite lookup_empty. case_decide; by rewrite app_nil_r.
  - exists w2. split; [|done]. unfold layout_manager_load_layouts_file. rewrite (x_bind_ok (upd_data _) _ _ _ _ eq_refl).
    unfold x_catch, load_layouts_try. rewrite (x_bind_ok (upd_data _) _ _ _ _ eq_refl), (x_bind_ok x_get _ _ _ _ eq_refl).
    rewrite (x_lift_ok _ _ root) by done. rewrite (x_bind_ok (upd_data _) _ _ _ _ eq_refl). fold path.
    cbn [orb disk set_data]. rewrite Hex. cbn [negb]. rewrite (x_bind_ok (mret true) _ _ _ _ eq_refl), (x_bind_ok x_get _ _ _ _ eq_refl).
    cbv zeta. replace (toml_read _) with v by (unfold toml_read; cbn [disk set_data]; by rewrite Hread; cbn; rewrite Hparse). rewrite Evs.
    match goal with |- context [x_each _ vs ?x] => change x with w0 end. by rewrite E.
Qed.

(** C37. The layouts survive the program: when the file is written, a later run,
    whatever its state, that reads the file of the same application has exactly
    the layouts that have a name and a text, each with its text and the flags
    of its windows. The layout [Default], if it is one of them, is given to the
    callback unless a layout was loaded before. *)
Theorem layouts_file_roundtrip (appName root : str) (w : world) (d' : S) (v : V)
  (written : ofstream_write (layoutSettingsPath (LayoutData w)) (toml_print (document (LayoutData w))) (disk w) = Some d')
  (write_read : forall p t d d', ofstream_write p t d = Some d' -> fs_exists p d' = true /\ ifstream_read p d' = Some t)
  (print_parse : toml_parse (toml_print (document (LayoutData w))) = Some v /\ same_value 5 (document (LayoutData w)) v)
  (folder : settings_root NDEBUG d' = Ok root)
  (here : layoutSettingsPath (LayoutData w) = append ts (append ts (append ts root appName) (lit "settings")) (lit "layouts.toml")) :
  exists w1, save_file w = (w1, Ok tt) /\
    forall w', disk w' = disk w1 -> exists w2, load_file appName true false w' = (w2, Ok tt) /\
      layouts (LayoutData w2) = filter kept (layouts (LayoutData w)) /\
      lastLayout (LayoutData w2) = (if decide (lastLayout (LayoutData w') = [] /\ is_Some (layouts (LayoutData w2) !! lit "Default"))
                                    then lit "Default" else lastLayout (LayoutData w')) /\
      loaded w2 = loaded w' ++ (if decide (lastLayout (LayoutData w') = []) then option_list (layouts (LayoutData w2) !! lit "Default") else []).
Proof.
  eexists. split; [reflexivity|]. cbv zeta. rewrite written. intros w' Ed. change (disk w' = d') in Ed.
  destruct (write_read _ _ _ _ written) as [Hex Hread]. destruct print_parse as [Hparse Hs]. rewrite here in Hex, Hread.
  destruct (load_file_ok appName root (toml_print (document (LayoutData w))) v (LayoutData w) w') as (w2 & E & [_ Hl Hlast Hload]); try (rewrite Ed; eassumption); try eassumption.
  exists w2. split; [done|]. split; [|by split].
  apply map_eq. intros k. apply option_eq. intros i. rewrite Hl, in_order_elem, map_lookup_filter_Some. done.
Qed.
End theory.

(** ** Concrete libraries *)

(** A disk that maps paths to texts. *)
Definition demo_disk : FileSystem (gmap str str) := {|
  fs_exists p d := bool_decide (is_Some (d !! p)); fs_absolute p _ := Ok p; fs_canonical p _ := Ok p; fs_is_directory _ _ := Ok false;
  fs_temp_directory_path _ := Ok (lit "/tmp"); fs_parent_path p := p; fs_create_directories _ d := Ok d; fs_copy _ _ d := Ok d;
  ifstream_read p d := d !! p; ofstream_write p t d := Some (<[p := t]> d); tinydir_open _ _ := None |}.

Inductive demo_value : Type :=
| DTable (t : gmap str demo_value) | DArray (l : list demo_value) | DString (s : str) | DBool (b : bool) | DEmpty.

(** A reader and a writer of one document. *)
Definition demo_toml (doc : demo_value) : Toml demo_value := {|
  as_table v := match v with DTable t => Some t | _ => None end; as_array v := match v with DArray l => Some l | _ => None end;
  as_string v := match v with DString s => Some s | _ => None end; as_boolean v := match v with DBool b => Some b | _ => None end;
  as_integer _ := None; as_floating _ := None; line_of _ := 0;
  of_table := DTable; of_array := DArray; of_string := DString; of_boolean := DBool; empty_value := DEmpty;
  toml_parse s := if bool_decide (s = lit "document") then Some doc else None; toml_print _ := lit "document" |}.

#[global] Instance demo_views doc : TomlViews (H0 := demo_toml doc).
Proof. by split. Qed.

(** Two layouts, one without a name; two windows with a flag each. *)
Definition demo_data : LayoutManagerData := {|
  loadCB := true; layoutSettingsPath := lit "/tmp/app/settings/layouts.toml";
  layouts := <[lit "Default" := mkLayout (lit "text") {[lit "log" := true]}]> {[[] := mkLayout (lit "x") ∅]};
  lastLayout := []; mapWindowState := <[lit "log" := mkWindow (lit "Log") 1]> {[lit "view" := mkWindow (lit "View") 2]} |}.
Definition demo_world : world (S := gmap str str) := mkWorld demo_data (<[1 := true]> {[2 := false]}) ∅ [] [].

Lemma layout_save_load_witness :
  exists w1 w2 : world, layout_manager_save_layout (H := demo_disk) (H0 := demo_toml DEmpty) (fun s => s) (lit "mine") (lit "abc") demo_world = (w1, Ok tt) /\
    layout_manager_load_layout (lit "mine") (set_flags (fun _ => <[1 := false]> {[2 := true]}) w1) = (w2, Ok tt) /\ flags w2 !! 1 = Some true.
Proof.
  destruct (layout_save_load (H := demo_disk) (H0 := demo_toml DEmpty) (fun s => s) (lit "mine") (lit "abc") demo_world) as (w1 & E1 & Hw).
  - done.
  - done.
  - apply (bool_decide_unpack (map_Forall (fun _ ws => is_Some (flags demo_world !! pVisible ws)) (mapWindowState demo_data))). vm_compute. exact I.
  - destruct (Hw (<[1 := false]> {[2 := true]})) as (w2 & E2 & Hf & _).
    + change (flags demo_world) with (<[1 := true]> {[2 := false]} : gmap Z bool).
      intros p. rewrite !lookup_insert_is_Some', !lookup_singleton_is_Some. naive_solver.
    + exists w1, w2. split; [exact E1|]. split; [exact E2|]. apply (Hf (lit "log") (mkWindow (lit "Log") 1)). reflexivity.
Defined.

Definition demo_doc : demo_value := layouts_document (H0 := demo_toml DEmpty) (fun s => s) demo_data.

Lemma same_value_refl {V} `{Toml V} (n : nat) (v : V) : same_value n v v.
Proof.
  revert v. induction n as [|n IH]; intros v; [done|]. cbn. split; [done|]. split; [done|]. split.
  - destruct (as_array v) as [l|]; constructor. induction l; by constructor.
  - destruct (as_table v) as [t|]; constructor. intros k. destruct (t !! k); by constructor.
Qed.

Lemma layouts_file_roundtrip_witness :
  exists w1 w2 : world, layout_manager_save_layouts_file (H := demo_disk) (H0 := demo_toml demo_doc) (fun s => s) demo_world = (w1, Ok tt) /\
    layout_manager_load_layouts_file (H := demo_disk) (H0 := demo_toml demo_doc) true true (fun s => Ok s) (lit "app") true false w1 = (w2, Ok tt) /\
    layouts (LayoutData w2) = {[lit "Default" := mkLayout (lit "text") {[lit "log" := true]}]}.
Proof.
  destruct (layouts_file_roundtrip (H := demo_disk) (H0 := demo_toml demo_doc) true true (fun s => s) (fun s => Ok s)
    (fun s => eq_refl) (lit "app") (lit "/tmp") demo_world _ demo_doc eq_refl) as (w1 & E1 & Hw).
  - intros p t d d' [= <-]. cbn. rewrite lookup_insert_eq. by split; [apply bool_decide_eq_true_2; eauto|].
  - split; [reflexivity|]. apply same_value_refl.
  - reflexivity.
  - reflexivity.
  - destruct (Hw w1 eq_refl) as (w2 & E2 & El & _). exists w1, w2. split; [exact E1|]. split; [exact E2|]. rewrite El. reflexivity.
Defined.
