(* ===== verification/Shader.v ===== *)
(** * Shaders and programs

    src/gl/gl_shader.cpp and include/mutils/shader/shader.h: compiling a shader
    that comes as a file or as fragments of source, moving the lines of the
    compiler messages to the fragments, and linking a program.

    OpenGL is a library: the class [GLShaders] states the calls, and
    [GLShaderLaws] what their documentation promises of the objects that exist.
    Making an object can fail, with the name 0; a query about no object writes
    nothing, and the variable it was to write keeps its value or has none.
    The texts of C strings end at their first null character. *)

From S2P Require Import Prelude StdString StringUtils StringTheory Compile Paths.

(** ** OpenGL *)

Inductive shader_kind : Type := GL_VERTEX_SHADER | GL_GEOMETRY_SHADER | GL_FRAGMENT_SHADER.

(** The objects: shaders, those flagged for deletion, programs, which shaders
    (second) are attached to which programs (first), and the program in use. *)
Record gl_objects : Type := mkObjects { shaders : gset Z; flagged : gset Z; programs : gset Z; attached : gset (Z * Z); current : Z }.

(** A status is true for [GL_TRUE]; the variable is [GL_FALSE] before the query.
    A length is there if the query writes one. An information log is what is
    written to the buffer before the terminating character. *)
Class GLShaders (G : Type) : Type := {
  glCreateShader : shader_kind -> G -> Z * G;
  glShaderSource : Z -> str -> G -> G;
  glCompileShader : Z -> G -> G;
  glShaderStatus : Z -> G -> bool;
  glShaderLogLength : Z -> G -> option Z;
  glGetShaderInfoLog : Z -> Z -> G -> str;
  glDeleteShader : Z -> G -> G;
  glCreateProgram : G -> Z * G;
  glAttachShader : Z -> Z -> G -> G;
  glDetachShader : Z -> Z -> G -> G;
  glLinkProgram : Z -> G -> G;
  glProgramStatus : Z -> G -> bool;
  glProgramLogLength : Z -> G -> option Z;
  glGetProgramInfoLog : Z -> Z -> G -> str;
  glDeleteProgram : Z -> G -> G;
  glGetError : G -> G;
  objects : G -> gl_objects
}.

(** A shader flagged for deletion is deleted when no program has it attached. *)
Definition dead (o : gl_objects) : gset Z := filter (fun i => set_Forall (fun a : Z * Z => a.2 <> i) (attached o)) (flagged o).
Definition sweep (o : gl_objects) : gl_objects := mkObjects (shaders o ∖ dead o) (flagged o ∖ dead o) (programs o) (attached o) (current o).

Definition add_shader (i : Z) (o : gl_objects) : gl_objects := mkObjects ({[i]} ∪ shaders o) (flagged o) (programs o) (attached o) (current o).
Definition add_program (p : Z) (o : gl_objects) : gl_objects := mkObjects (shaders o) (flagged o) ({[p]} ∪ programs o) (attached o) (current o).
Definition attach (p i : Z) (o : gl_objects) : gl_objects := mkObjects (shaders o) (flagged o) (programs o) ({[(p, i)]} ∪ attached o) (current o).
Definition detach (p i : Z) (o : gl_objects) : gl_objects := sweep (mkObjects (shaders o) (flagged o) (programs o) (attached o ∖ {[(p, i)]}) (current o)).
Definition delete_shader (i : Z) (o : gl_objects) : gl_objects := sweep (mkObjects (shaders o) ({[i]} ∪ flagged o) (programs o) (attached o) (current o)).
Definition delete_program (p : Z) (o : gl_objects) : gl_objects :=
  sweep (mkObjects (shaders o) (flagged o) (programs o ∖ {[p]}) (filter (fun a : Z * Z => a.1 <> p) (attached o)) (current o)).

Class GLShaderLaws (G : Type) `{GLShaders G} : Prop := {
  gl_create_shader k g i g' : glCreateShader k g = (i, g') ->
    i = 0 /\ objects g' = objects g \/
    i <> 0 /\ i ∉ shaders (objects g) ∪ programs (objects g) /\ objects g' = add_shader i (objects g);
  gl_create_program g p g' : glCreateProgram g = (p, g') ->
    p = 0 /\ objects g' = objects g \/
    p <> 0 /\ p ∉ shaders (objects g) ∪ programs (objects g) /\ objects g' = add_program p (objects g);
  gl_no_object g : glShaderLogLength 0 g = None /\ glProgramLogLength 0 g = None;
  gl_shader_log i g : i <> 0 -> i ∈ shaders (objects g) -> is_Some (glShaderLogLength i g);
  gl_program_log p g : p <> 0 -> p ∈ programs (objects g) -> is_Some (glProgramLogLength p g);
  gl_source i s g : objects (glShaderSource i s g) = objects g;
  gl_compile i g : objects (glCompileShader i g) = objects g;
  gl_link p g : objects (glLinkProgram p g) = objects g;
  gl_error g : objects (glGetError g) = objects g;
  gl_attach p i g : p ∈ programs (objects g) -> i ∈ shaders (objects g) -> objects (glAttachShader p i g) = attach p i (objects g);
  gl_detach p i g : (p, i) ∈ attached (objects g) -> objects (glDetachShader p i g) = detach p i (objects g);
  gl_delete_s i g : i ∈ shaders (objects g) -> objects (glDeleteShader i g) = delete_shader i (objects g);
  gl_delete_p p g : p ∈ programs (objects g) -> current (objects g) <> p -> objects (glDeleteProgram p g) = delete_program p (objects g)
}.

(** ** Data *)

Inductive ShaderType : Type := ShaderUnknown | ShaderPixel | ShaderVertex | ShaderGeometry | ShaderCompute.
Record ShaderFragment : Type := mkFragment { frag_name : str; source : str }.
Record ShaderPackage : Type := mkPackage { fragments : list ShaderFragment; mainFragment : Z; path : str; tags : MetaTags_t }.

(** [ShaderPackage(path)], also a conversion. *)
Definition ShaderPackage_make (p : str) : ShaderPackage := mkPackage [] 0 p ∅.

(** A [CompileResult] with [Id]. *)
Record GLCompileResult : Type := mkGLResult { base : CompileResult; Id : Z }.

Definition set_messages (ms : list CompileMessage) (r : CompileResult) : CompileResult := mkResult (fileSource r) ms (res_state r) (res_tags r).
Definition set_result (s : CompileState) (r : CompileResult) : CompileResult := mkResult (fileSource r) (messages r) s (res_tags r).
Definition set_fragment (f : Z) (m : CompileMessage) : CompileMessage := mkMsg (rawText m) (text m) (filePath m) (msg_line m) f (range m) (msgType m).

Fixpoint c_string (s : str) : str :=
  match s with [] => [] | c :: s => if Ascii.eqb c "000"%char then [] else c :: c_string s end.

Definition status (b : bool) : CompileState := if b then ValidState else Invalid.

(** ** Compiling *)

Definition newline : ascii := "010"%char.

(** The number of lines of a fragment. *)
Definition count_lines (s : str) : Z := u32 (Z.of_nat (length (filter (fun c => c = newline) s))).

(** The fragment a message belongs to; the line number is compared and
    subtracted as an unsigned integer. *)
Fixpoint fix_line (counts : list Z) (lastCount fragment : Z) (m : CompileMessage) : CompileMessage :=
  match counts with
  | [] => m
  | count :: counts =>
      if u32 (msg_line m) <? u32 (count + lastCount) then set_fragment fragment (set_line (i32 (msg_line m - lastCount)) m)
      else fix_line counts (u32 (lastCount + count)) (u32 (fragment + 1)) m
  end.

Definition fix_messages (counts : list Z) (r : CompileResult) : CompileResult :=
  set_messages ((fun m => fix_line counts 0 0 (set_path (fileSource r) m)) <$> messages r) r.

(** The kind of shader, or the argument of the message there is instead. *)
Definition kind_of (type : ShaderType) : result str shader_kind :=
  match type with
  | ShaderVertex => Ok GL_VERTEX_SHADER
  | ShaderGeometry => Ok GL_GEOMETRY_SHADER
  | ShaderPixel => Ok GL_FRAGMENT_SHADER
  | ShaderUnknown => Err (lit "Shader type could not be determined.  Missing #shadertype tag?")
  | ShaderCompute => Err (lit "Shader type not supported yet")
  end.

Section shaders.
Context {G S : Type} `{GLShaders G} `{FileSystem S} (disk : S).

(** The source, unless the file cannot be opened. *)
Definition shader_source (package : ShaderPackage) : option str :=
  match fragments package with
  | [] => ifstream_read (path package) disk
  | fs => Some (fs ≫= source)
  end.

(** With the shader made; an exception keeps what was done before it, and the
    messages are the last thing that is done before the parser of messages can
    throw one. *)
Definition compile_created (package : ShaderPackage) (r : CompileResult) (i : Z) (g : G) : result stop (GLCompileResult * G) :=
  match shader_source package with
  | None => Ok (mkGLResult (push_message (CompileMessage_text MsgError (path package) (lit "Couldn't open file")) r) i, g)
  | Some shader =>
      let g := glCompileShader i (glShaderSource i (c_string shader) g) in
      let counts := (fun f => count_lines (source f)) <$> fragments package in
      let Result := glShaderStatus i g in
      (* [InfoLogLength] is not initialised *)
      match (InfoLogLength ← of_option UB (glShaderLogLength i g);
             if 0 <? InfoLogLength then
               r ← compile_parse_shader_errors r (c_string (glGetShaderInfoLog i InfoLogLength g)); Ok (fix_messages counts r)
             else Ok r) with
      | Ok r =>
          let '(Id, g) := if Result then (i, g) else (0, glDeleteShader i g) in
          Ok (mkGLResult (set_result (status Result) r) Id, g)
      | Err (Throw _) => Ok (mkGLResult r i, g)
      | Err e => Err e
      end
  end.

Definition gl_compile_shader (type : ShaderType) (package : ShaderPackage) (g : G) : result stop (GLCompileResult * G) :=
  let r := mkResult (path package) [] Invalid ∅ in
  match kind_of type with
  | Ok kind => let '(i, g) := glCreateShader kind g in compile_created package r i g
  | Err e => Ok (mkGLResult (push_message (CompileMessage_path MsgError e) r) 0, g)
  end.

(** ** Linking *)

Definition state_of (r : GLCompileResult) : CompileState := res_state (base r).
Definition is_invalid (r : GLCompileResult) : bool := match state_of r with Invalid => true | ValidState => false end.

(** The file of a message of the linker. *)
Definition link_message (spVertex spPixel : GLCompileResult) (m : CompileMessage) : CompileMessage :=
  set_path (fileSource (base (if has (string_tolower (rawText m)) (lit "vertex") then spVertex else spPixel))) m.

Definition gl_link_shaders (spVertex : GLCompileResult) (spGeometry : option GLCompileResult) (spPixel : GLCompileResult) (g : G) : result stop (GLCompileResult * G) :=
  if is_invalid spVertex then Ok (spVertex, g)
  else if is_invalid spPixel then Ok (spPixel, g)
  else if from_option is_invalid false spGeometry then Ok (default spVertex spGeometry, g)
  else
    let r := mkResult (fileSource (base spVertex)) [] Invalid ∅ in
    let '(ProgramID, g) := glCreateProgram g in
    let g := glAttachShader ProgramID (Id spPixel) (glAttachShader ProgramID (Id spVertex) g) in
    let g := match spGeometry with Some geometry => glAttachShader ProgramID (Id geometry) g | None => g end in
    let g := glLinkProgram ProgramID g in
    let Result := glProgramStatus ProgramID g in
    InfoLogLength ← of_option UB (glProgramLogLength ProgramID g);
    r ← (if 0 <? InfoLogLength then
           r ← compile_parse_shader_errors r (c_string (glGetProgramInfoLog ProgramID InfoLogLength g));
           Ok (set_messages (link_message spVertex spPixel <$> messages r) r)
         else Ok r);
    if Result then Ok (mkGLResult (set_result ValidState r) ProgramID, g)
    else
      let g := glDetachShader ProgramID (Id spPixel) (glDetachShader ProgramID (Id spVertex) g) in
      let g := match spGeometry with Some geometry => glDetachShader ProgramID (Id geometry) g | None => g end in
      Ok (mkGLResult (set_result Invalid r) 0, glGetError (glDeleteProgram ProgramID g)).

Definition gl_load_program (vertex_file_path fragment_file_path : str) (g : G) : result stop (GLCompileResult * G) :=
  vg ← gl_compile_shader ShaderVertex (ShaderPackage_make vertex_file_path) g;
  let '(pVertex, g) := vg in
  fg ← gl_compile_shader ShaderPixel (ShaderPackage_make fragment_file_path) g;
  let '(pFragment, g) := fg in
  if is_invalid pVertex then Ok (pVertex, g)
  else if is_invalid pFragment then Ok (pFragment, g)
  else
    rg ← gl_link_shaders pVertex None pFragment g;
    let '(pRet, g) := rg in
    let g := if is_invalid pRet then g else glDetachShader (Id pRet) (Id pFragment) (glDetachShader (Id pRet) (Id pVertex) g) in
    Ok (pRet, glDeleteShader (Id pFragment) (glDeleteShader (Id pVertex) g)).

Definition gl_delete_shader (r : GLCompileResult) (g : G) : G := if is_invalid r then g else glDeleteShader (Id r) g.
Definition gl_delete_program (r : GLCompileResult) (g : G) : G := if is_invalid r then g else glDeleteProgram (Id r) g.
End shaders.
