(* ===== verification/ShaderTheory.v ===== *)
(** * Theorems on shaders and programs *)

From S2P Require Import Prelude StdString StringUtils StringTheory Compile CompileTheory Paths Shader.

(** ** The lines of fragments *)

(** A text as lines; the last one has no end. *)
Fixpoint lines_of (s : str) : list str :=
  match s with
  | [] => [[]]
  | c :: s => if decide (c = newline) then [] :: lines_of s else match lines_of s with l :: ls => (c :: l) :: ls | [] => [[c]] end
  end.

Definition ends (s : str) : nat := length (filter (fun c => c = newline) s).

Lemma ends_app s t : ends (s ++ t) = (ends s + ends t)%nat.
Proof. unfold ends. by rewrite filter_app, length_app. Qed.

Lemma length_lines s : length (lines_of s) = Datatypes.S (ends s).
Proof.
  induction s as [|c s IH]; [done|]. unfold ends in *. cbn [lines_of]. rewrite filter_cons. destruct (decide (c = newline)); cbn; [by rewrite IH|].
  by destruct (lines_of s).
Qed.

(** Where two texts meet, a line of the first goes on in the second. *)
Lemma lines_app s t : exists init last first rest,
  lines_of s = init ++ [last] /\ lines_of t = first :: rest /\ lines_of (s ++ t) = init ++ (last ++ first) :: rest.
Proof.
  assert (exists first rest, lines_of t = first :: rest) as (first & rest & Et).
  { pose proof (length_lines t). destruct (lines_of t) as [|l ls]; [done|eauto]. }
  induction s as [|c s IH]; [by exists [], [], first, rest|]. destruct IH as (init & last & f & r & Es & Et' & Ea).
  rewrite Et in Et'. injection Et' as <- <-. cbn [app lines_of]. destruct (decide (c = newline)).
  - exists ([] :: init), last, first, rest. rewrite Es, Ea. by split_and!.
  - rewrite Es, Ea. destruct init as [|l init]; cbn.
    + by exists [], (c :: last), first, rest.
    + by exists ((c :: l) :: init), last, first, rest.
Qed.

Lemma lines_app_l s t l : (l < ends s)%nat -> lines_of (s ++ t) !! l = lines_of s !! l.
Proof.
  intros Hl. destruct (lines_app s t) as (init & last & f & r & Es & _ & ->). pose proof (length_lines s) as Hlen. rewrite Es, length_app in Hlen. cbn in Hlen.
  rewrite Es, !lookup_app_l by lia. done.
Qed.

(** A line of the second text is the end of a line of both, and all of it if
    the first text is complete lines. *)
Definition complete (s : str) : Prop := s = [] \/ exists s', s = s' ++ [newline].

Lemma complete_last s init last : complete s -> lines_of s = init ++ [last] -> last = [].
Proof.
  intros [->|[s' ->]] E; [by destruct init as [|? [|]]; simplify_eq/=|].
  destruct (lines_app s' [newline]) as (i & l & f & r & _ & Ef & Ea). cbn in Ef. rewrite decide_True in Ef by done. injection Ef as <- <-.
  rewrite Ea in E. change (i ++ [l ++ []; []]) with (i ++ [l ++ []] ++ [[]]) in E. rewrite app_assoc in E. by apply app_inj_tail in E as [_ <-].
Qed.

Lemma lines_app_r s t l x : lines_of t !! l = Some x ->
  exists y, lines_of (s ++ t) !! (ends s + l)%nat = Some y /\ x `suffix_of` y /\ (complete s -> x = y).
Proof.
  destruct (lines_app s t) as (init & last & f & r & Es & Et & ->). pose proof (length_lines s) as Hlen. rewrite Es, length_app in Hlen. cbn in Hlen.
  rewrite Et. replace (ends s) with (length init) by lia. rewrite lookup_app_r by lia. replace (length init + l - length init)%nat with l by lia.
  destruct l as [|l]; cbn.
  - intros [= <-]. exists (last ++ f). split; [done|]. split; [by exists last|]. intros Hc. by rewrite (complete_last _ _ _ Hc Es).
  - intros E. exists x. by split_and!.
Qed.

Lemma i32_small z : - 2 ^ 31 <= z < 2 ^ 31 -> i32 z = z.
Proof. intros Hz. unfold swrap. rewrite Z.mod_small by lia. lia. Qed.

(** Where a message is: its line of the whole source is line [msg_line] of its
    fragment, or ends in it when the fragment before it does not end its last
    line. A line behind all line ends stays where it is. *)
Record located (fs : list ShaderFragment) (file : str) (m0 m : CompileMessage) : Prop := {
  lc_rest : m = set_fragment (fragmentIndex m) (set_line (msg_line m) (set_path file m0));
  lc_in : msg_line m0 < Z.of_nat (ends (fs ≫= source)) -> exists fr x y,
    fs !! Z.to_nat (fragmentIndex m) = Some fr /\ 0 <= msg_line m /\
    lines_of (source fr) !! Z.to_nat (msg_line m) = Some x /\ lines_of (fs ≫= source) !! Z.to_nat (msg_line m0) = Some y /\
    x `suffix_of` y /\ (Forall (fun f => complete (source f)) fs -> x = y);
  lc_out : Z.of_nat (ends (fs ≫= source)) <= msg_line m0 -> msg_line m = msg_line m0 /\ fragmentIndex m = fragmentIndex m0
}.

Lemma complete_bind (fs : list ShaderFragment) : Forall (fun f => complete (source f)) fs -> complete (fs ≫= source).
Proof.
  induction 1 as [|f fs Hf _ IH]; [by left|]. rewrite bind_cons. destruct IH as [->|[s ->]]; [by rewrite app_nil_r|].
  right. exists (source f ++ s). by rewrite app_assoc.
Qed.

Abbreviation counts_of fs := ((fun f => count_lines (source f)) <$> fs).

(** The loop over the fragments, with [done] behind it. *)
Lemma fix_line_at (fs : list ShaderFragment) (m : CompileMessage) : forall done : list ShaderFragment,
  Z.of_nat (ends ((done ++ fs) ≫= source)) < 2 ^ 31 -> Z.of_nat (length (done ++ fs)) < 2 ^ 31 ->
  Z.of_nat (ends (done ≫= source)) <= msg_line m < 2 ^ 31 ->
  let r := fix_line (counts_of fs) (Z.of_nat (ends (done ≫= source))) (Z.of_nat (length done)) m in
  (msg_line m < Z.of_nat (ends ((done ++ fs) ≫= source)) -> exists pre fr post, done ++ fs = pre ++ fr :: post /\
     let l := msg_line m - Z.of_nat (ends (pre ≫= source)) in
     0 <= l < Z.of_nat (ends (source fr)) /\ r = set_fragment (Z.of_nat (length pre)) (set_line l m)) /\
  (Z.of_nat (ends ((done ++ fs) ≫= source)) <= msg_line m -> r = m).
Proof.
  induction fs as [|fr fs IH]; intros done Hends Hlen Hm r.
  { rewrite app_nil_r in Hends |- *. split; [lia|done]. }
  unfold r. cbn [fmap list_fmap fix_line]. rewrite bind_app, ends_app, bind_cons, ends_app in Hends |- *.
  rewrite length_app in Hlen. cbn [length] in Hlen.
  assert (count_lines (source fr) = Z.of_nat (ends (source fr))) as -> by (unfold count_lines; fold (ends (source fr)); rewrite wrap_small by (unfold in_u; lia); done).
  rewrite (wrap_small 32 (msg_line m)) by (unfold in_u; lia). rewrite !(wrap_small 32 (_ + _)) by (unfold in_u; lia).
  destruct (Z.ltb_spec (msg_line m) (Z.of_nat (ends (source fr)) + Z.of_nat (ends (done ≫= source)))).
  - split; [|lia]. intros _. exists done, fr, fs. split; [done|]. cbn. split; [lia|]. repeat f_equal. apply i32_small. lia.
  - specialize (IH (done ++ [fr])). rewrite <- !app_assoc in IH. cbn [app] in IH.
    rewrite !bind_app, !ends_app, bind_cons, ends_app, bind_cons, app_nil_r, !length_app in IH. cbn [length] in IH.
    replace (Z.of_nat (length done) + 1) with (Z.of_nat (length done + 1)) by lia.
    replace (Z.of_nat (ends (done ≫= source)) + Z.of_nat (ends (source fr))) with (Z.of_nat (ends (done ≫= source) + ends (source fr))) by lia.
    apply IH; lia.
Qed.

Lemma fix_message_located (fs : list ShaderFragment) (file : str) (m0 : CompileMessage) :
  Z.of_nat (ends (fs ≫= source)) < 2 ^ 31 -> Z.of_nat (length fs) < 2 ^ 31 -> 0 <= msg_line m0 < 2 ^ 31 ->
  located fs file m0 (fix_line (counts_of fs) 0 0 (set_path file m0)).
Proof.
  intros Hends Hlen Hm. destruct (fix_line_at fs (set_path file m0) [] Hends Hlen) as [Hin Hout]; [done|]. cbn in Hin, Hout.
  set (r := fix_line _ _ _ _) in *. destruct (Z.ltb_spec (msg_line m0) (Z.of_nat (ends (fs ≫= source)))) as [Hlt|Hge].
  - destruct (Hin Hlt) as (pre & fr & post & E & Hl & Er). rewrite Er. split; cbn; [done| |lia]. intros _. set (l := msg_line m0 - _) in *.
    assert (is_Some (lines_of (source fr) !! Z.to_nat l)) as [x Hx] by (apply lookup_lt_is_Some; rewrite length_lines; lia).
    rewrite E, bind_app, bind_cons. destruct (lines_app_r (pre ≫= source) (source fr ++ post ≫= source) (Z.to_nat l) x) as (y & Hy & Hsuf & Heq).
    { rewrite lines_app_l by lia. done. }
    exists fr, x, y. replace (ends (pre ≫= source) + Z.to_nat l)%nat with (Z.to_nat (msg_line m0)) in Hy by lia.
    rewrite Nat2Z.id, list_lookup_middle by done. split_and!; try done; [lia|]. intros Hc%Forall_app. apply Heq, complete_bind, Hc.
  - rewrite (Hout Hge). by split; [done|lia|].
Qed.

(** ** The objects of OpenGL *)

(** No shader is waiting to be deleted, attachments are of objects that exist,
    and so is the program in use. *)
Record objects_ok (o : gl_objects) : Prop := {
  ok_settled i : i ∈ flagged o -> exists p, (p, i) ∈ attached o;
  ok_attached p i : (p, i) ∈ attached o -> p ∈ programs o /\ i ∈ shaders o;
  ok_flagged i : i ∈ flagged o -> i ∈ shaders o;
  ok_current : current o <> 0 -> current o ∈ programs o
}.

(** Objects next to those of [o]. *)
Definition beside (o : gl_objects) (Sh Fl Pr : gset Z) (At : gset (Z * Z)) : gl_objects :=
  mkObjects (Sh ∪ shaders o) (Fl ∪ flagged o) (Pr ∪ programs o) (At ∪ attached o) (current o).

Lemma objects_eq o o' : shaders o = shaders o' -> flagged o = flagged o' -> programs o = programs o' -> attached o = attached o' ->
  current o = current o' -> o = o'.
Proof. destruct o, o'; cbn; congruence. Qed.

Lemma elem_of_dead o i : i ∈ dead o <-> i ∈ flagged o /\ forall p, (p, i) ∉ attached o.
Proof.
  unfold dead. rewrite elem_of_filter. unfold set_Forall. split.
  - intros [H1 H2]. split; [done|]. intros p Hp. by apply (H1 _ Hp).
  - intros [H1 H2]. split; [|done]. intros [p j] Hp E. cbn in E. subst j. by apply (H2 p).
Qed.

Lemma plus_nothing o : beside o ∅ ∅ ∅ ∅ = o.
Proof. apply objects_eq; cbn; set_solver. Qed.

Section objects.
Context (o : gl_objects) (ok : objects_ok o).

Lemma sweep_plus (Sh Fl Pr D : gset Z) (At : gset (Z * Z)) :
  Sh ## shaders o -> Fl ⊆ Sh -> (forall i, i ∈ D <-> i ∈ Fl /\ forall p, (p, i) ∉ At) ->
  sweep (beside o Sh Fl Pr At) = beside o (Sh ∖ D) (Fl ∖ D) Pr At.
Proof.
  intros Hdis Hsub HD. assert (dead (beside o Sh Fl Pr At) = D) as E.
  { apply set_eq. intros i. rewrite elem_of_dead, HD. cbn. split.
    - intros [[Hi|Hi]%elem_of_union Hp].
      + split; [done|]. intros p Hp'. apply (Hp p). by apply elem_of_union_l.
      + destruct (ok_settled o ok i Hi) as [p Hp']. destruct (Hp p). by apply elem_of_union_r.
    - intros [Hi Hp]. split; [by apply elem_of_union_l|]. intros p [Hp'|Hp']%elem_of_union; [by apply (Hp p)|].
      apply (ok_attached o ok) in Hp' as [_ Hs]. by apply (Hdis i); [apply Hsub|]. }
  assert (D ⊆ Sh) as HDS by (intros i Hi; apply Hsub; by apply HD in Hi as [? _]).
  assert (D ## shaders o) as HDo by (intros i Hi; apply (Hdis i); by apply HDS).
  assert (D ## flagged o) as HDf by (intros i Hi Hf; apply (HDo i Hi), (ok_flagged o ok i Hf)).
  unfold sweep. rewrite E. apply objects_eq; cbn; [| |done|done|done]; apply set_eq; intros i; rewrite !elem_of_difference, !elem_of_union, elem_of_difference; specialize (HDo i); specialize (HDf i); tauto.
Qed.

Context {G : Type} `{GLShaderLaws G}.

(** Calls on objects that are not those of [o]. *)
Lemma detach_plus (Sh Pr : gset Z) (At : gset (Z * Z)) (p i : Z) (g : G) : objects g = beside o Sh ∅ Pr At -> Sh ## shaders o ->
  (p, i) ∈ At -> p ∉ programs o -> objects (glDetachShader p i g) = beside o Sh ∅ Pr (At ∖ {[(p, i)]}).
Proof.
  intros E Hdis Hin Hp. rewrite gl_detach by (rewrite E; cbn; set_solver). rewrite E. unfold detach.
  transitivity (sweep (beside o Sh ∅ Pr (At ∖ {[(p, i)]}))).
  - f_equal. apply objects_eq; cbn; try done. apply set_eq. intros [q j]. rewrite elem_of_difference, !elem_of_union, elem_of_difference, elem_of_singleton.
    split; [tauto|]. intros [?|Hq]; [tauto|]. split; [tauto|]. intros [= -> ->]. by apply (ok_attached o ok) in Hq as [? _].
  - rewrite (sweep_plus _ _ _ ∅) by set_solver. apply objects_eq; cbn; set_solver.
Qed.

Lemma delete_shader_plus (Sh Pr : gset Z) (i : Z) (g : G) : objects g = beside o Sh ∅ Pr ∅ -> Sh ## shaders o ->
  i ∈ Sh -> objects (glDeleteShader i g) = beside o (Sh ∖ {[i]}) ∅ Pr ∅.
Proof.
  intros E Hdis Hin. rewrite gl_delete_s by (rewrite E; cbn; set_solver). rewrite E. unfold delete_shader.
  transitivity (sweep (beside o Sh {[i]} Pr ∅)).
  - f_equal. apply objects_eq; cbn; set_solver.
  - rewrite (sweep_plus _ _ _ {[i]}) by set_solver. apply objects_eq; cbn; set_solver.
Qed.

Lemma delete_program_plus (Sh Pr : gset Z) (p : Z) (g : G) : objects g = beside o Sh ∅ Pr ∅ -> Sh ## shaders o ->
  p ∈ Pr -> p <> 0 -> p ∉ programs o -> objects (glDeleteProgram p g) = beside o Sh ∅ (Pr ∖ {[p]}) ∅.
Proof.
  intros E Hdis Hin Hp0 Hp. rewrite gl_delete_p.
  2:{ rewrite E. cbn. set_solver. }
  2:{ rewrite E. cbn. intros Hc. apply Hp. rewrite <- Hc. apply ok_current; [done|]. by rewrite Hc. }
  rewrite E. unfold delete_program. transitivity (sweep (beside o Sh ∅ (Pr ∖ {[p]}) ∅)).
  - f_equal. apply objects_eq; cbn; [done|done|set_solver| |done].
    apply set_eq. intros [q j]. rewrite elem_of_filter, elem_of_union. cbn. split; [tauto|]. intros Hq. split; [|done].
    intros ->. destruct Hq as [Hq|Hq]; [set_solver|]. by apply (ok_attached o ok) in Hq as [? _].
  - rewrite (sweep_plus _ _ _ ∅) by set_solver. apply objects_eq; cbn; set_solver.
Qed.
End objects.

(** ** The objects a program leaves *)

Section load.
Context {G S : Type} `{GLShaderLaws G} `{FileSystem S} (disk : S).

Abbreviation compile := (gl_compile_shader disk).

(** Compiling leaves a new shader, unless the compiler rejects it or there is
    no shader of its type. *)
Record compiled (r : GLCompileResult) (o o' : gl_objects) : Prop := {
  cm_new : Id r <> 0 -> Id r ∉ shaders o ∪ programs o /\ o' = add_shader (Id r) o;
  cm_none : Id r = 0 -> o' = o;
  cm_valid : is_invalid r = false -> Id r <> 0
}.

Lemma delete_new (i : Z) (o : gl_objects) : objects_ok o -> i ∉ shaders o -> delete_shader i (add_shader i o) = o.
Proof.
  intros ok Hi. transitivity (sweep (beside o {[i]} {[i]} ∅ ∅)).
  - unfold delete_shader. f_equal. apply objects_eq; cbn; set_solver.
  - rewrite (sweep_plus o ok _ _ _ {[i]}) by set_solver. rewrite <- (plus_nothing o) at 2. apply objects_eq; cbn; set_solver.
Qed.

Lemma gl_compile_objects (t : ShaderType) (pkg : ShaderPackage) (g : G) r g' : objects_ok (objects g) -> compile t pkg g = Ok (r, g') ->
  compiled r (objects g) (objects g').
Proof.
  intros ok. unfold gl_compile_shader. destruct (kind_of t) as [kind|]; [|by intros [= <- <-]].
  destruct (glCreateShader kind g) as [i g1] eqn:Ec. apply gl_create_shader in Ec as [[-> E1]|(Hi & Hnew & E1)].
  { unfold compile_created. destruct (shader_source _ _) as [shader|]; [|intros [= <- <-]; by split].
    cbv zeta. by rewrite (proj1 (gl_no_object _)). }
  unfold compile_created. destruct (shader_source _ _) as [shader|].
  2:{ intros [= <- <-]. by split. }
  set (g2 := glCompileShader i _). assert (objects g2 = add_shader i (objects g)) as E2 by (unfold g2; by rewrite gl_compile, gl_source).
  cbv zeta. destruct (of_option UB _ ≫= _) as [r1|[e| | |]]; [|intros [= <- <-]; by split|done..].
  destruct (glShaderStatus i g2); intros [= <- <-].
  - by split.
  - split; cbn; [done| |done]. intros _. rewrite gl_delete_s by (rewrite E2; cbn; set_solver). rewrite E2. apply delete_new; [done|set_solver].
Qed.

(** The state of the objects when a new program was linked. *)
Definition linked (o : gl_objects) (v f p : Z) : gl_objects := beside o {[v; f]} ∅ {[p]} {[(p, v); (p, f)]}.

Record fresh3 (o : gl_objects) (v f p : Z) : Prop := {
  f3_zero : p <> 0;
  f3_shaders : {[v; f]} ## shaders o;
  f3_program : p ∉ programs o;
  f3_distinct : v <> f
}.

(** Letting the shaders of a program go. *)
Lemma release (o : gl_objects) (v f p : Z) (g : G) : objects_ok o -> fresh3 o v f p -> objects g = linked o v f p ->
  let g' := glDetachShader p f (glDetachShader p v g) in
  objects g' = beside o {[v; f]} ∅ {[p]} ∅ /\ objects (glDeleteShader f (glDeleteShader v g')) = add_program p o.
Proof.
  intros ok [Hp0 Hdis Hp Hne] E g'. assert (objects g' = beside o {[v; f]} ∅ {[p]} ∅) as E'.
  { unfold g'. rewrite (detach_plus o ok {[v; f]} {[p]} ({[(p, v); (p, f)]} ∖ {[(p, v)]})); [|apply (detach_plus o ok _ _ _ _ _ _ E)|..].
    - apply objects_eq; cbn; set_solver.
    - done.
    - set_solver.
    - done.
    - done.
    - set_solver.
    - done. }
  split; [done|]. rewrite (delete_shader_plus o ok ({[v; f]} ∖ {[v]}) {[p]}); [|apply (delete_shader_plus o ok _ _ _ _ E')|..].
  - apply objects_eq; cbn; set_solver.
  - done.
  - set_solver.
  - set_solver.
  - set_solver.
Qed.

(** The calls that link a new program of two shaders. *)
Definition linked_gl (p : Z) (rv rf : GLCompileResult) (g : G) : G :=
  glLinkProgram p (glAttachShader p (Id rf) (glAttachShader p (Id rv) g)).

Lemma link_setup (o : gl_objects) (rv rf : GLCompileResult) (g g1 : G) p :
  objects g = beside o {[Id rv; Id rf]} ∅ ∅ ∅ -> glCreateProgram g = (p, g1) -> p <> 0 -> {[Id rv; Id rf]} ## shaders o -> Id rv <> Id rf ->
  fresh3 o (Id rv) (Id rf) p /\ objects (linked_gl p rv rf g1) = linked o (Id rv) (Id rf) p.
Proof.
  intros E Ep Hp0 Hdis Hne. apply gl_create_program in Ep as [[? _]|(_ & Hp & E1)]; [done|]. rewrite E in Hp, E1. cbn in Hp.
  assert (p ∉ programs o) as Hp' by set_solver. split; [by split|].
  unfold linked_gl. rewrite gl_link, gl_attach, gl_attach, E1; [apply objects_eq; cbn; set_solver|rewrite E1; cbn; set_solver..| |];
    rewrite gl_attach, E1; rewrite ?E1; cbn; set_solver.
Qed.

Lemma link_objects (o : gl_objects) (rv rf r : GLCompileResult) (g g' : G) :
  objects_ok o -> {[Id rv; Id rf]} ## shaders o -> Id rv <> Id rf -> objects g = beside o {[Id rv; Id rf]} ∅ ∅ ∅ ->
  is_invalid rv = false -> is_invalid rf = false -> gl_link_shaders rv None rf g = Ok (r, g') ->
  (is_invalid r = false /\ fresh3 o (Id rv) (Id rf) (Id r) /\ objects g' = linked o (Id rv) (Id rf) (Id r)) \/
  (is_invalid r = true /\ objects g' = beside o {[Id rv; Id rf]} ∅ ∅ ∅).
Proof.
  intros ok Hdis Hne E Hv Hf. unfold gl_link_shaders. rewrite Hv, Hf. cbn [from_option].
  destruct (glCreateProgram g) as [p g1] eqn:Ep. cbv zeta. destruct (decide (p = 0)) as [->|Hp0]; [by rewrite (proj2 (gl_no_object _))|].
  destruct (link_setup o rv rf g g1 p E Ep Hp0 Hdis Hne) as [Hfr E2]. set (g2 := linked_gl p rv rf g1) in *. fold (linked_gl p rv rf g1). fold g2.
  destruct (glProgramLogLength p g2) as [n|]; [|done]. cbn [of_option mbind result_bind].
  destruct (if 0 <? _ then _ else _) as [r1|e]; [|done]. cbn. destruct (glProgramStatus p g2); intros [= <- <-]; cbn; [left|right]; [done|].
  split; [done|]. destruct (release o _ _ p g2 ok Hfr E2) as [E3 _]. pose proof (f3_program _ _ _ _ Hfr). rewrite gl_error, (delete_program_plus o ok _ _ _ _ E3) by set_solver.
  apply objects_eq; cbn; set_solver.
Qed.

(** *** Errors *)

Lemma c_string_fits s : fits s -> fits (c_string s).
Proof.
  unfold fits, ssize. intros Hs. assert (length (c_string s) <= length s)%nat; [|lia].
  clear Hs. induction s as [|c s IH]; cbn; [lia|]. destruct (Ascii.eqb c _); cbn; lia.
Qed.

(** Logs are shorter than strings can be. *)
Context (logs_fit : forall i n (g : G), fits (glGetShaderInfoLog i n g) /\ fits (glGetProgramInfoLog i n g)).

Lemma parse_stops (r : CompileResult) (log : str) e : fits log -> compile_parse_shader_errors r (c_string log) = Err e -> e = UB /\ least_int (c_string log).
Proof. intros Hf%c_string_fits E. pose proof (shader_errors_parsed r _ Hf) as Hp. by rewrite E in Hp. Qed.

(** When compiling is undefined: OpenGL makes no shader for a source that can
    be read, or the log of the shader has the one number whose predecessor
    overflows. *)
Definition compile_undefined (t : ShaderType) (pkg : ShaderPackage) (g : G) : Prop :=
  exists kind i g1 shader, kind_of t = Ok kind /\ glCreateShader kind g = (i, g1) /\ shader_source disk pkg = Some shader /\
    let g2 := glCompileShader i (glShaderSource i (c_string shader) g1) in
    (i = 0 \/ exists n, glShaderLogLength i g2 = Some n /\ least_int (c_string (glGetShaderInfoLog i n g2))).

Lemma compile_stops (t : ShaderType) (pkg : ShaderPackage) (g : G) e : compile t pkg g = Err e -> e = UB /\ compile_undefined t pkg g.
Proof.
  unfold gl_compile_shader, compile_undefined. destruct (kind_of t) as [kind|]; [|done]. destruct (glCreateShader kind g) as [i g1] eqn:Ec.
  unfold compile_created. destruct (shader_source _ _) as [shader|]; [|done]. cbv zeta. set (g2 := glCompileShader i _).
  intros E. enough (e = UB /\ (i = 0 \/ exists n, glShaderLogLength i g2 = Some n /\ least_int (c_string (glGetShaderInfoLog i n g2)))) as [-> Hu].
  { split; [done|]. by exists kind, i, g1, shader. }
  apply gl_create_shader in Ec as [[-> E1]|(Hi & Hnew & E1)].
  { rewrite (proj1 (gl_no_object _)) in E. injection E as <-. by split; [|left]. }
  destruct (gl_shader_log i g2 Hi) as [n En]; [unfold g2; rewrite gl_compile, gl_source, E1; cbn; set_solver|].
  revert E. rewrite En. cbn [of_option mbind result_bind]. destruct (0 <? n).
  - destruct (compile_parse_shader_errors _ _) as [r1|e1] eqn:E1'; cbn; [by destruct (glShaderStatus i g2)|].
    apply parse_stops in E1' as [-> Hl]; [|apply logs_fit]. intros [= <-]. split; [done|]. right. by exists n.
  - by destruct (glShaderStatus i g2).
Qed.

(** When OpenGL makes no shader, the length of the log is read without having
    been written. *)
Theorem uninitialised_log_length (t : ShaderType) kind (pkg : ShaderPackage) shader (g g1 : G) :
  kind_of t = Ok kind -> glCreateShader kind g = (0, g1) -> shader_source disk pkg = Some shader -> compile t pkg g = Err UB.
Proof.
  intros Hk Ec Es. unfold gl_compile_shader, compile_created. rewrite Hk, Ec, Es. cbv zeta. by rewrite (proj1 (gl_no_object _)).
Qed.

(** When linking is undefined, in the same two ways. *)
Definition link_undefined (rv rf : GLCompileResult) (g : G) : Prop :=
  exists p g1, glCreateProgram g = (p, g1) /\
    (p = 0 \/ exists n, glProgramLogLength p (linked_gl p rv rf g1) = Some n /\ least_int (c_string (glGetProgramInfoLog p n (linked_gl p rv rf g1)))).

Lemma link_stops (o : gl_objects) (rv rf : GLCompileResult) (g : G) e :
  {[Id rv; Id rf]} ## shaders o -> Id rv <> Id rf -> objects g = beside o {[Id rv; Id rf]} ∅ ∅ ∅ ->
  gl_link_shaders rv None rf g = Err e -> e = UB /\ link_undefined rv rf g.
Proof.
  intros Hdis Hne Eo. unfold gl_link_shaders, link_undefined. destruct (is_invalid rv); [done|]. destruct (is_invalid rf); [done|]. cbn [from_option].
  destruct (glCreateProgram g) as [p g1] eqn:Ep. cbv zeta. fold (linked_gl p rv rf g1).
  intros E. enough (e = UB /\ (p = 0 \/ exists n, glProgramLogLength p (linked_gl p rv rf g1) = Some n /\
    least_int (c_string (glGetProgramInfoLog p n (linked_gl p rv rf g1))))) as [-> Hu].
  { split; [done|]. by exists p, g1. }
  destruct (decide (p = 0)) as [->|Hp0]. { rewrite (proj2 (gl_no_object _)) in E. injection E as <-. by split; [|left]. }
  destruct (link_setup o rv rf g g1 p Eo Ep Hp0 Hdis Hne) as [_ E2]. set (g2 := linked_gl p rv rf g1) in *.
  destruct (gl_program_log p g2 Hp0) as [n En]; [rewrite E2; cbn; set_solver|].
  revert E. rewrite En. cbn [of_option mbind result_bind]. destruct (0 <? n).
  - destruct (compile_parse_shader_errors _ _) as [r1|e1] eqn:E1; cbn; [by destruct (glProgramStatus p g2)|].
    apply parse_stops in E1 as [-> Hl]; [|apply logs_fit]. intros [= <-]. split; [done|]. right. by exists n.
  - cbn. by destruct (glProgramStatus p g2).
Qed.

(** The shaders that are left when one of the two does not compile. *)
Definition left_over (rv rf : GLCompileResult) : gset Z :=
  if is_invalid rv || is_invalid rf then {[Id rv; Id rf]} ∖ {[0]} else ∅.

Lemma compiled_two (o o1 o2 : gl_objects) (rv rf : GLCompileResult) : compiled rv o o1 -> compiled rf o1 o2 ->
  o2 = beside o ({[Id rv; Id rf]} ∖ {[0]}) ∅ ∅ ∅ /\ ({[Id rv; Id rf]} ∖ {[0]}) ## shaders o /\ (Id rv <> 0 -> Id rv <> Id rf).
Proof.
  intros [Hn1 H01 _] [Hn2 H02 _]. destruct (decide (Id rv = 0)) as [Ev|Ev], (decide (Id rf = 0)) as [Ef|Ef].
  - rewrite (H02 Ef), (H01 Ev), Ev, Ef. split; [apply objects_eq; cbn; set_solver|]. set_solver.
  - destruct (Hn2 Ef) as [Hf ->]. rewrite (H01 Ev) in Hf |- *. rewrite Ev. split; [apply objects_eq; cbn; set_solver|]. set_solver.
  - destruct (Hn1 Ev) as [Hv ->]. rewrite (H02 Ef), Ef. split; [apply objects_eq; cbn; set_solver|]. set_solver.
  - destruct (Hn1 Ev) as [Hv ->]. destruct (Hn2 Ef) as [Hf ->]. cbn in Hf. split; [apply objects_eq; cbn; set_solver|]. set_solver.
Qed.

Lemma compiled_ok (r : GLCompileResult) (o o' : gl_objects) : objects_ok o -> compiled r o o' -> objects_ok o'.
Proof.
  intros [Hs Ha Hf Hc] [Hn H0' _]. destruct (decide (Id r = 0)) as [E|E]; [by rewrite (H0' E)|]. destruct (Hn E) as [_ ->].
  split; cbn; [done| | |done].
  - intros p i Hp. destruct (Ha p i Hp). split; [done|]. by apply elem_of_union_r.
  - intros i Hi. by apply elem_of_union_r, Hf.
Qed.

(** The shaders that did not become a program. *)
Definition objects_left (v f : str) (g g' : G) : Prop :=
  exists rv rf g1 g2, compile ShaderVertex (ShaderPackage_make v) g = Ok (rv, g1) /\ compile ShaderPixel (ShaderPackage_make f) g1 = Ok (rf, g2) /\
    objects g' = beside (objects g) (left_over rv rf) ∅ ∅ ∅.

(** When loading is undefined: one of its three steps is. *)
Definition load_undefined (v f : str) (g : G) : Prop :=
  compile_undefined ShaderVertex (ShaderPackage_make v) g \/
  exists rv g1, compile ShaderVertex (ShaderPackage_make v) g = Ok (rv, g1) /\
    (compile_undefined ShaderPixel (ShaderPackage_make f) g1 \/
     exists rf g2, compile ShaderPixel (ShaderPackage_make f) g1 = Ok (rf, g2) /\ link_undefined rv rf g2).

(** C33. [gl_load_program] is exact about what it leaves in OpenGL. When it
    answers with a valid program, that program is new and it is the only object
    that was not there before: both shaders are gone. When the linker fails,
    nothing is left. When a shader does not compile, the other shader is left,
    and a shader whose file could not be opened. It never throws. It is
    undefined only when OpenGL makes no shader or no program, since the length
    of the log is then read without having been written, or when a log has the
    one number whose predecessor overflows. *)
Theorem load_program_objects (v f : str) (g : G) : objects_ok (objects g) ->
  match gl_load_program disk v f g with
  | Ok (r, g') =>
      if is_invalid r then objects_left v f g g'
      else Id r <> 0 /\ Id r ∉ programs (objects g) /\ objects g' = add_program (Id r) (objects g)
  | Err e => e = UB /\ load_undefined v f g
  end.
Proof.
  intros ok. unfold gl_load_program.
  destruct (compile ShaderVertex (ShaderPackage_make v) g) as [[rv g1]|e] eqn:Ev.
  2: { apply compile_stops in Ev as [-> Hu]. by split; [|left]. }
  cbn [mbind result_bind].
  destruct (compile ShaderPixel (ShaderPackage_make f) g1) as [[rf g2]|e] eqn:Ef.
  2: { apply compile_stops in Ef as [-> Hu]. split; [done|]. right. exists rv, g1. by split; [|left]. }
  cbn [mbind result_bind].
  pose proof (gl_compile_objects _ _ _ _ _ ok Ev) as Hv. pose proof (compiled_ok _ _ _ ok Hv) as ok1.
  pose proof (gl_compile_objects _ _ _ _ _ ok1 Ef) as Hf. destruct (compiled_two _ _ _ _ _ Hv Hf) as (E2 & Hdis & Hne).
  assert (is_invalid rv || is_invalid rf = true -> objects_left v f g g2) as Hleft.
  { intros Hbad. exists rv, rf, g1, g2. split; [done|]. split; [done|]. unfold left_over. by rewrite Hbad. }
  destruct (is_invalid rv) eqn:Iv; [rewrite Iv; by apply Hleft|]. destruct (is_invalid rf) eqn:If; [rewrite If; by apply Hleft|].
  assert (Id rv <> 0) as Zv by (by apply Hv). assert (Id rf <> 0) as Zf by (by apply Hf).
  assert ({[Id rv; Id rf]} ∖ {[0]} =@{gset Z} {[Id rv; Id rf]}) as E0 by set_solver. rewrite E0 in E2, Hdis. specialize (Hne Zv).
  destruct (gl_link_shaders rv None rf g2) as [[r g3]|e] eqn:El.
  2: { apply (link_stops (objects g)) in El as [-> Hu]; [|done..]. split; [done|]. right. exists rv, g1. split; [done|]. right. by exists rf, g2. }
  cbn [mbind result_bind].
  destruct (link_objects _ rv rf r g2 g3 ok Hdis Hne E2 Iv If El) as [(Ir & Hfr & E3)|(Ir & E3)]; rewrite Ir.
  - destruct (release _ _ _ _ _ ok Hfr E3) as [_ E4]. destruct Hfr. by split_and!.
  - exists rv, rf, g1, g2. split; [done|]. split; [done|]. unfold left_over. rewrite Iv, If. cbn.
    rewrite (delete_shader_plus _ ok ({[Id rv; Id rf]} ∖ {[Id rv]}) ∅); [|apply (delete_shader_plus _ ok _ _ _ _ E3)|..]; [|set_solver..].
    apply objects_eq; cbn; set_solver.
Qed.

(** *** Messages *)

Lemma parsed_lines (file : str) (log : str) r0 : fits log -> compile_parse_shader_errors (mkResult file [] Invalid ∅) (c_string log) = Ok r0 ->
  fileSource r0 = file /\ Forall (fun m => 0 <= msg_line m < 2 ^ 31) (messages r0).
Proof.
  intros Hf%c_string_fits E. pose proof (shader_errors_parsed (mkResult file [] Invalid ∅) _ Hf) as Hp. rewrite E in Hp.
  destruct Hp as (new & Em & _ & _ & Hall & Ef & _). split; [done|]. rewrite Em. cbn. eapply Forall_impl; [exact Hall|]. by intros m [(_ & ? & _) _].
Qed.

(** C34. Messages about a shader in fragments are moved to the fragment they are
    about: of each message the compiler printed there is one in the result, of
    the file of the package, whose fragment and line number lead to the very
    line of the source that the compiler meant (to the end of that line, if a
    fragment stops in the middle of a line), unless it is behind the last line
    end of the source. *)
Theorem compile_messages_located (t : ShaderType) (kind : shader_kind) (pkg : ShaderPackage) (g g1 : G) (i : Z) :
  kind_of t = Ok kind -> fragments pkg <> [] -> glCreateShader kind g = (i, g1) ->
  Z.of_nat (ends (fragments pkg ≫= source)) < 2 ^ 31 -> Z.of_nat (length (fragments pkg)) < 2 ^ 31 ->
  let g2 := glCompileShader i (glShaderSource i (c_string (fragments pkg ≫= source)) g1) in
  forall len, glShaderLogLength i g2 = Some len -> 0 < len ->
  let log := c_string (glGetShaderInfoLog i len g2) in
  match compile t pkg g with
  | Ok (r, _) => exists r0, compile_parse_shader_errors (mkResult (path pkg) [] Invalid ∅) log = Ok r0 /\
      Forall2 (located (fragments pkg) (path pkg)) (messages r0) (messages (base r)) /\ state_of r = status (glShaderStatus i g2)
  | Err e => e = UB /\ least_int log
  end.
Proof.
  intros Hk Hfs Ec Hends Hlen g2 len Elog Hlog log. unfold gl_compile_shader. rewrite Hk, Ec. unfold compile_created.
  assert (shader_source disk pkg = Some (fragments pkg ≫= source)) as -> by (unfold shader_source; by destruct (fragments pkg)).
  fold g2. cbv zeta. rewrite Elog. cbn [of_option mbind result_bind].
  destruct (Z.ltb_spec 0 len); [|lia]. fold log.
  destruct (compile_parse_shader_errors _ log) as [r0|e] eqn:E0; cbn [mbind result_bind].
  - destruct (parsed_lines _ _ r0 (proj1 (logs_fit _ _ _)) E0) as [Efile Hl].
    assert (Forall2 (located (fragments pkg) (path pkg)) (messages r0) (messages (fix_messages (counts_of (fragments pkg)) r0))) as Hloc.
    { cbn. rewrite Efile. apply Forall2_fmap_r. apply Forall_Forall2_diag. eapply Forall_impl; [exact Hl|]. intros m Hm. by apply fix_message_located. }
    destruct (glShaderStatus i g2); cbn; by exists r0.
  - apply parse_stops in E0 as [-> Hl]; [by split|apply logs_fit].
Qed.
End load.

(** ** A concrete OpenGL *)

(** One that prints the same log for every shader and program, and compiles and
    links or does not. *)
Definition sim_gl (compiles links : bool) (log : str) : GLShaders gl_objects := {|
  glCreateShader _ g := let i := fresh ({[0]} ∪ shaders g ∪ programs g) in (i, add_shader i g);
  glShaderSource _ _ g := g; glCompileShader _ g := g; glShaderStatus _ _ := compiles; glShaderLogLength i _ := if i =? 0 then None else Some (Z.of_nat (length log));
  glGetShaderInfoLog _ _ _ := log; glDeleteShader := delete_shader;
  glCreateProgram g := let p := fresh ({[0]} ∪ shaders g ∪ programs g) in (p, add_program p g);
  glAttachShader := attach; glDetachShader := detach; glLinkProgram _ g := g; glProgramStatus _ _ := links;
  glProgramLogLength p _ := if p =? 0 then None else Some (Z.of_nat (length log)); glGetProgramInfoLog _ _ _ := log; glDeleteProgram := delete_program;
  glGetError g := g; objects g := g |}.

Lemma fresh_object (g : gl_objects) : let i := fresh ({[0]} ∪ shaders g ∪ programs g) in i <> 0 /\ i ∉ shaders g ∪ programs g.
Proof. intros i. pose proof (is_fresh ({[0]} ∪ shaders g ∪ programs g)) as Hi. fold i in Hi. set_solver. Qed.

#[global] Instance sim_laws compiles links log : GLShaderLaws gl_objects (H := sim_gl compiles links log).
Proof.
  split; try done; cbn.
  - intros _ g i g' [= <- <-]. right. destruct (fresh_object g). by split_and!.
  - intros g p g' [= <- <-]. right. destruct (fresh_object g). by split_and!.
  - intros i g Hi _. by rewrite (proj2 (Z.eqb_neq i 0) Hi).
  - intros p g Hp _. by rewrite (proj2 (Z.eqb_neq p 0) Hp).
Qed.

Definition no_objects : gl_objects := mkObjects ∅ ∅ ∅ ∅ 0.

Lemma no_objects_ok : objects_ok no_objects.
Proof. split; cbn; set_solver. Qed.

(** A disk with one shader. *)
Definition one_shader : FileSystem unit := {|
  fs_exists _ _ := true; fs_absolute p _ := Ok p; fs_canonical p _ := Ok p; fs_is_directory _ _ := Ok false;
  fs_temp_directory_path _ := Ok (lit "/tmp"); fs_parent_path p := p; fs_create_directories _ d := Ok d; fs_copy _ _ d := Ok d;
  ifstream_read p _ := if bool_decide (p = lit "a.glsl") then Some (lit "void main() {}") else None;
  ofstream_write _ _ _ := None; tinydir_open _ _ := None |}.

Lemma load_program_objects_witness :
  exists r, gl_load_program (H := sim_gl true true []) (H0 := one_shader) tt (lit "a.glsl") (lit "a.glsl") no_objects = Ok (r, add_program (Id r) no_objects) /\ Id r <> 0.
Proof.
  pose proof (load_program_objects (H := sim_gl true true []) (H1 := one_shader) tt (fun _ _ _ => conj eq_refl eq_refl)
    (lit "a.glsl") (lit "a.glsl") no_objects no_objects_ok) as Hp.
  destruct (gl_load_program tt (lit "a.glsl") (lit "a.glsl") no_objects) as [[r g']|e] eqn:E; [|by vm_compute in E].
  assert (is_invalid r = false) as Hr by (vm_compute in E; by injection E as <- _).
  rewrite Hr in Hp. destruct Hp as (Hid & _ & Hg). change (g' = add_program (Id r) no_objects) in Hg. subst g'. by exists r.
Defined.

(** A vertex shader whose file is missing is never deleted, and with it the
    fragment shader, which compiles. *)
Theorem load_program_leaks :
  exists r g', gl_load_program (H := sim_gl true true []) (H0 := one_shader) tt (lit "missing.glsl") (lit "a.glsl") no_objects = Ok (r, g') /\
    is_invalid r = true /\ size (shaders g') = 2%nat.
Proof. eexists _, _. split; [vm_compute; reflexivity|]. by split. Qed.

(** Two fragments of two lines; the log is about the third line. *)
Definition two_fragments : ShaderPackage :=
  let lf := ["010"%char] in
  mkPackage [mkFragment (lit "first") (lit "a" ++ lf ++ lit "b" ++ lf); mkFragment (lit "second") (lit "c" ++ lf ++ lit "d" ++ lf)] 0 (lit "x.glsl") ∅.

Lemma compile_messages_located_witness :
  exists r g' m0 m, gl_compile_shader (H := sim_gl false false (lit "0(3): bad")) (H0 := one_shader) tt ShaderVertex two_fragments no_objects = Ok (r, g') /\
    messages (base r) = [m] /\ msg_line m0 = 2 /\ fragmentIndex m = 1 /\ msg_line m = 0 /\
    located (fragments two_fragments) (lit "x.glsl") m0 m /\ state_of r = Invalid.
Proof.
  pose proof (compile_messages_located (H := sim_gl false false (lit "0(3): bad")) (H1 := one_shader) tt (fun _ _ _ => conj eq_refl eq_refl)
    ShaderVertex GL_VERTEX_SHADER two_fragments no_objects _ _ eq_refl ltac:(discriminate) eq_refl eq_refl eq_refl _ eq_refl eq_refl) as Hp.
  destruct (gl_compile_shader tt ShaderVertex two_fragments no_objects) as [[r g']|e] eqn:E; [|by vm_compute in E].
  destruct Hp as (r0 & E0 & Hl & Hs). vm_compute in E0. injection E0 as <-. exists r, g'. vm_compute in E. injection E as <- <-.
  apply Forall2_cons in Hl as [Hm _]. match type of Hm with located _ _ ?m0 ?m => exists m0, m end. split_and!; done.
Defined.
