(* ===== verification/Colors.v ===== *)
(** * Default colours and the scale of the display

    src/ui/colors.cpp and src/ui/dpi.cpp: the list of default colours, which
    is computed at its first use, and the global scale factors. [check_dpi]
    does nothing but on Windows. *)

From S2P Require Import Prelude Float32 MathVec Theme.
Import F32Notations.

(** ** Default colours: [DefaultColors] is the state. *)

Definition NUM_DEFAULT_COLORS : Z := 16.

Fixpoint calculate_loop (n : nat) (h : f64) (DefaultColors : list NVec4f) : result stop (list NVec4f) :=
  match n with
  | O => Ok DefaultColors
  | S n =>
      let h := fmod1 (SFadd 53 1024 h golden_ratio_conjugate) in
      c ← HSVToRGB (sf_conv 24 128 h *. #360) (f32_lit 6 10) (#200);
      calculate_loop n h (DefaultColors ++ [c])
  end.

Definition colors_calculate_defaults (DefaultColors : list NVec4f) : result stop (list NVec4f) :=
  calculate_loop (Z.to_nat NUM_DEFAULT_COLORS) (sf_conv 53 1024 (f32_lit 85 100)) DefaultColors.

Definition colors_get_default (id : Z) (DefaultColors : list NVec4f) : result stop (NVec4f * list NVec4f) :=
  DefaultColors ← (match DefaultColors with [] => colors_calculate_defaults [] | _ => Ok DefaultColors end);
  c ← of_option UB (DefaultColors !! Z.to_nat (id mod NUM_DEFAULT_COLORS));
  Ok (c, DefaultColors).

(** ** The scale of the display *)

Record Dpi : Type := mkDpi { scaleFactor : f32; scaleFactorXY : NVec2 f32 }.
Definition dpi_start : Dpi := mkDpi (#1) (mkVec2 (#1) (#1)).

Definition set_dpi (value : NVec2 f32) (dpi : Dpi) : Dpi := mkDpi (x2 value) value.

Definition dpi_pixel_height_from_point_size (pointSize pixelScaleY : f32) : f32 :=
  let inches := pointSize /. #72 in inches *. (pixelScaleY *. #96).

(** ** Theorems *)

#[global] Instance spec_float_eq_dec : EqDecision spec_float.
Proof. intros a b. unfold Decision. decide equality; first [apply Bool.bool_dec|apply Pos.eq_dec|apply Z.eq_dec]. Defined.
#[global] Instance NVec4_eq_dec : EqDecision NVec4f.
Proof. intros a b. unfold Decision. decide equality; apply spec_float_eq_dec. Defined.

(** The colours that are computed. *)
Definition default_colors : list NVec4f := match colors_calculate_defaults [] with Ok l => l | Err _ => [] end.

Lemma default_colors_computed : colors_calculate_defaults [] = Ok default_colors /\ length default_colors = 16%nat.
Proof. split; vm_compute; reflexivity. Qed.

(** A program that asks for colours. *)
Fixpoint ask (ids : list Z) (DefaultColors : list NVec4f) : result stop (list NVec4f) :=
  match ids with
  | [] => Ok []
  | i :: ids => cs ← colors_get_default i DefaultColors; rest ← ask ids cs.2; Ok (cs.1 :: rest)
  end.

Lemma get_default_ok i l : l = [] \/ l = default_colors ->
  exists c, colors_get_default i l = Ok (c, default_colors) /\ default_colors !! Z.to_nat (i mod 16) = Some c.
Proof.
  destruct default_colors_computed as [E Hlen]. intros Hl. pose proof (Z.mod_pos_bound i 16).
  destruct (lookup_lt_is_Some_2 default_colors (Z.to_nat (i mod 16))) as [c Hc]; [lia|]. exists c. split; [|done].
  unfold colors_get_default, NUM_DEFAULT_COLORS.
  assert ((match l with [] => colors_calculate_defaults [] | _ => Ok l end) = Ok default_colors) as ->.
  { destruct Hl as [-> | ->]; [done|]. by destruct default_colors. }
  cbn [mbind result_bind]. by rewrite Hc.
Qed.

(** Asking for colours never fails; the colour of a number depends on the number
    alone, and two numbers have the same colour exactly if they are equal modulo
    sixteen: the colours are all different. *)
Theorem default_colors_distinct ids :
  exists cs, ask ids [] = Ok cs /\ Forall2 (fun i c => default_colors !! Z.to_nat (i mod 16) = Some c) ids cs /\
    forall i j, default_colors !! Z.to_nat (i mod 16) = default_colors !! Z.to_nat (j mod 16) <-> i mod 16 = j mod 16.
Proof.
  assert (forall l, l = [] \/ l = default_colors -> exists cs, ask ids l = Ok cs /\ Forall2 (fun i c => default_colors !! Z.to_nat (i mod 16) = Some c) ids cs) as Hask.
  { induction ids as [|i ids IH]; intros l Hl; [by exists []|]. destruct (get_default_ok i l Hl) as (c & Ec & Hc).
    destruct (IH default_colors (or_intror eq_refl)) as (cs & Es & Hcs). exists (c :: cs). split; [|by constructor].
    cbn [ask]. rewrite Ec. cbn [mbind result_bind snd fst]. by rewrite Es. }
  destruct (Hask [] (or_introl eq_refl)) as (cs & E & Hcs). exists cs. split; [done|]. split; [done|]. intros i j. split; [|by intros ->].
  assert (NoDup default_colors) as Hnd by (apply (bool_decide_unpack _); vm_compute; exact I).
  intros Heq. pose proof (Z.mod_pos_bound i 16). pose proof (Z.mod_pos_bound j 16).
  destruct (lookup_lt_is_Some_2 default_colors (Z.to_nat (i mod 16))) as [c Hc]; [destruct default_colors_computed; lia|].
  rewrite Hc in Heq. symmetry in Heq. pose proof (NoDup_lookup _ _ _ _ Hnd Hc Heq). lia.
Qed.
