(* ===== verification/Logger.v ===== *)
(** * The logger

    include/mutils/logger/logger.h on a system that is not Windows: a [Log] is
    an object that lives for one statement and writes its line when it ends. The
    text an argument is formatted to, and that of the identifier of the thread,
    are given. *)

From S2P Require Import Prelude.

Inductive LT : Type := LT_NONE | LT_DBG | LT_INFO | LT_WARNING | LT_ERROR.

(** The order of the enumeration. *)
Definition LT_index (t : LT) : Z :=
  match t with LT_NONE => 0 | LT_DBG => 1 | LT_INFO => 2 | LT_WARNING => 3 | LT_ERROR => 4 end.

Record Logger : Type := mkLogger { headers : bool; level : LT }.
Definition logger_default : Logger := mkLogger false LT_WARNING.

Record Log : Type := mkLog { opened : bool; msglevel : LT; out : str }.

Definition getLabel (type : LT) : str :=
  match type with
  | LT_DBG => lit "DEBUG"
  | LT_INFO => lit "INFO "
  | LT_WARNING => lit "WARN "
  | LT_ERROR => lit "ERROR"
  | LT_NONE => lit "NONE"
  end.

Section Log.
Context (logger : Logger) (disabled : bool) (thread_id : str).

(** [operator<<] *)
Definition Log_put (msg : str) (l : Log) : Log :=
  if disabled || (LT_index (msglevel l) <? LT_index (level logger)) then l
  else mkLog true (msglevel l) (out l ++ msg).

Definition Log_default : Log := mkLog false LT_DBG [].

Definition Log_make (type : LT) : Log :=
  let l := mkLog false type [] in
  let l := if headers logger && (LT_index (level logger) <=? LT_index type) then Log_put (lit "[" ++ getLabel type ++ lit "] ") l else l in
  mkLog (opened l) (msglevel l) (out l ++ lit "(T:" ++ thread_id ++ lit ") ").

(** The destructor: what is added to the standard output. *)
Definition Log_destroy (l : Log) (cout : str) : str := if opened l then cout ++ out l ++ ["010"%char] else cout.

(** [LOG(type, msgs...)] of a debug build; in another build it is nothing. *)
Definition LOG (debug : bool) (type : LT) (msgs : list str) (cout : str) : str :=
  if debug then Log_destroy (foldl (fun l m => Log_put m l) (Log_make type) msgs) cout else cout.
End Log.

(** The line of a message. *)
Definition log_line (logger : Logger) (thread_id : str) (type : LT) (msgs : list str) : str :=
  (if headers logger then lit "[" ++ getLabel type ++ lit "] " else []) ++ lit "(T:" ++ thread_id ++ lit ") " ++ concat msgs ++ ["010"%char].

Lemma log_puts logger disabled msgs l :
  foldl (fun l m => Log_put logger disabled m l) l msgs =
    if disabled || (LT_index (msglevel l) <? LT_index (level logger)) then l
    else mkLog (opened l || negb (bool_decide (msgs = []))) (msglevel l) (out l ++ concat msgs).
Proof.
  revert l. induction msgs as [|m msgs IH]; intros l; cbn [foldl concat].
  - rewrite app_nil_r, orb_false_r. destruct l. by destruct (_ || _).
  - rewrite IH. unfold Log_put. destruct (disabled || (LT_index (msglevel l) <? _)) eqn:E; [by rewrite E|]. cbn. rewrite E. by rewrite orb_true_r, <- app_assoc.
Qed.

(** A statement [LOG(type, a << b << ...)] of a debug build writes one line, with
    its label if there are to be labels, if its level is that of the logger or
    higher, and nothing otherwise; also when [Log::disabled] is set nothing is
    written. *)
Theorem log_statement logger disabled thread_id type msgs cout : msgs <> [] ->
  LOG logger disabled thread_id true type msgs cout =
    cout ++ (if disabled || (LT_index type <? LT_index (level logger)) then [] else log_line logger thread_id type msgs).
Proof.
  intros Hm. unfold LOG. rewrite log_puts. unfold Log_make, log_line. destruct disabled; cbn [orb].
  - unfold Log_put, Log_destroy. cbn. destruct (headers logger && _); cbn; by rewrite app_nil_r.
  - unfold Log_put. cbn. destruct (Z.ltb_spec (LT_index type) (LT_index (level logger))).
    + destruct (Z.leb_spec (LT_index (level logger)) (LT_index type)); [lia|]. rewrite andb_false_r. cbn.
      destruct (Z.ltb_spec (LT_index type) (LT_index (level logger))); [|lia]. cbn. by rewrite app_nil_r.
    + destruct (Z.leb_spec (LT_index (level logger)) (LT_index type)); [|lia]. rewrite andb_true_r. unfold Log_destroy.
      destruct (headers logger); cbn; (destruct (Z.ltb_spec (LT_index type) (LT_index (level logger))); [lia|]); cbn;
        rewrite ?bool_decide_eq_false_2 by done; cbn; by repeat (rewrite <- ?app_assoc; cbn).
Qed.
