(* ===== verification/Candles.v ===== *)
(** * The candles of the profiler

    src/time/profiler.cpp, [ShowCandles]: the two rows of candles at the top of
    the window, one for the frames and one for the regions. [drawRegions] walks
    over the pixels of a row, averages the durations of the regions that fall
    into each, and finds the time that is selected with the mouse.

    What is drawn is a list of rectangles; what is asked of Dear ImGui (the
    position of the click) and of the theme (the colours) is an argument. Times
    are [int64_t], coordinates are [float]. *)

From S2P Require Import Prelude StdString StringUtils Profiler Float32 MathVec.
Import F32Notations.

Abbreviation NRectf := (NRect f32).

(** A candle: from the pixel [c_left] to [c_right]. *)
Record candle : Type := mkCandle { c_left : f32; c_right : f32; c_height : f32; c_lerp : f32; c_on : bool }.

(** The variables of the walk. *)
Record walk_state : Type := mkWalk {
  pixelTime : Z; currentRegion : Z; lastX : f32; pendingCandleHeight : f32; pendingColorLerp : f32; colOn : bool; dragTimeRange : Z * Z;
  candles : list candle
}.

Definition no_x : f32 := #(-1).
Definition is_no_x (x : f32) : bool := SFeqb x no_x.

(** [std::min(x, 1.0f)] and [std::clamp(x, 0.0f, 1.0f)] *)
Definition min1 (x : f32) : f32 := if SFltb (#1) x then #1 else x.
Definition clamp01 (x : f32) : f32 := if SFltb x (#0) then #0 else if SFltb (#1) x then #1 else x.

(** The candle that is pending, up to a pixel; the colours alternate. *)
Definition draw_pending (right : f32) (w : walk_state) : walk_state :=
  mkWalk (pixelTime w) (currentRegion w) (lastX w) (pendingCandleHeight w) (pendingColorLerp w) (negb (colOn w)) (dragTimeRange w)
    (candles w ++ [mkCandle (lastX w) right (pendingCandleHeight w) (pendingColorLerp w) (colOn w)]).

Definition set_pending (x height lerp : f32) (w : walk_state) : walk_state :=
  mkWalk (pixelTime w) (currentRegion w) x height lerp (colOn w) (dragTimeRange w) (candles w).

Section Regions.
Context (maxRegion : Z) (regionData : list Region).

Definition region_at (i : Z) : result stop Region := of_option UB (vget regionData i).

(** "Keep global counters to simplify finding the regions": the two loops, of
    which the second is that of "Catch up to the pixel" as well. *)
Fixpoint regions_back (fuel : nat) (t i : Z) : result stop Z :=
  if 0 <? i then
    r ← region_at i;
    if t <? r_startTime r then match fuel with O => Err OutOfFuel | S fuel => regions_back fuel t (i - 1) end
    else Ok i
  else Ok i.

Fixpoint regions_forward (fuel : nat) (t i : Z) : result stop Z :=
  if i <? maxRegion then
    r ← region_at i;
    if r_endTime r <? t then match fuel with O => Err OutOfFuel | S fuel => regions_forward fuel t (i + 1) end
    else Ok i
  else Ok i.

Context (timePerPixel : Z) (regionFind : bool) (dragLimits : f32 * f32).

(** The share of a region in a pixel, added to the total. *)
Definition add_overlap (t : Z) (data : Region) (totals : Z * Z) : result stop (Z * Z) :=
  let '(totalDuration, count) := totals in
  pixelEnd ← s_check 64 (t + timePerPixel);
  let x := Z.max (r_startTime data) t in
  let y := Z.min (r_endTime data) pixelEnd in
  if x <? y then
    overlap ← s_check 64 (y - x);
    let overlapRatio := f32_of_Z overlap /. f32_of_Z timePerPixel in
    duration ← s_check 64 (r_endTime data - r_startTime data);
    totalDuration ← sf_to_int (- 2 ^ 63) (2 ^ 63) (f32_of_Z totalDuration +. (f32_of_Z duration *. overlapRatio));
    Ok (totalDuration, u32 (count + 1))
  else Ok (totalDuration, count).

(** "Find the time region which the mouse has selected" *)
Definition select_time (pixel : f32) (first last : Z) (drag : Z * Z) : Z * Z :=
  if regionFind then
    let drag := if (drag.1 =? 0) && SFltb dragLimits.1 pixel then (first, last) else drag in
    if SFleb pixel dragLimits.2 then (drag.1, last) else drag
  else drag.

(** "Collect durations of all candles within this pixel" *)
Fixpoint collect (fuel : nat) (pixel : f32) (t first i : Z) (totals drag : Z * Z) : result stop (Z * (Z * Z) * (Z * Z)) :=
  if i <? maxRegion then
    data ← region_at i;
    totals ← add_overlap t data totals;
    let drag := select_time pixel first (r_endTime data) drag in
    pixelEnd ← s_check 64 (t + timePerPixel);
    if pixelEnd <? r_endTime data then Ok (i, totals, drag)
    else match fuel with O => Err OutOfFuel | S fuel => collect fuel pixel t first (i + 1) totals drag end
  else Ok (i, totals, drag).

Context (maxTime limitTime : Z).

(** The candle of a pixel with regions in it. *)
Definition average (pixel : f32) (totals : Z * Z) (w : walk_state) : walk_state :=
  let '(totalDuration, count) := totals in
  if 0 <? count then
    let totalDuration := Z.quot totalDuration count in
    let candleHeight := min1 (f32_of_Z totalDuration /. f32_of_Z maxTime) in
    let candleColorLerp := clamp01 (f32_of_Z totalDuration /. f32_of_Z limitTime) in
    let w := if is_no_x (lastX w) then set_pending pixel (pendingCandleHeight w) (pendingColorLerp w) w
             else if negb (SFeqb (pendingCandleHeight w) candleHeight)
                  then set_pending no_x (pendingCandleHeight w) (pendingColorLerp w) (draw_pending pixel w)
             else w in
    set_pending (lastX w) candleHeight candleColorLerp w
  else set_pending no_x (pendingCandleHeight w) (pendingColorLerp w) w.

(** The body of "Walk the pixels"; whether to go on. *)
Definition walk_pixel (fuel : nat) (pixel : f32) (w : walk_state) : result stop (bool * walk_state) :=
  t ← s_check 64 (pixelTime w + timePerPixel);
  i ← regions_forward fuel t (currentRegion w);
  let w := mkWalk t i (lastX w) (pendingCandleHeight w) (pendingColorLerp w) (colOn w) (dragTimeRange w) (candles w) in
  if maxRegion <=? i then Ok (false, set_pending no_x (pendingCandleHeight w) (pendingColorLerp w) w)
  else
    data ← region_at i;
    pixelEnd ← s_check 64 (t + timePerPixel);
    if pixelEnd <? r_startTime data then
      let w := if negb (is_no_x (lastX w)) && negb (SFeqb (pendingCandleHeight w) (#0)) then draw_pending pixel w else w in
      Ok (true, set_pending no_x (#0) (pendingColorLerp w) w)
    else
      c ← collect fuel pixel t (r_startTime data) i (0, 0) (dragTimeRange w);
      let '(i, totals, drag) := c in
      let w := mkWalk t i (lastX w) (pendingCandleHeight w) (pendingColorLerp w) (colOn w) drag (candles w) in
      Ok (true, average pixel totals w).

Fixpoint walk_pixels (fuel pixels : nat) (pixel right : f32) (w : walk_state) : result stop walk_state :=
  if SFltb pixel right then
    match pixels with
    | O => Err OutOfFuel
    | S pixels =>
        bw ← walk_pixel fuel pixel w;
        if (bw.1 : bool) then walk_pixels fuel pixels (pixel +. #1) right bw.2 else Ok bw.2
    end
  else Ok w.
End Regions.

(** [int64_t(x)] *)
Definition to_int64 (x : f32) : result stop Z := sf_to_int (- 2 ^ 63) (2 ^ 63) x.

(** [drawRegions] up to what it draws: the new start of the display, the
    selected time and the candles. *)
Definition region_candles (fuel pixels : nat) (maxRegion : Z) (region : NRectf) (framesStartTime framesDuration : Z) (regionData : list Region)
  (regionDisplayStart maxTime limitTime : Z) (clicked : NVec2 f32) (gCandleDragRect : NRectf) (drag : Z * Z) :
  result stop (Z * (Z * Z) * list candle) :=
  width ← Width (T := f32) region;
  width ← to_int64 width;
  timePerPixel ← (if width =? 0 then Err UB else s_check 64 (Z.quot framesDuration width));
  let start := Z.max (Z.min regionDisplayStart (u32 (maxRegion - 1))) 0 in
  start ← regions_back regionData fuel framesStartTime start;
  start ← regions_forward maxRegion regionData fuel framesStartTime start;
  let dragLimits := (x2 (topLeftPx gCandleDragRect) +. Left (T := f32) region, Right (T := f32) gCandleDragRect +. Left (T := f32) region) in
  time ← s_check 64 (framesStartTime - timePerPixel);
  let regionFind := Contains (T := f32) region clicked && negb (SFeqb dragLimits.1 dragLimits.2) in
  w ← walk_pixels maxRegion regionData timePerPixel regionFind dragLimits maxTime limitTime fuel pixels (Left (T := f32) region) (Right (T := f32) region)
        (mkWalk time start no_x (#0) (#0) (Z.odd start) drag []);
  let w := if is_no_x (lastX w) then w else draw_pending (Right (T := f32) region) w in
  Ok (start, dragTimeRange w, candles w).

(** ** Drawing *)

(** [AddRectFilled]: the corners and the colour. *)
Record rect_filled : Type := mkFilled { f_min : NVec2 f32; f_max : NVec2 f32; f_color : Z }.

Definition draw_candle (region : NRectf) (color1 color2 MaxCandleColor : NVec4 f32) (c : candle) : result stop rect_filled :=
  col ← NVec4_Mix (if c_on c then color1 else color2) MaxCandleColor (c_lerp c);
  col ← NVec4_ToPackedABGR col;
  height ← Height (T := f32) region;
  let h := c_height c *. (height : f32) -. #2 in
  let bottom := Bottom (T := f32) region -. #1 in
  Ok (mkFilled (mkVec2 (c_left c) (bottom -. (if SFltb (#1) h then h else #1))) (mkVec2 (c_right c) bottom) col).

Definition drawRegions (NDEBUG : bool) (fuel pixels : nat) (maxRegion : Z) (region : NRectf) (framesStartTime framesDuration : Z)
  (regionData : list Region) (regionDisplayStart maxTime limitTime : Z) (color1 color2 MaxCandleColor : NVec4 f32)
  (clicked : NVec2 f32) (gCandleDragRect : NRectf) (drag : Z * Z) : result stop (Z * (Z * Z) * list rect_filled) :=
  sdc ← region_candles fuel pixels maxRegion region framesStartTime framesDuration regionData regionDisplayStart maxTime limitTime
          clicked gCandleDragRect drag;
  let '(start, drag, cs) := sdc in
  rects ← map_result (draw_candle region color1 color2 MaxCandleColor) cs;
  empty ← Empty (T := f32) gCandleDragRect;
  let rects := if (empty : bool) then rects
    else rects ++ [mkFilled (mkVec2 (Left (T := f32) gCandleDragRect +. x2 (topLeftPx region)) (y2 (topLeftPx region)))
                            (mkVec2 (Right (T := f32) gCandleDragRect +. x2 (topLeftPx region)) (Bottom (T := f32) region)) 0x77777777] in
  if negb NDEBUG && (drag.2 <? drag.1) then Err AssertFail
  else Ok (start, drag, rects).

(** ** The mouse *)

(** What is asked of Dear ImGui about an item. *)
Record gui : Type := mkGui {
  IsItemActive : bool; IsMouseDragging : bool; MouseDragDelta : NVec2 f32; KeyCtrl : bool; MouseClickedPos : NVec2 f32; IsMouseClicked : bool;
  IsMouseHoveringRect : NVec2 f32 -> NVec2 f32 -> bool; IsMouseReleased : bool; MouseWheel : f32; MousePos : NVec2 f32
}.

Definition MinLeadInFrames : Z := 3.
Definition MinFrame : Z := MinLeadInFrames - 2.

Definition v2_add (a b : NVec2 f32) : NVec2 f32 := mkVec2 (x2 a +. x2 b) (y2 a +. y2 b).
Definition v2_sub (a b : NVec2 f32) : NVec2 f32 := mkVec2 (x2 a -. x2 b) (y2 a -. y2 b).

(** [ImSign] *)
Definition ImSign (x : f32) : f32 := if SFltb x (#0) then #(-1) else if SFltb (#0) x then #1 else #0.

(** [std::clamp] on floats; an empty range is undefined. *)
Definition clampf (v lo hi : f32) : result stop f32 :=
  if SFltb hi lo then Err UB else Ok (if SFltb v lo then lo else if SFltb hi v then hi else v).

(** The wheel over a row: zoom about the candle under the mouse, inside the
    frames that were recorded. *)
Definition zoom_range (g : gui) (region : NRectf) (regionSize range : NVec2 f32) (currentFrame : Z) : result stop (bool * NVec2 f32) :=
  let zoom := ImSign (MouseWheel g) *. #1 in
  if SFeqb zoom (#0) then Ok (false, range)
  else
    let tenPercent := ((y2 range -. x2 range) *. f32_lit 1 10) *. zoom in
    let newVisible := v2_add range (mkVec2 tenPercent (SFopp tenPercent)) in
    let mouseToCandle (r : NVec2 f32) := ((x2 (MousePos g) -. Left (T := f32) region) /. x2 regionSize) *. (y2 r -. x2 r) +. x2 r in
    let moved := mouseToCandle newVisible -. mouseToCandle range in
    let newVisible := v2_sub newVisible (mkVec2 moved moved) in
    if SFleb (#4) (y2 newVisible -. x2 newVisible) then
      let lo := f32_of_Z MinFrame in
      let hi := f32_of_Z (u32 (currentFrame - 1)) in
      let range := newVisible in
      let range := if SFltb (x2 range) lo then let diff := lo -. x2 range in v2_add range (mkVec2 diff diff) else range in
      let range := if SFltb (f32_of_Z (i32 (currentFrame - 1))) (y2 range) then let diff := y2 range -. hi in v2_sub range (mkVec2 diff diff) else range in
      x ← clampf (x2 range) lo hi;
      y ← clampf (y2 range) lo hi;
      Ok (true, mkVec2 x y)
    else Ok (false, range).

(** The selection of a click. *)
Definition click_rect (g : gui) (region : NRectf) (size : NVec2 f32) : NRectf :=
  let p := v2_sub (MouseClickedPos g) (topLeftPx region) in Normalize (T := f32) (mkRect p (v2_add p size)).

(** Whether the range changed, the range, and [gCandleDragRect]. *)
Definition handleMouse (gPaused : bool) (g : gui) (region : NRectf) (range : NVec2 f32) (currentFrame : Z) (gCandleDragRect : NRectf) :
  result stop (bool * NVec2 f32 * NRectf) :=
  let regionSize := v2_sub (bottomRightPx region) (topLeftPx region) in
  if negb gPaused then Ok (false, range, Clear (T := f32) gCandleDragRect)
  else
    let '(changed, range, rect) :=
      if IsItemActive g then
        if IsMouseDragging g then
          if KeyCtrl g then (false, range, click_rect g region (MouseDragDelta g))
          else
            let d := (x2 (MouseDragDelta g) /. x2 regionSize) *. (y2 range -. x2 range) in
            let newVisible := v2_sub range (mkVec2 d d) in
            if SFltb (y2 newVisible) (f32_of_Z (u32 (currentFrame - 1))) && SFleb (f32_of_Z MinFrame) (x2 newVisible)
            then (true, newVisible, NRect_default (T := f32))
            else (false, range, NRect_default (T := f32))
        else if IsMouseClicked g then (false, range, Clear (T := f32) gCandleDragRect)
        else (false, range, gCandleDragRect)
      else (false, range, gCandleDragRect) in
    if IsMouseHoveringRect g (topLeftPx region) (bottomRightPx region) then
      empty ← Empty (T := f32) rect;
      let rect := if IsMouseReleased g && (empty : bool) then click_rect g region (mkVec2 (#1) (#0)) else rect in
      if SFeqb (MouseWheel g) (#0) then Ok (changed, range, rect)
      else
        cr ← zoom_range g region regionSize range currentFrame;
        Ok (changed || cr.1, cr.2, Clear (T := f32) rect)
    else Ok (changed, range, rect).

(** ** [ShowCandles] *)

(** The colours of the theme that it uses: the two of the frames, the two of the
    regions, and that of the longest candles. *)
Record candle_colors : Type := mkColors { FrameColor : NVec4 f32; FrameAlt : NVec4 f32; RegionColor : NVec4 f32; RegionAlt : NVec4 f32; MaxColor : NVec4 f32 }.

(** The globals of the viewer that [globals] does not have. *)
Record view_state : Type := mkView { gFrameCandleRange : NVec2 f32; gCandleDragRect : NRectf }.

Definition set_displays (frames regions : Z) (g : globals) : globals :=
  mkG (settings g) (gTimer g) (gPaused g) (gRequestPause g) (gRestarting g) (gProfilerGeneration g) (tls g) (gThreadData g) (gFrameData g)
    (gRegionData g) (gMaxFrameTime g) (gCurrentFrame g) (gCurrentRegion g) (gRegionTimeLimit g) regions frames (gTimeRange g) (gVisibleFrames g).

(** The range of the frames while the profiler records. *)
Definition running_range (g : globals) (range : NVec2 f32) : NVec2 f32 :=
  if negb (gPaused g) && (MinLeadInFrames <=? gCurrentFrame g) then
    let x := f32_of_Z MinFrame in
    mkVec2 (if SFltb x (#0) then #0 else x) (f32_of_Z (u32 (gCurrentFrame g - 1)))
  else range.

(** The start of a frame of the range. *)
Definition frame_start (g : globals) (x : f32) : result stop Z :=
  i ← to_int64 x; f ← of_option UB (vget (gFrameData g) i); Ok (r_startTime (f_base f)).

(** The selected time, the new [regionMin], the globals and what is drawn. *)
Definition ShowCandles (NDEBUG : bool) (fuel pixels : nat) (scaleY : f32) (colors : candle_colors) (input : gui) (regionMin regionMax : NVec2 f32)
  (g : globals) (v : view_state) : result stop ((Z * Z) * NVec2 f32 * globals * view_state * list rect_filled) :=
  let CandleHeight := #30 *. scaleY in
  regionFrames ← NRect_make (T := f32) (x2 regionMin) (y2 regionMin) (x2 regionMax -. x2 regionMin) CandleHeight;
  regionRegion ← NRect_make (T := f32) (x2 regionMin) (y2 regionMin +. CandleHeight) (x2 regionMax -. x2 regionMin) CandleHeight;
  let regionBoth := mkRect (topLeftPx regionFrames) (bottomRightPx regionRegion) in
  crr ← handleMouse (gPaused g) input regionBoth (gFrameCandleRange v) (gCurrentFrame g) (gCandleDragRect v);
  let '(_, range, rect) := crr in
  let range := running_range g range in
  framesStartTime ← frame_start g (x2 range);
  framesEnd ← frame_start g (y2 range);
  framesDuration ← s_check 64 (framesEnd - framesStartTime);
  fdr ← drawRegions NDEBUG fuel pixels (gCurrentFrame g) regionFrames framesStartTime framesDuration (f_base <$> gFrameData g) (gFrameDisplayStart g)
          (gMaxFrameTime g) (gMaxFrameTime g) (FrameColor colors) (FrameAlt colors) (MaxColor colors) (MouseClickedPos input) rect (0, 0);
  let '(frameDisplay, drag, rects) := fdr in
  rdr ← drawRegions NDEBUG fuel pixels (gCurrentRegion g) regionRegion framesStartTime framesDuration (gRegionData g) (gRegionDisplayStart g)
          (gRegionTimeLimit g) (gRegionTimeLimit g) (RegionColor colors) (RegionAlt colors) (MaxColor colors) (MouseClickedPos input) rect drag;
  let '(regionDisplay, drag, rects') := rdr in
  let y := (y2 regionMin +. (CandleHeight +. #2 *. scaleY)) +. CandleHeight in
  Ok (if drag.2 <? drag.1 then (0, 0) else drag, mkVec2 (x2 regionMin) y, set_displays frameDisplay regionDisplay g, mkView range rect, rects ++ rects').
