(* ===== verification/CandlesTheory.v ===== *)
(** * Theorems on the candles of the profiler *)

From S2P Require Import Prelude StdString StringUtils Profiler ProfilerTheory Float32 MathVec Candles.

(** ** Pixels are exact *)

Lemma trunc_exact z : sf_exact 24 z -> sf_trunc (f32_of_Z z) = Some z.
Proof.
  intros Hz. destruct (decide (z = 0)) as [->|Hn]; [done|].
  destruct (sf_of_Z_rep 24 128 ltac:(lia) z Hz Hn) as (m & e & -> & He & Hm). specialize (Hm e ltac:(lia)).
  unfold shl_align in Hm. rewrite Z.sub_diag in Hm. cbn [fst] in Hm. cbn [sf_trunc]. f_equal.
  assert (Z.shiftl (Zpos m) e = Z.abs z) as ->.
  { replace e with (- (- e)) by lia. rewrite Z.shiftl_opp_r, Z.shiftr_div_pow2 by lia.
    replace (Zpos m) with (Z.abs z * 2 ^ (- e)); [by rewrite Z.div_mul by lia|].
    unfold cond_Zopp in Hm. destruct (Z.ltb_spec z 0); nia. }
  unfold cond_Zopp. destruct (Z.ltb_spec z 0); lia.
Qed.

Lemma pixel_next k : 0 <= k < 2 ^ 24 - 1 -> SFadd 24 128 (f32_of_Z k) (f32_of_Z 1) = f32_of_Z (k + 1).
Proof. intros Hk. apply (sf_of_Z_add 24 128); unfold sf_exact; lia. Qed.

Lemma pixel_lt a b : 0 <= a < 2 ^ 24 -> 0 <= b < 2 ^ 24 -> SFltb (f32_of_Z a) (f32_of_Z b) = (a <? b).
Proof. intros Ha Hb. apply (sf_of_Z_tests 24 128 ltac:(lia) a b); unfold sf_exact; lia. Qed.

Lemma pixel_is_x a : 0 <= a < 2 ^ 24 -> is_no_x (f32_of_Z a) = false.
Proof.
  intros Ha. unfold is_no_x, no_x. destruct (sf_of_Z_tests 24 128 ltac:(lia) a (-1)) as (_ & _ & ->); [unfold sf_exact; lia..|]. lia.
Qed.

(** ** Candles from left to right *)

(** Candles between two pixels that do not overlap. *)
Inductive chain : Z -> list candle -> Z -> Prop :=
| chain_nil lo hi : lo <= hi -> chain lo [] hi
| chain_cons lo a b c cs hi : c_left c = f32_of_Z a -> c_right c = f32_of_Z b -> lo <= a < b -> chain b cs hi -> chain lo (c :: cs) hi.

Lemma chain_le lo cs hi : chain lo cs hi -> lo <= hi.
Proof. induction 1; lia. Qed.

Lemma chain_weaken lo cs hi hi' : chain lo cs hi -> hi <= hi' -> chain lo cs hi'.
Proof. induction 1; intros; [constructor; lia|]. econstructor; eauto. Qed.

Lemma chain_snoc lo cs p a b c : chain lo cs p -> p <= a < b -> c_left c = f32_of_Z a -> c_right c = f32_of_Z b -> chain lo (cs ++ [c]) b.
Proof.
  induction 1 as [lo p Hle|lo a' b' c' cs p Hl Hr Hab _ IH]; intros Hp Hcl Hcr.
  - eapply chain_cons; [done|done|lia|]. constructor. lia.
  - eapply chain_cons; [done|done|done|by apply IH].
Qed.

(** The candle that was pending is drawn, or there is none. *)
Lemma chain_drawn L k w : 0 <= L -> k < 2 ^ 24 ->
  (exists p, chain L (candles w) p /\ (lastX w = no_x /\ p <= k \/ exists a, lastX w = f32_of_Z a /\ p <= a < k)) ->
  chain L (candles w) k /\ (is_no_x (lastX w) = false -> chain L (candles (draw_pending (f32_of_Z k) w)) k).
Proof.
  intros HL Hk (p & Hp & [[Ex Hle]|(a & Ea & Ha)]); (split; [by eapply chain_weaken; [exact Hp|lia]|]); intros Hx.
  - by rewrite Ex in Hx.
  - by eapply chain_snoc; [exact Hp|exact Ha|exact Ea|].
Qed.

Section walk.
Context (maxRegion : Z) (rs : list Region) (tpp : Z) (regionFind : bool) (limits : f32 * f32) (maxTime limitTime : Z).
Context (recorded : 0 <= maxRegion <= Z.of_nat (length rs)).

(** ** The searches *)

Lemma region_ok i : 0 <= i < Z.of_nat (length rs) -> exists r, region_at rs i = Ok r /\ vget rs i = Some r.
Proof. intros Hi. unfold region_at. destruct (vget_is_Some rs i Hi) as [r ->]. by exists r. Qed.

Lemma regions_back_ok t : forall fuel i, 0 <= i < Z.of_nat (length rs) \/ i = 0 -> (Z.to_nat i <= fuel)%nat ->
  exists j, regions_back rs fuel t i = Ok j /\ 0 <= j <= i.
Proof.
  induction fuel as [|fuel IH]; intros i Hi Hf; cbn [regions_back]; (destruct (Z.ltb_spec 0 i); [|exists i; split; [done|lia]]); [lia|].
  destruct (region_ok i) as (r & -> & _); [lia|]. cbn [mbind result_bind]. destruct (t <? r_startTime r); [|exists i; split; [done|lia]].
  destruct (IH (i - 1)) as (j & -> & Hj); [lia|lia|]. exists j. split; [done|lia].
Qed.

Lemma regions_forward_ok t : forall fuel i, 0 <= i <= maxRegion -> (Z.to_nat (maxRegion - i) <= fuel)%nat ->
  exists j, regions_forward maxRegion rs fuel t i = Ok j /\ i <= j <= maxRegion.
Proof.
  induction fuel as [|fuel IH]; intros i Hi Hf; cbn [regions_forward]; (destruct (Z.ltb_spec i maxRegion); [|exists i; split; [done|lia]]); [lia|].
  destruct (region_ok i) as (r & -> & _); [lia|]. cbn [mbind result_bind]. destruct (r_endTime r <? t); [|exists i; split; [done|lia]].
  destruct (IH (i + 1)) as (j & -> & Hj); [lia|lia|]. exists j. split; [done|lia].
Qed.

(** ** Totals *)

(** The totals of regions one after the other. *)
Fixpoint overlaps (t : Z) (l : list Region) (totals : Z * Z) : result stop (Z * Z) :=
  match l with [] => Ok totals | r :: l => totals ← add_overlap tpp t r totals; overlaps t l totals end.

Lemma overlaps_app t l l' totals : overlaps t (l ++ l') totals = (totals ← overlaps t l totals; overlaps t l' totals).
Proof. revert totals. induction l as [|r l IH]; intros totals; [done|]. cbn. destruct (add_overlap _ _ _ _); cbn; [apply IH|done]. Qed.

(** The totals of consecutive regions in a pixel can be computed. *)
Definition summable (t : Z) : Prop := forall i n, is_ok (overlaps t (take n (drop i rs)) (0, 0)) = true.

Lemma summable_step t i0 n totals r : summable t -> overlaps t (take n (drop i0 rs)) (0, 0) = Ok totals -> rs !! (i0 + n)%nat = Some r ->
  exists totals', add_overlap tpp t r totals = Ok totals' /\ overlaps t (take (S n) (drop i0 rs)) (0, 0) = Ok totals'.
Proof.
  intros Hs E Hr. pose proof (Hs i0 (S n)) as Hok. rewrite (take_S_r _ _ r) in Hok |- * by by rewrite lookup_drop.
  rewrite overlaps_app, E in Hok |- *. cbn in Hok |- *. destruct (add_overlap tpp t r totals) as [totals'|]; [|done]. by exists totals'.
Qed.

(** ** The selected time *)

(** Regions in order of time. *)
Definition in_time : Prop :=
  (forall i r, 0 <= i < maxRegion -> vget rs i = Some r -> 0 <= r_startTime r <= r_endTime r) /\
  (forall i j r r', 0 <= i -> i <= j < maxRegion -> vget rs i = Some r -> vget rs j = Some r' -> r_endTime r <= r_endTime r').

(** A selection that does not end before it starts, also if it is prolonged to
    a region from [i] on. *)
Definition drag_ok (i : Z) (drag : Z * Z) : Prop :=
  drag.1 <= drag.2 /\ forall k r, i <= k < maxRegion -> vget rs k = Some r -> drag.1 <= r_endTime r.

Lemma drag_ok_mono i j drag : i <= j -> drag_ok i drag -> drag_ok j drag.
Proof. intros Hij [H1 H2]. split; [done|]. intros k r Hk. apply H2. lia. Qed.

Lemma select_ok pixel i0 i r0 r drag : in_time -> 0 <= i0 <= i -> i < maxRegion -> vget rs i0 = Some r0 -> vget rs i = Some r ->
  drag_ok i drag -> drag_ok i (select_time regionFind limits pixel (r_startTime r0) (r_endTime r) drag).
Proof.
  intros [Hin Hord] Hi0 Hi E0 E Hd. unfold select_time. destruct regionFind; [|done].
  assert (r_startTime r0 <= r_endTime r) as Hle.
  { pose proof (Hin i0 r0 ltac:(lia) E0). pose proof (Hord i0 i r0 r ltac:(lia) ltac:(lia) E0 E). lia. }
  set (d := if _ && _ then _ else _). assert (drag_ok i d) as Hd'.
  { unfold d. destruct (_ && _); [|done]. split; [done|]. intros k r' Hk E'. cbn. pose proof (Hord i k r r' ltac:(lia) ltac:(lia) E E'). lia. }
  destruct (SFleb _ _); [|done]. destruct Hd' as [H1 H2]. split; [|done]. apply (H2 i); [lia|done].
Qed.

(** ** One pixel *)

Abbreviation collect := (collect maxRegion rs tpp regionFind limits).

(** The regions of a pixel, from [i0] on. *)
Lemma collect_ok pixel t i0 r0 : summable t -> - 2 ^ 63 <= t + tpp < 2 ^ 63 -> 0 <= i0 -> vget rs i0 = Some r0 -> forall fuel n totals drag,
  i0 + Z.of_nat n <= maxRegion -> (Z.to_nat (maxRegion - (i0 + Z.of_nat n)) <= fuel)%nat ->
  overlaps t (take n (drop (Z.to_nat i0) rs)) (0, 0) = Ok totals ->
  exists j totals' drag', collect fuel pixel t (r_startTime r0) (i0 + Z.of_nat n) totals drag = Ok (j, totals', drag') /\
    i0 + Z.of_nat n <= j <= maxRegion /\ (in_time -> drag_ok (i0 + Z.of_nat n) drag -> drag_ok j drag').
Proof.
  intros Hs Ht Hi0 E0. induction fuel as [|fuel IH]; intros n totals drag Hn Hf Hsum; cbn [Candles.collect];
    (destruct (Z.ltb_spec (i0 + Z.of_nat n) maxRegion); [|exists (i0 + Z.of_nat n), totals, drag; split; [done|]; split; [lia|done]]); [lia|].
  destruct (region_ok (i0 + Z.of_nat n)) as (r & -> & Er); [lia|]. cbn [mbind result_bind].
  destruct (summable_step t (Z.to_nat i0) n totals r Hs Hsum) as (totals' & -> & Hsum').
  { apply vget_Some in Er as [_ Er]. by replace (Z.to_nat i0 + n)%nat with (Z.to_nat (i0 + Z.of_nat n)) by lia. }
  cbn [mbind result_bind]. rewrite s_check_64 by done. cbn [mbind result_bind]. set (drag1 := select_time _ _ _ _ _ drag).
  assert (in_time -> drag_ok (i0 + Z.of_nat n) drag -> drag_ok (i0 + Z.of_nat n) drag1) as Hd.
  { intros Hin Hd. apply (select_ok _ i0 (i0 + Z.of_nat n)); by first [lia|done]. }
  destruct (_ <? r_endTime r); [exists (i0 + Z.of_nat n), totals', drag1; split; [done|]; split; [lia|done]|].
  destruct (IH (S n) totals' drag1) as (j & totals2 & drag2 & E & Hj & Hd2); [lia|lia|done|].
  replace (i0 + Z.of_nat (S n)) with (i0 + Z.of_nat n + 1) in E, Hj, Hd2 by lia. exists j, totals2, drag2. split; [done|]. split; [lia|].
  intros Hin H1. apply Hd2; [done|]. apply (drag_ok_mono (i0 + Z.of_nat n)); [lia|by apply Hd].
Qed.

(** The state before pixel [k]: the candles so far, and one that may be pending;
    what is selected, if all is [good]. *)
Record walking (good : Prop) (L k start : Z) (w : walk_state) : Prop := {
  wk_time : pixelTime w = start + (k - L - 1) * tpp;
  wk_region : 0 <= currentRegion w <= maxRegion;
  wk_chain : exists p, chain L (candles w) p /\ (lastX w = no_x /\ p <= k \/ exists a, lastX w = f32_of_Z a /\ p <= a < k);
  wk_drag : good -> drag_ok (currentRegion w) (dragTimeRange w)
}.

Lemma average_ok L k w totals : 0 <= L <= k -> k < 2 ^ 24 ->
  (exists p, chain L (candles w) p /\ (lastX w = no_x /\ p <= k \/ exists a, lastX w = f32_of_Z a /\ p <= a < k)) ->
  let w' := average maxTime limitTime (f32_of_Z k) totals w in
  (exists p, chain L (candles w') p /\ (lastX w' = no_x /\ p <= k + 1 \/ exists a, lastX w' = f32_of_Z a /\ p <= a < k + 1)) /\
  pixelTime w' = pixelTime w /\ currentRegion w' = currentRegion w /\ dragTimeRange w' = dragTimeRange w.
Proof.
  intros HL Hk Hw w'. destruct (chain_drawn L k w ltac:(lia) Hk Hw) as [Hc Hd]. unfold w', average. destruct totals as [total count].
  destruct (0 <? count); [destruct (is_no_x (lastX w)) eqn:Ex; [|destruct (SFeqb (pendingCandleHeight w) _)]|]; cbn [negb].
  - split; [|done]. exists k. split; [done|]. right. exists k. split; [done|lia].
  - split; [|done]. destruct Hw as (p & Hp & [[El Hle]|(a & Ea & Ha)]); exists p; (split; [done|]); [left; split; [done|lia]|].
    right. exists a. split; [done|lia].
  - split; [|done]. exists k. split; [by apply Hd|]. left. split; [done|lia].
  - split; [|done]. exists k. split; [done|]. left. split; [done|lia].
Qed.

Abbreviation walk_pixel := (walk_pixel maxRegion rs tpp regionFind limits maxTime limitTime).

Lemma walk_pixel_ok (good : Prop) L k start fuel w : (good -> in_time) -> 0 <= L <= k -> k < 2 ^ 24 -> walking good L k start w ->
  0 <= tpp -> - 2 ^ 63 <= start -> start + (k - L + 1) * tpp < 2 ^ 63 -> summable (start + (k - L) * tpp) -> (Z.to_nat maxRegion <= fuel)%nat ->
  exists b w', walk_pixel fuel (f32_of_Z k) w = Ok (b, w') /\ walking good L (k + 1) start w'.
Proof.
  intros Hgood HL Hk [Ht Hr Hc Hd] Htpp Hs0 Hs1 Hsum Hf. unfold Candles.walk_pixel. set (t := start + (k - L) * tpp) in *.
  assert (start <= t) by (unfold t; nia). assert (t + tpp = start + (k - L + 1) * tpp) as Et by (unfold t; lia).
  replace (pixelTime w + tpp) with t by (rewrite Ht; unfold t; lia). rewrite s_check_64 by lia. cbn [mbind result_bind].
  destruct (regions_forward_ok t fuel (currentRegion w)) as (i & -> & Hi); [done|lia|]. cbn [mbind result_bind].
  assert (good -> drag_ok i (dragTimeRange w)) as Hd1 by (intros Hin; apply (drag_ok_mono (currentRegion w)); [lia|by apply Hd]).
  assert (t = start + (k + 1 - L - 1) * tpp) as Et1 by (unfold t; f_equal; f_equal; lia).
  destruct (chain_drawn L k w ltac:(lia) Hk Hc) as [Hc0 Hc1].
  destruct (Z.leb_spec maxRegion i).
  { eexists _, _. split; [reflexivity|]. split; cbn; [done|lia| |done]. exists k. split; [done|]. left. split; [done|lia]. }
  destruct (region_ok i) as (r & -> & Er); [lia|]. cbn [mbind result_bind]. rewrite s_check_64 by lia. cbn [mbind result_bind].
  destruct (_ <? r_startTime r).
  { eexists _, _. split; [reflexivity|]. cbn [lastX pendingCandleHeight]. destruct (is_no_x (lastX w)) eqn:Ex; cbn [negb andb];
      [|destruct (SFeqb _ _); cbn [negb]]; (split; cbn; [done|lia| |done]; exists k; split; [by first [done|apply Hc1]|left; split; [done|lia]]). }
  destruct (collect_ok (f32_of_Z k) t i r Hsum ltac:(lia) ltac:(lia) Er fuel 0%nat (0, 0) (dragTimeRange w)) as (j & totals & drag & E & Hj & Hd2);
    [lia|lia|done|]. rewrite Z.add_0_r in E, Hj, Hd2. cbn [dragTimeRange]. rewrite E. cbn [mbind result_bind].
  eexists _, _. split; [reflexivity|]. set (w1 := mkWalk _ _ _ _ _ _ _ _).
  destruct (average_ok L k w1 totals HL Hk Hc) as (Hc2 & E1 & E2 & E3). split.
  - by rewrite E1.
  - rewrite E2. cbn. lia.
  - done.
  - intros Hin. rewrite E2, E3. apply Hd2; [by apply Hgood|by apply Hd1].
Qed.

(** ** All pixels *)

Abbreviation walk_pixels := (walk_pixels maxRegion rs tpp regionFind limits maxTime limitTime).

Lemma walk_pixels_ok (good : Prop) L R start fuel : (good -> in_time) -> 0 <= L -> R < 2 ^ 24 -> 0 <= tpp -> - 2 ^ 63 <= start -> start + (R - L) * tpp < 2 ^ 63 ->
  (forall k, L <= k < R -> summable (start + (k - L) * tpp)) -> (Z.to_nat maxRegion <= fuel)%nat ->
  forall pixels k w, L <= k <= R -> (Z.to_nat (R - k) <= pixels)%nat -> walking good L k start w ->
  exists k' w', walk_pixels fuel pixels (f32_of_Z k) (f32_of_Z R) w = Ok w' /\ k <= k' <= R /\ walking good L k' start w'.
Proof.
  intros Hgood HL HR Htpp Hs0 Hs1 Hsum Hf. induction pixels as [|pixels IH]; intros k w Hk Hp Hw; cbn [Candles.walk_pixels];
    rewrite pixel_lt by lia; (destruct (Z.ltb_spec k R); [|exists k, w; split; [done|]; split; [lia|done]]); [lia|].
  destruct (walk_pixel_ok good L k start fuel w) as (b & w1 & -> & Hw1); try done; [lia|lia|nia|apply Hsum; lia|]. cbn [mbind result_bind fst snd].
  destruct b; [|exists (k + 1), w1; split; [done|]; split; [lia|done]].
  rewrite pixel_next by lia. destruct (IH (k + 1) w1) as (k' & w' & -> & Hk' & Hw'); [lia|lia|done|]. exists k', w'. split; [done|]. split; [lia|done].
Qed.
End walk.

(** The row of candles on whole pixels. *)
Definition row (L T R B : Z) : NRectf := mkRect (mkVec2 (f32_of_Z L) (f32_of_Z T)) (mkVec2 (f32_of_Z R) (f32_of_Z B)).

(** C6. [drawRegions] is safe and what it draws is in order: on a row of whole
    pixels of a window, whatever was recorded and whatever is selected, its loops
    end, it reads recorded regions only, and each candle is inside the row and to
    the right of the one before. The start of the display stays one of the
    regions, or behind the last. If the regions are in order of time, the selected
    time does not end before it starts, which the code asserts. (The averages
    of the durations have to fit in 64 bits.) *)
Theorem region_candles_ok maxRegion L T R B start duration rs display maxTime limitTime clicked dragRect drag :
  let tpp := Z.quot duration (R - L) in
  0 <= L < R -> R < 2 ^ 24 -> 0 <= display <= maxRegion -> maxRegion <= Z.of_nat (length rs) -> maxRegion < 2 ^ 32 ->
  0 <= duration -> 0 <= start -> start + duration < 2 ^ 63 -> (forall k, L <= k < R -> summable rs tpp (start + (k - L) * tpp)) ->
  exists display' drag' cs,
    region_candles (Z.to_nat maxRegion) (Z.to_nat (R - L)) maxRegion (row L T R B) start duration rs display maxTime limitTime clicked dragRect drag =
      Ok (display', drag', cs) /\
    0 <= display' <= maxRegion /\ chain L cs R /\
    (in_time maxRegion rs -> drag = (0, 0) -> drag'.1 <= drag'.2).
Proof.
  intros tpp HL HR Hdisp Hrs Hmax Hdur Hs0 Hs1 Hsum. unfold region_candles.
  assert (0 <= tpp /\ (R - L) * tpp <= duration) as [Htpp Hmul].
  { unfold tpp. split; [apply Z.quot_pos; lia|]. apply Z.mul_quot_le; lia. }
  assert (tpp <= duration) by nia.
  change (Width (T := f32) (row L T R B)) with (Ok (E := stop) (SFsub 24 128 (f32_of_Z R) (f32_of_Z L))). cbn [mbind result_bind].
  rewrite (sf_of_Z_sub 24 128) by (unfold sf_exact; lia). unfold to_int64, sf_to_int. rewrite trunc_exact by (unfold sf_exact; lia).
  replace ((- 2 ^ 63 <=? R - L) && (R - L <? 2 ^ 63)) with true by lia. cbn [mbind result_bind].
  replace (R - L =? 0) with false by lia. fold tpp. rewrite s_check_64 by lia. cbn [mbind result_bind]. set (i0 := Z.max _ 0).
  assert (0 <= i0 < Z.of_nat (length rs) \/ i0 = 0) as Hi0.
  { unfold i0, wrap. destruct (decide (maxRegion = 0)) as [->|]; [lia|]. rewrite Z.mod_small by lia. lia. }
  assert (i0 <= maxRegion) by (unfold i0; lia).
  destruct (regions_back_ok rs start (Z.to_nat maxRegion) i0 Hi0) as (i1 & -> & Hi1); [lia|]. cbn [mbind result_bind].
  destruct (regions_forward_ok maxRegion rs ltac:(lia) start (Z.to_nat maxRegion) i1) as (i & -> & Hi); [lia|lia|]. cbn [mbind result_bind].
  rewrite s_check_64 by lia. cbn [mbind result_bind].
  set (limits := (_, _)). set (find := Contains _ _ && _). set (w0 := mkWalk _ _ _ _ _ _ _ _).
  change (Left (T := f32) (row L T R B)) with (f32_of_Z L). change (Right (T := f32) (row L T R B)) with (f32_of_Z R).
  destruct (walk_pixels_ok maxRegion rs tpp find limits maxTime limitTime ltac:(lia) (in_time maxRegion rs /\ drag = (0, 0)) L R start (Z.to_nat maxRegion))
    with (pixels := Z.to_nat (R - L)) (k := L) (w := w0) as (k & w & -> & Hk & [_ _ Hc Hd]); try done; [by intros []|lia|lia|lia|lia| |].
  { split; cbn; [lia|lia| |].
    - exists L. split; [by constructor|]. by left.
    - intros [[Hin _] ->]. split; [done|]. intros j r Hj Er. cbn. pose proof (Hin j r ltac:(lia) Er). lia. }
  cbn [mbind result_bind]. eexists _, _, _. split; [reflexivity|]. split; [lia|]. split.
  - destruct Hc as (p & Hp & Hx). destruct (chain_drawn L R w ltac:(lia) HR) as [H1 H2].
    { exists p. split; [done|]. destruct Hx as [[E Hle]|(a & E & Ha)]; [left; split; [done|lia]|]. right. exists a. split; [done|lia]. }
    destruct (is_no_x (lastX w)); [done|by apply H2].
  - intros Hin Ed. destruct (Hd (conj Hin Ed)) as [Hle _]. by destruct (is_no_x (lastX w)).
Qed.

(** ** Examples *)

Definition region_of (a b : Z) : Region := mkRegion [] a b.
Definition nowhere : NVec2 f32 := mkVec2 (f32_of_Z (-5)) (f32_of_Z (-5)).
Definition whole (n : Z) : NRectf := mkRect (mkVec2 (f32_of_Z 0) (f32_of_Z 0)) (mkVec2 (f32_of_Z n) (f32_of_Z n)).

Lemma region_candles_ok_witness :
  let rs := [region_of 0 1000; region_of 1000 2500] in
  exists display' drag' cs, region_candles 2 4 2 (row 0 0 4 10) 0 4000 rs 0 2000 2000 nowhere (whole 0) (0, 0) = Ok (display', drag', cs) /\
    0 <= display' <= 2 /\ chain 0 cs 4 /\ drag'.1 <= drag'.2.
Proof.
  intros rs. destruct (region_candles_ok 2 0 0 4 10 0 4000 rs 0 2000 2000 nowhere (whole 0) (0, 0)) as (d & g & cs & E & Hd & Hc & Hg);
    [lia|lia|lia|cbn; lia|lia|lia|lia|lia| |].
  - intros k Hk. assert (k = 0 \/ k = 1 \/ k = 2 \/ k = 3) as Hk4 by lia. intros i n. unfold rs.
    destruct i as [|[|[|i]]], n as [|[|[|n]]], Hk4 as [->|[->|[->| ->]]]; vm_compute; reflexivity.
  - exists d, g, cs. split; [exact E|]. split; [done|]. split; [done|]. apply Hg; [|done]. split.
    + intros i r Hi Er. assert (i = 0 \/ i = 1) as [->| ->] by lia; vm_compute in Er; injection Er as <-; cbn; lia.
    + intros i j r r' Hi Hij Er Er'. assert (i = 0 \/ i = 1) as Hi2 by lia. assert (j = 0 \/ j = 1) as Hj2 by lia.
      destruct Hi2 as [->| ->], Hj2 as [->| ->]; vm_compute in Er, Er'; injection Er as <-; injection Er' as <-; cbn; lia.
Defined.

(** Two frames, of which the second has not ended: its end is 0. When the pixels
    divide the time exactly, a selection up to the right edge ends at 0, and the
    assertion fails. *)
Theorem drawRegions_last_frame :
  let frames := [region_of 1000 5000; region_of 5000 0] in
  let c := mkVec4 (f32_of_Z 0) (f32_of_Z 0) (f32_of_Z 0) (f32_of_Z 0) in
  drawRegions false 2 4 2 (row 0 0 4 10) 1000 4000 frames 0 20000 20000 c c c (mkVec2 (f32_of_Z 1) (f32_of_Z 1))
    (mkRect (mkVec2 (f32_of_Z 1) (f32_of_Z 0)) (mkVec2 (f32_of_Z 4) (f32_of_Z 4))) (0, 0) = Err AssertFail.
Proof. vm_compute. reflexivity. Qed.

(** With the time limit of the regions that is set at the start, 0, a region of
    which less than a nanosecond is in a pixel has the height 0 / 0, and the
    colour of its candle is not a number. *)
Theorem drawRegions_no_limit :
  let regions := [region_of 0 1; region_of 1001 1002] in
  let c := mkVec4 (f32_of_Z 1) (f32_of_Z 1) (f32_of_Z 1) (f32_of_Z 1) in
  drawRegions true 2 4 2 (row 0 0 4 10) 0 4000 regions 0 0 0 c c c nowhere (whole 0) (0, 0) = Err UB.
Proof. vm_compute. reflexivity. Qed.

(** ** The mouse *)

Lemma SFcompare_swap x y : SFcompare y x = option_map CompOpp (SFcompare x y).
Proof.
  destruct x as [| | |[] m e], y as [| | |[] n e']; try done; try (by destruct s); try (by destruct s, s0); cbn [SFcompare];
    rewrite (Z.compare_antisym e e'); destruct (Z.compare e e'); cbn [option_map CompOpp]; try done;
    change (PosDef.Pos.compare_cont Eq n m) with (Pos.compare n m); change (PosDef.Pos.compare_cont Eq m n) with (Pos.compare m n);
    rewrite (Pos.compare_antisym m n); by destruct (Pos.compare m n).
Qed.

Lemma SFltb_asym x y : SFltb x y = true -> SFltb y x = false.
Proof. unfold SFltb. rewrite (SFcompare_swap x y). by destruct (SFcompare x y) as [[]|]. Qed.

Lemma SFleb_not_lt x y : SFleb x y = true -> SFltb y x = false.
Proof. unfold SFltb, SFleb. rewrite (SFcompare_swap x y). by destruct (SFcompare x y) as [[]|]. Qed.

(** Between two bounds. *)
Definition within_range (lo hi x : f32) : Prop := SFltb x lo = false /\ SFltb hi x = false.

Lemma clampf_ok v lo hi : SFltb hi lo = false -> SFltb lo lo = false -> SFltb hi hi = false -> exists r, clampf v lo hi = Ok r /\ within_range lo hi r.
Proof.
  intros H Hlo Hhi. unfold clampf, within_range. rewrite H. eexists. split; [reflexivity|].
  destruct (SFltb v lo) eqn:E1; [done|]. destruct (SFltb hi v) eqn:E2; [done|]. done.
Qed.

Lemma frame_limits cf : 2 <= cf < 2 ^ 24 ->
  let lo := f32_of_Z MinFrame in let hi := f32_of_Z (u32 (cf - 1)) in SFltb hi lo = false /\ SFltb lo lo = false /\ SFltb hi hi = false.
Proof.
  intros Hc lo hi. unfold lo, hi, MinFrame, MinLeadInFrames. rewrite wrap_small by (unfold in_u; lia). rewrite !pixel_lt by lia.
  split; [lia|]. split; lia.
Qed.

Lemma zoom_range_ok g region size range cf : 2 <= cf < 2 ^ 24 ->
  exists b range', zoom_range g region size range cf = Ok (b, range') /\
    (if b then within_range (f32_of_Z MinFrame) (f32_of_Z (u32 (cf - 1))) (x2 range') /\ within_range (f32_of_Z MinFrame) (f32_of_Z (u32 (cf - 1))) (y2 range')
     else range' = range).
Proof.
  intros Hc. destruct (frame_limits cf Hc) as (H1 & H2 & H3). unfold zoom_range. destruct (SFeqb _ _); [by eexists _, _|].
  cbv zeta. destruct (SFleb _ _); [|by eexists _, _]. set (r2 := if SFltb (f32_of_Z (i32 _)) _ then _ else _).
  destruct (clampf_ok (x2 r2) _ _ H1 H2 H3) as (x & -> & Hx). cbn [mbind result_bind]. destruct (clampf_ok (y2 r2) _ _ H1 H2 H3) as (y & -> & Hy).
  cbn [mbind result_bind]. by eexists _, _.
Qed.

(** Whatever the mouse does over the candles, the frames that are shown stay
    those that were recorded: [handleMouse] answers, and where it changes the range
    the range does not start before the first frame or end after the last. *)
Theorem handleMouse_range paused g region range cf rect : 2 <= cf < 2 ^ 24 ->
  exists b range' rect', handleMouse paused g region range cf rect = Ok (b, range', rect') /\
    (if b then SFltb (x2 range') (f32_of_Z MinFrame) = false /\ SFltb (f32_of_Z (u32 (cf - 1))) (y2 range') = false else range' = range).
Proof.
  intros Hc. unfold handleMouse. destruct paused; [|by eexists _, _, _]. cbn [negb].
  set (acted := if IsItemActive g then _ else _).
  assert (if acted.1.1 then SFltb (x2 acted.1.2) (f32_of_Z MinFrame) = false /\ SFltb (f32_of_Z (u32 (cf - 1))) (y2 acted.1.2) = false
          else acted.1.2 = range) as Hacted.
  { unfold acted. destruct (IsItemActive g); [|done]. destruct (IsMouseDragging g); [|by destruct (IsMouseClicked g)].
    destruct (KeyCtrl g); [done|]. cbv zeta. destruct (SFltb _ _) eqn:E1; cbn [andb]; [|done]. destruct (SFleb _ _) eqn:E2; [|done].
    split; [by apply SFleb_not_lt|by apply SFltb_asym]. }
  destruct acted as [[b1 range1] rect1]. cbn [fst snd] in Hacted. destruct (IsMouseHoveringRect _ _ _); [|by eexists _, _, _].
  destruct (Empty (T := f32) rect1) as [e|] eqn:Ee; [|unfold Empty, Height, Width in Ee; cbn in Ee; by destruct (SFeqb _ _)].
  cbn [mbind result_bind]. destruct (SFeqb (MouseWheel g) _); [by eexists _, _, _|].
  destruct (zoom_range_ok g region (v2_sub (bottomRightPx region) (topLeftPx region)) range1 cf Hc) as (b & range2 & -> & Hz). cbn [mbind result_bind fst snd].
  eexists _, _, _. split; [reflexivity|]. destruct b; [rewrite orb_true_r; destruct Hz as [[? _] [_ ?]]; done|]. rewrite orb_false_r. by subst range2.
Qed.
