(* ===== verification/ProfilerTime.v ===== *)
(** * Recorded time

    With a clock that does not go back, the frames that the profiler records
    follow each other in time, whatever the threads call: what the viewer
    relies on. *)

From S2P Require Import Prelude StdString StringUtils Profiler ProfilerTheory Float32 MathVec Candles CandlesTheory.

(** ** Calls that leave the frames alone *)

(** The times of the frames, their number and the start of the clock. *)
Definition bases (g : globals) : list Region := f_base <$> gFrameData g.

Definition same_frames (g g' : globals) : Prop :=
  bases g' = bases g /\ gCurrentFrame g' = gCurrentFrame g /\ gTimer g' = gTimer g.

#[global] Instance same_frames_preorder : PreOrder same_frames.
Proof.
  split; [by intros g|]. intros g1 g2 g3 (H1 & H2 & H3) (H4 & H5 & H6). split_and!; by etrans.
Qed.

(** Code of which every run leads to a state in the relation [R]. *)
Definition keeps (R : relation globals) {A} (c : ST globals A) : Prop := forall g a g', c g = Ok (a, g') -> R g g'.

Lemma st_bind_inv {S A B} (c : ST S A) (f : A -> ST S B) s b s' : (c ≫= f) s = Ok (b, s') ->
  exists a s1, c s = Ok (a, s1) /\ f a s1 = Ok (b, s').
Proof. unfold mbind, ST_bind. destruct (c s) as [[a s1]|]; [|done]. intros H. by exists a, s1. Qed.

Section keeps.
Context (R : relation globals) `{!PreOrder R}.

Lemma keeps_bind {A B} (c : ST globals A) (f : A -> ST globals B) : keeps R c -> (forall a, keeps R (f a)) -> keeps R (c ≫= f).
Proof. intros Hc Hf g b g' (a & g1 & E1 & E2)%st_bind_inv. etrans; [by eapply Hc|by eapply Hf]. Qed.
Lemma keeps_ret {A} (a : A) : keeps R (mret a).
Proof. intros g b g' E. by injection E as _ <-. Qed.
Lemma keeps_get : keeps R st_get.
Proof. intros g b g' E. by injection E as _ <-. Qed.
Lemma keeps_some {A} (o : option A) : keeps R (st_some o).
Proof. intros g b g' E. destruct o; [|done]. by injection E as _ <-. Qed.
Lemma keeps_assert NDEBUG c : keeps R c -> keeps R (st_assert NDEBUG c).
Proof.
  intros Hc. unfold st_assert. destruct NDEBUG; [apply keeps_ret|]. apply keeps_bind; [done|].
  intros [|]; [apply keeps_ret|by intros ???].
Qed.
Lemma keeps_modify f : (forall g, R g (f g)) -> keeps R (modify f).
Proof. intros Hf g b g' E. injection E as _ <-. apply Hf. Qed.
End keeps.

Lemma keeps_set_thread i td : keeps same_frames (set_thread i td).
Proof. intros g b g' (g1 & g2 & [= <- <-] & (x & g3 & E & E2)%st_bind_inv)%st_bind_inv. unfold st_some in E. destruct (vget _ _); [|done]. injection E as _ <-. by injection E2 as _ <-. Qed.

Lemma keeps_set_region i r : keeps same_frames (set_region i r).
Proof. intros g b g' (g1 & g2 & [= <- <-] & (x & g3 & E & E2)%st_bind_inv)%st_bind_inv. unfold st_some in E. destruct (vget _ _); [|done]. injection E as _ <-. by injection E2 as _ <-. Qed.

Lemma set_frame_inv i f g b g' : set_frame i f g = Ok (b, g') ->
  exists f0, vget (gFrameData g) i = Some f0 /\ g' = set_frames (<[Z.to_nat i := f]> (gFrameData g)) (gCurrentFrame g) g.
Proof.
  intros (g1 & g2 & [= <- <-] & (x & g3 & E & E2)%st_bind_inv)%st_bind_inv. unfold st_some in E. destruct (vget _ _) as [f0|]; [|done].
  injection E as _ <-. injection E2 as _ <-. by exists f0.
Qed.

Lemma get_frame_inv i g f g' : get_frame i g = Ok (f, g') -> vget (gFrameData g) i = Some f /\ g' = g.
Proof. intros (g1 & g2 & [= <- <-] & E)%st_bind_inv. unfold st_some in E. destruct (vget _ _) as [f0|]; [|done]. by injection E as -> <-. Qed.

Create HintDb keeps.
#[export] Hint Resolve keeps_ret keeps_get keeps_some keeps_set_thread keeps_set_region : keeps.
#[export] Hint Extern 0 (PreOrder _) => apply _ : keeps.

(** Step through code. *)
Ltac keep :=
  repeat first
    [ progress cbv beta zeta
    | progress intros
    | solve [eauto with keeps]
    | apply keeps_modify; intros ?; repeat case_match; split_and!; reflexivity
    | apply keeps_assert; [apply _|]
    | apply keeps_bind; [apply _| |]
    | match goal with |- keeps _ (match ?x with _ => _ end) => destruct x end ].

Lemma keeps_get_frame (R : relation globals) `{!PreOrder R} i : keeps R (get_frame i). Proof. unfold get_frame. keep. Qed.
Lemma keeps_get_thread (R : relation globals) `{!PreOrder R} i : keeps R (get_thread i). Proof. unfold get_thread. keep. Qed.
Lemma keeps_get_region (R : relation globals) `{!PreOrder R} i : keeps R (get_region i). Proof. unfold get_region. keep. Qed.
#[export] Hint Resolve keeps_get_frame keeps_get_thread keeps_get_region : keeps.

Lemma keeps_add_frame_thread fi info : keeps same_frames (add_frame_thread fi info).
Proof.
  intros g b g' (f & g1 & [Hf ->]%get_frame_inv & (x & g2 & E & E2)%st_bind_inv)%st_bind_inv. unfold st_some in E.
  destruct (vget (frameThreads f) _); [|done]. injection E as _ <-. apply set_frame_inv in E2 as (f1 & Hf1 & ->).
  split_and!; [|done|done]. unfold bases. cbn. rewrite list_fmap_insert. cbn. apply list_insert_id.
  apply vget_Some in Hf as [_ Hf]. by rewrite list_lookup_fmap, Hf.
Qed.

Lemma keeps_init_thread_loop NDEBUG n t i : keeps same_frames (init_thread_loop NDEBUG n t i).
Proof. revert i. induction n as [|n IH]; intros i; cbn [init_thread_loop]; keep. Qed.
#[export] Hint Resolve keeps_add_frame_thread keeps_init_thread_loop : keeps.

Lemma keeps_GetThreadData NDEBUG t : keeps same_frames (GetThreadData NDEBUG t).
Proof. unfold GetThreadData, InitThread. keep. Qed.
Lemma keeps_CheckEndState t : keeps same_frames (CheckEndState t).
Proof. unfold CheckEndState. keep. Qed.
#[export] Hint Resolve keeps_GetThreadData keeps_CheckEndState : keeps.

Lemma keeps_new_frame_loop n fi ti : keeps same_frames (new_frame_loop n fi ti).
Proof. revert ti. induction n as [|n IH]; intros ti; cbn [new_frame_loop]; keep. Qed.
#[export] Hint Resolve keeps_new_frame_loop : keeps.

Lemma keeps_Push t now s f c l : keeps same_frames (PushSectionBase false t now s f c l).
Proof. unfold PushSectionBase. keep. Qed.
Lemma keeps_Pop t now : keeps same_frames (PopSection false t now).
Proof. unfold PopSection. keep. Qed.
Lemma keeps_Name t nm : keeps same_frames (NameThread false t nm).
Proof. unfold NameThread. keep. Qed.
Lemma keeps_Hide t : keeps same_frames (HideThread false t).
Proof. unfold HideThread. keep. Qed.
Lemma keeps_BeginRegion t now : keeps same_frames (BeginRegion false t now).
Proof. unfold BeginRegion. keep. Qed.
Lemma keeps_EndRegion fmt t now : keeps same_frames (EndRegion false fmt t now).
Proof. unfold EndRegion. keep. Qed.

(** ** Frames and the clock *)

Lemma start_of_bases g k : start_of g k = match vget (bases g) k with Some r => r_startTime r | None => 0 end.
Proof. unfold start_of, bases, vget. destruct (k <? 0); [done|]. rewrite list_lookup_fmap. by destruct (_ !! _). Qed.
Lemma end_of_bases g k : end_of g k = match vget (bases g) k with Some r => r_endTime r | None => 0 end.
Proof. unfold end_of, bases, vget. destruct (k <? 0); [done|]. rewrite list_lookup_fmap. by destruct (_ !! _). Qed.

(** The frames that have started follow each other, and no later than [now]. *)
Record frames_at (now : Z) (g : globals) : Prop := {
  fa_timer : 0 <= gTimer g <= now;
  fa_clock : now < 2 ^ 63;
  fa_consecutive : consecutive g (gCurrentFrame g);
  fa_started : forall k, 0 <= k < gCurrentFrame g -> 0 <= start_of g k <= now - gTimer g }.

#[global] Instance frames_at_proper now : Proper (same_frames ==> impl) (frames_at now).
Proof.
  intros g g' (Hb & Hc & Ht) [H1 H2 (H3 & H4 & H5) H6].
  assert (forall k, start_of g' k = start_of g k) as Es by (intros k; by rewrite !start_of_bases, Hb).
  assert (forall k, end_of g' k = end_of g k) as Ee by (intros k; by rewrite !end_of_bases, Hb).
  assert (length (gFrameData g') = length (gFrameData g)) as El by (rewrite <- !(length_fmap f_base); exact (f_equal length Hb)).
  split; rewrite ?Hc, ?Ht, ?El; try done.
  - split_and!; rewrite ?El; [done|..]; intros k Hk; rewrite !Es, !Ee; auto.
  - intros k Hk. rewrite Es. auto.
Qed.

Lemma frames_at_later now now' g : now <= now' < 2 ^ 63 -> frames_at now g -> frames_at now' g.
Proof. intros Hn [H1 H2 H3 H4]. split; [lia|lia|done|]. intros k Hk. specialize (H4 k Hk). lia. Qed.

Lemma elapsed_at now g : frames_at now g -> elapsed g now = now - gTimer g.
Proof. intros []. unfold elapsed. rewrite wrap_small by (unfold in_u; lia). unfold swrap. rewrite Z.mod_small; lia. Qed.

(** [NewFrame] starts a frame where the one before it ends. *)
Definition frame_started (start : Z) (g g' : globals) : Prop :=
  let n := gCurrentFrame g in
  gTimer g' = gTimer g /\ gCurrentFrame g' = u32 (n + 1) /\ 0 <= n < Z.of_nat (length (gFrameData g)) /\
  length (gFrameData g') = length (gFrameData g) /\ start_of g' n = start /\
  (forall k, 0 <= k < n -> start_of g' k = start_of g k) /\
  (forall k, 0 <= k < n -> end_of g' k = if decide (k = n - 1) then start else end_of g k).

Lemma frame_started_at now g g' : gCurrentFrame g + 1 < 2 ^ 32 -> frames_at now g -> frame_started (elapsed g now) g g' -> frames_at now g'.
Proof.
  intros Hmax Hf (Et & Ec & Hn & El & Es & Hs & He). set (n := gCurrentFrame g) in *.
  pose proof (elapsed_at _ _ Hf) as Ee. destruct Hf as [H1 H2 (H3 & H4 & H5) H6].
  rewrite wrap_small in Ec by (unfold in_u; lia). rewrite Ee in *.
  assert (forall k, 0 <= k < n + 1 -> 0 <= start_of g' k <= now - gTimer g) as Hb.
  { intros k Hk. destruct (decide (k = n)) as [-> |]; [rewrite Es; lia|]. rewrite Hs by lia. apply H6. lia. }
  split; rewrite ?Et, ?Ec; try done. split_and!; [lia|..]; intros k Hk.
  - rewrite He by lia. case_decide as Hk'; [subst k; by replace (n - 1 + 1) with n by lia|].
    rewrite Hs by lia. apply H4. lia.
  - rewrite He, Hs by lia. case_decide; [|apply H5; lia]. specialize (H6 k). lia.
Qed.

(** A frame that is overwritten. *)
Lemma vget_frames_insert (l : list Frame) i j f f0 : vget l i = Some f0 ->
  vget (<[Z.to_nat i := f]> l) j = if decide (j = i) then Some f else vget l j.
Proof. intros H%vget_lt. rewrite vget_insert by lia. repeat case_decide; done || lia. Qed.

Lemma NewFrame_frames fmt t now g g' : NewFrame fmt t now g = Ok (tt, g') ->
  same_frames g g' \/ exists g1, same_frames g g1 /\ frame_started (elapsed g now) g1 g'.
Proof.
  intros (g0 & g1 & [= <- <-] & E)%st_bind_inv. destruct (gPaused g); [injection E as <-; by left|].
  apply st_bind_inv in E as (stop_ & g1 & E1 & E). pose proof (keeps_CheckEndState _ _ _ _ E1) as H1.
  destruct stop_; [injection E as <-; by left|]. right.
  apply st_bind_inv in E as (g2 & g3 & [= <- <-] & E).
  apply st_bind_inv in E as (f0 & g2 & [_ ->]%get_frame_inv & E).
  apply st_bind_inv in E as ([] & g2 & E2 & E). pose proof (keeps_new_frame_loop _ _ _ _ _ _ E2) as H2.
  assert (gCurrentFrame g1 = gCurrentFrame g2) as Hc by (by destruct H2 as (_ & -> & _)).
  assert (elapsed g1 now = elapsed g now) as He by (unfold elapsed; by destruct H1 as (_ & _ & ->)).
  cbv zeta in E. rewrite Hc, He in E.
  exists g2. split; [by etrans|]. clear E1 E2 H1 H2 Hc He. set (start := elapsed g now) in *. set (n := gCurrentFrame g2) in *.
  apply st_bind_inv in E as (f & g3 & [Hf ->]%get_frame_inv & E).
  apply st_bind_inv in E as ([] & g4 & (f1 & _ & ->)%set_frame_inv & E).
  pose proof (vget_lt _ _ _ Hf) as Hn.
  apply st_bind_inv in E as ([] & g5 & E & [= <-]). destruct (Z.ltb_spec 0 n) as [H0|H0].
  - apply st_bind_inv in E as (p & g6 & [Hp ->]%get_frame_inv & E). apply set_frame_inv in E as (f2 & Hf2 & ->).
    cbn [gFrameData set_frames gCurrentFrame] in *.
    unfold frame_started. fold n. cbn [gFrameData set_frames gCurrentFrame gTimer]. unfold start_of, end_of. cbn [gFrameData set_frames].
    rewrite (vget_frames_insert _ _ _ _ _ Hf) in Hp. rewrite decide_False in Hp by lia.
    split_and!; [done|done|lia|lia|by rewrite !length_insert|..].
    + rewrite (vget_frames_insert _ _ _ _ _ Hf2), (vget_frames_insert _ _ _ _ _ Hf), decide_False, decide_True by lia. done.
    + intros k Hk. rewrite (vget_frames_insert _ _ _ _ _ Hf2), (vget_frames_insert _ _ _ _ _ Hf).
      case_decide; [subst k; by rewrite Hp|]. by rewrite decide_False by lia.
    + intros k Hk. rewrite (vget_frames_insert _ _ _ _ _ Hf2), (vget_frames_insert _ _ _ _ _ Hf).
      case_decide; [done|]. by rewrite decide_False by lia.
  - injection E as <-. unfold frame_started. fold n. cbn [gFrameData set_frames gCurrentFrame gTimer]. unfold start_of, end_of. cbn [gFrameData set_frames].
    split_and!; [done|done|lia|lia|by rewrite !length_insert|..|lia|lia].
    rewrite (vget_frames_insert _ _ _ _ _ Hf), decide_True by lia. done.
Qed.

(** Starting again forgets the frames. *)
Lemma Init_frames t now g g' : 0 <= now < 2 ^ 63 -> Init t now g = Ok (tt, g') -> frames_at now g'.
Proof.
  intros Hn (g2 & g3 & _ & (x & g4 & _ & [= <-])%st_bind_inv)%st_bind_inv.
  split; cbn; [lia|lia| |intros; lia]. split_and!; cbn; [lia|intros; lia..].
Qed.

Lemma Reset_frames t now g g' : 0 <= now < 2 ^ 63 -> Reset t now g = Ok (tt, g') -> frames_at now g'.
Proof. intros Hn ([] & g1 & _ & E)%st_bind_inv. by eapply Init_frames. Qed.

Lemma Settings_frames t now s g g' : 0 <= now < 2 ^ 63 -> SetProfileSettings t now s g = Ok (tt, g') -> frames_at now g'.
Proof. intros Hn ([] & g1 & _ & E)%st_bind_inv. by eapply Reset_frames. Qed.

(** ** Runs by the clock *)

(** The clock reading of a call. *)
Definition op_time (op : prof_op) : option Z :=
  match op with
  | OpPush _ now _ _ _ _ | OpPop _ now | OpNewFrame _ now | OpBeginRegion _ now | OpEndRegion _ now
  | OpReset _ now | OpInit _ now | OpSettings _ now _ | OpPauseButton _ now _ => Some now
  | OpName _ _ | OpHide _ | OpSetPaused _ | OpRegionLimit _ => None
  end.

(** The runs of [reachable] in which the clock, a number of nanoseconds below
    [int64_max], does not go back; [now] is its last reading. *)
Inductive timed (fmt_ms : Z -> str) : Z -> globals -> Prop :=
| timed_start now op g :
    0 <= now < int64_max -> op_time op = Some now -> first_call op -> run_prof fmt_ms op start_globals = Ok (tt, g) -> timed fmt_ms now g
| timed_step now now' g op g' :
    timed fmt_ms now g -> now <= now' < int64_max -> (op_time op = None \/ op_time op = Some now') -> allowed g op ->
    run_prof fmt_ms op g = Ok (tt, g') -> timed fmt_ms now' g'.

Lemma timed_reachable fmt now g : timed fmt now g -> reachable fmt g.
Proof. induction 1; [by eapply reach_start|by eapply reach_step]. Qed.

Lemma keeps_at {A} (c : ST globals A) now g a g' : keeps same_frames c -> frames_at now g -> c g = Ok (a, g') -> frames_at now g'.
Proof. intros Hc Hf E. eapply frames_at_proper; [by eapply Hc|done]. Qed.

Lemma NewFrame_at fmt t now g g' : prof_inv g -> frames_at now g -> NewFrame fmt t now g = Ok (tt, g') -> frames_at now g'.
Proof.
  intros Hi Hf [H|(g1 & H & Hs)]%NewFrame_frames; [by eapply frames_at_proper|].
  assert (elapsed g now = elapsed g1 now) as He by (unfold elapsed; by destruct H as (_ & _ & ->)). rewrite He in Hs.
  eapply frame_started_at; [|by eapply frames_at_proper|done].
  pose proof (so_frames _ (in_settings _ _ Hi)). pose proof (in_frames _ _ Hi).
  pose proof (in_frame_no _ _ Hi). destruct H as (_ & -> & _). lia.
Qed.

Lemma ShowProfile_pause_at t now pressed g g' : 0 <= now < 2 ^ 63 -> frames_at now g ->
  ShowProfile_pause t now pressed g = Ok (tt, g') -> frames_at now g'.
Proof.
  intros Hn Hf (g0 & g1 & [= <- <-] & E)%st_bind_inv. cbv zeta in E. destruct (_ || _); [|by injection E as <-].
  apply st_bind_inv in E as ([] & g1 & E1 & [= <-]). change (frames_at now (set_pause (if pressed then negb (gRequestPause g) else gRequestPause g) (if pressed then negb (gRequestPause g) else gRequestPause g) g1)).
  apply (frames_at_proper now g1); [by split_and!|]. destruct (negb _); [by eapply Reset_frames|by injection E1 as <-].
Qed.

Lemma run_prof_frames fmt op now g g' : frames_at now g -> prof_inv g -> (op_time op = None \/ op_time op = Some now) ->
  run_prof fmt op g = Ok (tt, g') -> frames_at now g'.
Proof.
  intros Hf Hi Ht E. assert (0 <= now < 2 ^ 63) as Hn by (destruct Hf; lia).
  destruct op; cbn [run_prof op_time] in *; try (destruct Ht as [Ht | [= ->]]; [done|]).
  - refine (keeps_at _ _ _ _ _ _ Hf E). apply keeps_Push.
  - refine (keeps_at _ _ _ _ _ _ Hf E). apply keeps_Pop.
  - by eapply NewFrame_at.
  - refine (keeps_at _ _ _ _ _ _ Hf E). apply keeps_Name.
  - refine (keeps_at _ _ _ _ _ _ Hf E). apply keeps_Hide.
  - refine (keeps_at _ _ _ _ _ _ Hf E). apply keeps_BeginRegion.
  - refine (keeps_at _ _ _ _ _ _ Hf E). apply keeps_EndRegion.
  - refine (keeps_at _ _ _ _ _ _ Hf E). unfold SetPaused. keep.
  - refine (keeps_at _ _ _ _ _ _ Hf E). unfold SetRegionLimit. keep.
  - by eapply Reset_frames.
  - by eapply Init_frames.
  - by eapply Settings_frames.
  - by eapply ShowProfile_pause_at.
Qed.

Lemma timed_frames fmt now g : timed fmt now g -> frames_at now g.
Proof.
  induction 1 as [now op g Hn Ht Hs E|now now' g op g' Ht IH Hn Hop Ha E].
  - assert (0 <= now < 2 ^ 63) as Hn' by (unfold int64_max in Hn; lia).
    destruct op; try done; injection Ht as ->; [by eapply Init_frames|by eapply Settings_frames].
  - eapply run_prof_frames; [apply (frames_at_later now); [unfold int64_max in Hn; lia|done]| |done..]. by eapply reachable_inv, timed_reachable.
Qed.

(** What the candles are drawn from: the frames that have ended. *)
Lemma frames_at_in_time now g : frames_at now g -> in_time (gCurrentFrame g - 1) (bases g).
Proof.
  intros [_ _ Hc Hs]. pose proof Hc as (Hlen & Hnext & Hord).
  assert (forall i r, vget (bases g) i = Some r -> start_of g i = r_startTime r /\ end_of g i = r_endTime r) as Hr.
  { intros i r E. by rewrite start_of_bases, end_of_bases, E. }
  split.
  - intros i r Hi [<- <-]%Hr. specialize (Hs i). specialize (Hord i). lia.
  - intros i j r r' Hi Hj [_ <-]%Hr [_ <-]%Hr. destruct (decide (i = j)) as [-> |]; [lia|].
    etrans; [apply (start_mono g _ Hc i j); lia|]. apply Hord. lia.
Qed.

(** ** Properties *)

(** C4. The recorded frames follow each other in time. With a clock that does
    not go back, whatever calls whatever threads make and however often the
    recording is paused and started again, every frame that has ended ends
    where the next one starts and not before its own start, no frame starts
    before the recording or after the last reading of the clock, and so the
    list of the ended frames is in order for the candles. *)
Theorem recorded_in_time fmt_ms now g :
  timed fmt_ms now g ->
  (forall k, 0 <= k < gCurrentFrame g - 1 -> start_of g k <= end_of g k /\ end_of g k = start_of g (k + 1)) /\
  (forall k, 0 <= k < gCurrentFrame g -> 0 <= start_of g k <= now - gTimer g) /\
  in_time (gCurrentFrame g - 1) (bases g).
Proof.
  intros Hf%timed_frames. pose proof (frames_at_in_time _ _ Hf). destruct Hf as [_ _ (_ & Hnext & Hord) Hs].
  split_and!; auto.
Qed.

(** ** Witnesses *)

(** A run of calls by thread 0, each with its time. *)
Fixpoint run_timed (ops : list (Z * prof_op)) (g : globals) : result stop (unit * globals) :=
  match ops with
  | [] => Ok (tt, g)
  | (_, op) :: ops => match run_prof demo_fmt op g with Ok (_, g') => run_timed ops g' | Err e => Err e end
  end.

Fixpoint times_ok (now : Z) (ops : list (Z * prof_op)) (g : globals) : Prop :=
  match ops with
  | [] => True
  | (now', op) :: ops => now <= now' < int64_max /\ (op_time op = None \/ op_time op = Some now') /\ allowed g op /\
      match run_prof demo_fmt op g with Ok (_, g') => times_ok now' ops g' | Err _ => True end
  end.

Lemma timed_run ops : forall now g g', timed demo_fmt now g -> times_ok now ops g -> run_timed ops g = Ok (tt, g') ->
  timed demo_fmt (List.last (map fst ops) now) g'.
Proof.
  induction ops as [|[now' op] ops IH]; intros now g g' Hg Ha Hr; [by injection Hr as <-|].
  destruct Ha as (Hn & Ht & Ha & Hrest). cbn [run_timed] in Hr.
  destruct (run_prof demo_fmt op g) as [[[] g1]|] eqn:E; [|done].
  assert (timed demo_fmt now' g1) as H1 by (eapply timed_step; eauto).
  specialize (IH now' g1 g' H1 Hrest Hr). destruct ops as [|[]]; [done|]. cbn [map List.last fst] in *.
  clear -IH. revert IH. generalize (map fst ops). intros l. revert z. induction l; [done|]. intros z. cbn. destruct l; eauto.
Qed.

(** That the times of a concrete run are in order. *)
Ltac check_times :=
  vm_compute; repeat match goal with |- _ /\ _ => split | |- _ \/ _ => first [by left | right] end; done.

(** A section at 200 ns and three frames, started at 300, 310 and 320 ns. *)
Definition demo_ops : list (Z * prof_op) :=
  [(200, demo_push); (300, OpNewFrame 0 300); (310, OpNewFrame 0 310); (320, OpNewFrame 0 320)].
Definition demo_three : globals := from_ok (run_timed demo_ops demo_start).

Lemma demo_three_timed : timed demo_fmt 320 demo_three.
Proof.
  apply (timed_run demo_ops 100 demo_start).
  - apply (timed_start demo_fmt 100 (OpSettings 0 100 demo_settings)); [unfold int64_max; lia|done|apply demo_settings_ok|reflexivity].
  - check_times.
  - by vm_compute.
Qed.

Lemma recorded_in_time_witness :
  gCurrentFrame demo_three = 3 /\
  (forall k, 0 <= k < 2 -> start_of demo_three k <= end_of demo_three k /\ end_of demo_three k = start_of demo_three (k + 1)) /\
  (forall k, 0 <= k < 3 -> 0 <= start_of demo_three k <= 220) /\
  in_time 2 (bases demo_three).
Proof. split; [by vm_compute|]. exact (recorded_in_time demo_fmt 320 demo_three demo_three_timed). Defined.
