(* ===== verification/ProfilerSections.v ===== *)
(** * Recorded sections

    With a clock that does not go back, the sections of a thread are recorded
    in order of time and nested in each other, and a frame lists the threads
    that recorded something before its end: so the walk of the viewer over the
    entries of a frame meets every section that was open during it. *)

From S2P Require Import Prelude StdString StringUtils Profiler ProfilerTheory Float32 MathVec Candles CandlesTheory ProfilerTime.

(** ** Calls that record nothing *)

(** Taking a slot, naming and hiding. *)
Definition same_slot (td td' : ThreadData) : Prop :=
  entries td' = entries td /\ entryStack td' = entryStack td /\ callStackDepth td' = callStackDepth td /\
  maxTime td' = maxTime td /\ (currentEntry td' = currentEntry td \/ currentEntry td' = 0).

#[global] Instance same_slot_preorder : PreOrder same_slot.
Proof.
  split; [intros td; split_and!; auto|]. intros a b c (E1 & E2 & E3 & E4 & E5) (F1 & F2 & F3 & F4 & F5).
  split_and!; try (by etrans). destruct F5 as [-> | ->]; auto.
Qed.

Definition idle (g g' : globals) : Prop :=
  gTimer g' = gTimer g /\ gFrameData g' = gFrameData g /\ gCurrentFrame g' = gCurrentFrame g /\
  Forall2 same_slot (gThreadData g) (gThreadData g').

#[global] Instance idle_preorder : PreOrder idle.
Proof.
  split; [intros g; by split_and!|]. intros g1 g2 g3 (H1 & H2 & H3 & H4) (H5 & H6 & H7 & H8). split_and!; by etrans.
Qed.

Lemma idle_set_thread i td td' g : vget (gThreadData g) i = Some td -> same_slot td td' ->
  idle g (set_threads (<[Z.to_nat i := td']> (gThreadData g)) g).
Proof.
  intros [_ Ht]%vget_Some Hs. split_and!; try done. cbn. rewrite <- (list_insert_id (gThreadData g) _ _ Ht) at 1.
  by apply Forall2_insert.
Qed.

(** Reading a slot and writing it back. *)
Lemma idle_update i F : (forall td, same_slot td (F td)) -> keeps idle (td ← get_thread i; set_thread i (F td)).
Proof.
  intros HF g [] g' (td & g1 & E & E')%st_bind_inv. unfold get_thread, set_thread in *.
  apply st_bind_inv in E as (g0 & g2 & [= <- <-] & E). unfold st_some in E. destruct (vget (gThreadData g) i) as [td0|] eqn:Et; [|done].
  injection E as -> ->. apply st_bind_inv in E' as (g0 & g2 & [= <- <-] & E'). rewrite Et in E'. injection E' as <-.
  by apply (idle_set_thread i td).
Qed.

Lemma idle_init_loop NDEBUG n t : forall i, keeps idle (init_thread_loop NDEBUG n t i).
Proof.
  induction n as [|n IH]; intros i; cbn [init_thread_loop]; [keep|]. intros g [] g' (td & g1 & E & E')%st_bind_inv.
  unfold get_thread in E. apply st_bind_inv in E as (g0 & g2 & [= <- <-] & E). unfold st_some in E.
  destruct (vget (gThreadData g) i) as [td0|] eqn:Et; [|done]. injection E as -> ->.
  destruct (negb _); [|by eapply IH]. apply st_bind_inv in E' as ([] & g2 & [= <-] & E').
  set (g2 := set_tls _ g1) in E'. rewrite (set_thread_ok g2 i td) in E' by done. injection E' as <-.
  transitivity g2; [by split_and!|]. apply (idle_set_thread i td _ g2); [done|]. split_and!; auto.
Qed.

Lemma idle_set_region i r : keeps idle (set_region i r).
Proof. intros g b g' (g1 & g2 & [= <- <-] & (x & g3 & E & E2)%st_bind_inv)%st_bind_inv. unfold st_some in E. destruct (vget _ _); [|done]. injection E as _ <-. by injection E2 as _ <-. Qed.
#[export] Hint Resolve idle_init_loop idle_set_region : keeps.

Lemma idle_GetThreadData t : keeps idle (GetThreadData false t).
Proof. unfold GetThreadData, InitThread. keep. Qed.
Lemma idle_CheckEndState t : keeps idle (CheckEndState t).
Proof. unfold CheckEndState. keep. Qed.
#[export] Hint Resolve idle_GetThreadData idle_CheckEndState : keeps.

(** ** The sections of a thread *)

(** [T]: the time since the recording started. A section that is still open
    ends at [int64_max]; one that is not deeper than an earlier one starts when
    that one has ended. *)
Record slot_times (T : Z) (td : ThreadData) : Prop := {
  st_entry i en : 0 <= i < currentEntry td -> vget (entries td) i = Some en ->
    0 <= startTime en <= T /\ startTime en <= endTime en <= int64_max /\
    (endTime en <= T \/ exists k, 0 <= k < callStackDepth td /\ vget (entryStack td) k = Some i);
  st_open k i en : 0 <= k < callStackDepth td -> vget (entryStack td) k = Some i -> 0 <= i < currentEntry td ->
    vget (entries td) i = Some en -> endTime en = int64_max;
  st_order i j ei ej : 0 <= i -> i < j < currentEntry td -> vget (entries td) i = Some ei -> vget (entries td) j = Some ej ->
    startTime ei <= startTime ej /\ (level ej <= level ei -> endTime ei <= startTime ej);
  st_max : 0 <= maxTime td <= T }.

Lemma slot_times_later T T' td : T <= T' -> slot_times T td -> slot_times T' td.
Proof.
  intros HT [H1 H2 H3 H4]. split; [|done|done|lia]. intros i en Hi E. destruct (H1 i en Hi E) as (? & ? & H).
  split_and!; [lia..|]. destruct H; [left; lia|by right].
Qed.

Lemma slot_times_same T td td' : same_slot td td' -> slot_times T td -> slot_times T td'.
Proof.
  intros (E1 & E2 & E3 & E4 & E5) [H1 H2 H3 H4].
  split; rewrite ?E1, ?E2, ?E3, ?E4; [| | |done].
  - intros i en Hi. apply H1. lia.
  - intros k i en Hk Ek Hi. apply (H2 k); [done|done|lia].
  - intros i j ei ej Hi Hj. apply H3; lia.
Qed.

Lemma pushed_times s T td e : settings_ok s -> slot_ok s td -> slot_times T td -> 0 <= T <= int64_max ->
  currentEntry td < Z.of_nat (MaxEntriesPerThread s) -> callStackDepth td < MaxCallStack s ->
  startTime e = T -> endTime e = int64_max -> level e = callStackDepth td -> slot_times T (pushed td e T).
Proof.
  intros Hs [] [H1 H2 H3 H4] HT Hc Hd Es Ee El. destruct Hs. unfold pushed.
  rewrite (wrap_small 32 (callStackDepth td + 1)), (wrap_small 32 (currentEntry td + 1)) by (unfold in_u; lia).
  assert (Hin : 0 <= currentEntry td < Z.of_nat (length (entries td))) by lia.
  assert (Hst : 0 <= callStackDepth td < Z.of_nat (length (entryStack td))) by lia.
  split; cbn [entries entryStack currentEntry callStackDepth maxTime].
  - intros i en Hi. rewrite vget_insert by done. case_decide.
    + subst i. intros [= <-]. rewrite Es, Ee. split_and!; [lia..|]. right. exists (callStackDepth td).
      split; [lia|]. rewrite vget_insert by done. by rewrite decide_True.
    + intros E. destruct (H1 i en ltac:(lia) E) as (? & ? & Hor). split_and!; [lia..|]. destruct Hor as [Hor|(k & Hk & Ek)]; [by left|right].
      exists k. split; [lia|]. by apply vget_insert_old; [|lia|].
  - intros k i en Hk Ek Hi Een. rewrite vget_insert in Een by done. case_decide as Di; [by injection Een as <-|].
    rewrite vget_insert in Ek by done. case_decide as Dk; [congruence|]. apply (H2 k i); [lia|done|lia|done].
  - intros i j ei ej Hi Hj. rewrite !vget_insert by done. case_decide; [lia|]. intros Ei. case_decide.
    + intros [= <-]. subst j. rewrite Es, El. destruct (H1 i ei ltac:(lia) Ei) as (? & ? & Hor). split; [lia|]. intros Hle.
      destruct Hor as [Hor|(k & Hk & Ek)]; [done|]. destruct (sl_open k Hk) as (i' & en & Ek' & _ & Een & Elev).
      rewrite Ek in Ek'. injection Ek' as <-. rewrite Ei in Een. injection Een as <-. lia.
    + intros Ej. apply (H3 i j ei ej); [lia|lia|done|done].
  - lia.
Qed.

Lemma popped_times s T td p en : slot_ok s td -> slot_times T td -> 0 <= T < int64_max -> 0 < callStackDepth td ->
  vget (entryStack td) (callStackDepth td - 1) = Some p -> 0 <= p < currentEntry td -> vget (entries td) p = Some en ->
  slot_times T (mkThread (initialized td) (callStackDepth td - 1) (maxLevel td) (minTime td) (Z.max T (maxTime td)) (currentEntry td)
    (hidden td) (t_name td)
    (<[Z.to_nat p := mkEntry (szSection en) (szFile en) (line en) (color en) (level en) (startTime en) T (parent en)]> (entries td))
    (entryStack td)).
Proof.
  intros [] [H1 H2 H3 H4] HT Hd Ep Hp Een. pose proof (vget_lt _ _ _ Een) as Hlt.
  pose proof (H2 (callStackDepth td - 1) p en ltac:(lia) Ep Hp Een) as Hopen. destruct (H1 p en Hp Een) as (Hs & _ & _).
  split; cbn [entries entryStack currentEntry callStackDepth maxTime].
  - intros i x Hi. rewrite vget_insert by done. case_decide.
    + intros [= <-]. cbn [startTime endTime level]. split_and!; [lia..|]. by left.
    + intros E. destruct (H1 i x Hi E) as (? & ? & Hor). split_and!; [lia..|]. destruct Hor as [Hor|(k & Hk & Ek)]; [by left|right].
      exists k. split; [|done]. destruct (decide (k = callStackDepth td - 1)) as [-> |]; [congruence|lia].
  - intros k i x Hk Ek Hi. rewrite vget_insert by done. case_decide; [|apply (H2 k); [lia|done|done]].
    subst i. destruct (sl_open k ltac:(lia)) as (i' & en' & Ek' & _ & Een' & El). rewrite Ek in Ek'. injection Ek' as <-.
    destruct (sl_open (callStackDepth td - 1) ltac:(lia)) as (i' & en'' & Ek' & _ & Een'' & El'). rewrite Ep in Ek'. injection Ek' as <-.
    rewrite Een' in Een''. injection Een'' as <-. lia.
  - intros i j ei ej Hi Hj. rewrite !vget_insert by done. repeat case_decide; subst; try lia.
    + intros [= <-] Ej. cbn [startTime endTime level]. destruct (H3 i j en ej Hi Hj Een Ej) as [Hle Hn]. split; [done|]. intros Hl.
      destruct (H1 j ej ltac:(lia) Ej) as (? & _). specialize (Hn Hl). lia.
    + intros Ei [= <-]. cbn [startTime endTime level]. apply (H3 i j ei en); [done|lia|done|done].
    + by apply H3.
  - lia.
Qed.

(** ** The threads of the frames *)

(** The active entry of a thread in a frame is its first, or started before
    the frame; and a thread that a frame does not list recorded nothing before
    the end of the frame. *)
Record sections_at (T : Z) (g : globals) : Prop := {
  sa_slot i td : vget (gThreadData g) i = Some td -> slot_times T td;
  sa_active fi f info td en : 0 <= fi < gCurrentFrame g -> vget (gFrameData g) fi = Some f -> info ∈ frame_infos f ->
    vget (gThreadData g) (threadIndex info) = Some td -> vget (entries td) (activeEntry info) = Some en ->
    activeEntry info = 0 \/ startTime en <= r_startTime (f_base f);
  sa_listed fi f i td en : 0 <= fi < gCurrentFrame g -> vget (gFrameData g) fi = Some f ->
    vget (gThreadData g) i = Some td -> 0 < currentEntry td -> vget (entries td) 0 = Some en ->
    i ∈ map threadIndex (frame_infos f) \/ fi < gCurrentFrame g - 1 /\ r_endTime (f_base f) <= startTime en }.

Lemma sections_later T T' g : T <= T' -> sections_at T g -> sections_at T' g.
Proof. intros HT []. split; [|done|done]. intros i td E. by eapply slot_times_later, sa_slot. Qed.

(** The starts of the sections stay. *)
Definition starts_kept (td td' : ThreadData) : Prop :=
  forall e en', 0 <= e < currentEntry td -> vget (entries td') e = Some en' ->
    exists en, vget (entries td) e = Some en /\ startTime en' = startTime en.

(** Frames that only list more threads, from their first entry on. *)
Definition frames_kept (fs fs' : list Frame) : Prop :=
  forall fi f', vget fs' fi = Some f' -> exists f, vget fs fi = Some f /\ f_base f' = f_base f /\
    (forall info, info ∈ frame_infos f -> info ∈ frame_infos f') /\
    (forall info, info ∈ frame_infos f' -> info ∈ frame_infos f \/ activeEntry info = 0).

Lemma frames_kept_refl fs : frames_kept fs fs.
Proof. intros fi f E. exists f. split_and!; auto. Qed.

(** One call of a thread. *)
Lemma sections_step now T g g' : prof_inv g -> frames_at now g -> sections_at T g -> T = now - gTimer g ->
  gCurrentFrame g' = gCurrentFrame g -> frames_kept (gFrameData g) (gFrameData g') ->
  (forall i td', vget (gThreadData g') i = Some td' -> exists td, vget (gThreadData g) i = Some td /\ slot_times T td' /\ starts_kept td td' /\
     (currentEntry td = 0 -> 0 < currentEntry td' ->
        (forall en, vget (entries td') 0 = Some en -> startTime en = T) /\
        (forall f', 0 < gCurrentFrame g -> vget (gFrameData g') (gCurrentFrame g - 1) = Some f' -> i ∈ map threadIndex (frame_infos f')))) ->
  sections_at T g'.
Proof.
  intros Hi Hf [H1 H2 H3] ET Ec Hfr Hth. split.
  - intros i td' E. by destruct (Hth i td' E) as (td & _ & Ht & _).
  - rewrite Ec. intros fi f' info td' en' Hfi Ef' Hinfo Etd' Een'. destruct (Hfr fi f' Ef') as (f & Ef & Eb & _ & Hsub).
    destruct (Hsub info Hinfo) as [Hin|H0]; [|by left]. rewrite Eb. destruct (Hth _ _ Etd') as (td & Etd & _ & Hst & _).
    destruct (fr_info _ _ _ (proj1 (in_frame _ _ Hi _ _ Ef)) info Hin) as (x & Ex & Ha). rewrite Etd in Ex. injection Ex as <-.
    destruct (Hst _ _ Ha Een') as (en & Een & ->). by eapply H2.
  - rewrite Ec. intros fi f' i td' en' Hfi Ef' Etd' Hpos Een'. destruct (Hfr fi f' Ef') as (f & Ef & Eb & Hsub & _). rewrite Eb.
    destruct (Hth _ _ Etd') as (td & Etd & _ & Hst & Hnew). pose proof (sl_current _ _ (in_slot _ _ Hi _ _ Etd)).
    destruct (decide (currentEntry td = 0)) as [E0|Hn].
    + destruct (Hnew E0 Hpos) as [Hstart Hlist]. rewrite (Hstart _ Een').
      destruct (decide (fi = gCurrentFrame g - 1)) as [-> |]; [left; apply Hlist; [lia|done]|right]. split; [lia|].
      destruct Hf as [_ _ (_ & Hnext & _) Hs]. specialize (Hnext fi ltac:(lia)). specialize (Hs (fi + 1) ltac:(lia)).
      unfold end_of in Hnext. rewrite Ef in Hnext. lia.
    + destruct (Hst 0 en' ltac:(lia) Een') as (en & Een & ->).
      destruct (H3 fi f i td en Hfi Ef Etd ltac:(lia) Een) as [Hin|]; [left|by right].
      apply list_elem_of_fmap in Hin as (info & -> & Hin). apply list_elem_of_fmap. exists info. auto.
Qed.

Lemma vget_Forall2 {A B} (P : A -> B -> Prop) l k i y : Forall2 P l k -> vget k i = Some y -> exists x, vget l i = Some x /\ P x y.
Proof.
  intros H [Hi E]%vget_Some. destruct (Forall2_lookup_r _ _ _ _ _ H E) as (x & Ex & Hp). exists x. split; [|done]. by apply vget_Some.
Qed.

Lemma sections_idle now T g g' : prof_inv g -> frames_at now g -> sections_at T g -> T = now - gTimer g -> idle g g' -> sections_at T g'.
Proof.
  intros Hi Hf Hs ET (_ & Ef & Ec & Hth). apply (sections_step now T g g'); try done; [rewrite Ef; apply frames_kept_refl|].
  intros i td' E. destruct (vget_Forall2 _ _ _ _ _ Hth E) as (td & Etd & Hsame). exists td. split; [done|].
  split; [eapply slot_times_same; [done|]; by eapply sa_slot|]. destruct Hsame as (E1 & _ & _ & _ & E5). split; [|lia].
  intros e en' He Een'. exists en'. by rewrite <- E1.
Qed.

(** ** The calls *)

Lemma idle_frames g g' : idle g g' -> same_frames g g'.
Proof. intros (H1 & H2 & H3 & _). split_and!; [|done|done]. unfold bases. by rewrite H2. Qed.

Lemma recording_inv (K : Z -> ST globals unit) t g g' : prof_inv g ->
  (g ← st_get; if gPaused g then mret tt
   else i ← GetThreadData false t; stop_ ← CheckEndState t; if (stop_ : bool) then mret tt else K i) g = Ok (tt, g') ->
  idle g g' \/ exists i g1 td, idle g g1 /\ prof_inv g1 /\ (tls_of g1 t).1 = i /\ vget (gThreadData g1) i = Some td /\
    currentEntry td < Z.of_nat (MaxEntriesPerThread (settings g1)) /\ K i g1 = Ok (tt, g').
Proof.
  intros Hi (g0 & g1 & [= <- <-] & E)%st_bind_inv. destruct (gPaused g) eqn:Ep; [injection E as <-; by left|].
  apply st_bind_inv in E as (i & g1 & E1 & E). pose proof (idle_GetThreadData _ _ _ _ E1) as H1.
  pose proof (GetThreadData_spec (gCurrentFrame g) g t Hi) as Hs. rewrite E1 in Hs. destruct Hs as (Hi1 & (Et & td & Etd & _) & Hr).
  apply st_bind_inv in E as (b & g2 & E2 & E). pose proof (idle_CheckEndState _ _ _ _ E2) as H2.
  destruct (CheckEndState_spec g1 t td) as (b' & g2' & E2' & _ & _ & Hroom); [by rewrite Et|]. rewrite E2 in E2'. injection E2' as <- <-.
  destruct b; [injection E as <-; left; by etrans|]. destruct (Hroom eq_refl) as (-> & Hc & _). right. exists i, g1, td.
  split_and!; try done; [|by rewrite Et]. unfold prof_inv. destruct Hr as (_ & _ & -> & _). done.
Qed.

(** What is to be shown of a call that records. *)
Lemma recording_sections (K : Z -> ST globals unit) t now T g g' : prof_inv g -> frames_at now g -> sections_at T g -> T = now - gTimer g ->
  (forall i g1 td, prof_inv g1 -> frames_at now g1 -> sections_at T g1 -> T = now - gTimer g1 -> (tls_of g1 t).1 = i ->
     vget (gThreadData g1) i = Some td -> currentEntry td < Z.of_nat (MaxEntriesPerThread (settings g1)) ->
     K i g1 = Ok (tt, g') -> sections_at T g') ->
  (g ← st_get; if gPaused g then mret tt
   else i ← GetThreadData false t; stop_ ← CheckEndState t; if (stop_ : bool) then mret tt else K i) g = Ok (tt, g') -> sections_at T g'.
Proof.
  intros Hi Hf Hs ET HK E. apply recording_inv in E as [Hid|(i & g1 & td & Hid & Hi1 & Et & Etd & Hc & E)]; [by eapply sections_idle| |done].
  eapply HK; try done; [exact (frames_at_proper _ _ _ (idle_frames _ _ Hid) Hf)|exact (sections_idle _ _ _ _ Hi Hf Hs ET Hid)|by destruct Hid as (-> & _)].
Qed.

Lemma frames_kept_add fs fi f info : vget fs fi = Some f -> frameThreadCount f < Z.of_nat (length (frameThreads f)) ->
  0 <= frameThreadCount f -> Z.of_nat (length (frameThreads f)) < 2 ^ 31 -> activeEntry info = 0 ->
  frames_kept fs (<[Z.to_nat fi := with_thread f info]> fs) /\ info ∈ frame_infos (with_thread f info).
Proof.
  intros Ef Hlt H0 Hmax Ha. rewrite frame_infos_add by lia. split; [|set_solver].
  intros k x. rewrite (vget_frames_insert _ _ _ _ _ Ef). case_decide; [|intros Ex; by apply frames_kept_refl].
  intros [= <-]. subst k. exists f. rewrite frame_infos_add by lia. split_and!; [done..|set_solver|].
  intros y. rewrite elem_of_app, list_elem_of_singleton. intros [Hy| ->]; auto.
Qed.

Lemma add_frame_thread_inv fi info g g' : add_frame_thread fi info g = Ok (tt, g') ->
  exists f, vget (gFrameData g) fi = Some f /\ 0 <= frameThreadCount f < Z.of_nat (length (frameThreads f)) /\
    g' = set_frames (<[Z.to_nat fi := with_thread f info]> (gFrameData g)) (gCurrentFrame g) g.
Proof.
  intros (f & g1 & [Ef ->]%get_frame_inv & (x & g2 & E & E2)%st_bind_inv)%st_bind_inv. unfold st_some in E.
  destruct (vget (frameThreads f) _) as [y|] eqn:Ey; [|done]. injection E as _ <-. apply set_frame_inv in E2 as (f1 & _ & ->).
  exists f. split; [done|]. split; [by eapply vget_lt|done].
Qed.

(** Step over code that does not change the state. *)
Ltac pure_step E :=
  let x := fresh "x" in let g1 := fresh "g" in let E1 := fresh "E" in
  apply st_bind_inv in E as (x & g1 & E1 & E);
  match type of E1 with ?c ?g = Ok (_, ?g') => assert (keeps eq c) as Hkeep by keep; apply Hkeep in E1; clear Hkeep; subst g' end.

(** The section that is pushed starts now. *)
Lemma starts_kept_push td e start : starts_kept td (pushed td e start).
Proof.
  intros j en' Hj E. cbn in E. exists en'. split; [|done]. destruct (decide (j < Z.of_nat (length (entries td)))).
  - destruct (decide (currentEntry td < Z.of_nat (length (entries td)))).
    + rewrite vget_insert in E by lia. by rewrite decide_False in E by lia.
    + by rewrite list_insert_ge in E by lia.
  - apply vget_lt in E. rewrite length_insert in E. lia.
Qed.

(** A thread that pushes its first section is listed in the current frame. *)
Lemma push_frames g i t td td' g2 : prof_inv g -> vget (gThreadData g) i = Some td -> (tls_of g t).1 = i -> currentEntry td' = currentEntry td + 1 ->
  (if (currentEntry td' =? 1) && (0 <? gCurrentFrame g)
   then add_frame_thread (gCurrentFrame g - 1) (mkInfo (u32 (tls_of g t).1) (u32 (currentEntry td' - 1)))
   else mret tt) (set_threads (<[Z.to_nat i := td']> (gThreadData g)) g) = Ok (tt, g2) ->
  gCurrentFrame g2 = gCurrentFrame g /\ gThreadData g2 = <[Z.to_nat i := td']> (gThreadData g) /\
  frames_kept (gFrameData g) (gFrameData g2) /\
  (forall f', currentEntry td = 0 -> 0 < gCurrentFrame g -> vget (gFrameData g2) (gCurrentFrame g - 1) = Some f' -> i ∈ map threadIndex (frame_infos f')).
Proof.
  intros Hi Etd Et Ecur Eadd.
  destruct (Z.eqb_spec (currentEntry td') 1) as [E1|E1]; [destruct (Z.ltb_spec 0 (gCurrentFrame g)) as [E2|E2]|]; cbn [andb] in Eadd.
  2, 3: injection Eadd as <-; split_and!; [done..|apply frames_kept_refl|intros; lia].
  apply add_frame_thread_inv in Eadd as (fr & Efr & Hcount & ->). cbn [gFrameData set_threads gCurrentFrame set_frames] in *.
  pose proof (fr_size _ _ _ (proj1 (in_frame _ _ Hi _ _ Efr))). pose proof (so_threads _ (in_settings _ _ Hi)) as [_ Hmax].
  pose proof (vget_lt _ _ _ Etd). pose proof (in_threads _ _ Hi).
  destruct (frames_kept_add (gFrameData g) (gCurrentFrame g - 1) fr (mkInfo (u32 (tls_of g t).1) (u32 (currentEntry td' - 1)))) as [Hk Hin];
    [done|lia|lia|lia|by rewrite E1|]. split_and!; [done..|]. intros f' _ _. rewrite (vget_frames_insert _ _ _ _ _ Efr), decide_True by done.
  intros [= <-]. apply list_elem_of_fmap. eexists. split; [|exact Hin]. cbn. rewrite Et. by rewrite wrap_small by (unfold in_u; lia).
Qed.

Lemma Push_sections now t s f c l g g' T : prof_inv g -> frames_at now g -> sections_at T g -> T = now - gTimer g -> now < int64_max ->
  PushSectionBase false t now s f c l g = Ok (tt, g') -> sections_at T g'.
Proof.
  intros Hi Hf Hs ET Hn E. unfold PushSectionBase in E. eapply (recording_sections (fun i => _)); [exact Hi|done..| |exact E].
  clear g Hi Hf Hs ET E. intros i g td Hi Hf Hs ET Et Etd Hc E.
  rewrite (st_bind_ok _ _ _ _ _ (get_thread_ok _ _ _ Etd)) in E. apply st_bind_inv in E as (g0 & g1 & [= <- <-] & E).
  destruct (Z.ltb_spec (callStackDepth td) (MaxCallStack (settings g))) as [Hd|Hd]; [|done].
  rewrite (st_bind_ok _ _ g tt g) in E by done. destruct (gPaused g); [injection E as <-; done|].
  do 2 pure_step E. apply st_bind_inv in E as (par & g1 & Epar & E).
  assert (g = g1) as <-.
  { revert Epar. match goal with |- ?c _ = Ok _ -> _ => assert (keeps eq c) as Hk by keep end. apply Hk. }
  do 2 pure_step E. set (e := mkEntry _ _ _ _ _ _ _ _) in E. rewrite (elapsed_at _ _ Hf), <- ET in E.
  rewrite (st_bind_ok _ _ _ _ _ (set_thread_ok _ _ _ _ Etd)) in E. set (td' := pushed td e T) in E.
  assert (slot_times T td') as Htd'.
  { apply (pushed_times (settings g)); try done; [by eapply in_settings|by eapply in_slot|by eapply sa_slot|destruct Hf; lia|..].
    - cbn. by rewrite (elapsed_at _ _ Hf).
    - cbn. pose proof (so_stack _ (in_settings _ _ Hi)). pose proof (sl_depth _ _ (in_slot _ _ Hi _ _ Etd)). unfold swrap. rewrite Z.mod_small; lia. }
  apply st_bind_inv in E as ([] & g2 & Eadd & [= <-]).
  assert (currentEntry td' = currentEntry td + 1) as Ecur.
  { pose proof (so_entries _ (in_settings _ _ Hi)). pose proof (sl_current _ _ (in_slot _ _ Hi _ _ Etd)). cbn. apply wrap_small. unfold in_u. lia. }
  assert (forall en, currentEntry td = 0 -> vget (entries td') 0 = Some en -> startTime en = T) as Hfirst.
  { intros en E0. change (entries td') with (<[Z.to_nat (currentEntry td) := e]> (entries td)). rewrite E0, vget_insert by (rewrite (sl_entries _ _ (in_slot _ _ Hi _ _ Etd)); lia).
    rewrite decide_True by done. intros [= <-]. cbn. by rewrite (elapsed_at _ _ Hf). }
  destruct (push_frames g i t td td' g2 Hi Etd Et Ecur Eadd) as (E1 & E2 & Hfk & Hlist).
  apply (sections_step now T g); try done. intros j x'. cbn [gThreadData set_restarting]. rewrite E2.
  rewrite vget_insert by (by eapply vget_lt). case_decide as Dj.
  - intros [= <-]. subst j. exists td. split_and!; [done|done|apply starts_kept_push|]. intros E0 _. split; [auto|]. intros f'. by apply Hlist.
  - intros Ex. exists x'. split_and!; [done|by eapply sa_slot| |lia]. intros k en Hk Een. by exists en.
Qed.

Lemma Pop_sections now t g g' T : prof_inv g -> frames_at now g -> sections_at T g -> T = now - gTimer g -> now < int64_max ->
  PopSection false t now g = Ok (tt, g') -> sections_at T g'.
Proof.
  intros Hi Hf Hs ET Hn E. unfold PopSection in E. eapply (recording_sections (fun i => _)); [exact Hi|done..| |exact E].
  clear g Hi Hf Hs ET E. intros i g td Hi Hf Hs ET Et Etd Hc E.
  apply st_bind_inv in E as (g0 & g1 & [= <- <-] & E). destruct (_ || _); [by injection E as <-|].
  rewrite (st_bind_ok _ _ _ _ _ (get_thread_ok _ _ _ Etd)) in E. destruct (Z.leb_spec (callStackDepth td) 0) as [|Hd]; [by injection E as <-|].
  pose proof (in_slot _ _ Hi _ _ Etd) as Hsl. destruct (sl_open _ _ Hsl (callStackDepth td - 1) ltac:(lia)) as (p & en & Ep & Hp & Een & _).
  rewrite Ep, (st_bind_ok _ _ g p g) in E by done. pose proof (so_entries _ (in_settings _ _ Hi)). pose proof (sl_current _ _ Hsl).
  assert (i32 p = p) as Eip by (unfold swrap; rewrite Z.mod_small; lia). rewrite Eip, Een, (st_bind_ok _ _ g en g) in E by done.
  pure_step E. rewrite (set_thread_ok _ _ _ _ Etd), (elapsed_at _ _ Hf), <- ET in E. injection E as <-.
  apply (sections_step now T g); try done; [apply frames_kept_refl|]. intros j x'. cbn [gThreadData set_threads].
  rewrite vget_insert by (by eapply vget_lt). case_decide as Dj.
  - intros [= <-]. subst j. exists td. split; [done|]. split.
    { apply (popped_times (settings g)); try done; [by eapply sa_slot|destruct Hf; lia]. }
    split; [|cbn; lia]. intros k y Hk. cbn [entries]. rewrite vget_insert by (by eapply vget_lt). case_decide; [|by exists y].
    intros [= <-]. subst k. by exists en.
  - intros Ex. exists x'. split_and!; [done|by eapply sa_slot| |lia]. intros k y Hk Ey. by exists y.
Qed.

(** The frames after [NewFrame]. *)
Definition frame_added (start : Z) (g g' : globals) : Prop :=
  let n := gCurrentFrame g in
  gThreadData g' = gThreadData g /\ gCurrentFrame g' = u32 (n + 1) /\
  (forall k f', k < n -> vget (gFrameData g') k = Some f' -> exists f, vget (gFrameData g) k = Some f /\
     frame_infos f' = frame_infos f /\ r_startTime (f_base f') = r_startTime (f_base f) /\ (k < n - 1 -> f_base f' = f_base f)) /\
  (forall f', vget (gFrameData g') n = Some f' -> r_startTime (f_base f') = start /\
     forall i td, vget (gThreadData g) i = Some td -> 0 < currentEntry td -> i ∈ map threadIndex (frame_infos f')).

Lemma NewFrame_added fmt t now g g' : prof_inv g -> has_slot g t -> NewFrame fmt t now g = Ok (tt, g') ->
  idle g g' \/ gCurrentFrame g < Z.of_nat (MaxFrames (settings g)) /\ frame_added (elapsed g now) g g'.
Proof.
  intros Hi Ht (g0 & g1 & [= <- <-] & E)%st_bind_inv. destruct (gPaused g) eqn:Hp; [injection E as <-; by left|].
  destruct (has_slot_get g t Hi Hp Ht) as [td Htd].
  apply st_bind_inv in E as (b & g1 & E1 & E). pose proof (idle_CheckEndState _ _ _ _ E1) as H1.
  destruct (CheckEndState_spec g t td Htd) as (b' & g1' & E1' & _ & _ & Hroom). rewrite E1 in E1'. injection E1' as <- <-.
  destruct b; [injection E as <-; by left|]. destruct (Hroom eq_refl) as (-> & _ & Hfr & _). right. split; [done|]. clear E1 H1 Hroom.
  apply st_bind_inv in E as (g0 & g1 & [= <- <-] & E). apply st_bind_inv in E as (f & g1 & [Ef ->]%get_frame_inv & E).
  pose proof (in_frame_no _ _ Hi) as Hn. set (n := gCurrentFrame g) in *.
  destruct (in_frame _ _ Hi _ _ Ef) as [_ Hzero]. specialize (Hzero ltac:(lia)).
  destruct (new_frame_loop_spec (n + 1) n (MaxThreads (settings g)) 0 g f) as (f1 & g1 & Er & _ & Eg1 & _ & Hall);
    [eapply inv_weaken; [|exact Hi]; lia|lia|done|lia|lia|rewrite Hzero; cbn; intros x Hx; by apply elem_of_nil in Hx|].
  rewrite (st_bind_ok _ _ _ _ _ Er) in E. pose proof (vget_lt _ _ _ Ef) as Hlt.
  assert (vget (gFrameData g1) n = Some f1) as Ef1 by (subst g1; cbn; rewrite vget_insert by lia; by rewrite decide_True).
  rewrite (st_bind_ok _ _ _ _ _ (get_frame_ok _ _ _ Ef1)), (st_bind_ok _ _ _ _ _ (set_frame_ok _ _ _ _ Ef1)) in E.
  apply st_bind_inv in E as ([] & g2 & E & [= <-]). unfold frame_added. fold n.
  assert (forall i td, vget (gThreadData g) i = Some td -> 0 < currentEntry td -> i ∈ map threadIndex (frame_infos f1)) as Hlist.
  { intros i x Ex. apply (Hall i x); [|done]. apply vget_lt in Ex. lia. }
  destruct (Z.ltb_spec 0 n) as [H0|H0].
  - apply st_bind_inv in E as (p & g3 & [Ep ->]%get_frame_inv & E). apply set_frame_inv in E as (f2 & Ef2 & ->). subst g1.
    cbn [gFrameData set_frames gCurrentFrame gThreadData] in *.
    split_and!; [done|done|..].
    + intros k f' Hk. rewrite vget_insert by (by eapply vget_lt). case_decide as Dk.
      * intros [= <-]. subst k. rewrite !vget_insert, !decide_False in Ep by (rewrite ?length_insert; lia). exists p. split_and!; [done..|lia].
      * rewrite !vget_insert, !decide_False by (rewrite ?length_insert; lia). intros Ek. by exists f'.
    + intros f'. rewrite vget_insert by (by eapply vget_lt). rewrite decide_False by lia. rewrite vget_insert, decide_True by (done || rewrite ?length_insert; lia).
      intros [= <-]. split; [done|]. exact Hlist.
  - injection E as <-. subst g1. cbn [gFrameData set_frames gCurrentFrame gThreadData] in *. split_and!; [done|done|..].
    + intros k f' Hk [Hk' _]%vget_Some. lia.
    + intros f'. rewrite vget_insert, decide_True by (done || rewrite ?length_insert; lia). intros [= <-]. split; [done|]. exact Hlist.
Qed.

Lemma NewFrame_sections fmt now t g g' T : prof_inv g -> has_slot g t -> frames_at now g -> sections_at T g -> T = now - gTimer g ->
  NewFrame fmt t now g = Ok (tt, g') -> sections_at T g'.
Proof.
  intros Hi Ht Hf Hs ET E. pose proof (NewFrame_spec fmt t now g Hi Ht) as Hi'. rewrite E in Hi'.
  apply NewFrame_added in E as [Hid|(Hroom & Eth & Ec & Hold & Hnew)]; [exact (sections_idle _ _ _ _ Hi Hf Hs ET Hid)| |done|done].
  rewrite (elapsed_at _ _ Hf), <- ET in Hnew. destruct Hs as [H1 H2 H3].
  pose proof (in_frame_no _ _ Hi). pose proof (so_frames _ (in_settings _ _ Hi)). set (n := gCurrentFrame g) in *.
  rewrite wrap_small in Ec by (unfold in_u; lia).
  split; rewrite ?Eth, ?Ec.
  - done.
  - intros fi f' info td en Hfi Ef' Hinfo Etd Een. destruct (decide (fi = n)) as [-> |].
    + right. destruct (Hnew f' Ef') as [-> _]. destruct (fr_info _ _ _ (proj1 (in_frame _ _ Hi' _ _ Ef')) info Hinfo) as (x & Ex & Ha).
      rewrite Eth, Etd in Ex. injection Ex as <-. by destruct (st_entry _ _ (H1 _ _ Etd) _ _ Ha Een) as ([_ ?] & _).
    + destruct (Hold fi f' ltac:(lia) Ef') as (f & Ef & Ei & -> & _). rewrite Ei in Hinfo. eapply H2; [|done..]. lia.
  - intros fi f' i td en Hfi Ef' Etd Hpos Een. destruct (decide (fi = n)) as [-> |]; [left; by eapply Hnew|].
    destruct (Hold fi f' ltac:(lia) Ef') as (f & Ef & -> & _ & Eb).
    destruct (H3 fi f i td en ltac:(lia) Ef Etd Hpos Een) as [|[Hlt Hle]]; [by left|right]. split; [lia|]. by rewrite Eb by lia.
Qed.

(** Starting again. *)
Lemma Init_sections t now g g' : Init t now g = Ok (tt, g') -> sections_at (now - gTimer g') g'.
Proof.
  intros (g2 & g3 & _ & (x & g4 & _ & [= <-])%st_bind_inv)%st_bind_inv. cbn [gTimer].
  split; cbn; [|intros; lia..]. intros i td E. apply vget_imap in E as [x0 ->]. split; cbn; intros; lia.
Qed.

Lemma Reset_sections t now g g' : Reset t now g = Ok (tt, g') -> sections_at (now - gTimer g') g'.
Proof. intros ([] & g1 & _ & E)%st_bind_inv. by eapply Init_sections. Qed.

Lemma Settings_sections t now s g g' : SetProfileSettings t now s g = Ok (tt, g') -> sections_at (now - gTimer g') g'.
Proof. intros ([] & g1 & _ & E)%st_bind_inv. by eapply Reset_sections. Qed.

(** ** Runs by the clock *)

Lemma idle_label (F : ThreadData -> ThreadData) t : (forall td, same_slot td (F td)) ->
  keeps idle (g ← st_get; if gPaused g then mret tt else i ← GetThreadData false t; td ← get_thread i; set_thread i (F td)).
Proof. intros HF. apply keeps_bind; [apply _|keep|]. intros g. destruct (gPaused g); [keep|]. apply keeps_bind; [apply _|keep|]. intros i. by apply idle_update. Qed.

Lemma idle_BeginRegion t now : keeps idle (BeginRegion false t now).
Proof. unfold BeginRegion. keep. Qed.
Lemma idle_EndRegion fmt t now : keeps idle (EndRegion false fmt t now).
Proof. unfold EndRegion. keep. Qed.
Lemma idle_SetPaused b : keeps idle (SetPaused b).
Proof. unfold SetPaused. keep. Qed.
Lemma idle_SetRegionLimit z : keeps idle (SetRegionLimit z).
Proof. unfold SetRegionLimit. keep. Qed.

Lemma sections_at_idle now g g' : prof_inv g -> frames_at now g -> sections_at (now - gTimer g) g -> idle g g' -> sections_at (now - gTimer g') g'.
Proof. intros Hi Hf Hs Hid. destruct (Hid) as (-> & _). by eapply sections_idle. Qed.

Lemma pause_sections t now pressed g g' : prof_inv g -> frames_at now g -> sections_at (now - gTimer g) g ->
  ShowProfile_pause t now pressed g = Ok (tt, g') -> sections_at (now - gTimer g') g'.
Proof.
  intros Hi Hf Hs (g0 & g1 & [= <- <-] & E)%st_bind_inv. cbv zeta in E. destruct (_ || _); [|by injection E as <-].
  apply st_bind_inv in E as ([] & g1 & E1 & [= <-]). cbn [gTimer set_pause]. enough (sections_at (now - gTimer g1) g1) as [] by done.
  destruct (negb _); [|by injection E1 as <-]. by eapply Reset_sections.
Qed.

Lemma run_prof_sections fmt op now g g' : prof_inv g -> allowed g op -> frames_at now g -> sections_at (now - gTimer g) g -> now < int64_max ->
  (op_time op = None \/ op_time op = Some now) -> run_prof fmt op g = Ok (tt, g') -> sections_at (now - gTimer g') g'.
Proof.
  intros Hi Ha Hf Hs Hn Ht E. destruct op; cbn [run_prof op_time allowed] in *; try (destruct Ht as [Ht | [= ->]]; [done|]).
  - destruct (keeps_Push _ _ _ _ _ _ _ _ _ E) as (_ & _ & ->). by eapply Push_sections.
  - destruct (keeps_Pop _ _ _ _ _ E) as (_ & _ & ->). by eapply Pop_sections.
  - assert (gTimer g' = gTimer g) as ->.
    { apply NewFrame_frames in E as [(_ & _ & ->)|(g1 & (_ & _ & <-) & -> & _)]; done. }
    exact (NewFrame_sections fmt now t g g' _ Hi Ha Hf Hs eq_refl E).
  - apply (sections_at_idle now g); [done..|]. apply (idle_label (fun td => mkThread _ _ _ _ _ _ _ nm _ _) t) in E; [done|]. intros td. split_and!; auto.
  - apply (sections_at_idle now g); [done..|]. apply (idle_label (fun td => mkThread _ _ _ _ _ _ true _ _ _) t) in E; [done|]. intros td. split_and!; auto.
  - apply (sections_at_idle now g); [done..|]. by eapply idle_BeginRegion.
  - apply (sections_at_idle now g); [done..|]. by eapply idle_EndRegion.
  - apply (sections_at_idle now g); [done..|]. by eapply idle_SetPaused.
  - apply (sections_at_idle now g); [done..|]. by eapply idle_SetRegionLimit.
  - by eapply Reset_sections.
  - by eapply Init_sections.
  - by eapply Settings_sections.
  - by eapply pause_sections.
Qed.

Lemma timed_sections fmt now g : timed fmt now g -> sections_at (now - gTimer g) g.
Proof.
  induction 1 as [now op g Hn Ht Hs E|now now' g op g' Ht IH Hn Hop Ha E].
  - destruct op; try done; injection Ht as ->; [by eapply Init_sections|by eapply Settings_sections].
  - pose proof (timed_frames _ _ _ Ht) as Hf.
    eapply run_prof_sections; [by eapply reachable_inv, timed_reachable|done| |eapply sections_later, IH; lia|lia|done|done].
    apply (frames_at_later now); [unfold int64_max in Hn; lia|done].
Qed.

(** ** What the viewer shows of a frame *)

(** The walk shows every entry up to the first that starts after the frame. *)
Lemma shown_entries_all td t : forall fuel e0 l, shown_entries fuel td t e0 = Ok l ->
  forall e, e0 <= e < u32 (currentEntry td - 1) -> (forall j en, e0 <= j <= e -> vget (entries td) j = Some en -> startTime en < t) -> e ∈ l.
Proof.
  induction fuel as [|fuel IH]; intros e0 l; cbn [shown_entries]; intros E e He Hj;
    (destruct (Z.ltb_spec e0 (u32 (currentEntry td - 1))); [|lia]); (destruct (vget (entries td) e0) as [en|] eqn:Een; [|done]);
    specialize (Hj e0 en ltac:(lia) Een) as H0; replace (startTime en <? t) with true in E by lia; [done|].
  destruct (shown_entries fuel td t (e0 + 1)) as [l'|] eqn:E'; [|done]. injection E as <-. apply elem_of_cons.
  destruct (decide (e = e0)) as [-> |]; [by left|right]. eapply IH; [done|lia|]. intros j x Hj'. apply Hj. lia.
Qed.

Lemma frame_entries_inv fuel td f a l : frame_entries fuel td f a = Ok l -> exists r r', outer_parent fuel (entries td) a = Ok r /\
  step_back fuel (entries td) (r_startTime (f_base f)) r = Ok r' /\ shown_entries fuel td (r_endTime (f_base f)) r' = Ok l.
Proof.
  unfold frame_entries. destruct (outer_parent _ _ _) as [r|]; [|done]. cbn [mbind result_bind].
  destruct (step_back _ _ _ _) as [r'|] eqn:E; [|done]. cbn [mbind result_bind]. intros El. by exists r, r'.
Qed.

Lemma level_nonneg s td e en : slot_ok s td -> 0 <= e < currentEntry td -> vget (entries td) e = Some en -> 0 <= level en.
Proof.
  intros Hsl. revert en. induction e as [e IH] using (well_founded_induction (Z.lt_wf 0)). intros en He Een.
  destruct (sl_entry _ _ Hsl e en He Een) as [_ [[_ ->]|(Hp & pe & Epe & ->)]]; [done|]. specialize (IH (parent en) Hp pe ltac:(lia) Epe). lia.
Qed.

(** The sections before the outermost one that was open when the frame started
    ended before the frame. *)
Lemma before_outer s T td start a an r rn e en : slot_ok s td -> slot_times T td -> a < currentEntry td ->
  vget (entries td) a = Some an -> a = 0 \/ startTime an <= start -> 0 <= r <= a -> vget (entries td) r = Some rn -> level rn = 0 ->
  0 <= e < r -> vget (entries td) e = Some en -> endTime en <= start.
Proof.
  intros Hsl Hst Ha Ean Hor Hr Ern Elev He Een. pose proof (level_nonneg s td e en Hsl ltac:(lia) Een).
  destruct (st_order _ _ Hst e r en rn ltac:(lia) ltac:(lia) Een Ern) as [_ Hn]. specialize (Hn ltac:(lia)).
  destruct Hor as [Ea|Ha']; [lia|]. destruct (decide (r = a)) as [-> |]; [rewrite Ern in Ean; injection Ean as ->; lia|].
  destruct (st_order _ _ Hst r a rn an ltac:(lia) ltac:(lia) Ern Ean). lia.
Qed.

(** Every section is shown. With a clock that does not go back, take any
    frame that has ended, any thread and any of its sections but the last, of
    which some time is inside the frame: then the frame lists the thread, and
    the walk of the viewer over the thread's entries (up to the outermost
    section, back, and forward to the end of the frame) ends and shows the
    section. *)
Lemma sections_shown fmt_ms now g fi f i td e en :
  timed fmt_ms now g -> 0 <= fi < gCurrentFrame g - 1 -> vget (gFrameData g) fi = Some f ->
  vget (gThreadData g) i = Some td -> 0 <= e < currentEntry td - 1 -> vget (entries td) e = Some en ->
  r_startTime (f_base f) < endTime en -> startTime en < r_endTime (f_base f) ->
  exists info l, info ∈ frame_infos f /\ threadIndex info = i /\
    frame_entries (MaxEntriesPerThread (settings g)) td f (activeEntry info) = Ok l /\ e ∈ l.
Proof.
  intros Ht Hfi Ef Etd He Een Hend Hstart. pose proof (reachable_inv _ _ (timed_reachable _ _ _ Ht)) as Hi.
  destruct (timed_sections _ _ _ Ht) as [H1 H2 H3]. pose proof (in_slot _ _ Hi _ _ Etd) as Hsl. pose proof (H1 _ _ Etd) as Hst.
  pose proof (so_entries _ (in_settings _ _ Hi)) as Hmax. pose proof (sl_entries _ _ Hsl) as Hlen. pose proof (sl_current _ _ Hsl) as Hcur.
  destruct (vget_is_Some (entries td) 0) as [e0 E0]; [lia|].
  assert (i ∈ map threadIndex (frame_infos f)) as Hin.
  { destruct (H3 fi f i td e0 ltac:(lia) Ef Etd ltac:(lia) E0) as [|[_ Hle]]; [done|]. exfalso.
    destruct (decide (e = 0)) as [-> |]; [rewrite E0 in Een; injection Een as ->; lia|].
    destruct (st_order _ _ Hst 0 e e0 en ltac:(lia) ltac:(lia) E0 Een). lia. }
  apply list_elem_of_fmap in Hin as (info & -> & Hinfo).
  destruct (frame_entries_ok _ g f info Hi (proj1 (in_frame _ _ Hi _ _ Ef)) Hinfo) as (x & l & Ex & _ & El & _).
  rewrite Etd in Ex. injection Ex as <-. exists info, l. split_and!; [done..|].
  destruct (fr_info _ _ _ (proj1 (in_frame _ _ Hi _ _ Ef)) _ Hinfo) as (x & Ex & Ha). rewrite Etd in Ex. injection Ex as <-.
  apply frame_entries_inv in El as (r & r' & Er & Er' & El). set (n := MaxEntriesPerThread (settings g)) in *.
  destruct (outer_parent_spec _ td Hsl Hmax n (activeEntry info) Ha ltac:(lia)) as (r0 & rn & Er0 & Hr & Ern & _ & Elev).
  rewrite Er in Er0. injection Er0 as <-.
  destruct (step_back_spec (entries td) (r_startTime (f_base f)) n r ltac:(lia) ltac:(lia)) as (r1 & Er1 & Hr1).
  rewrite Er' in Er1. injection Er1 as <-.
  apply (shown_entries_all td _ _ _ _ El).
  - rewrite wrap_small by (unfold in_u; lia). split; [|lia]. destruct (Z.le_gt_cases r' e) as [|Hgt]; [done|]. exfalso.
    destruct (vget_is_Some (entries td) (activeEntry info)) as [an Ean]; [lia|].
    pose proof (before_outer _ _ td (r_startTime (f_base f)) (activeEntry info) an r rn e en Hsl Hst ltac:(lia) Ean (H2 fi f info td an ltac:(lia) Ef Hinfo Etd Ean) Hr Ern Elev ltac:(lia) Een). lia.
  - intros j x Hj Exj. destruct (decide (j = e)) as [-> |]; [rewrite Een in Exj; injection Exj as <-; lia|].
    destruct (st_order _ _ Hst j e x en ltac:(lia) ltac:(lia) Exj Een). lia.
Qed.

(** ** An example *)

(** A section from 200 ns on with two inside, and three frames. *)
Definition demo_nested : list (Z * prof_op) :=
  [(200, demo_push); (300, OpNewFrame 0 300); (305, OpPush 0 305 (Some (lit "s")) (Some (lit "f")) 0 1); (306, OpPop 0 306);
   (310, OpNewFrame 0 310); (315, OpPush 0 315 (Some (lit "s")) (Some (lit "f")) 0 1); (320, OpNewFrame 0 320)].
Definition demo_sections : globals := from_ok (run_timed demo_nested demo_start).

Lemma demo_sections_timed : timed demo_fmt 320 demo_sections.
Proof.
  apply (timed_run demo_nested 100 demo_start).
  - apply (timed_start demo_fmt 100 (OpSettings 0 100 demo_settings)); [unfold int64_max; lia|done|apply demo_settings_ok|reflexivity].
  - check_times.
  - by vm_compute.
Qed.
