(* ===== verification/Viewer.v ===== *)
(** * The window of the profiler

    src/time/profiler.cpp, [ShowProfile]: the pause button, the candles, the
    visible time and how the mouse moves it, and the drawing of the frames, the
    threads and their sections.

    What is asked of Dear ImGui is [window_input]; what is drawn is a list of
    [drawing]. The computations on times with [double] are binary64. Of the
    calls that only change how widgets look (item widths, style, cursor) nothing
    is modelled. *)

From S2P Require Import Prelude StdString StringUtils Profiler Float32 MathVec MathUtils Candles.
Import F32Notations.

Inductive drawing : Type :=
| AddRectFilled (r : rect_filled)
| AddLine (a b : NVec2 f32) (col : Z)
| AddText (size : f32) (pos : NVec2 f32) (col : Z) (text : str) (clip : option (NVec4 f32))
| SetTooltip (section file : str) (ln duration start end_ : Z).

(** One frame of the window: whether it is shown, the button, the value of the
    slider, the place for its contents, the scale of the display, the font, the
    mouse over the candles and over the sections, and the readings of the clock
    when the section of the window starts, when the recording is started again,
    when the visible time is set, and when the section ends. *)
Record window_input : Type := mkInput {
  Begin : bool; PausePressed : bool; SliderScale : f32; CursorScreenPos : NVec2 f32; ContentRegionAvail : NVec2 f32; scaleFactorXY : NVec2 f32;
  FontSize : f32; CalcTextSize : str -> f32; candle_gui : gui; section_gui : gui; push_time : Z; reset_time : Z; view_time : Z; pop_time : Z
}.

(** The globals of the window. *)
Record window_state : Type := mkWindow { w_view : view_state; gSelectedThread : Z; gMaxThreadNameSize : f32 }.

Definition frameMarkerColor : Z := 0x22FFFFFF.
Definition MinSizeForTextDisplay : Z := 5.

Definition to_double (x : f32) : f64 := sf_conv 53 1024 x.
Definition d_of_Z (z : Z) : f64 := sf_of_Z 53 1024 z.

(** ** The visible time *)

Section Times.
Context (NDEBUG : bool) (minTime maxTime : Z) (width : f32).

(** [timeFromX] *)
Definition timeFromX (range : Z * Z) (x : Z) : f64 :=
  SFadd 53 1024 (d_of_Z range.1) (SFmul 53 1024 (to_double (f32_of_Z x /. width)) (d_of_Z (range.2 - range.1))).

Definition set_range (range : Z * Z) (g : globals) : result stop globals :=
  ug ← setTimeRange NDEBUG minTime maxTime range g; Ok (snd ug).

(** The last 50 ms while the profiler records; else the selected time with some
    time around it, if there is one, or the old range. *)
Definition first_range (now : Z) (selected : Z * Z) (g : globals) : result stop globals :=
  if negb (gPaused g) then
    x ← s_check 64 (now - 50000000); set_range (x, now) g
  else
    range ← (if selected.1 =? selected.2 then Ok (gTimeRange g)
             else
               length ← s_check 64 (selected.2 - selected.1);
               tenPercent ← to_int64 (f32_of_Z length *. f32_lit 5 100);
               x ← s_check 64 (selected.1 - tenPercent);
               y ← s_check 64 (selected.2 + tenPercent);
               Ok (x, y));
    set_range range g.

(** Dragging the sections; also whether the selection of candles is cleared, and
    where the mouse was clicked. *)
Definition drag_sections (input : gui) (g : globals) : result stop (globals * bool * NVec2 f32) :=
  let nowhere := mkVec2 (#0) (#0) in
  if IsItemActive input then
    if IsMouseDragging input then
      let '(x, y) := gTimeRange g in
      delta ← to_int64 ((x2 (MouseDragDelta input) /. width) *. f32_of_Z (y - x));
      x ← s_check 64 (x - delta);
      y ← s_check 64 (y - delta);
      g ← (if (y <? maxTime) && (minTime <=? x) then set_range (x, y) g else Ok g);
      Ok (g, true, nowhere)
    else if IsMouseClicked input then Ok (g, true, MousePos input)
    else Ok (g, false, nowhere)
  else Ok (g, false, nowhere).

(** The wheel over the sections: zoom about the time under the mouse. *)
Definition zoom_sections (input : gui) (regionMin regionMax : NVec2 f32) (g : globals) : result stop (globals * bool) :=
  if IsMouseHoveringRect input regionMin regionMax && negb (SFeqb (MouseWheel input) (#0)) then
    let zoom := ImSign (MouseWheel input) *. #1 in
    localMousePos ← sf_to_int 0 (2 ^ 32) (x2 (MousePos input) -. x2 regionMin);
    let '(x, y) := gTimeRange g in
    tenPercent ← sf_to_int (- 2 ^ 63) (2 ^ 63) (SFmul 53 1024 (SFmul 53 1024 (d_of_Z (y - x)) (sf_lit 53 1024 1 10)) (to_double zoom));
    let mouseTime := timeFromX (x, y) localMousePos in
    x ← s_check 64 (x + tenPercent);
    y ← s_check 64 (y - tenPercent);
    g ← set_range (x, y) g;
    let newMouseTime := timeFromX (gTimeRange g) localMousePos in
    timeDelta ← sf_to_int (- 2 ^ 63) (2 ^ 63) (SFsub 53 1024 newMouseTime mouseTime);
    x ← s_check 64 ((gTimeRange g).1 - timeDelta);
    y ← s_check 64 ((gTimeRange g).2 - timeDelta);
    g ← set_range (x, y) g;
    Ok (g, true)
  else Ok (g, false).
End Times.

(** ** Drawing *)

Section Draw.
Context (NDEBUG : bool) (fuel : nat) (input : window_input) (regionMin regionMax : NVec2 f32) (width : f32) (range : Z * Z) (scale : f32).

Let sections : gui := section_gui input.
Let fontSize : f32 := FontSize input *. scale.
Let smallFontSize : f32 := fontSize *. f32_lit 66 100.
Let heightPerLevel : f32 := fontSize +. #2.
Let textPadding : NVec2 f32 := mkVec2 (#3 *. x2 (scaleFactorXY input)) (#3 *. y2 (scaleFactorXY input)).

(** "Time normalized to gTimeRange.x" *)
Definition xFromTime (time : Z) : result stop f32 :=
  d ← s_check 64 (time - range.1); Ok (((f32_of_Z d *. width) /. f32_of_Z (range.2 - range.1)) : f32).

(** The corners of a section: at least a pixel wide, inside the window. *)
Definition entry_corners (yEntry xEntry xEnd : f32) : NVec2 f32 * NVec2 f32 :=
  let xEnd : f32 := if SFltb xEnd (xEntry +. #1) then xEntry +. #1 else xEnd in
  (mkVec2 (sc_max (T := f32) (xEntry +. x2 regionMin) (x2 regionMin)) yEntry,
   mkVec2 (sc_min (T := f32) (xEnd +. x2 regionMin) (x2 regionMax)) (yEntry +. heightPerLevel)).

(** "Center the text if possible" *)
Definition entry_text (yEntry : f32) (rectMin rectMax : NVec2 f32) (col : Z) (section : str) : list drawing :=
  let w := x2 rectMax -. x2 rectMin in
  let textSize := CalcTextSize input section in
  let textPos := x2 textPadding +. x2 rectMin in
  let textPos := if SFltb textSize w then textPos +. (w -. textSize) *. f32_lit 1 2 else textPos in
  if SFltb (f32_of_Z MinSizeForTextDisplay) w
  then [AddText fontSize (mkVec2 textPos (yEntry +. y2 textPadding)) (if SFltb (f32_lit 1 2) (LuminanceARGB col) then 0xFF000000 else 0xFFFFFFFF)
          section (Some (mkVec4 (x2 rectMin) (y2 rectMin) (x2 rectMax) (y2 rectMax)))]
  else [].

Definition showEntry (y : f32) (td : ThreadData) (index : Z) : result stop (list drawing) :=
  entry ← of_option UB (vget (entries td) index);
  if (range.2 <? startTime entry) || (endTime entry <? range.1) then Ok []
  else
    let yEntry := y +. f32_of_Z (level entry) *. heightPerLevel in
    xEntry ← xFromTime (startTime entry);
    xEnd ← xFromTime (endTime entry);
    let '(rectMin, rectMax) := entry_corners yEntry xEntry xEnd in
    tip ← (if IsMouseHoveringRect sections rectMin rectMax then
             section ← of_option (Throw format_error) (szSection entry);
             file ← of_option (Throw format_error) (szFile entry);
             duration ← s_check 64 (Z.min (endTime entry) (Profiler.maxTime td) - startTime entry);
             Ok [SetTooltip section file (line entry) duration (startTime entry) (endTime entry)]
           else Ok []);
    section ← of_option UB (szSection entry);
    Ok ([AddRectFilled (mkFilled rectMin rectMax (Z.lor (color entry) 0xFF000000))] ++ tip ++ entry_text yEntry rectMin rectMax (color entry) section).

(** The variables of the walk over the threads of a frame. *)
Record rows : Type := mkRows { row_y : f32; row_selected : Z; row_name : f32; row_out : list drawing }.

Definition row_color (selected threadIndex : Z) : Z := if u32 selected =? threadIndex then 0xFF333333 else 0xFF111111.

Definition show_thread (threads : list ThreadData) (firstFrame : bool) (mouseClick : NVec2 f32) (f : Frame) (ti : Z) (s : rows) : result stop rows :=
  info ← of_option UB (vget (frameThreads f) ti);
  td ← of_option UB (vget threads (threadIndex info));
  if hidden td then Ok s
  else
    let levels := heightPerLevel *. f32_of_Z (maxLevel td) in
    let threadHeight := levels +. y2 textPadding *. #2 in
    if negb NDEBUG && negb (initialized td) then Err AssertFail
    else
      let y := row_y s in
      let back := if firstFrame
        then [AddRectFilled (mkFilled (mkVec2 (x2 regionMin) y) (mkVec2 (x2 regionMax) (y +. threadHeight)) (row_color (row_selected s) ti));
              AddLine (mkVec2 (x2 regionMin) y) (mkVec2 (x2 regionMax) y) 0xFF333333]
        else [] in
      let y := y +. y2 textPadding in
      es ← frame_entries fuel td f (activeEntry info);
      shown ← map_result (showEntry y td) es;
      let selected := if firstFrame && SFleb y (y2 mouseClick) && SFleb (y2 mouseClick) (y +. threadHeight)
        then (if u32 (row_selected s) =? ti then -1 else i32 ti) else row_selected s in
      let name := sc_max (T := f32) (CalcTextSize input (t_name td)) (row_name s) in
      let bottom := (y +. threadHeight) -. y2 textPadding in
      let label :=
        [AddRectFilled (mkFilled (mkVec2 (x2 regionMin) (bottom -. smallFontSize)) (mkVec2 (x2 regionMin +. name) bottom) (row_color selected ti));
         AddText smallFontSize (mkVec2 (x2 regionMin +. x2 textPadding) (((y +. threadHeight) -. smallFontSize) -. y2 textPadding)) 0xFFAAAAAA (t_name td) None] in
      Ok (mkRows (y +. (levels +. y2 textPadding)) selected name (row_out s ++ back ++ concat shown ++ label)).

(** The threads of a frame from [ti] on, [n] to go. *)
Fixpoint show_threads (n : nat) (threads : list ThreadData) (firstFrame : bool) (mouseClick : NVec2 f32) (f : Frame) (ti : Z) (s : rows) : result stop rows :=
  match n with
  | O => Ok s
  | S n => s ← show_thread threads firstFrame mouseClick f ti s; show_threads n threads firstFrame mouseClick f (ti + 1) s
  end.

(** The line at the start of a frame and its text. *)
Definition marker_at (f : Frame) (lastFrameX : f64) (xFrameMarker : f32) : f64 * list drawing :=
  let x := to_double xFrameMarker in
  let gap := SFsub 53 1024 x lastFrameX in
  if SFleb (d_of_Z 0) x && SFltb (d_of_Z 20) gap then
    let left := x2 regionMin +. xFrameMarker in
    let text := if SFltb (to_double (CalcTextSize input (r_name (f_base f)))) gap
      then [AddText smallFontSize (mkVec2 (left +. x2 textPadding) (y2 regionMin +. y2 textPadding)) 0xFFAAAAAA (r_name (f_base f)) None] else [] in
    (x, AddLine (mkVec2 left (y2 regionMin)) (mkVec2 left (y2 regionMax)) frameMarkerColor :: text)
  else (lastFrameX, []).

Definition frame_marker (f : Frame) (lastFrameX : f64) : result stop (f64 * list drawing) :=
  xFrameMarker ← xFromTime (r_startTime (f_base f)); Ok (marker_at f lastFrameX xFrameMarker).

(** "Walk the visible frames, drawing each thread", from [fi] on, [n] to go. *)
Fixpoint show_frames (n : nat) (g : globals) (mouseClick : NVec2 f32) (fi : Z) (firstFrame : bool) (lastFrameX : f64) (s : rows) : result stop rows :=
  match n with
  | O => Ok s
  | S n =>
      f ← of_option UB (vget (gFrameData g) fi);
      lm ← frame_marker f lastFrameX;
      let y := (y2 regionMin +. smallFontSize) +. y2 textPadding in
      s ← show_threads (Z.to_nat (frameThreadCount f)) (gThreadData g) firstFrame mouseClick f 0 (mkRows y (row_selected s) (row_name s) (row_out s ++ snd lm));
      show_frames n g mouseClick (fi + 1) false (fst lm) s
  end.

Definition show_sections (g : globals) (mouseClick : NVec2 f32) (w : window_state) : result stop rows :=
  let '(x, y) := gVisibleFrames g in
  show_frames (Z.to_nat (y - x)) g mouseClick x true (to_double (SFopp width)) (mkRows (#0) (gSelectedThread w) (gMaxThreadNameSize w) []).
End Draw.

(** ** [ShowProfile] *)

Definition clear_drag (cleared : bool) (v : view_state) : view_state :=
  if cleared then mkView (gFrameCandleRange v) (Clear (T := f32) (gCandleDragRect v)) else v.

(** The sections below the candles: the visible time, and what is drawn. *)
Definition show_times (NDEBUG : bool) (fuel : nat) (input : window_input) (regionMin regionMax : NVec2 f32) (selected : Z * Z) (g : globals)
  (w : window_state) : result stop (globals * window_state * list drawing) :=
  let width : f32 := x2 regionMax -. x2 regionMin in
  last ← of_option UB (vget (gFrameData g) (u32 (gCurrentFrame g - 1)));
  first ← of_option UB (vget (gFrameData g) MinFrame);
  let maxTime := r_startTime (f_base last) in
  let minTime := r_startTime (f_base first) in
  g ← first_range NDEBUG minTime maxTime (elapsed g (view_time input)) selected g;
  gcm ← drag_sections NDEBUG minTime maxTime width (section_gui input) g;
  let '(g, dragged, mouseClick) := gcm in
  gz ← zoom_sections NDEBUG minTime maxTime width (section_gui input) regionMin regionMax g;
  let '(g, zoomed) := gz in
  ug ← UpdateVisibleFrameRange fuel g;
  let g := snd ug in
  s ← show_sections NDEBUG fuel input regionMin regionMax width (gTimeRange g) (SliderScale input) g mouseClick w;
  Ok (g, mkWindow (clear_drag (dragged || zoomed) (w_view w)) (row_selected s) (row_name s), row_out s).

(** The window from the candles on; at least three frames have been started. *)
Definition show_window (NDEBUG : bool) (fuel pixels : nat) (colors : candle_colors) (input : window_input) (g : globals) (w : window_state) :
  result stop (globals * window_state * list drawing) :=
  let regionMin := CursorScreenPos input in
  let regionMax := v2_add regionMin (ContentRegionAvail input) in
  cs ← ShowCandles NDEBUG fuel pixels (y2 (scaleFactorXY input)) colors (candle_gui input) regionMin regionMax g (w_view w);
  let '(selected, regionMin, g, v, rects) := cs in
  gwd ← show_times NDEBUG fuel input regionMin regionMax selected g (mkWindow v (gSelectedThread w) (gMaxThreadNameSize w));
  let '(g, w, out) := gwd in
  Ok (g, w, (AddRectFilled <$> rects) ++ out).

(** [file] is [__FILE__] and [ui_color] the colour of the section of the window
    itself, which the theme makes from its name. *)
Definition ShowProfile (NDEBUG : bool) (fuel pixels : nat) (file : str) (ui_color : Z) (colors : candle_colors) (input : window_input) (t : nat)
  (g : globals) (w : window_state) : result stop (globals * window_state * list drawing) :=
  if negb (Begin input) then Ok (g, w, [])
  else
    ug ← PushSectionBase NDEBUG t (push_time input) (Some (lit "Profile_UI")) (Some file) ui_color 817 g;
    ug ← ShowProfile_pause t (reset_time input) (PausePressed input) (snd ug);
    let g := snd ug in
    gwd ← (if gCurrentFrame g <? MinLeadInFrames then Ok (g, w, []) else show_window NDEBUG fuel pixels colors input g w);
    let '(g, w, out) := gwd in
    ug ← PopSection NDEBUG t (pop_time input) g;
    Ok (snd ug, w, out).
