(* ===== verification/ViewerTheory.v ===== *)
(** * Theory of the window

    After any run of the profiler by a clock that does not go back, drawing the
    sections reads only what was recorded and draws every section that is
    visible, the last one of each thread apart. The visible time lies inside the
    recorded time, whatever is selected, dragged or zoomed. *)

From S2P Require Import Prelude StdString StringUtils Profiler ProfilerTheory Float32 FloatBounds MathVec MathUtils Candles CandlesTheory ProfilerTime ProfilerSections Viewer.

Lemma map_result_total {A B} (f : A -> result stop B) l : (forall a, a ∈ l -> exists b, f a = Ok b) ->
  exists bs, map_result f l = Ok bs /\ forall a, a ∈ l -> exists b, f a = Ok b /\ b ∈ bs.
Proof.
  induction l as [|a l IH]; intros H; [exists []; split; [done|]; intros a Ha; by apply elem_of_nil in Ha|]. cbn [map_result].
  destruct (H a) as (b & Eb); [set_solver|]. destruct IH as (bs & Ebs & Hbs); [set_solver|]. rewrite Eb, Ebs. cbn [mbind result_bind].
  exists (b :: bs). split; [done|]. intros x [->|Hx]%elem_of_cons; [exists b; set_solver|]. destruct (Hbs x Hx) as (c & Ec & Hc). exists c. set_solver.
Qed.

Section Drawn.
Context (input : window_input) (regionMin regionMax : NVec2 f32) (width : f32) (range : Z * Z) (scale : f32).
Context (g : globals) (T : Z).
Hypothesis Hinv : prof_inv g.
Hypothesis Hsections : sections_at T g.
Hypothesis HT : T <= int64_max.
Hypothesis Hrange : 0 <= range.1 <= int64_max.

Let fuel := MaxEntriesPerThread (settings g).

Lemma xFromTime_ok time : 0 <= time <= int64_max -> exists x, xFromTime width range time = Ok x.
Proof.
  intros Ht. unfold xFromTime, int64_max in *. rewrite s_check_64 by lia. by eexists.
Qed.

(** The rectangle of a section at a height. *)
Definition section_rect (y : f32) (en : ProfilerEntry) (r : drawing) : Prop :=
  exists xs xe, xFromTime width range (startTime en) = Ok xs /\ xFromTime width range (endTime en) = Ok xe /\
    let c := entry_corners input regionMin regionMax scale y xs xe in r = AddRectFilled (mkFilled c.1 c.2 (Z.lor (color en) 0xFF000000)).

Lemma showEntry_ok y i td e en : vget (gThreadData g) i = Some td -> 0 <= e < currentEntry td -> vget (entries td) e = Some en ->
  exists l, showEntry input regionMin regionMax width range scale y td e = Ok l /\
    (startTime en <= range.2 -> range.1 <= endTime en -> exists y' r, section_rect y' en r /\ r ∈ l).
Proof.
  intros Etd He Een. pose proof (sa_slot _ _ Hsections _ _ Etd) as Hst. destruct (st_entry _ _ Hst e en He Een) as (H1 & H2 & _).
  destruct (sl_entry _ _ (in_slot _ _ Hinv _ _ Etd) e en He Een) as [[Hsec Hfile] _]. pose proof (st_max _ _ Hst) as H3.
  unfold showEntry. rewrite Een. cbn [of_option mbind result_bind].
  destruct (Z.ltb_spec range.2 (startTime en)); [exists []; split; [done|lia]|].
  destruct (Z.ltb_spec (endTime en) range.1); [exists []; split; [done|lia]|]. cbn [orb]. set (yE := SFadd _ _ _ _).
  destruct (xFromTime_ok (startTime en)) as (xs & Es); [lia|]. destruct (xFromTime_ok (endTime en)) as (xe & Ee); [lia|].
  rewrite Es, Ee. cbn [mbind result_bind]. destruct (entry_corners _ _ _ _ yE xs xe) as [rectMin rectMax] eqn:Ec.
  destruct (szSection en) as [section|]; [|done]. destruct (szFile en) as [file|]; [|done]. cbn [of_option mbind result_bind].
  rewrite s_check_64 by (unfold int64_max in *; lia).
  cbn [mbind result_bind]. destruct (IsMouseHoveringRect _ _ _); cbn [mbind result_bind]; (eexists; split; [reflexivity|]); intros _ _;
    exists yE; eexists; (split; [exists xs, xe; split; [exact Es|]; split; [exact Ee|]; cbv zeta; rewrite Ec; reflexivity|]); apply elem_of_cons; by left.
Qed.

(** The sections of a thread that a frame shows are among the drawings. *)
Definition drawn (f : Frame) (info : FrameThreadInfo) (out : list drawing) : Prop :=
  forall td l e en, vget (gThreadData g) (threadIndex info) = Some td -> hidden td = false -> frame_entries fuel td f (activeEntry info) = Ok l ->
    e ∈ l -> vget (entries td) e = Some en -> startTime en <= range.2 -> range.1 <= endTime en -> exists y r, section_rect y en r /\ r ∈ out.

Lemma drawn_more f info out out' : out ⊆ out' -> drawn f info out -> drawn f info out'.
Proof. intros Hsub H td l e en Etd Hh El He Een H1 H2. destruct (H td l e en Etd Hh El He Een H1 H2) as (y & r & Hr & Hin). exists y, r. auto. Qed.

Lemma show_thread_ok fi f first click ti s : vget (gFrameData g) fi = Some f -> 0 <= ti < frameThreadCount f ->
  exists info s', vget (frameThreads f) ti = Some info /\
    show_thread false fuel input regionMin regionMax width range scale (gThreadData g) first click f ti s = Ok s' /\
    row_out s ⊆ row_out s' /\ drawn f info (row_out s').
Proof.
  intros Ef Hti. destruct (in_frame _ _ Hinv _ _ Ef) as [Hfok _]. pose proof (fr_size _ _ _ Hfok). pose proof (fr_count _ _ _ Hfok).
  destruct (vget_is_Some (frameThreads f) ti) as [info Einfo]; [lia|].
  assert (info ∈ frame_infos f) as Hin.
  { apply list_elem_of_lookup_2 with (Z.to_nat ti). apply vget_Some in Einfo as [_ Ei]. unfold frame_infos. rewrite lookup_take_lt by lia. done. }
  destruct (frame_entries_ok _ g f info Hinv Hfok Hin) as (td & l & Etd & Hini & El & Hl).
  exists info. unfold show_thread. rewrite Einfo. cbn [of_option mbind result_bind]. rewrite Etd. cbn [of_option mbind result_bind].
  destruct (hidden td) eqn:Hh.
  { exists s. split_and!; [done..|]. intros td' l' e en Etd' Hh'. rewrite Etd in Etd'. injection Etd' as <-. congruence. }
  rewrite Hini. cbn [negb andb]. fold fuel in El. rewrite El. cbn [mbind result_bind]. set (y := SFadd _ _ (row_y s) _).
  assert (forall e, e ∈ l -> exists en, vget (entries td) e = Some en) as Hen.
  { intros e He. apply vget_is_Some. specialize (Hl e He). pose proof (in_slot _ _ Hinv _ _ Etd) as Hsl.
    rewrite (sl_entries _ _ Hsl). pose proof (sl_current _ _ Hsl). lia. }
  destruct (map_result_total (showEntry input regionMin regionMax width range scale y td) l) as (shown & -> & Hshown).
  { intros e He. destruct (Hen e He) as [en Een]. destruct (showEntry_ok y _ td e en Etd (Hl e He) Een) as (o & -> & _). by exists o. }
  cbn [mbind result_bind]. eexists. split; [done|]. split; [reflexivity|]. cbn [row_out]. split; [set_solver|].
  intros td' l' e en Etd' _ El' He Een H1 H2. rewrite Etd in Etd'. injection Etd' as <-. rewrite El in El'. injection El' as <-.
  destruct (showEntry_ok y _ td e en Etd (Hl e He) Een) as (o & Eo & Ho). destruct (Ho H1 H2) as (y' & r & Hr & Hro). exists y', r. split; [done|].
  destruct (Hshown e He) as (o' & Eo' & Hin'). rewrite Eo in Eo'. injection Eo' as <-. rewrite !elem_of_app. right. right. left.
  apply list_elem_of_In, in_concat. exists o. rewrite <- !list_elem_of_In. done.
Qed.

Lemma show_threads_ok fi f first click : vget (gFrameData g) fi = Some f -> forall n ti s, 0 <= ti -> ti + Z.of_nat n = frameThreadCount f ->
  exists s', show_threads false fuel input regionMin regionMax width range scale n (gThreadData g) first click f ti s = Ok s' /\
    row_out s ⊆ row_out s' /\ forall k info, ti <= k < frameThreadCount f -> vget (frameThreads f) k = Some info -> drawn f info (row_out s').
Proof.
  intros Ef. induction n as [|n IH]; intros ti s Hti Hn; cbn [show_threads]; [exists s; split_and!; [done..|]; intros; lia|].
  destruct (show_thread_ok fi f first click ti s Ef) as (info & s1 & Ei & -> & Hsub & Hd); [lia|]. cbn [mbind result_bind].
  destruct (IH (ti + 1) s1) as (s2 & -> & Hsub2 & Hd2); [lia|lia|]. exists s2. split; [done|]. split; [by etrans|].
  intros k info' Hk Ek. destruct (decide (k = ti)) as [-> |]; [rewrite Ei in Ek; injection Ek as <-; by eapply drawn_more|]. apply (Hd2 k); [lia|done].
Qed.

Lemma show_frames_ok click : (forall k f, 0 <= k < gCurrentFrame g -> vget (gFrameData g) k = Some f -> 0 <= r_startTime (f_base f) <= int64_max) ->
  forall n fi first lastX s, 0 <= fi -> fi + Z.of_nat n <= gCurrentFrame g ->
  exists s', show_frames false fuel input regionMin regionMax width range scale n g click fi first lastX s = Ok s' /\
    row_out s ⊆ row_out s' /\
    forall k f info, fi <= k < fi + Z.of_nat n -> vget (gFrameData g) k = Some f -> info ∈ frame_infos f -> drawn f info (row_out s').
Proof.
  intros Hstart. pose proof (in_frame_no _ _ Hinv) as Hn0. pose proof (in_frames _ _ Hinv) as Hlen.
  induction n as [|n IH]; intros fi first lastX s Hfi Hn; cbn [show_frames]; [exists s; split_and!; [done..|]; intros; lia|].
  destruct (vget_is_Some (gFrameData g) fi) as [f Ef]; [lia|]. rewrite Ef. cbn [of_option mbind result_bind].
  unfold frame_marker. destruct (xFromTime_ok (r_startTime (f_base f))) as (xm & ->); [apply (Hstart fi); [lia|done]|]. cbn [mbind result_bind].
  set (lm := marker_at _ _ _ _ _ _ _). set (s0 := mkRows _ _ _ _).
  pose proof (in_frame _ _ Hinv _ _ Ef) as [Hfok _]. pose proof (fr_count _ _ _ Hfok).
  destruct (show_threads_ok fi f first click Ef (Z.to_nat (frameThreadCount f)) 0 s0) as (s1 & -> & Hsub & Hd); [lia|lia|]. cbn [mbind result_bind].
  destruct (IH (fi + 1) false lm.1 s1) as (s2 & -> & Hsub2 & Hd2); [lia|lia|]. exists s2. split; [done|].
  assert (row_out s ⊆ row_out s0) by (unfold s0; set_solver). split; [set_solver|].
  intros k f' info Hk Ef' Hinfo. destruct (decide (k = fi)) as [-> |]; [|apply (Hd2 k); [lia|done|done]].
  rewrite Ef in Ef'. injection Ef' as <-. unfold frame_infos in Hinfo. apply list_elem_of_lookup in Hinfo as [j Ej].
  apply lookup_take_Some in Ej as [Ej Hj]. eapply drawn_more; [exact Hsub2|]. apply (Hd (Z.of_nat j)); [lia|]. apply vget_Some. split; [lia|]. by rewrite Nat2Z.id.
Qed.
End Drawn.

(** ** Properties *)

(** C3. What is recorded is drawn, in a debug build. With a clock that does not
    go back, after any run of the profiler that has started two frames and for
    any visible time, the choice of the visible frames and the drawing of their threads and sections
    end without an access out of bounds, an overflow of a time or a failed
    assertion. And nothing is left out: a section of a thread that is not
    hidden, other than the last of the thread, that meets the visible time inside
    a frame that has ended is drawn as a rectangle of its colour. *)
Theorem recorded_is_drawn fmt_ms now g input regionMin regionMax width scale range visible click w :
  timed fmt_ms now g -> 2 <= gCurrentFrame g -> 0 <= range.1 <= range.2 -> range.2 <= int64_max ->
  exists g' s, UpdateVisibleFrameRange (Z.to_nat (gCurrentFrame g)) (set_view range visible g) = Ok (tt, g') /\
    show_sections false (MaxEntriesPerThread (settings g)) input regionMin regionMax width range scale g' click w = Ok s /\
    forall fi f i td e en, 0 <= fi < gCurrentFrame g - 1 -> vget (gFrameData g) fi = Some f ->
      vget (gThreadData g) i = Some td -> hidden td = false -> 0 <= e < currentEntry td - 1 -> vget (entries td) e = Some en ->
      r_startTime (f_base f) < range.2 -> range.1 < r_endTime (f_base f) ->
      r_startTime (f_base f) < endTime en -> startTime en < r_endTime (f_base f) -> startTime en <= range.2 -> range.1 <= endTime en ->
      exists y r, section_rect input regionMin regionMax width range scale y en r /\ r ∈ row_out s.
Proof.
  intros Ht Hn Hr Hr2.
  pose proof (reachable_inv _ _ (timed_reachable _ _ _ Ht)) as Hi. pose proof (timed_frames _ _ _ Ht) as Hf. pose proof (timed_sections _ _ _ Ht) as Hs.
  pose proof (so_frames _ (in_settings _ _ Hi)). pose proof (in_frame_no _ _ Hi).
  destruct (UpdateVisibleFrameRange_spec (set_view range visible g)) as (x & y & Ev & Hx & Hy & Hout); [cbn; lia|exact (fa_consecutive _ _ Hf)|].
  set (g' := set_view range (x, y + 1) g). cbn [gCurrentFrame set_view gTimeRange] in *. exists g'.
  assert (prof_inv g') as Hi' by (destruct Hi; by split). assert (sections_at (now - gTimer g) g') as Hs' by (destruct Hs; by split).
  assert (now - gTimer g <= int64_max) as HT by (destruct Hf; unfold int64_max; lia).
  destruct (show_frames_ok input regionMin regionMax width range scale g' _ Hi' Hs' HT ltac:(lia) click) with (n := Z.to_nat (y + 1 - x)) (fi := x)
    (first := true) (lastX := to_double (SFopp width)) (s := mkRows (f32_of_Z 0) (gSelectedThread w) (gMaxThreadNameSize w) [])
    as (s & Es & _ & Hd); [|lia|cbn; lia|].
  { intros k f Hk Ek. pose proof (fa_started _ _ Hf k Hk) as Hk2. unfold start_of in Hk2. change (gFrameData g') with (gFrameData g) in Ek.
    rewrite Ek in Hk2. lia. }
  exists s. split; [exact Ev|]. split; [exact Es|].
  intros fi f i td e en Hfi Ef Etd Hh He Een F1 F2 F3 F4 F5 F6.
  destruct (sections_shown fmt_ms now g fi f i td e en Ht Hfi Ef Etd He Een F3 F4) as (info & l & Hinfo & Ei & El & Hel).
  assert (x <= fi <= y) as Hxy.
  { destruct (decide (x <= fi <= y)) as [|Hno]; [done|]. specialize (Hout fi ltac:(lia) Hno). exfalso. unfold end_of, start_of in Hout.
    change (gFrameData (set_view range visible g)) with (gFrameData g) in Hout. rewrite Ef in Hout. lia. }
  apply (Hd fi f info ltac:(lia) Ef Hinfo td l e en); try done. by rewrite Ei.
Qed.

(** ** The visible time *)


Section Range.
Context (NDEBUG : bool) (minT maxT : Z) (width : f32) (g : globals) (range visible : Z * Z).
Hypothesis Hmin : 0 <= minT.
Hypothesis Hlong : minT + 1000 <= maxT.
Hypothesis Hmax : maxT < 2 ^ 53.
Hypothesis Hrange : 0 <= range.1 <= range.2.
Hypothesis Hend : range.2 < 2 ^ 53.









End Range.


(** ** Witnesses *)

Definition at_ (x y : Z) : NVec2 f32 := mkVec2 (f32_of_Z x) (f32_of_Z y).

(** No mouse, a window of 400 by 300 pixels. *)
Definition no_gui : gui := mkGui false false (at_ 0 0) false (at_ 0 0) false (fun _ _ => false) false (f32_of_Z 0) (at_ 0 0).
Definition demo_input : window_input :=
  mkInput true false (f32_of_Z 1) (at_ 0 0) (at_ 400 300) (at_ 1 1) (f32_of_Z 10) (fun s => f32_of_Z (8 * Z.of_nat (length s))) no_gui no_gui 320 320 320 320.
Definition demo_window : window_state := mkWindow (mkView (at_ 0 0) (mkRect (at_ 0 0) (at_ 0 0))) (-1) (f32_of_Z 0).
Definition demo_slot : ThreadData := default blank_thread (vget (gThreadData demo_sections) 1).
Definition demo_inner : ProfilerEntry := default zero_entry (vget (entries demo_slot) 1).

Lemma recorded_is_drawn_witness :
  exists g' s, UpdateVisibleFrameRange 3 (set_view (201, 215) (0, 0) demo_sections) = Ok (tt, g') /\
    show_sections false 60 demo_input (at_ 0 0) (at_ 400 300) (f32_of_Z 400) (201, 215) (f32_of_Z 1) g' (at_ 0 0) demo_window = Ok s /\
    exists y r, section_rect demo_input (at_ 0 0) (at_ 400 300) (f32_of_Z 400) (201, 215) (f32_of_Z 1) y demo_inner r /\ r ∈ row_out s.
Proof.
  destruct (recorded_is_drawn demo_fmt 320 demo_sections demo_input (at_ 0 0) (at_ 400 300) (f32_of_Z 400) (f32_of_Z 1) (201, 215) (0, 0) (at_ 0 0)
    demo_window demo_sections_timed) as (g' & s & Eg & Es & Hd); [by vm_compute|cbn; lia|by vm_compute|].
  exists g', s. split; [exact Eg|]. split; [exact Es|].
  clear Eg Es. refine (Hd 0 (default blank_frame (vget (gFrameData demo_sections) 0)) 1 demo_slot 1 demo_inner _ _ _ _ _ _ _ _ _ _ _ _); vm_compute; done.
Defined.






